(* ===== verification/_CoqProject ===== *)
-Q . S2P
Prelude.v
BinaryHeap.v
Driver.v
TimerWheel.v
Buf.v
UnixOps.v
Kqueue.v
KqueueOps.v
KqueueSim.v
KqueueLive.v
DriverQueue.v
Attacher.v
Runtime.v
RuntimeSpec.v
RuntimeRefine.v
Executor.v
ExecutorLive.v
AsyncFn.v
KqueueRuntime.v
KqueueServe.v
Iour.v
IourOps.v
IourSpec.v
IourRuntime.v
IourSim.v
Iocp.v
IocpSpec.v
IocpOps.v
IocpRuntime.v
File.v
FileSpec.v
FileAsync.v
KqueueFile.v
NamedPipe.v
NamedPipeSpec.v
Net.v
NetSpec.v
Sockets.v
SocketsSpec.v
Time.v
KqueueTime.v
Event.v
Signal.v
EventSim.v
