(* ===== verification/Prelude.v ===== *)
(** * completeio: a verification development

    completeio is a completion-based asynchronous I/O library: a program owns a
    buffer, moves it into an operation, submits the operation to a driver, and
    gets the buffer back with the result.  This development models the library
    as executable functions and proves what makes it correct, or, where the
    code does not do what it means to, what it does instead.

    ** The program and the files that model it

    - [src/buf]: owned buffers with an initialised part and a capacity, views
      of them, and vectors of buffers.  [Buf.v].  A buffer is memory, an
      address and a length ([RawBuf]); the traits are the classes [IoBuf] and
      [IoBufMut], and [IoBufMutSpec] states what an implementation promises:
      the bytes that are initialised ([filled]), the room behind them
      ([spare]), and that a receive into that room extends [filled] by exactly
      the bytes received.
    - [src/driver/mod.rs]: what the three drivers share.  [Driver.v]:
      [Operation], [OpObject], [Entry], the trait [CompleteIo] as a class, and
      [CompleteIoSpec], the contract of the submission queue.  The drivers
      discharge it, the runtime is proved against it.
    - [src/driver/time.rs]: timers in a heap.  [TimerWheel.v], over the class
      [MaxHeap]; [BinaryHeap.v] is the array heap of the standard library with
      its sift functions, an instance of the class.
    - [src/driver/kqueue]: the polling driver.  [Kqueue.v] (driver),
      [KqueueOps.v] (operations), [KqueueSim.v] (a concrete system: witnesses
      and executions), [KqueueLive.v] (no pending operation
      starves).  [DriverQueue.v]: what follows from the contract of the
      submission queue for each of the three drivers.
    - [src/driver/iour]: the io_uring driver.  [Iour.v] (driver), [IourOps.v]
      (the entry of each operation), [IourSpec.v] (properties), [IourSim.v] (a
      concrete kernel, for the driver alone and under the runtime).
    - [src/driver/iocp]: the driver for Windows.  [Iocp.v] (driver),
      [IocpSpec.v] (properties and a concrete port), [IocpOps.v] (operations,
      their properties and a concrete file).
    - [src/driver/unix/op.rs], [src/op.rs]: the operation structs shared by
      the Unix drivers and the helpers for their results.  [UnixOps.v], with
      [update_buffer_len] and [map_addr] in [Buf.v].
    - [src/key.rs], [src/task]: the runtime.  [Runtime.v]: the slab of
      registered operations, the queues in front of the driver, the futures
      that wait for operations, the executor.  [RuntimeSpec.v]: its invariant
      and properties for any driver that keeps its contract;
      [RuntimeRefine.v]: the life of an operation as an abstract machine
      (submitted, completed, taken or cancelled) and the forward simulation
      from the runtime to it.  [Executor.v]: programs with several operations
      in flight ([async]) and [block_on] against a direct reading of them;
      [ExecutorLive.v]: what a driver must do so that programs end
      ([DriverServes]).  [AsyncFn.v]: asynchronous functions ([prog]: attach
      descriptors, submit operations and continue with their results) with a
      direct reading ([exec]) and the futures they become ([async_of]), over
      a driver that answers what is awaited ([DriverAwaits]).
    - The runtime on each driver: [KqueueRuntime.v] and [KqueueServe.v],
      [IourRuntime.v], [IocpRuntime.v].  The runtime hands references to boxes
      to the driver; each file discharges [BoxesKept], what the runtime
      relies on, and the first two [DriverServes].
    - [src/attacher.rs]: [Attacher.v], also the interface ([RuntimeAttach],
      [Await]) through which files and sockets use the runtime.
    - [src/fs]: [File.v], [FileSpec.v].  [FileAsync.v]: the methods that read
      and write as asynchronous functions on the executor, each equal to its
      direct form in [File.v]; [KqueueFile.v]: these methods on kqueue, from
      the call down to [pread] and [pwrite].  [src/named_pipe.rs]: [NamedPipe.v]
      (options, both ends, the system calls as the class [PipeApi]),
      [NamedPipeSpec.v] (properties and a concrete pipe).
    - [src/net]: [Net.v] (addresses as the class [ToSockAddrs], and the
      generic socket over [Socket2]), [NetSpec.v]; [Sockets.v]: the TCP, UDP
      and Unix types over it; [SocketsSpec.v] (properties and a concrete
      table of sockets).
    - [src/time.rs]: [Time.v] (sleeps, intervals, timeouts); [KqueueTime.v]:
      sleeping on kqueue, from the method to the wheel of timers.
    - [src/event]: [Event.v].  [src/signal]: [Signal.v].  [EventSim.v] has the
      concrete systems for both.

    ** How code becomes definitions

    A Rust function is a Rocq function with the name of the source (prefixed
    by the type where a name is used twice); [&mut self] is a state that is
    passed in and returned; the operating system, its memory and the clock are
    a state [W] that is threaded through, with the system calls as methods of
    a class ([KqueueOs], [Posix], [IoUring], [IocpOs], [Win32], [EventOs],
    [Socket2], [PipeApi], [BootTime], [Await]).
    [outcome] distinguishes returning ([Done]), a panic ([Panic]: [expect],
    indexing, checked arithmetic, [unimplemented!]) and breaking the contract
    of unsafe code ([Undef]).  Integers are [Z], with the casts of the source
    written out ([as_u32], [as_u64], [as_i32]).  Leaked boxes are a finite map
    from addresses to operations, because the slab and the driver both refer
    to the operation by its address.  Third-party code (slab, async-task,
    socket2, boot-time, io-uring, the macro [select!], the allocator) is a
    class with its documented laws; every class of laws has an instance in the development.

    Loops over queues are structural recursions.  The loops that wait for the
    system take fuel and return [None] without it; their theorems state the
    fuel that suffices (one iteration per byte of the buffer, or of the file),
    so that they are statements of termination, and the two loops that can
    run forever are shown to exhaust any fuel.

    ** What is proved

    - Buffers: a view shows the bytes of its range; receiving into a view or
      into a vector of buffers appends exactly the received bytes
      ([Buf.slice_view], [Buf.slice_receive], [Buf.vectored_receive]).
    - Timers: exactly the due timers are emitted, in the order of their
      deadlines, and the wait ends when the next one is due
      ([TimerWheel.expire_timers_exact],
      [TimerWheel.till_next_timer_or_timeout_spec]).
    - Drivers: a submit neither loses nor invents operations (kqueue, IOCP),
      the change list given to the kernel is well-formed, the completions of
      the io_uring ring become entries in order, pushing respects the
      capacity, and a result that is posted to a port arrives
      ([Kqueue.submit_accounts_for_operations],
      [IocpSpec.iocp_submit_accounts], [Kqueue.change_list_wellformed],
      [IourSpec.submit_reports_completions], [IourSpec.push_queue_fits],
      [IocpSpec.posted_result_arrives]).  Pushing a queue queues what pushing
      its operations one by one does, the
      queue keeps its order and never exceeds its room
      ([DriverQueue.push_queue_equiv], [DriverQueue.queue_bounded]), and no
      pending kqueue operation starves: the one at position [i] is served by
      one of the next [i + 1] submits ([KqueueLive.pending_served]).
    - Operations: which memory and descriptor each hands to the kernel and
      what it makes of the result ([KqueueOps.receive_operations],
      [KqueueOps.connect_two_polls], [IourOps.entries_cover_buffers],
      [IocpOps.win_file_requests]).
    - Runtime: an operation that is submitted is registered once, an entry
      reaches the future of its operation and wakes its task, and after any
      sequence of calls every registered operation owns its box, so that no
      poll of a future frees memory twice or panics
      ([RuntimeSpec.submit_registers], [RuntimeSpec.poll_round],
      [RuntimeSpec.completion_reaches_future],
      [RuntimeSpec.runtime_memory_safe]).  Every run of the runtime is a run of
      the abstract machine, so that a future only returns a result the driver
      emitted for it ([RuntimeRefine.runtime_refines],
      [RuntimeRefine.future_result_emitted]).  [block_on] runs a program that
      spawns operations, several at a time, and awaits them in any order to its
      end when the driver serves them: it loses no wake-up, returns what the
      program returns and leaves no slot, box or queued operation behind
      ([Executor.block_on_completes]).
    - The whole stack: on an io_uring ring whose kernel completes what it is
      given, however late, busy and out of order it is, every program that awaits
      what it submits ends, unless it comes to a state with one of two faults of
      the code: the kernel fails the wait ([EINTR] is one way), which makes the
      runtime panic, or it completes an operation with one of the codes that the
      driver drops ([IourRuntime.uring_block_on_ends]).  On kqueue the
      same holds for programs of timers and operations that are answered at
      once, on a clock that moves on; there the faults are a [kevent] call that
      fails and a timer whose deadline is out of the range of instants, and both
      are panics ([KqueueServe.kqueue_block_on_ends]).  For other
      programs it cannot hold, since completed operations may stay pending.  The
      states a program comes to are those of its direct reading
      ([Executor.comes_to]), so that a fault is one that really happened.  The
      fuel is a parameter that only has to be large enough: the measure is
      the number of operations in flight and a well-founded order of the
      driver's states.  An asynchronous function run by [block_on] returns
      what its direct reading returns ([AsyncFn.block_on_exec]), and for files
      on kqueue this goes from the method to the system call:
      [read_exact_at] and [write_all_at], run by the executor through the
      attacher, the runtime, the driver and the operations, end, return the
      bytes of the file or store the bytes of the buffer, and leave nothing
      registered ([KqueueFile.kqueue_read_exact],
      [KqueueFile.kqueue_write_all]).  Sleeps, one after the other, end, and not
      before the sum of their durations has passed, or panic for one of the two
      reasons above ([KqueueTime.kqueue_sleep]).  On Windows a packet has the
      address of a field of an operation, wherever the compiler has put it, and
      leads back to the operation ([IocpRuntime.packet_names_operation]).
    - Files and sockets: the loops that read or write everything return and
      move exactly the bytes they report; several addresses are tried in
      order until one succeeds ([FileSpec], [NetSpec]).  Creating a socket or
      a pipe leaks no descriptor on any error path, the options of a pipe
      become the documented bits and numbers, and its mode and end are read
      back ([SocketsSpec.sockets_not_leaked],
      [NamedPipeSpec.pipe_handles_owned],
      [NamedPipeSpec.server_options_bounds],
      [NamedPipeSpec.server_info_roundtrip]).
    - Events and signals: creating an event leaks no descriptor; a signal
      notifies exactly its listeners, and on Unix no listener is lost while
      others come and go ([Event.pipe_event_no_leak],
      [Signal.signal_notifies], [Signal.listeners_not_lost]).
    - Intervals: ticks are whole periods from the start, in order and not
      early ([Time.interval_ticks]); a timeout returns the result of its
      future when that is the first to be ready and an error when the sleep is,
      and never discards a result ([Time.timeout_spec]).
    - Behaviour that differs from what is meant is proved as it is, with
      concrete executions: a completed kqueue operation that stays pending and
      is used after it was freed, the completion port that is never offered
      room, results dropped or lost, loops that never end.

    ** What is not modelled

    Casts between descriptor types of the standard library and socket2,
    [Debug] and [Display] implementations and [metadata] have no behaviour of
    their own beyond what they forward to.  The buffer types of other crates
    ([bytes], [arrayvec], [bumpalo], vectors with an allocator) are the raw
    buffer of [Buf.v].  The executor runs programs that await everything they
    spawn; futures that are dropped before they end are in
    [RuntimeRefine.v], not in [Executor.v].  The clients of [RuntimeRefine.v]
    do not use the dummy operations of the Windows events, which are steps of
    [RuntimeSpec.rt_step].  On IOCP no program that waits for
    the kernel ends, because the port is offered no room
    ([IocpSpec.iocp_never_dequeues]), so that there is no theorem of the kind
    of the other two drivers and none about the bytes that cross a named pipe.  Benchmarks, examples and tests are clients. *)

From stdpp Require Import base numbers sorting list gmap.

(** ** Notations and monads *)

Declare Scope compio_scope.
Delimit Scope compio_scope with compio.
Open Scope compio_scope.

(** A Rust computation returns, panics (checked arithmetic, slice indexing,
    [expect], [assert!]), or breaks the contract of an [unsafe] function it
    calls, which is undefined behaviour. *)
Inductive outcome (A : Type) : Type :=
| Done (a : A)
| Panic
| Undef.
Arguments Done {A} a.
Arguments Panic {A}.
Arguments Undef {A}.

#[global] Instance outcome_ret : MRet outcome := @Done.
#[global] Instance outcome_bind : MBind outcome := λ A B f m,
  match m with Done a => f a | Panic => Panic | Undef => Undef end.

(** [std::result::Result] *)
Inductive result (A E : Type) : Type :=
| Ok (a : A)
| Err (e : E).
Arguments Ok {A E} a.
Arguments Err {A E} e.

(** [std::task::Poll] *)
Inductive Poll (A : Type) : Type :=
| Ready (a : A)
| Pending.
Arguments Ready {A} a.
Arguments Pending {A}.

(** [std::io::ErrorKind], the kinds the crate inspects or builds. *)
Inductive ErrorKind : Type :=
| WouldBlock | TimedOut | InvalidInput | InvalidData
| UnexpectedEof | Unsupported | AddrNotAvailable | OtherKind.

#[global] Instance ErrorKind_eq_dec : EqDecision ErrorKind.
Proof. solve_decision. Defined.

(** [std::io::Error]: an error of the operating system, or one built with
    [io::Error::new]. *)
Inductive io_error : Type :=
| Os (code : Z)
| Custom (kind : ErrorKind).

#[global] Instance io_error_eq_dec : EqDecision io_error.
Proof. solve_decision. Defined.

Notation io_result A := (result A io_error).

Definition raw_os_error (e : io_error) : option Z :=
  match e with Os c => Some c | Custom _ => None end.

(** [io::Error::kind], given the platform's [decode_error_kind]. *)
Definition error_kind (decode : Z → ErrorKind) (e : io_error) : ErrorKind :=
  match e with Os c => decode c | Custom k => k end.

Definition result_map {A B E} (f : A → B) (r : result A E) : result B E :=
  match r with Ok a => Ok (f a) | Err e => Err e end.

Definition is_ok {A E} (r : result A E) : bool :=
  match r with Ok _ => true | Err _ => false end.

#[global] Instance result_eq_dec {A E} `{EqDecision A, EqDecision E} :
  EqDecision (result A E).
Proof. solve_decision. Defined.

#[global] Instance outcome_eq_dec {A} `{EqDecision A} : EqDecision (outcome A).
Proof. solve_decision. Defined.

#[global] Instance Poll_eq_dec {A} `{EqDecision A} : EqDecision (Poll A).
Proof. solve_decision. Defined.

(** [Option::expect] and [assert!] *)
Definition expect {A} (o : option A) : outcome A :=
  match o with Some a => Done a | None => Panic end.

Definition rust_assert (b : bool) : outcome unit :=
  if b then Done tt else Panic.

(** ** Machine integers *)

Definition usize_MAX : Z := 2 ^ 64 - 1.
Definition u64_MAX : Z := 2 ^ 64 - 1.
Definition u32_MAX : Z := 2 ^ 32 - 1.

(** [as u64] / [as usize], [as u32], [as i32] *)
Definition as_u64 (z : Z) : Z := z mod 2 ^ 64.
Definition as_u32 (z : Z) : Z := z mod 2 ^ 32.
Definition as_i32 (z : Z) : Z := (z + 2 ^ 31) mod 2 ^ 32 - 2 ^ 31.
Definition as_i64 (z : Z) : Z := (z + 2 ^ 63) mod 2 ^ 64 - 2 ^ 63.

Definition is_usize (z : Z) : Prop := (0 ≤ z ≤ usize_MAX)%Z.
Definition is_i32 (z : Z) : Prop := (- 2 ^ 31 ≤ z < 2 ^ 31)%Z.

(** Checked [usize] arithmetic: overflow panics. *)
Definition usize_add (a b : Z) : outcome Z :=
  if bool_decide (a + b ≤ usize_MAX)%Z then Done (a + b)%Z else Panic.
Definition usize_sub (a b : nat) : outcome nat :=
  if bool_decide (b ≤ a) then Done (a - b) else Panic.

Definition unsafe_contract (b : bool) : outcome unit :=
  if b then Done tt else Undef.

(** ** Tactics *)

(** Unfold binds and destruct what they match on. *)
Ltac simpl_outcome :=
  unfold mbind, mret, outcome_bind, outcome_ret in *; cbn in *.

Ltac case_outcome :=
  match goal with
  | H : context [match ?x with _ => _ end] |- _ =>
      let E := fresh "E" in destruct x eqn:E; cbn in *; simplify_eq
  end.

Ltac inv_outcome := simpl_outcome; repeat (case_outcome; simpl_outcome); simplify_eq.

(** Membership in appended lists, propositionally. *)
Ltac solve_mem :=
  rewrite ?fmap_app, ?elem_of_app in *;
  try (setoid_rewrite elem_of_nil || setoid_rewrite elem_of_app);
  rewrite ?elem_of_nil in *; tauto.

(** ** Generic lemmas *)

Lemma size_list_to_set_le `{Countable K} (l : list K) : size (list_to_set l : gset K) ≤ length l.
Proof.
  induction l as [|x l IH]; cbn; [by rewrite size_empty|]. pose proof (size_union_alt {[x]} (list_to_set l : gset K)) as Hu.
  rewrite Hu, size_singleton. assert (size ((list_to_set l : gset K) ∖ {[x]}) ≤ size (list_to_set l : gset K)); [|lia].
  apply subseteq_size. set_solver.
Qed.

Lemma length_omap_le {A B} (f : A → option B) (l : list A) : length (omap f l) ≤ length l.
Proof. induction l as [|x l IH]; cbn; [done|]. destruct (f x); cbn; lia. Qed.

Section lists.
Context {A B : Type}.
Implicit Types (l : list A).

Lemma take_drop_min n l : take (Nat.min n (length l)) l = take n l.
Proof.
  destruct (decide (n ≤ length l)).
  - by rewrite Nat.min_l.
  - rewrite Nat.min_r by lia. rewrite firstn_all. by rewrite take_ge by lia.
Qed.

Lemma drop_min_length n l : drop (Nat.min n (length l)) l = drop n l.
Proof.
  destruct (decide (n ≤ length l)).
  - by rewrite Nat.min_l.
  - rewrite Nat.min_r by lia. rewrite drop_all. by rewrite drop_ge by lia.
Qed.

Lemma filter_all (P : A → Prop) `{!∀ x, Decision (P x)} l : Forall P l → filter P l = l.
Proof. induction 1; [done|]. rewrite filter_cons_True by done. by f_equal. Qed.

Lemma filter_none (P : A → Prop) `{!∀ x, Decision (P x)} l :
  Forall (λ x, ¬ P x) l → filter P l = [].
Proof. induction 1; [done|]. by rewrite filter_cons_False. Qed.

End lists.

Lemma as_u64_id z : is_usize z → as_u64 z = z.
Proof. unfold is_usize, as_u64, usize_MAX. intros. apply Z.mod_small. lia. Qed.

Lemma as_i32_id z : is_i32 z → as_i32 z = z.
Proof. unfold is_i32, as_i32. intros. rewrite Z.mod_small; lia. Qed.

Lemma as_u64_is z : is_usize (as_u64 z).
Proof.
  unfold is_usize, as_u64, usize_MAX. pose proof (Z.mod_pos_bound z (2 ^ 64)). lia.
Qed.

Lemma as_i32_is z : is_i32 (as_i32 z).
Proof.
  unfold is_i32, as_i32. pose proof (Z.mod_pos_bound (z + 2 ^ 31) (2 ^ 32)). lia.
Qed.

Create HintDb compio discriminated.
Create Rewrite HintDb compio.
#[export] Hint Resolve as_u64_id as_i32_id as_u64_is as_i32_is : compio.
