(* ===== verification/BinaryHeap.v ===== *)
(** * The priority queue behind the timer wheel

    [src/driver/time.rs] keeps its timers in [std::collections::BinaryHeap].
    [MaxHeap] is the documented contract of that container: [push] adds an
    element, [peek] shows a greatest element and [pop] removes the one [peek]
    shows.  The timer wheel is verified against [MaxHeap]; [array_heap] is the
    array implementation of the standard library ([sift_up],
    [sift_down_to_bottom], with the moving hole written as swaps) and
    discharges the contract. *)

From S2P Require Import Prelude.
From stdpp Require Import base numbers list.

(** ** The contract *)

Class MaxHeap {A : Type} (leb : A → A → bool) (H : Type) := {
  heap_elems : H → list A;
  heap_wf : H → Prop;
  heap_empty : H;
  heap_push : A → H → H;
  heap_pop : H → option (A * H);
  heap_peek : H → option A;
}.

Class MaxHeapLaws {A : Type} (leb : A → A → bool) (H : Type) `{!MaxHeap leb H} : Prop := {
  heap_empty_wf : heap_wf heap_empty;
  heap_empty_elems : heap_elems heap_empty = [];
  heap_push_wf x h : heap_wf h → heap_wf (heap_push x h);
  heap_push_elems x h : heap_elems (heap_push x h) ≡ₚ x :: heap_elems h;
  heap_peek_None h : heap_peek h = None ↔ heap_elems h = [];
  heap_peek_max h x y : heap_wf h → heap_peek h = Some x → y ∈ heap_elems h → leb y x = true;
  heap_pop_peek h : fst <$> heap_pop h = heap_peek h;
  heap_pop_wf h x h' : heap_wf h → heap_pop h = Some (x, h') → heap_wf h';
  heap_pop_elems h x h' : heap_pop h = Some (x, h') → heap_elems h ≡ₚ x :: heap_elems h';
}.

(** ** The array heap *)

Section array_heap.
Context {A : Type} `{!Inhabited A} (leb : A → A → bool).
Implicit Types (l : list A) (i j pos : nat).

Definition hswap i j l : list A := <[i := l !!! j]> (<[j := l !!! i]> l).

Fixpoint sift_up (fuel pos : nat) (l : list A) : list A :=
  match fuel with
  | 0 => l
  | S fuel =>
      if decide (pos = 0) then l
      else
        let parent := (pos - 1) / 2 in
        if leb (l !!! pos) (l !!! parent) then l
        else sift_up fuel parent (hswap pos parent l)
  end.

Fixpoint sift_down_to_bottom (fuel pos : nat) (l : list A) : list A * nat :=
  match fuel with
  | 0 => (l, pos)
  | S fuel =>
      let child := 2 * pos + 1 in
      if decide (child ≤ length l - 2) then
        let child := if leb (l !!! child) (l !!! (child + 1)) then child + 1 else child in
        sift_down_to_bottom fuel child (hswap pos child l)
      else if decide (child = length l - 1) then (hswap pos child l, child)
      else (l, pos)
  end.

Definition push (x : A) l : list A := sift_up (S (length l)) (length l) (l ++ [x]).

Definition pop l : option (A * list A) :=
  match last l with
  | None => None
  | Some item =>
      match take (length l - 1) l with
      | [] => Some (item, [])
      | root :: rest =>
          let '(l', pos) := sift_down_to_bottom (S (length rest)) 0 (item :: rest) in
          Some (root, sift_up (S pos) pos l')
      end
  end.

(** Every element is below its parent. *)
Definition heap_order l : Prop :=
  ∀ i, 0 < i < length l → leb (l !!! i) (l !!! ((i - 1) / 2)) = true.

(** Heap order except around [pos]. *)
Definition hole_order pos l : Prop :=
  (∀ i, 0 < i < length l → i ≠ pos → (i - 1) / 2 ≠ pos →
    leb (l !!! i) (l !!! ((i - 1) / 2)) = true) ∧
  (∀ i, 0 < i < length l → 0 < pos → (i - 1) / 2 = pos →
    leb (l !!! i) (l !!! ((pos - 1) / 2)) = true).

#[global] Instance array_heap : MaxHeap leb (list A) := {|
  heap_elems := id; heap_wf := heap_order; heap_empty := []; heap_push := push;
  heap_pop := pop; heap_peek := head |}.

Lemma length_hswap i j l : length (hswap i j l) = length l.
Proof. unfold hswap. by rewrite !length_insert. Qed.

Lemma hswap_lookup i j k l :
  i < length l → j < length l →
  hswap i j l !!! k = if decide (k = i) then l !!! j
                      else if decide (k = j) then l !!! i else l !!! k.
Proof.
  intros. unfold hswap. rewrite !list_lookup_total_insert, length_insert.
  repeat case_decide; naive_solver lia.
Qed.

Lemma hswap_perm i j l : i < length l → j < length l → hswap i j l ≡ₚ l.
Proof.
  intros. unfold hswap.
  apply (Permutation_insert_swap l j i); by apply list_lookup_lookup_total_lt.
Qed.

Lemma sift_up_perm fuel : ∀ pos l, pos < length l → sift_up fuel pos l ≡ₚ l.
Proof.
  induction fuel as [|fuel IH]; intros pos l Hpos; cbn [sift_up]; [done|].
  case_decide; [done|]. case_match; [done|].
  assert ((pos - 1) / 2 < length l) by (apply Nat.Div0.div_lt_upper_bound; lia).
  by rewrite IH, hswap_perm by (rewrite ?length_hswap; lia).
Qed.

Lemma sift_down_perm fuel : ∀ pos l l' pos',
  pos < length l → sift_down_to_bottom fuel pos l = (l', pos') → l' ≡ₚ l ∧ pos' < length l.
Proof.
  induction fuel as [|fuel IH]; intros pos l l' pos' Hpos E; cbn [sift_down_to_bottom] in E; [naive_solver|].
  destruct (decide (2 * pos + 1 ≤ length l - 2)) as [Hc|Hc].
  - set (c := if leb _ _ then _ else _) in E.
    assert (c < length l) by (subst c; case_match; lia).
    apply IH in E; rewrite ?length_hswap in *; [|lia].
    destruct E as [-> ?]. split; [by apply hswap_perm|lia].
  - case_decide; simplify_eq; [|done]. split; [apply hswap_perm|]; lia.
Qed.

Lemma parent_lt i : 0 < i → (i - 1) / 2 < i.
Proof. intros. apply Nat.Div0.div_lt_upper_bound; lia. Qed.

Lemma parent_inv i p : 0 < i → (i - 1) / 2 = p ↔ i = 2 * p + 1 ∨ i = 2 * p + 2.
Proof.
  intros. split.
  - intros <-. pose proof (Nat.div_mod_eq (i - 1) 2).
    pose proof (Nat.mod_upper_bound (i - 1) 2). lia.
  - intros [-> | ->].
    + replace (2 * p + 1 - 1) with (p * 2) by lia. by apply Nat.div_mul.
    + replace (2 * p + 2 - 1) with (1 + p * 2) by lia. by rewrite Nat.div_add.
Qed.

Section ordered.
Context (leb_total : ∀ x y, leb x y = true ∨ leb y x = true).
Context (leb_trans : ∀ x y z, leb x y = true → leb y z = true → leb x z = true).

Lemma leb_refl x : leb x x = true.
Proof. by destruct (leb_total x x). Qed.

Lemma sift_up_order fuel : ∀ pos l,
  pos < fuel → pos < length l → hole_order pos l →
  (∀ i, 0 < i < length l → (i - 1) / 2 = pos → leb (l !!! i) (l !!! pos) = true) →
  heap_order (sift_up fuel pos l).
Proof.
  induction fuel as [|fuel IH]; intros pos l Hf Hpos [Hout Hgp] Hch; [lia|]. cbn [sift_up].
  case_decide as Hp0.
  { subst. intros i Hi. destruct (decide ((i - 1) / 2 = 0)) as [E|E]; auto with lia.
    rewrite E. auto. }
  pose proof (parent_lt pos ltac:(lia)) as Hplt.
  set (p := (pos - 1) / 2) in *.
  destruct (leb (l !!! pos) (l !!! p)) eqn:Hle.
  { intros i Hi. destruct (decide (i = pos)) as [->|]; [done|].
    destruct (decide ((i - 1) / 2 = pos)) as [E|]; auto. rewrite E; auto. }
  assert (leb (l !!! p) (l !!! pos) = true) as Hpp.
  { destruct (leb_total (l !!! p) (l !!! pos)); congruence. }
  apply IH; rewrite ?length_hswap; [lia|lia| |].
  - split; rewrite length_hswap.
    + intros i Hi Hip Hpar. rewrite !hswap_lookup by lia.
      destruct (decide (i = pos)) as [->|]; [done|].
      rewrite (decide_False (P:= i = p)) by done.
      destruct (decide ((i - 1) / 2 = pos)) as [E|].
      * by apply Hgp; auto with lia.
      * rewrite decide_False by done. auto.
    + intros i Hi H0p Hpar. rewrite !hswap_lookup by lia.
      pose proof (parent_lt p H0p).
      rewrite !(decide_False (P:= (p - 1) / 2 = _)) by lia.
      assert (leb (l !!! p) (l !!! ((p - 1) / 2)) = true) as Hpg.
      { apply Hout; lia. }
      destruct (decide (i = pos)) as [->|]; [done|].
      rewrite decide_False by (pose proof (parent_lt i); lia).
      eapply leb_trans; [|exact Hpg]. rewrite <- Hpar. apply Hout; lia.
  - intros i Hi Hpar. rewrite !hswap_lookup by lia.
    rewrite (decide_False (P:= p = pos)), (decide_True (P := p = p)) by (done || lia).
    destruct (decide (i = pos)) as [->|]; [done|].
    rewrite decide_False by (pose proof (parent_lt i); lia).
    eapply leb_trans; [|exact Hpp]. rewrite <- Hpar. apply Hout; lia.
Qed.

Lemma hole_order_descend pos c l :
  c < length l → pos < length l → hole_order pos l →
  0 < c → (c - 1) / 2 = pos →
  (∀ i, 0 < i < length l → (i - 1) / 2 = pos → leb (l !!! i) (l !!! c) = true) →
  hole_order c (hswap pos c l).
Proof.
  intros Hc Hp [Hout Hgp] Hc0 Hcp Hmax. pose proof (parent_lt c Hc0). split; rewrite length_hswap.
  - intros i Hi Hic Hpar. rewrite !hswap_lookup by lia.
    rewrite (decide_False (P := (i - 1) / 2 = c)) by done.
    destruct (decide (i = pos)) as [->|].
    + pose proof (parent_lt pos ltac:(lia)). rewrite decide_False by lia.
      apply Hgp; lia.
    + rewrite (decide_False (P := i = c)) by done.
      case_decide as Hd; [by apply Hmax|]. by apply Hout.
  - intros i Hi _ Hpar. rewrite !hswap_lookup by lia.
    pose proof (parent_lt i ltac:(lia)).
    rewrite Hcp. rewrite !(decide_False (P := i = _)) by lia.
    rewrite (decide_True (P := pos = pos)) by done. rewrite <- Hpar. apply Hout; lia.
Qed.

(** The descent keeps the elements and the order around the hole, and ends
    where the hole has no child. *)
Lemma sift_down_order fuel : ∀ pos l l' pos',
  length l ≤ pos + fuel → pos < length l → hole_order pos l →
  sift_down_to_bottom fuel pos l = (l', pos') →
  hole_order pos' l' ∧ length l' ≤ 2 * pos' + 1.
Proof.
  induction fuel as [|fuel IH]; intros pos l l' pos' Hf Hpos Ho E; cbn [sift_down_to_bottom] in E; [lia|].
  destruct (decide (2 * pos + 1 ≤ length l - 2)) as [Hc|Hc].
  - set (c := if leb _ _ then _ else _) in E.
    assert (c = 2 * pos + 1 ∨ c = 2 * pos + 2) as Hcc by (subst c; case_match; lia).
    assert ((c - 1) / 2 = pos) as Hcp by (apply parent_inv; lia).
    apply IH in E; rewrite ?length_hswap in *; try lia; [done|].
    apply hole_order_descend; auto; try lia.
    intros i Hi Hip%parent_inv; [|lia]. subst c.
    destruct (leb (l !!! (2 * pos + 1)) (l !!! (2 * pos + 1 + 1))) eqn:Hle.
    + destruct Hip as [-> | ->]; [done|].
      replace (2 * pos + 1 + 1) with (2 * pos + 2) by lia. apply leb_refl.
    + replace (2 * pos + 1 + 1) with (2 * pos + 2) in Hle by lia.
      destruct Hip as [-> | ->]; [apply leb_refl|].
      destruct (leb_total (l !!! (2 * pos + 2)) (l !!! (2 * pos + 1))); congruence.
  - destruct (decide (2 * pos + 1 = length l - 1)) as [Hc1|Hc1]; simplify_eq.
    + rewrite length_hswap. split; [|lia].
      apply hole_order_descend; auto; try lia.
      * apply parent_inv; lia.
      * intros i Hi [-> | ->]%parent_inv; try lia. apply leb_refl.
    + split; auto. lia.
Qed.

Lemma heap_order_root l x :
  heap_order l → head l = Some x → ∀ y, y ∈ l → leb y x = true.
Proof.
  intros Ho Hx y Hy. apply list_elem_of_lookup_1 in Hy as [i Hi].
  revert y Hi. induction (lt_wf i) as [i _ IH]. intros y Hi.
  assert (l !!! 0 = x) as Hx0 by (destruct l; naive_solver).
  pose proof (lookup_lt_Some _ _ _ Hi). destruct (decide (i = 0)) as [->|].
  - apply list_lookup_total_correct in Hi. rewrite <- Hi, Hx0. apply leb_refl.
  - pose proof (parent_lt i ltac:(lia)).
    eapply leb_trans.
    + rewrite <- (list_lookup_total_correct _ _ _ Hi). apply Ho. lia.
    + eapply (IH ((i - 1) / 2)); [lia|]. apply list_lookup_lookup_total_lt. lia.
Qed.

Lemma push_order x l : heap_order l → heap_order (push x l).
Proof.
  intros Ho. unfold push. apply sift_up_order; rewrite ?length_app; cbn [length]; try lia.
  - split; rewrite length_app; cbn [length].
    + intros i Hi Hne Hpar. pose proof (parent_lt i ltac:(lia)).
      rewrite !lookup_total_app_l by lia. apply Ho. lia.
    + intros i Hi _ Hpar. pose proof (parent_lt i ltac:(lia)). lia.
  - intros i Hi Hpar. pose proof (parent_lt i ltac:(lia)). lia.
Qed.

Lemma pop_cons_spec item root rest l' pos :
  sift_down_to_bottom (S (length rest)) 0 (item :: rest) = (l', pos) →
  heap_order (root :: rest ++ [item]) → heap_order (sift_up (S pos) pos l').
Proof.
  intros Hs Ho. pose proof Hs as [Hperm Hpos]%sift_down_perm; [|cbn; lia].
  apply sift_down_order in Hs as [Hh Hb]; cbn [length]; [|lia..|].
  - apply Permutation_length in Hperm. apply sift_up_order; auto; [lia..|].
    intros i Hi Hpar%parent_inv; lia.
  - split; cbn [length]; intros i Hi.
    + intros Hi0 Hpar. specialize (Ho i). cbn [length] in Ho. rewrite length_app in Ho. cbn [length] in Ho.
      rewrite app_comm_cons in Ho.
      pose proof (parent_lt i ltac:(lia)). rewrite !lookup_total_app_l in Ho by (cbn [length]; lia).
      rewrite !lookup_total_cons_ne_0 in Ho |- * by lia. apply Ho. lia.
    + lia.
Qed.

End ordered.

#[local] Arguments sift_up : simpl never.
#[local] Arguments sift_down_to_bottom : simpl never.

Lemma pop_elems l x l' : pop l = Some (x, l') → head l = Some x ∧ l ≡ₚ x :: l'.
Proof.
  unfold pop. destruct (last l) as [item|] eqn:Hlast; [|done].
  apply last_Some in Hlast as [l0 ->].
  rewrite length_app. cbn [length]. replace (length l0 + 1 - 1) with (length l0) by lia.
  rewrite take_app_length. destruct l0 as [|root rest]; [naive_solver|].
  destruct (sift_down_to_bottom _ _ _) as [l1 pos] eqn:Hs.
  intros Hpop. injection Hpop as <- <-. split; [done|].
  apply sift_down_perm in Hs as [Hp Hpos]; [|cbn; lia].
  pose proof (Permutation_length Hp). rewrite sift_up_perm, Hp by lia. rewrite <- app_comm_cons.
  by rewrite <- Permutation_cons_append.
Qed.

Lemma pop_None l : pop l = None ↔ l = [].
Proof.
  unfold pop. split; [|by intros ->]. destruct (last l) eqn:Hl.
  - destruct (take _ _); [done|]. by destruct (sift_down_to_bottom _ _ _).
  - by apply last_None in Hl.
Qed.

#[global] Instance array_heap_laws :
  (∀ x y, leb x y = true ∨ leb y x = true) →
  (∀ x y z, leb x y = true → leb y z = true → leb x z = true) →
  MaxHeapLaws leb (list A).
Proof.
  intros Htotal Htrans. split; cbn.
  - intros i. cbn. lia.
  - done.
  - intros. by apply push_order.
  - intros x l. unfold push. rewrite sift_up_perm by (rewrite length_app; cbn; lia).
    apply Permutation_app_comm.
  - intros []; naive_solver.
  - intros l x y Ho Hx Hy. by eapply heap_order_root.
  - intros l. destruct (pop l) as [[x l']|] eqn:E; cbn.
    + apply pop_elems in E. naive_solver.
    + apply pop_None in E. by subst.
  - intros l x l' Ho. unfold pop. destruct (last l) as [item|] eqn:Hlast; [|done].
    apply last_Some in Hlast as [l0 ->].
    rewrite length_app. cbn [length]. replace (length l0 + 1 - 1) with (length l0) by lia.
    rewrite take_app_length. destruct l0 as [|root rest].
    { intros ?; simplify_eq. intros i. cbn. lia. }
    destruct (sift_down_to_bottom _ _ _) as [l1 pos] eqn:Hs.
    intros [= <- <-]. by eapply pop_cons_spec.
  - intros l x l' E. by apply pop_elems in E as [_ ?].
Qed.

End array_heap.

(** Clients reason with the laws only. *)
#[global] Arguments heap_elems {A leb H _} : simpl never.
#[global] Arguments heap_wf {A leb H _} : simpl never.
#[global] Arguments heap_push {A leb H _} : simpl never.
#[global] Arguments heap_pop {A leb H _} : simpl never.
#[global] Arguments heap_peek {A leb H _} : simpl never.
