(* ===== verification/Driver.v ===== *)
(** * What every driver shares

    The types of [src/driver/mod.rs]: [Operation], [OpObject], [Entry], and
    the trait [CompleteIo] as a type class.  An operation object refers to an
    operation of type [Op]: in the source it is a [&mut dyn OpCode], here a
    value that the driver hands back.  [CompleteIoSpec] is the contract of the
    submission queue that the three drivers discharge and the runtime is
    proved against. *)

From S2P Require Import Prelude.
From stdpp Require Import base numbers list.

(** ** Operations and entries *)

(** [src/src/driver/mod.rs:193-197] *)
Record Operation (O : Type) := mkOperation { operation_op : O; operation_user_data : Z }.
Arguments mkOperation {O}.
Arguments operation_op {O}.
Arguments operation_user_data {O}.

(** [src/src/driver/mod.rs:227-231] *)
Record OpObject (Op : Type) := mkOpObject { op : Op; user_data : Z }.
Arguments mkOpObject {Op}.
Arguments op {Op}.
Arguments user_data {Op}.

(** [src/src/driver/mod.rs:279-284] *)
Record Entry := mkEntry { entry_user_data : Z; entry_result : io_result Z }.

#[global] Instance Entry_eq_dec : EqDecision Entry.
Proof. solve_decision. Defined.

(** [src/src/driver/mod.rs:286-299] Entry::new, user_data, into_result *)
Definition Entry_new (user_data : Z) (result : io_result Z) : Entry :=
  mkEntry user_data result.

(** [src/src/driver/mod.rs:199-214] Operation::new *)
Definition Operation_new {O} (op : O) (user_data : Z) : Operation O := mkOperation op user_data.

(** [src/src/driver/mod.rs:216-220] *)
Definition Operation_from_pair {O} (p : O * Z) : Operation O := Operation_new p.1 p.2.

(** [src/src/driver/mod.rs:222-226] *)
Definition pair_from_Operation {O} (o : Operation O) : O * Z :=
  (operation_op o, operation_user_data o).

(** [src/src/driver/mod.rs:233-253] OpObject::new, opcode, opcode_ref, user_data *)
Definition OpObject_new {Op} (op : Op) (user_data : Z) : OpObject Op := mkOpObject op user_data.

(** The reference seen after the opcode was called through [opcode()]. *)
Definition set_op {Op} (o : OpObject Op) (op' : Op) : OpObject Op := mkOpObject op' (user_data o).

(** [src/src/driver/mod.rs:255-265] From<(&mut O, usize)>, where [up] is the unsizing of [&mut O]
    to [&mut dyn OpCode] *)
Definition OpObject_from_pair {O Op} (up : O → Op) (p : O * Z) : OpObject Op :=
  OpObject_new (up p.1) p.2.

(** [src/src/driver/mod.rs:267-271] *)
Definition OpObject_from_Operation {O Op} (up : O → Op) (o : Operation O) : OpObject Op :=
  OpObject_new (up (operation_op o)) (operation_user_data o).

(** [src/src/driver/mod.rs:273-277] *)
Definition pair_from_OpObject {Op} (o : OpObject Op) : Op * Z := (op o, user_data o).

(** ** The trait CompleteIo *)

(** [src/src/driver/mod.rs:102-191] The methods the runtime calls; [W] is the state of the
    operating system, [D] the driver, [Fd] its attached descriptors. *)
Class CompleteIo (Op W D Fd : Type) := {
  ci_attach : Z → D → W → io_result Fd * D * W;
  ci_try_cancel : Z → D → result unit unit * D;
  ci_try_push_dyn : OpObject Op → D → W → outcome (result unit (OpObject Op) * D * W);
  ci_push_queue : list (OpObject Op) → D → W → outcome (list (OpObject Op) * D * W);
  ci_capacity_left : D → nat;
  ci_submit : option Z → D → W → outcome (list Entry * io_result unit * D * W);
}.

(** ** The contract of the submission queue

    [sq_abs d] is the abstract queue: the user data of the entries pushed and
    not yet submitted, in order. *)
Class CompleteIoSpec (Op W D Fd : Type) `{!CompleteIo Op W D Fd} := {
  sq_abs : D → list Z;
  sq_wf : D → Prop;
  sq_push o d w r d' w' :
    sq_wf d → is_usize (user_data o) → ci_try_push_dyn o d w = Done (r, d', w') →
    sq_wf d' ∧
    match r with
    | Ok _ => 0 < ci_capacity_left d ∧ sq_abs d' = sq_abs d ++ [user_data o] ∧
              ci_capacity_left d' = ci_capacity_left d - 1
    | Err o' => ci_capacity_left d = 0 ∧ user_data o' = user_data o ∧
                sq_abs d' = sq_abs d ∧ ci_capacity_left d' = 0
    end;
  sq_push_queue q d w q' d' w' :
    sq_wf d → Forall (λ o, is_usize (user_data o)) q → ci_push_queue q d w = Done (q', d', w') →
    let n := Nat.min (ci_capacity_left d) (length q) in
    sq_wf d' ∧ q' = drop n q ∧
    sq_abs d' = sq_abs d ++ (user_data <$> take n q) ∧
    ci_capacity_left d' = ci_capacity_left d - n;
  sq_cancel u d r d' : sq_wf d → ci_try_cancel u d = (r, d') → sq_wf d';
  sq_submit t d w es r d' w' :
    sq_wf d → ci_submit t d w = Done (es, r, d', w') → sq_wf d';
}.

(** ** Conversions are faithful *)

Lemma Operation_pair_roundtrip {O} (o : Operation O) :
  Operation_from_pair (pair_from_Operation o) = o.
Proof. by destruct o. Qed.

Lemma OpObject_of_Operation_pair {O Op} (up : O → Op) (p : O * Z) :
  OpObject_from_Operation up (Operation_from_pair p) = OpObject_from_pair up p ∧
  pair_from_OpObject (OpObject_from_pair up p) = (up p.1, p.2).
Proof. by destruct p. Qed.

Lemma set_op_user_data {Op} (o : OpObject Op) (op' : Op) : user_data (set_op o op') = user_data o.
Proof. done. Qed.

#[export] Hint Rewrite @set_op_user_data : compio.

(** ** Removing an operation from a queue *)

(** [iter().position(..)] for a user data followed by [remove]. *)
Fixpoint remove_first {Op} (u : Z) (q : list (OpObject Op)) : list (OpObject Op) :=
  match q with
  | [] => []
  | o :: q => if bool_decide (user_data o = u) then q else o :: remove_first u q
  end.

Lemma length_remove_first {Op} u (q : list (OpObject Op)) : length (remove_first u q) ≤ length q.
Proof. induction q as [|o q IH]; cbn; [lia|]. case_bool_decide; cbn; lia. Qed.
