(* ===== verification/TimerWheel.v ===== *)
(** * The timer wheel

    [src/driver/time.rs]: the timers of the kqueue and IOCP drivers, kept in a
    max-heap whose order is the reverse order of deadlines.  Instants and
    durations are numbers of nanoseconds; every call of [Instant::now()] is an
    argument [now].  The heap is any implementation of [MaxHeap]. *)

From S2P Require Import Prelude BinaryHeap Driver.
From stdpp Require Import base numbers sorting sets list.

(** ** Timers *)

(** [src/src/driver/time.rs:9-13] *)
Record Timer := mkTimer { key : Z; deadline : Z }.

#[global] Instance Timer_inhabited : Inhabited Timer := populate (mkTimer 0 0).

#[global] Instance Timer_eq_dec : EqDecision Timer.
Proof. solve_decision. Defined.

(** [src/src/driver/time.rs:15-21] equality of timers looks at the deadline only *)
Definition Timer_eqb (a b : Timer) : bool := (deadline a =? deadline b)%Z.

(** [src/src/driver/time.rs:23-34] the reversed order, for the max-heap *)
Definition Timer_cmp (self other : Timer) : comparison :=
  (deadline other ?= deadline self)%Z.

(** The [<=] the heap uses, derived from [cmp]. *)
Definition Timer_leb (a b : Timer) : bool :=
  match Timer_cmp a b with Gt => false | _ => true end.

(** [src/src/driver/time.rs:97-107] the operation that sets a timer *)
Record Timeout := mkTimeout { delay : Z }.

(** [src/src/driver/time.rs:109-114] *)
Definition Timeout_new (delay : Z) : Timeout := mkTimeout delay.

(** [Instant::saturating_duration_since] *)
Definition saturating_duration_since (a b : Z) : Z := Z.max 0 (a - b).

(** ** The wheel *)

Notation wheel_wf := (heap_wf (leb := Timer_leb)).
Notation wheel_timers := (heap_elems (leb := Timer_leb)).

Section wheel.
Context {H : Type} `{!MaxHeap Timer_leb H}.

(** [src/src/driver/time.rs:39-42] *)
Definition with_capacity (cap : nat) : H := heap_empty.

(** [src/src/driver/time.rs:50-54] *)
Definition duration_till_next_timer (now : Z) (tw : H) : option Z :=
  (λ timer, saturating_duration_since (deadline timer) now) <$> heap_peek tw.

(** [src/src/driver/time.rs:56-66] *)
Definition till_next_timer_or_timeout (timeout : option Z) (now : Z) (tw : H) : option Z :=
  match duration_till_next_timer now tw with
  | Some next_timer_delay =>
      Some (match timeout with
            | Some t => Z.min t next_timer_delay
            | None => next_timer_delay
            end)
  | None => timeout
  end.

(** [src/src/driver/time.rs:68-81] the loop of [expire_timers]: entries in the order they are
    emitted, and the wheel that is left *)
Fixpoint expire_loop (fuel : nat) (now : Z) (tw : H) : list Entry * H :=
  match fuel with
  | 0 => ([], tw)
  | S fuel =>
      match heap_pop tw with
      | Some (timer, tw') =>
          if bool_decide (saturating_duration_since (deadline timer) now = 0)%Z then
            let '(es, tw'') := expire_loop fuel now tw' in
            (Entry_new (key timer) (Ok 0%Z) :: es, tw'')
          else ([], tw)
      | None => ([], tw)
      end
  end.

(** [src/src/driver/time.rs:68-81] one iteration per timer at most *)
Definition expire_timers (now : Z) (tw : H) : list Entry * H :=
  expire_loop (length (wheel_timers tw)) now tw.

(** ** Setting timers *)

Section deadlines.
(** [Instant + Duration], which panics when there is no such instant. *)
Context (instant_add : Z → Z → outcome Z).

(** [src/src/driver/time.rs:44-48] *)
Definition insert (key delay now : Z) (tw : H) : outcome H :=
  deadline ← instant_add now delay;
  Done (heap_push (mkTimer key deadline) tw).

(** [src/src/driver/time.rs:84-95] *)
Fixpoint extend (iter : list (Z * Z)) (now : Z) (tw : H) : outcome H :=
  match iter with
  | [] => Done tw
  | (key, delay) :: iter =>
      deadline ← instant_add now delay;
      extend iter now (heap_push (mkTimer key deadline) tw)
  end.

Context `{!MaxHeapLaws Timer_leb H}.

(** Extending the wheel sets one timer per pair, with its deadline. *)
Lemma extend_elems iter now : ∀ tw tw', wheel_wf tw → extend iter now tw = Done tw' →
  wheel_wf tw' ∧ ∃ ts, wheel_timers tw' ≡ₚ wheel_timers tw ++ ts ∧
    Forall2 (λ p t, key t = p.1 ∧ instant_add now p.2 = Done (deadline t)) iter ts.
Proof.
  induction iter as [|[k d] iter IH]; intros tw tw' Hwf E; cbn in E.
  { simplify_eq. split; [done|]. exists []. by rewrite app_nil_r. }
  destruct (instant_add now d) as [dl| |] eqn:Ea; simpl_outcome; try done.
  destruct (IH _ _ (heap_push_wf _ _ Hwf) E) as (? & ts & Hp & Hts). split; [done|].
  exists (mkTimer k dl :: ts). split; [|by constructor].
  by rewrite Hp, heap_push_elems, <- Permutation_middle.
Qed.

Lemma insert_Done k delay now tw tw' : insert k delay now tw = Done tw' →
  (wheel_wf tw → wheel_wf tw') ∧
  ∃ dl, instant_add now delay = Done dl ∧ wheel_timers tw' ≡ₚ mkTimer k dl :: wheel_timers tw.
Proof.
  unfold insert. destruct (instant_add now delay) as [dl| |]; simpl_outcome; try done. intros; simplify_eq.
  split; [apply heap_push_wf|]. exists dl. split; [done|]. apply heap_push_elems.
Qed.

End deadlines.

(** ** Abstract specification

    A wheel is a bag of timers. *)
Definition expired (now : Z) (t : Timer) : Prop := (deadline t ≤ now)%Z.

#[global] Instance expired_dec now t : Decision (expired now t).
Proof. unfold expired. apply _. Defined.

Definition timer_entry (t : Timer) : Entry := Entry_new (key t) (Ok 0%Z).

Lemma Timer_leb_deadline a b : Timer_leb a b = true ↔ (deadline b ≤ deadline a)%Z.
Proof. unfold Timer_leb, Timer_cmp. destruct (Z.compare_spec (deadline b) (deadline a)); naive_solver lia. Qed.

Lemma Timer_leb_total a b : Timer_leb a b = true ∨ Timer_leb b a = true.
Proof. rewrite !Timer_leb_deadline. lia. Qed.

Lemma Timer_leb_trans a b c :
  Timer_leb a b = true → Timer_leb b c = true → Timer_leb a c = true.
Proof. rewrite !Timer_leb_deadline. lia. Qed.

Lemma expired_duration t now :
  saturating_duration_since (deadline t) now = 0%Z ↔ expired now t.
Proof. unfold saturating_duration_since, expired. lia. Qed.

Context `{!MaxHeapLaws Timer_leb H}.
Implicit Types (tw : H).

(** What the loop emits, as timers. *)
Lemma expire_loop_spec fuel : ∀ now tw es tw',
  wheel_wf tw → length (wheel_timers tw) ≤ fuel →
  expire_loop fuel now tw = (es, tw') →
  wheel_wf tw' ∧
  ∃ ts, es = timer_entry <$> ts ∧ wheel_timers tw ≡ₚ ts ++ wheel_timers tw' ∧
        Forall (expired now) ts ∧ Forall (λ t, ¬ expired now t) (wheel_timers tw') ∧
        StronglySorted (λ a b, deadline a ≤ deadline b)%Z ts.
Proof.
  induction fuel as [|fuel IH]; intros now tw es tw' Hwf Hlen E; cbn in E.
  { simplify_eq. split; [done|]. exists []. destruct (wheel_timers tw'); [|cbn in *; lia].
    split_and!; try done; constructor. }
  pose proof (heap_pop_peek tw) as Hpk. pose proof (heap_peek_None tw) as Hnone.
  destruct (heap_pop tw) as [[t tw1]|] eqn:Hpop; cbn in Hpk.
  - pose proof (heap_pop_wf _ _ _ Hwf Hpop) as Hwf1.
    pose proof (heap_pop_elems _ _ _ Hpop) as Hel.
    assert (∀ u, u ∈ wheel_timers tw → deadline t ≤ deadline u)%Z as Hmin.
    { intros u Hu. apply Timer_leb_deadline. by apply (heap_peek_max tw). }
    case_bool_decide as Hd.
    + destruct (expire_loop fuel now tw1) as [es1 tw2] eqn:E1. simplify_eq.
      apply IH in E1 as (Hwf2 & ts & -> & Hp & Hex & Hnex & Hso); [|done|].
      2:{ apply Permutation_length in Hel. cbn in Hel. lia. }
      split; [done|]. exists (t :: ts). split_and!; auto.
      * by rewrite Hel, Hp.
      * constructor; [by apply expired_duration|done].
      * constructor; [done|]. apply Forall_forall. intros u Hu. apply Hmin.
        rewrite Hel, Hp. set_solver.
    + simplify_eq. split; [done|]. exists []. split_and!; auto; [|constructor].
      apply Forall_forall. intros u Hu Hexp. apply Hd, expired_duration.
      specialize (Hmin u Hu). unfold expired in *. lia.
  - simplify_eq. split; [done|]. exists []. symmetry in Hpk. apply Hnone in Hpk.
    rewrite Hpk. split_and!; try done; constructor.
Qed.

(** The timer at the top of the heap is in the wheel. *)
Lemma peek_timer tw t : heap_peek tw = Some t → t ∈ wheel_timers tw.
Proof.
  intros Hpk. pose proof (heap_pop_peek tw) as Hpp. rewrite Hpk in Hpp.
  destruct (heap_pop tw) as [[t' tw']|] eqn:Hpop; cbn in Hpp; simplify_eq.
  rewrite (heap_pop_elems _ _ _ Hpop). set_solver.
Qed.

(** The duration the wheel reports is a lower bound on every deadline. *)
Lemma duration_till_next_None now tw :
  duration_till_next_timer now tw = None ↔ wheel_timers tw = [].
Proof. unfold duration_till_next_timer. rewrite fmap_None. apply heap_peek_None. Qed.

Lemma duration_till_next_Some now tw d :
  wheel_wf tw → duration_till_next_timer now tw = Some d →
  (∃ t, t ∈ wheel_timers tw ∧ d = saturating_duration_since (deadline t) now) ∧
  (∀ u, u ∈ wheel_timers tw → d ≤ saturating_duration_since (deadline u) now)%Z.
Proof.
  intros Hwf. unfold duration_till_next_timer. rewrite fmap_Some. intros (t & Hpk & ->).
  split; [exists t; by split; [apply peek_timer|]|]. intros u Hu.
  pose proof (heap_peek_max _ _ _ Hwf Hpk Hu) as Hle%Timer_leb_deadline.
  unfold saturating_duration_since. lia.
Qed.

(** Expiring never forgets a key. *)
Lemma expire_timers_keys now tw es tw' :
  wheel_wf tw → expire_timers now tw = (es, tw') →
  wheel_wf tw' ∧
  key <$> wheel_timers tw ≡ₚ (entry_user_data <$> es) ++ (key <$> wheel_timers tw').
Proof.
  intros Hwf E. apply expire_loop_spec in E as (? & ts & -> & Hp & _); [|done..].
  split; [done|]. rewrite Hp, fmap_app. by rewrite <- list_fmap_compose.
Qed.

(** Expiring nothing leaves the wheel as it is. *)
Lemma expire_timers_nil now tw tw' :
  wheel_wf tw → expire_timers now tw = ([], tw') → tw' = tw ∧ Forall (λ t, ¬ expired now t) (wheel_timers tw).
Proof.
  intros Hwf E. assert (tw' = tw) as ->.
  { revert E. unfold expire_timers. destruct (length (wheel_timers tw)) as [|n]; cbn; [by intros; simplify_eq|].
    destruct (heap_pop tw) as [[t tw1]|]; [|by intros; simplify_eq]. case_bool_decide; [|by intros; simplify_eq].
    destruct (expire_loop n now tw1). intros; simplify_eq. }
  apply expire_loop_spec in E as (_ & ts & _ & _ & _ & Hn & _); [by split|done..].
Qed.

(** ** Properties *)

(** C13 Expiring timers at [now] emits exactly the expired timers of the wheel, each once, with
    result [Ok(0)] and in the order of their deadlines, and keeps exactly the others; the loop
    needs no more iterations than there are timers. *)
Theorem expire_timers_exact now tw es tw' :
  wheel_wf tw → expire_timers now tw = (es, tw') →
  wheel_wf tw' ∧
  ∃ ts, es = timer_entry <$> ts ∧
        ts ≡ₚ filter (expired now) (wheel_timers tw) ∧
        wheel_timers tw' ≡ₚ filter (λ t, ¬ expired now t) (wheel_timers tw) ∧
        StronglySorted (λ a b, deadline a ≤ deadline b)%Z ts.
Proof.
  intros Hwf E. apply expire_loop_spec in E as (Hwf' & ts & -> & Hp & Hex & Hnex & Hso); auto.
  assert (Forall (λ t, ¬ ¬ expired now t) ts) by (eapply Forall_impl; naive_solver).
  split; [done|]. exists ts. rewrite Hp, !filter_app.
  rewrite (filter_all (expired now)), (filter_none (expired now)), app_nil_r by done.
  rewrite (filter_none (λ t, ¬ expired now t)), (filter_all (λ t, ¬ expired now t)) by done.
  done.
Qed.

(** The wait computed from the wheel and the caller's timeout never exceeds the caller's
    timeout, never runs past the earliest deadline, is present whenever one of the two is, and is
    one of the two. *)
Theorem till_next_timer_or_timeout_spec timeout now tw :
  wheel_wf tw →
  match till_next_timer_or_timeout timeout now tw with
  | None => timeout = None ∧ wheel_timers tw = []
  | Some d =>
      (∀ t, timeout = Some t → (d ≤ t)%Z) ∧
      (∀ u, u ∈ wheel_timers tw → (d ≤ saturating_duration_since (deadline u) now)%Z) ∧
      (timeout = Some d ∨
       ∃ u, u ∈ wheel_timers tw ∧ d = saturating_duration_since (deadline u) now)
  end.
Proof.
  intros Hwf. unfold till_next_timer_or_timeout.
  destruct (duration_till_next_timer now tw) as [d|] eqn:E.
  - apply duration_till_next_Some in E as [(t & Hin & Hd) Hmin]; [|done].
    destruct timeout as [t0|]; split_and!; try (intros; simplify_eq; lia).
    + intros u Hu. specialize (Hmin u Hu). lia.
    + destruct (Z.min_spec t0 d) as [[_ ->]|[_ ->]]; [by left|right; eauto].
    + done.
    + right; eauto.
  - apply duration_till_next_None in E. destruct timeout; [|done].
    rewrite E. split_and!; [naive_solver|set_solver|by left].
Qed.

End wheel.

(** The wheel the drivers use: the array heap. *)
Notation TimerWheel := (list Timer).

#[global] Instance TimerWheel_laws : MaxHeapLaws Timer_leb TimerWheel.
Proof. apply array_heap_laws; [apply Timer_leb_total|apply Timer_leb_trans]. Qed.

#[global] Arguments insert {H _} instant_add : simpl never.
#[global] Arguments expire_timers {H _} : simpl never.
#[global] Arguments till_next_timer_or_timeout {H _} : simpl never.

(** Instants as unsigned 64-bit numbers of nanoseconds. *)
Definition add_nanos (a d : Z) : outcome Z := if bool_decide (a + d < 2 ^ 64)%Z then Done (a + d)%Z else Panic.

Example wheel_demo : TimerWheel :=
  foldr (λ t, heap_push (leb := Timer_leb) t) (with_capacity 16) [mkTimer 7 130; mkTimer 8 110; mkTimer 9 120].

(** Three timers, and one that is too far in the future. *)
Example wheel_insert : (tw ← insert add_nanos 9 20 100 (with_capacity 16 : TimerWheel); tw ← insert add_nanos 8 10 100 tw;
  insert add_nanos 7 30 100 tw) = Done wheel_demo ∧ insert add_nanos 1 (2 ^ 64) 100 wheel_demo = Panic.
Proof. split; vm_compute; reflexivity. Qed.

Lemma expire_timers_exact_witness :
  wheel_wf wheel_demo ∧
  expire_timers 120 wheel_demo = ([timer_entry (mkTimer 8 110); timer_entry (mkTimer 9 120)],
                                  [mkTimer 7 130]) ∧
  wheel_wf ([mkTimer 7 130] : TimerWheel).
Proof.
  assert (wheel_wf wheel_demo) as Hwf.
  { cbn [wheel_demo foldr]. repeat apply heap_push_wf. apply heap_empty_wf. }
  split; [exact Hwf|]. split; [vm_compute; reflexivity|].
  apply (expire_timers_exact 120 wheel_demo
    [timer_entry (mkTimer 8 110); timer_entry (mkTimer 9 120)] [mkTimer 7 130] Hwf).
  vm_compute. reflexivity.
Defined.

Lemma till_next_timer_or_timeout_witness :
  till_next_timer_or_timeout (Some 50%Z) 105 wheel_demo = Some 5%Z ∧
  (∀ u, u ∈ wheel_demo → (5 ≤ saturating_duration_since (deadline u) 105)%Z).
Proof.
  assert (wheel_wf wheel_demo) as Hwf.
  { cbn [wheel_demo foldr]. repeat apply heap_push_wf. apply heap_empty_wf. }
  split; [vm_compute; reflexivity|].
  exact (proj1 (proj2 (till_next_timer_or_timeout_spec (Some 50%Z) 105 wheel_demo Hwf))).
Defined.
