(* ===== verification/Buf.v ===== *)
(** * Buffers

    [src/buf]: the traits [IoBuf] and [IoBufMut] as type classes, their
    implementations, the owned view [Slice] and the wrappers that expose I/O
    slices.  A buffer owns memory: [buf_mem] is what is readable from
    [as_buf_ptr] on, and [buf_poke] is a write of the operating system through
    that pointer.  [IoBufMutSpec] states what the operations rely on: bytes
    written to the uninitialised part and acknowledged with [set_buf_init] are
    appended to the initialised part. *)

From S2P Require Import Prelude.
From stdpp Require Import base numbers list.

Notation byte := Byte.byte.

(** ** The traits *)

(** [src/src/buf/io_buf.rs:20-44] *)
Class IoBuf (T : Type) := {
  buf_mem : T → list byte;
  as_buf_ptr : T → outcome Z;
  buf_len : T → outcome nat;
  buf_capacity : T → outcome nat;
}.

(** [src/src/buf/io_buf.rs:247-272] *)
Class IoBufMut (T : Type) `{!IoBuf T} := {
  as_buf_mut_ptr : T → outcome Z;
  set_buf_init : nat → T → outcome T;
  buf_poke : nat → list byte → T → T;
}.

(** [src/src/buf/io_buf.rs:46-49] the initialised bytes, read through the pointer *)
Definition as_slice {T} `{!IoBuf T} (t : T) : outcome (list byte) :=
  _ ← as_buf_ptr t; n ← buf_len t; Done (take n (buf_mem t)).

(** [src/src/buf/io_buf.rs:257-265] the uninitialised part: its address and its length *)
Definition as_uninit_slice {T} `{!IoBuf T, !IoBufMut T} (t : T) : outcome (Z * nat) :=
  p ← as_buf_mut_ptr t; n ← buf_len t; c ← buf_capacity t; k ← usize_sub c n;
  Done ((p + Z.of_nat n)%Z, k).

(** A write of [bs] at offset [off] of a memory. *)
Definition mem_write (off : nat) (bs mem : list byte) : list byte :=
  take off mem ++ bs ++ drop (off + length bs) mem.

(** ** Implementations *)

(** Buffers with spare capacity: an allocation whose first [raw_len] bytes are initialised. *)
Record RawBuf := mkRawBuf { raw_ptr : Z; raw_mem : list byte; raw_len : nat }.

Definition raw_io_buf {T} (raw : T → RawBuf) : IoBuf T := {|
  buf_mem t := raw_mem (raw t);
  as_buf_ptr t := Done (raw_ptr (raw t));
  buf_len t := Done (raw_len (raw t));
  buf_capacity t := Done (length (raw_mem (raw t))) |}.

(** [set_len] requires the new length to be within the capacity. *)
Definition raw_set_len (n : nat) (r : RawBuf) : outcome RawBuf :=
  _ ← unsafe_contract (bool_decide (n ≤ length (raw_mem r)));
  Done (mkRawBuf (raw_ptr r) (raw_mem r) n).

Definition raw_poke (off : nat) (bs : list byte) (r : RawBuf) : RawBuf :=
  mkRawBuf (raw_ptr r) (mem_write off bs (raw_mem r)) (raw_len r).

Definition raw_io_buf_mut {T} (raw : T → RawBuf) (mk : RawBuf → T) : @IoBufMut T (raw_io_buf raw) :=
  @Build_IoBufMut T (raw_io_buf raw)
    (λ t, Done (raw_ptr (raw t)))
    (λ len t, r ← raw_set_len (len + raw_len (raw t)) (raw t); Done (mk r))
    (λ off bs t, mk (raw_poke off bs (raw t))).

Record Vec_u8 := mkVec { vec_raw : RawBuf }.
Record String_buf := mkString { string_raw : RawBuf }.
Record BytesMut := mkBytesMut { bytes_mut_raw : RawBuf }.
Record BorrowedBuf := mkBorrowedBuf { borrowed_raw : RawBuf }.
Record ArrayVec := mkArrayVec { array_vec_raw : RawBuf }.

(** [src/src/buf/io_buf.rs:91-105] *)
#[global] Instance Vec_IoBuf : IoBuf Vec_u8 := raw_io_buf vec_raw.
(** [src/src/buf/io_buf.rs:135-147] *)
#[global] Instance String_IoBuf : IoBuf String_buf := raw_io_buf string_raw.
(** [src/src/buf/io_buf.rs:192-205] *)
#[global] Instance BytesMut_IoBuf : IoBuf BytesMut := raw_io_buf bytes_mut_raw.
(** [src/src/buf/io_buf.rs:207-220] *)
#[global] Instance BorrowedBuf_IoBuf : IoBuf BorrowedBuf := raw_io_buf borrowed_raw.
(** [src/src/buf/io_buf.rs:222-235] *)
#[global] Instance ArrayVec_IoBuf : IoBuf ArrayVec := raw_io_buf array_vec_raw.

(** [src/src/buf/io_buf.rs:274-284] *)
#[global] Instance Vec_IoBufMut : IoBufMut Vec_u8 := raw_io_buf_mut vec_raw mkVec.
(** [src/src/buf/io_buf.rs:296-305] *)
#[global] Instance BytesMut_IoBufMut : IoBufMut BytesMut := raw_io_buf_mut bytes_mut_raw mkBytesMut.
(** [src/src/buf/io_buf.rs:307-316] [advance] adds to the filled part *)
#[global] Instance BorrowedBuf_IoBufMut : IoBufMut BorrowedBuf :=
  raw_io_buf_mut borrowed_raw mkBorrowedBuf.
(** [src/src/buf/io_buf.rs:318-327] *)
#[global] Instance ArrayVec_IoBufMut : IoBufMut ArrayVec := raw_io_buf_mut array_vec_raw mkArrayVec.

(** Borrowed slices and [Bytes]: all bytes are initialised and there is no spare capacity. *)
Record FullBuf := mkFullBuf { full_ptr : Z; full_mem : list byte }.

Definition full_io_buf {T} (full : T → FullBuf) : IoBuf T := {|
  buf_mem t := full_mem (full t);
  as_buf_ptr t := Done (full_ptr (full t));
  buf_len t := Done (length (full_mem (full t)));
  buf_capacity t := Done (length (full_mem (full t))) |}.

Record SliceMut_u8 := mkSliceMut { slice_mut_full : FullBuf }.
Record SliceRef_u8 := mkSliceRef { slice_ref_full : FullBuf }.
Record StrMut := mkStrMut { str_mut_full : FullBuf }.
Record StrRef := mkStrRef { str_ref_full : FullBuf }.
Record Bytes_buf := mkBytes { bytes_full : FullBuf }.

(** [src/src/buf/io_buf.rs:107-119] *)
#[global] Instance SliceMut_IoBuf : IoBuf SliceMut_u8 := full_io_buf slice_mut_full.
(** [src/src/buf/io_buf.rs:121-133] *)
#[global] Instance SliceRef_IoBuf : IoBuf SliceRef_u8 := full_io_buf slice_ref_full.
(** [src/src/buf/io_buf.rs:149-161] *)
#[global] Instance StrMut_IoBuf : IoBuf StrMut := full_io_buf str_mut_full.
(** [src/src/buf/io_buf.rs:163-175] *)
#[global] Instance StrRef_IoBuf : IoBuf StrRef := full_io_buf str_ref_full.
(** [src/src/buf/io_buf.rs:177-190] *)
#[global] Instance Bytes_IoBuf : IoBuf Bytes_buf := full_io_buf bytes_full.

(** [cfg!(debug_assertions)] of the build. *)
Class BuildProfile := debug_assertions : bool.

(** [src/src/buf/io_buf.rs:286-294] [set_buf_init] only checks, in a debug build, that nothing was
    added *)
#[global] Instance SliceMut_IoBufMut `{!BuildProfile} : IoBufMut SliceMut_u8 := {|
  as_buf_mut_ptr t := Done (full_ptr (slice_mut_full t));
  set_buf_init len t := _ ← (if debug_assertions then rust_assert (bool_decide (len = 0)) else Done tt); Done t;
  buf_poke off bs t :=
    mkSliceMut (mkFullBuf (full_ptr (slice_mut_full t)) (mem_write off bs (full_mem (slice_mut_full t)))) |}.

(** ** Slice *)

(** [src/src/buf/slice.rs:25-29] *)
Record Slice (T : Type) := mkSlice { slice_buffer : T; slice_begin : nat; slice_end : nat }.
Arguments mkSlice {T}.
Arguments slice_buffer {T}.
Arguments slice_begin {T}.
Arguments slice_end {T}.

(** [src/src/buf/slice.rs:31-59] Slice::new, begin, end, as_inner, as_inner_mut *)
Definition Slice_new {T} (buffer : T) (begin end_ : nat) : Slice T := mkSlice buffer begin end_.

(** [&bytes[a..b]] *)
Definition index_range {A} (a b : nat) (l : list A) : outcome (list A) :=
  _ ← rust_assert (bool_decide (a ≤ b) && bool_decide (b ≤ length l));
  Done (drop a (take b l)).

(** [src/src/buf/slice.rs:61-63] *)
Definition deref {T} `{!IoBuf T} (buffer : T) : outcome (list byte) :=
  _ ← as_buf_ptr buffer; n ← buf_len buffer; Done (take n (buf_mem buffer)).

(** [src/src/buf/slice.rs:65-67] the address and the length of what may be written *)
Definition deref_mut {T} `{!IoBuf T, !IoBufMut T} (buffer : T) : outcome (Z * nat) :=
  p ← as_buf_mut_ptr buffer; n ← buf_len buffer; Done (p, n).

(** [src/src/buf/slice.rs:69-77] Deref for Slice *)
Definition slice_deref {T} `{!IoBuf T} (s : Slice T) : outcome (list byte) :=
  bytes ← deref (slice_buffer s);
  index_range (slice_begin s) (Nat.min (slice_end s) (length bytes)) bytes.

(** [src/src/buf/slice.rs:79-85] DerefMut exposes the same range for writing: its offset from the
    start of the inner buffer and its length *)
Definition slice_deref_mut {T} `{!IoBuf T, !IoBufMut T} (s : Slice T) : outcome (nat * nat) :=
  '(_, n) ← deref_mut (slice_buffer s);
  let e := Nat.min (slice_end s) n in
  _ ← rust_assert (bool_decide (slice_begin s ≤ e)); Done (slice_begin s, e - slice_begin s).

(** [src/src/buf/slice.rs:87-99] *)
#[global] Instance Slice_IoBuf {T} `{!IoBuf T} : IoBuf (Slice T) := {|
  buf_mem s := drop (slice_begin s) (buf_mem (slice_buffer s));
  as_buf_ptr s :=
    p ← as_buf_ptr (slice_buffer s); n ← buf_len (slice_buffer s);
    _ ← rust_assert (bool_decide (slice_begin s ≤ n)); Done (p + Z.of_nat (slice_begin s))%Z;
  buf_len s := bs ← slice_deref s; Done (length bs);
  buf_capacity s := usize_sub (slice_end s) (slice_begin s) |}.

(** [src/src/buf/slice.rs:101-109] *)
#[global] Instance Slice_IoBufMut {T} `{!IoBuf T, !IoBufMut T} : IoBufMut (Slice T) := {|
  as_buf_mut_ptr s :=
    p ← as_buf_mut_ptr (slice_buffer s); n ← buf_len (slice_buffer s);
    _ ← rust_assert (bool_decide (slice_begin s ≤ n)); Done (p + Z.of_nat (slice_begin s))%Z;
  set_buf_init len s :=
    b ← set_buf_init len (slice_buffer s); Done (mkSlice b (slice_begin s) (slice_end s));
  buf_poke off bs s :=
    mkSlice (buf_poke (slice_begin s + off) bs (slice_buffer s)) (slice_begin s) (slice_end s) |}.

(** [src/src/buf/slice.rs:111-117] *)
Definition Slice_into_inner {T} (s : Slice T) : T := slice_buffer s.

(** [std::ops::Bound] *)
Inductive Bound := Included (n : nat) | Excluded (n : nat) | Unbounded.

(** [src/src/buf/io_buf.rs:64-88] IoBuf::slice; [n + 1] cannot overflow below [usize::MAX] *)
Definition slice {T} `{!IoBuf T} (start_bound end_bound : Bound) (t : T) : outcome (Slice T) :=
  begin ← match start_bound with
          | Included n => Done n
          | Excluded n => _ ← rust_assert (bool_decide (Z.of_nat n < usize_MAX)%Z); Done (n + 1)
          | Unbounded => Done 0
          end;
  cap ← buf_capacity t;
  _ ← rust_assert (bool_decide (begin < cap));
  end_ ← match end_bound with
         | Included n => _ ← rust_assert (bool_decide (Z.of_nat n < usize_MAX)%Z); Done (n + 1)
         | Excluded n => Done n
         | Unbounded => Done cap
         end;
  _ ← rust_assert (bool_decide (end_ ≤ cap));
  len ← buf_len t;
  _ ← rust_assert (bool_decide (begin ≤ len));
  Done (Slice_new t begin end_).

(** ** Wrappers for I/O slices *)

(** An [IoSlice] or [IoSliceMut]: address and length. *)
Definition io_slice : Type := Z * nat.

(** [IoSlice::new] of the initialised part. *)
Definition io_slice_of {T} `{!IoBuf T} (t : T) : outcome io_slice :=
  p ← as_buf_ptr t; n ← buf_len t; Done (p, n).

(** [src/src/buf/buf_wrapper.rs:8-13] *)
Record BufWrapper (T : Type) := mkBufWrapper { bw_buffer : T; bw_io_slice : io_slice }.
Arguments mkBufWrapper {T}.
Arguments bw_buffer {T}.
Arguments bw_io_slice {T}.

(** [src/src/buf/buf_wrapper.rs:33-38] *)
Record BufWrapperMut (T : Type) := mkBufWrapperMut { bwm_buffer : T; bwm_io_slice : io_slice }.
Arguments mkBufWrapperMut {T}.
Arguments bwm_buffer {T}.
Arguments bwm_io_slice {T}.

(** [src/src/buf/buf_wrapper.rs:81-87] *)
Record VectoredBufWrapper (T : Type) := mkVectored {
  vb_buffers : list T; vb_io_slices : list io_slice; vb_io_slices_mut : list io_slice }.
Arguments mkVectored {T}.
Arguments vb_buffers {T}.
Arguments vb_io_slices {T}.
Arguments vb_io_slices_mut {T}.

(** [collect] of a fallible map. *)
Fixpoint collect {A B} (f : A → outcome B) (l : list A) : outcome (list B) :=
  match l with
  | [] => Done []
  | x :: l => y ← f x; ys ← collect f l; Done (y :: ys)
  end.

Section wrappers.
Context {T : Type} `{!IoBuf T}.

(** [src/src/buf/buf_wrapper.rs:15-23] *)
Definition BufWrapper_from (buffer : T) : outcome (BufWrapper T) :=
  s ← io_slice_of buffer; Done (mkBufWrapper buffer s).

(** [src/src/buf/buf_wrapper.rs:25-31] *)
Definition BufWrapper_into_inner (w : BufWrapper T) : T := bw_buffer w.

(** [src/src/buf/buf_wrapper.rs:65-69] *)
Definition BufWrapper_as_io_slices (w : BufWrapper T) : list io_slice := [bw_io_slice w].

(** [src/src/buf/buf_wrapper.rs:121-125] *)
Definition Vectored_as_io_slices (w : VectoredBufWrapper T) : list io_slice := vb_io_slices w.

(** [src/src/buf/buf_wrapper.rs:89-95] *)
Definition Vectored_into_inner (w : VectoredBufWrapper T) : list T := vb_buffers w.

Context `{!IoBufMut T}.

(** [src/src/buf/buf_wrapper.rs:48-63] *)
Definition BufWrapperMut_from (buffer : T) : outcome (BufWrapperMut T) :=
  s ← as_uninit_slice buffer; Done (mkBufWrapperMut buffer s).

(** [src/src/buf/buf_wrapper.rs:40-46] *)
Definition BufWrapperMut_into_inner (w : BufWrapperMut T) : T := bwm_buffer w.

(** [src/src/buf/buf_wrapper.rs:71-79] as_io_slices_mut *)
Definition BufWrapperMut_as_io_slices_mut (w : BufWrapperMut T) : list io_slice := [bwm_io_slice w].

(** [src/src/buf/buf_wrapper.rs:76-78] *)
Definition BufWrapperMut_set_init (len : nat) (w : BufWrapperMut T) : outcome (BufWrapperMut T) :=
  b ← set_buf_init len (bwm_buffer w); Done (mkBufWrapperMut b (bwm_io_slice w)).

(** [src/src/buf/buf_wrapper.rs:97-119] *)
Definition VectoredBufWrapper_from (buffers : list T) : outcome (VectoredBufWrapper T) :=
  io_slices ← collect io_slice_of buffers;
  io_slices_mut ← collect as_uninit_slice buffers;
  Done (mkVectored buffers io_slices io_slices_mut).

(** [src/src/buf/buf_wrapper.rs:127-130] *)
Definition Vectored_as_io_slices_mut (w : VectoredBufWrapper T) : list io_slice :=
  vb_io_slices_mut w.

(** [src/src/buf/buf_wrapper.rs:132-143] the loop of [set_init] over the buffers *)
Fixpoint set_init_loop (len : nat) (bufs : list T) : outcome (list T) :=
  match bufs with
  | [] => Done []
  | buf :: bufs =>
      capacity ← buf_capacity buf;
      if bool_decide (capacity ≤ len) then
        buf' ← set_buf_init capacity buf;
        bufs' ← set_init_loop (len - capacity) bufs;
        Done (buf' :: bufs')
      else
        buf' ← set_buf_init len buf;
        bufs' ← set_init_loop 0 bufs;
        Done (buf' :: bufs')
  end.

(** [src/src/buf/buf_wrapper.rs:132-143] *)
Definition Vectored_set_init (len : nat) (w : VectoredBufWrapper T) : outcome (VectoredBufWrapper T) :=
  bs ← set_init_loop len (vb_buffers w);
  Done (mkVectored bs (vb_io_slices w) (vb_io_slices_mut w)).

End wrappers.

(** ** Updating the buffer after an operation *)

(** [src/src/lib.rs:35-41] *)
Notation BufResult A B := (io_result A * B)%type.

(** [src/src/buf/mod.rs:28-34] IntoInner for BufResult *)
Definition BufResult_into_inner {O T I} (into_inner : T → I) (r : BufResult O T) : BufResult O I :=
  (r.1, into_inner r.2).

(** The initialised length is extended by the bytes transferred. *)
Definition update_len {T} (set : nat → T → outcome T) (r : BufResult Z T) :
    outcome (BufResult Z T) :=
  match r.1 with
  | Ok init => b ← set (Z.to_nat init) r.2; Done (r.1, b)
  | Err _ => Done r
  end.

Definition update_len_addr {T O} (set : nat → T → outcome T) (r : BufResult (Z * O) T) :
    outcome (BufResult (Z * O) T) :=
  match r.1 with
  | Ok (init, _) => b ← set (Z.to_nat init) r.2; Done (r.1, b)
  | Err _ => Done r
  end.

(** [src/src/op.rs:58-66] *)
Definition update_buffer_len {T} `{!IoBuf T, !IoBufMut T} (r : BufResult Z T) : outcome (BufResult Z T) :=
  update_len set_buf_init r.
(** [src/src/op.rs:68-76] *)
Definition update_buffer_len_addr {T O} `{!IoBuf T, !IoBufMut T} (r : BufResult (Z * O) T) : outcome (BufResult (Z * O) T) :=
  update_len_addr set_buf_init r.
(** [src/src/op.rs:29-39] the macro for a wrapper with the given [set_init] *)
Definition impl_update_buffer_len {B} (set_init : nat → B → outcome B) (r : BufResult Z B) : outcome (BufResult Z B) :=
  update_len set_init r.
(** [src/src/op.rs:41-51] *)
Definition impl_update_buffer_len_addr {B O} (set_init : nat → B → outcome B) (r : BufResult (Z * O) B) :
    outcome (BufResult (Z * O) B) :=
  update_len_addr set_init r.

(** [src/src/op.rs:84-91] *)
Definition map_addr {T A} (r : BufResult Z (T * A)) : BufResult (Z * A) T :=
  let '(res, (buffer, addr)) := r in (result_map (λ received, (received, addr)) res, buffer).

(** ** What operations rely on

    [filled] is the initialised part and [spare] the room behind it. *)
Class IoBufMutSpec (T : Type) `{!IoBuf T, !IoBufMut T} := {
  buf_wf : T → Prop;
  filled : T → list byte;
  spare : T → nat;
  spec_len t : buf_wf t → buf_len t = Done (length (filled t));
  spec_capacity t : buf_wf t → buf_capacity t = Done (length (filled t) + spare t);
  spec_ptr t : buf_wf t → ∃ p, as_buf_ptr t = Done p ∧ as_buf_mut_ptr t = Done p;
  spec_mem t : buf_wf t → take (length (filled t)) (buf_mem t) = filled t;
  spec_poke_nil t off : buf_poke off [] t = t;
  spec_poke_capacity t off bs :
    buf_wf t → off + length bs ≤ length (filled t) + spare t →
    buf_capacity (buf_poke off bs t) = buf_capacity t;
  (** a write to the uninitialised part, acknowledged *)
  spec_receive t bs :
    buf_wf t → length bs ≤ spare t →
    ∃ t', set_buf_init (length bs) (buf_poke (length (filled t)) bs t) = Done t' ∧
      buf_wf t' ∧ filled t' = filled t ++ bs ∧ spare t' = spare t - length bs ∧
      as_buf_ptr t' = as_buf_ptr t;
}.

(** What the operating system does with a list of I/O slices: it fills the uninitialised part of
    one buffer after the other. *)
Fixpoint scatter {T} `{!IoBuf T, !IoBufMut T, !IoBufMutSpec T} (bs : list byte) (bufs : list T) :
    list T :=
  match bufs with
  | [] => []
  | b :: bufs => buf_poke (length (filled b)) (take (spare b) bs) b :: scatter (drop (spare b) bs) bufs
  end.

Definition total_spare {T} `{!IoBuf T, !IoBufMut T, !IoBufMutSpec T} (bufs : list T) : nat :=
  sum_list (spare <$> bufs).

Lemma mem_write_nil off mem : mem_write off [] mem = mem.
Proof. unfold mem_write. cbn. rewrite Nat.add_0_r. apply take_drop. Qed.

Lemma mem_write_length off bs mem :
  off + length bs ≤ length mem → length (mem_write off bs mem) = length mem.
Proof. intros. unfold mem_write. rewrite !length_app, length_take, length_drop. lia. Qed.

Lemma mem_write_take off bs mem :
  off + length bs ≤ length mem →
  take (off + length bs) (mem_write off bs mem) = take off mem ++ bs.
Proof.
  intros. unfold mem_write. rewrite app_assoc. apply take_app_length'.
  rewrite length_app, length_take. lia.
Qed.

(** The buffers with spare capacity meet the contract. *)
Definition raw_spec {T} (raw : T → RawBuf) (mk : RawBuf → T)
    (raw_mk : ∀ r, raw (mk r) = r) (mk_raw : ∀ t, mk (raw t) = t) :
  @IoBufMutSpec T (raw_io_buf raw) (raw_io_buf_mut raw mk).
Proof.
  refine (@Build_IoBufMutSpec T (raw_io_buf raw) (raw_io_buf_mut raw mk)
    (λ t, raw_len (raw t) ≤ length (raw_mem (raw t)))
    (λ t, take (raw_len (raw t)) (raw_mem (raw t)))
    (λ t, length (raw_mem (raw t)) - raw_len (raw t)) _ _ _ _ _ _ _); cbn.
  - intros t H. rewrite length_take. f_equal. lia.
  - intros t H. rewrite length_take. f_equal. lia.
  - eauto.
  - intros t H. rewrite length_take. f_equal. lia.
  - intros t off. unfold raw_poke. rewrite mem_write_nil.
    rewrite <- (mk_raw t) at 4. by destruct (raw t).
  - intros t off bs Hwf. rewrite length_take, raw_mk. cbn. intros.
    rewrite mem_write_length; [done|lia].
  - intros t bs Hwf Hbs. rewrite length_take, Nat.min_l by lia.
    rewrite raw_mk. unfold raw_set_len, raw_poke, unsafe_contract. cbn.
    rewrite bool_decide_eq_true_2 by (rewrite mem_write_length; lia). cbn.
    eexists. split; [done|]. rewrite raw_mk. cbn. rewrite mem_write_length by lia.
    split_and!; [lia| |lia|done].
    rewrite Nat.add_comm. apply mem_write_take. lia.
Defined.

#[global] Instance Vec_spec : IoBufMutSpec Vec_u8.
Proof. by apply raw_spec; [|intros []]. Defined.
#[global] Instance BytesMut_spec : IoBufMutSpec BytesMut.
Proof. by apply raw_spec; [|intros []]. Defined.
#[global] Instance BorrowedBuf_spec : IoBufMutSpec BorrowedBuf.
Proof. by apply raw_spec; [|intros []]. Defined.
#[global] Instance ArrayVec_spec : IoBufMutSpec ArrayVec.
Proof. by apply raw_spec; [|intros []]. Defined.

(** A borrowed slice is always full. *)
#[global] Instance SliceMut_spec `{!BuildProfile} : IoBufMutSpec SliceMut_u8.
Proof.
  refine (@Build_IoBufMutSpec SliceMut_u8 _ _
    (λ _, True) (λ t, full_mem (slice_mut_full t)) (λ _, 0) _ _ _ _ _ _ _); cbn.
  - done.
  - intros. by rewrite Nat.add_0_r.
  - eauto.
  - intros. apply firstn_all.
  - intros [[p m]] off. cbn. by rewrite mem_write_nil.
  - intros t off bs _ Hle. rewrite mem_write_length; [done|lia].
  - intros t bs _ Hbs. destruct bs; [|cbn in Hbs; lia]. cbn. rewrite mem_write_nil.
    eexists. split; [by destruct debug_assertions|]. cbn. by rewrite app_nil_r.
Defined.

Section slice_spec.
Context {T : Type} `{!IoBuf T, !IoBufMut T, !IoBufMutSpec T}.
Implicit Types (t : T) (s : Slice T).

Definition slice_wf s : Prop :=
  buf_wf (slice_buffer s) ∧ slice_begin s ≤ length (filled (slice_buffer s)) ∧
  slice_begin s ≤ slice_end s ∧
  slice_end s ≤ length (filled (slice_buffer s)) + spare (slice_buffer s).

Definition slice_filled s : list byte :=
  drop (slice_begin s) (take (slice_end s) (filled (slice_buffer s))).

Definition slice_spare s : nat := slice_end s - length (filled (slice_buffer s)).

Lemma as_slice_filled t : buf_wf t → as_slice t = Done (filled t).
Proof.
  intros Hwf. unfold as_slice. destruct (spec_ptr t Hwf) as (p & -> & _). simpl_outcome.
  rewrite (spec_len t Hwf). simpl_outcome. by rewrite spec_mem.
Qed.

Lemma uninit_slice_done t : buf_wf t → ∃ p, as_uninit_slice t = Done (p, spare t).
Proof.
  intros Hwf. destruct (spec_ptr t Hwf) as (p & _ & Hp). unfold as_uninit_slice. rewrite Hp, (spec_len t Hwf), (spec_capacity t Hwf).
  cbn. unfold usize_sub. rewrite bool_decide_eq_true_2 by lia. cbn. eexists. do 2 f_equal. lia.
Qed.

Lemma slice_deref_filled s : slice_wf s → slice_deref s = Done (slice_filled s).
Proof.
  intros (Hwf & Hb & Hbe & He). unfold slice_deref. change (deref (slice_buffer s)) with (as_slice (slice_buffer s)).
  rewrite as_slice_filled by done.
  simpl_outcome. unfold index_range, rust_assert, slice_filled.
  rewrite !bool_decide_eq_true_2 by lia. cbn. by rewrite take_drop_min.
Qed.

Lemma slice_filled_length s :
  slice_wf s →
  length (slice_filled s) =
  Nat.min (slice_end s) (length (filled (slice_buffer s))) - slice_begin s.
Proof. intros. unfold slice_filled. by rewrite length_drop, length_take. Qed.

Lemma slice_poke_ack s bs :
  slice_wf s → length bs ≤ slice_spare s →
  ∃ b', set_buf_init (length bs)
          (buf_poke (slice_begin s + length (slice_filled s)) bs (slice_buffer s)) = Done b' ∧
    buf_wf b' ∧ filled b' = filled (slice_buffer s) ++ bs ∧
    spare b' = spare (slice_buffer s) - length bs ∧
    as_buf_ptr b' = as_buf_ptr (slice_buffer s).
Proof.
  intros Hs Hbs. rewrite slice_filled_length by done. destruct Hs as (Hwf & Hb & Hbe & He).
  unfold slice_spare in Hbs.
  destruct (decide (length (filled (slice_buffer s)) ≤ slice_end s)).
  - replace (slice_begin s + _) with (length (filled (slice_buffer s))) by lia.
    apply spec_receive; [done|lia].
  - destruct bs; [|cbn in *; lia]. rewrite spec_poke_nil.
    pose proof (spec_receive (slice_buffer s) [] Hwf) as HR.
    rewrite spec_poke_nil in HR. apply HR. cbn; lia.
Qed.

#[global] Instance Slice_spec : IoBufMutSpec (Slice T).
Proof.
  refine (@Build_IoBufMutSpec (Slice T) _ _ slice_wf slice_filled slice_spare _ _ _ _ _ _ _); cbn.
  - intros s Hs. by rewrite slice_deref_filled.
  - intros s Hs. unfold usize_sub. pose proof Hs as (? & ? & ? & ?).
    rewrite bool_decide_eq_true_2, slice_filled_length by done. unfold slice_spare. f_equal. lia.
  - intros s (Hwf & Hb & _). destruct (spec_ptr _ Hwf) as (p & -> & ->). simpl_outcome.
    rewrite spec_len by done. simpl_outcome. unfold rust_assert.
    rewrite bool_decide_eq_true_2 by done. eauto.
  - intros s Hs. pose proof (slice_filled_length s Hs) as Hl. destruct Hs as (Hwf & Hb & Hbe & He).
    unfold slice_filled in *. rewrite Hl. pose proof (spec_mem _ Hwf) as Hm.
    rewrite <- Hm at 2. rewrite take_take, take_drop_commute.
    do 2 f_equal. lia.
  - intros [b ? ?] off. cbn. by rewrite spec_poke_nil.
  - done.
  - intros s bs Hs Hbs. destruct (slice_poke_ack s bs Hs Hbs) as (b' & -> & Hwf' & Hf & Hsp & Hp).
    simpl_outcome. eexists. split; [done|]. destruct Hs as (Hwf & Hb & Hbe & He).
    unfold slice_wf, slice_filled, slice_spare in *. cbn. rewrite Hf, length_app, Hsp.
    split_and!; try done; try lia.
    + rewrite take_app. destruct (decide (length (filled (slice_buffer s)) ≤ slice_end s)).
      * rewrite (take_ge (filled _)) by lia. rewrite (take_ge bs) by lia. by rewrite drop_app_le by lia.
      * destruct bs; [|cbn in *; lia]. by rewrite take_nil, !app_nil_r.
    + rewrite Hp, (spec_len _ Hwf), (spec_len _ Hwf'). destruct (spec_ptr _ Hwf) as (p & -> & _).
      simpl_outcome. rewrite Hf, length_app. unfold rust_assert.
      by rewrite !bool_decide_eq_true_2 by lia.
Defined.

End slice_spec.

(** ** Properties *)

Section buf_properties.
Context {T : Type} `{!IoBuf T, !IoBufMut T, !IoBufMutSpec T}.
Implicit Types (t : T).

(** The bounds a range denotes on a buffer of capacity [cap]. *)
Definition range_begin (b : Bound) : nat :=
  match b with Included n => n | Excluded n => n + 1 | Unbounded => 0 end.
Definition range_end (cap : nat) (b : Bound) : nat :=
  match b with Included n => n + 1 | Excluded n => n | Unbounded => cap end.
Definition bound_in_range (b : Bound) : Prop :=
  match b with Included n | Excluded n => (Z.of_nat n < usize_MAX)%Z | Unbounded => True end.

Lemma slice_unfold lo hi t :
  buf_wf t → bound_in_range lo → bound_in_range hi →
  let cap := length (filled t) + spare t in
  slice lo hi t =
  if bool_decide (range_begin lo < cap) && bool_decide (range_end cap hi ≤ cap) &&
     bool_decide (range_begin lo ≤ length (filled t))
  then Done (mkSlice t (range_begin lo) (range_end cap hi)) else Panic.
Proof.
  intros Hwf Hlo Hhi cap. unfold slice. rewrite (spec_len t Hwf), (spec_capacity t Hwf).
  fold cap. unfold rust_assert. destruct lo as [a|a|]; destruct hi as [b|b|]; cbn in *;
    repeat (case_bool_decide; cbn; try done; try lia).
Qed.

(** C18 [IoBuf::slice] on a well-formed buffer returns a view exactly when the range starts inside
    the capacity, ends within it and starts within the initialised part; when moreover the range
    is not reversed, the view is well-formed, shows the initialised bytes of that range and nothing
    else, has the length of the range as its capacity and gives the buffer back unchanged. *)
Theorem slice_view lo hi t s :
  buf_wf t → bound_in_range lo → bound_in_range hi →
  let cap := length (filled t) + spare t in
  slice lo hi t = Done s ↔
    (s = mkSlice t (range_begin lo) (range_end cap hi) ∧
     range_begin lo < cap ∧ range_end cap hi ≤ cap ∧ range_begin lo ≤ length (filled t)) ∧
    (range_begin lo ≤ range_end cap hi →
     buf_wf s ∧
     slice_deref s = Done (drop (range_begin lo) (take (range_end cap hi) (filled t))) ∧
     buf_capacity s = Done (range_end cap hi - range_begin lo) ∧
     Slice_into_inner s = t).
Proof.
  intros Hwf Hlo Hhi cap. rewrite slice_unfold by done. fold cap. split.
  - intros E.
    assert (s = mkSlice t (range_begin lo) (range_end cap hi) ∧
      range_begin lo < cap ∧ range_end cap hi ≤ cap ∧ range_begin lo ≤ length (filled t)) as Hs.
    { repeat case_bool_decide; cbn in E; naive_solver. }
    split; [done|]. destruct Hs as (-> & ? & ? & ?). intros Hle.
    assert (buf_wf (mkSlice t (range_begin lo) (range_end cap hi))) as Hswf.
    { unfold buf_wf, Slice_spec, slice_wf. cbn. split_and!; auto with lia. }
    split_and!; [done| | |done].
    + by apply slice_deref_filled.
    + cbn. unfold usize_sub. by rewrite bool_decide_eq_true_2.
  - intros [(-> & ? & ? & ?) _]. by rewrite !bool_decide_eq_true_2.
Qed.

(** C17 Data received through a view of a buffer: whatever the operating system writes into the
    uninitialised part that the view exposes, acknowledging it appends those bytes to the
    underlying buffer, keeps the address stable, and never fills the buffer beyond the end of the
    view. *)
Theorem slice_receive (s : Slice T) bs :
  buf_wf s → length bs ≤ spare s →
  ∃ p s', as_buf_mut_ptr (slice_buffer s) = Done p ∧
    as_uninit_slice s =
      Done ((p + Z.of_nat (slice_begin s + length (filled s)))%Z, spare s) ∧
    set_buf_init (length bs) (buf_poke (length (filled s)) bs s) = Done s' ∧
    filled (Slice_into_inner s') = filled (slice_buffer s) ++ bs ∧
    as_buf_ptr s' = as_buf_ptr s ∧
    (bs ≠ [] → length (filled (Slice_into_inner s')) ≤ slice_end s).
Proof.
  intros Hs Hbs. destruct (spec_ptr s Hs) as (q & Hq & Hqm).
  destruct (slice_poke_ack s bs Hs Hbs) as (b' & Hset & Hwf' & Hf & _ & _).
  destruct (spec_receive s bs Hs Hbs) as (s' & Hs' & _ & _ & _ & Hptr).
  pose proof Hs as (Hwf & Hb & Hbe & He). destruct (spec_ptr _ Hwf) as (p & Hp & Hpm).
  exists p, s'. split_and!; [done| |done| |by rewrite Hptr|].
  - unfold as_uninit_slice. rewrite Hqm, (spec_len s Hs), (spec_capacity s Hs). simpl_outcome.
    unfold usize_sub. rewrite bool_decide_eq_true_2 by lia. cbn.
    rewrite Hpm, (spec_len _ Hwf) in Hqm. simpl_outcome.
    unfold rust_assert in Hqm. rewrite bool_decide_eq_true_2 in Hqm by done. simplify_eq.
    f_equal. f_equal; lia.
  - cbn in Hs'. rewrite Hset in Hs'. simpl_outcome. simplify_eq. done.
  - cbn in Hs'. rewrite Hset in Hs'. simpl_outcome. simplify_eq. cbn. intros Hne.
    rewrite Hf, length_app. unfold spare, Slice_spec, slice_spare in Hbs.
    destruct bs; [done|]. cbn [length] in *. lia.
Qed.

(** The loop of [set_init] on buffers that held nothing before the operation. *)
Lemma set_init_scatter bufs : ∀ bs,
  Forall (λ b, buf_wf b ∧ filled b = []) bufs → length bs ≤ total_spare bufs →
  ∃ bufs', set_init_loop (length bs) (scatter bs bufs) = Done bufs' ∧
    Forall buf_wf bufs' ∧ concat (filled <$> bufs') = bs.
Proof.
  induction bufs as [|b bufs IH]; intros bs Hall Hlen.
  { destruct bs; [|cbn in Hlen; lia]. by exists []. }
  apply Forall_cons in Hall as [[Hwf Hfil] Hall].
  assert (length (take (spare b) bs) ≤ spare b) as Hle by (rewrite length_take; lia).
  destruct (spec_receive b _ Hwf Hle) as (b' & Hset & Hwf' & Hf' & _ & _).
  assert (buf_capacity (buf_poke 0 (take (spare b) bs) b) = Done (spare b)) as Hcap.
  { rewrite spec_poke_capacity, spec_capacity, Hfil; [done..|cbn in *; lia]. }
  rewrite Hfil in Hset, Hf'. cbn [length app] in Hset, Hf'. rewrite length_take in Hset.
  destruct (IH (drop (spare b) bs)) as (bufs' & Hloop & Hwfs & Hcat); [done| |].
  { rewrite length_drop. cbn in Hlen. unfold total_spare. lia. }
  rewrite length_drop in Hloop.
  exists (b' :: bufs'). cbn [scatter set_init_loop]. rewrite Hfil. cbn [length].
  rewrite Hcap. simpl_outcome. split_and!.
  - case_bool_decide.
    + rewrite Nat.min_l in Hset by lia. rewrite Hset. simpl_outcome. by rewrite Hloop.
    + rewrite Nat.min_r in Hset by lia. rewrite Hset. simpl_outcome.
      replace (length bs - spare b) with 0 in Hloop by lia. by rewrite Hloop.
  - by constructor.
  - cbn. by rewrite Hf', Hcat, take_drop.
Qed.

(** C14 A vectored receive into buffers that are empty: the bytes the operating system scattered over
    the I/O slices are, after [set_init], exactly the initialised contents of the buffers, in
    order; no buffer is claimed to hold more than was written. *)
Theorem vectored_receive (w : VectoredBufWrapper T) bs :
  Forall (λ b, buf_wf b ∧ filled b = []) (vb_buffers w) → length bs ≤ total_spare (vb_buffers w) →
  ∃ bufs', Vectored_set_init (length bs)
      (mkVectored (scatter bs (vb_buffers w)) (vb_io_slices w) (vb_io_slices_mut w)) =
      Done (mkVectored bufs' (vb_io_slices w) (vb_io_slices_mut w)) ∧
    Forall buf_wf bufs' ∧ concat (filled <$> bufs') = bs.
Proof.
  intros Hall Hlen. destruct (set_init_scatter _ bs Hall Hlen) as (bufs' & Hl & ? & ?).
  exists bufs'. unfold Vectored_set_init. cbn. rewrite Hl. done.
Qed.

End buf_properties.

(** ** Concrete buffers *)

Definition vec_of (bs : list byte) (extra : nat) : Vec_u8 :=
  mkVec (mkRawBuf 4096 (bs ++ replicate extra Byte.x00) (length bs)).

Lemma vec_of_wf bs extra : buf_wf (vec_of bs extra).
Proof. cbn. rewrite length_app. lia. Qed.

Lemma slice_view_witness :
  slice (Included 1) (Excluded 2) (vec_of [Byte.x61; Byte.x62; Byte.x63] 2) =
    Done (mkSlice (vec_of [Byte.x61; Byte.x62; Byte.x63] 2) 1 2) ∧
  slice_deref (mkSlice (vec_of [Byte.x61; Byte.x62; Byte.x63] 2) 1 2) = Done [Byte.x62].
Proof.
  assert (slice (Included 1) (Excluded 2) (vec_of [Byte.x61; Byte.x62; Byte.x63] 2) =
    Done (mkSlice (vec_of [Byte.x61; Byte.x62; Byte.x63] 2) 1 2)) as E by reflexivity.
  split; [exact E|].
  pose proof (proj1 (slice_view (Included 1) (Excluded 2)
    (vec_of [Byte.x61; Byte.x62; Byte.x63] 2) _ (vec_of_wf _ _) ltac:(vm_compute; reflexivity)
    ltac:(vm_compute; reflexivity)) E) as [_ H].
  apply (H ltac:(cbn; lia)).
Defined.

Lemma slice_receive_witness :
  ∃ s', set_buf_init 1 (buf_poke 1 [Byte.x7a] (mkSlice (vec_of [Byte.x61; Byte.x62] 3) 1 4)) = Done s' ∧
    filled (Slice_into_inner s') = [Byte.x61; Byte.x62; Byte.x7a].
Proof.
  destruct (slice_receive (mkSlice (vec_of [Byte.x61; Byte.x62] 3) 1 4) [Byte.x7a])
    as (p & s' & _ & _ & Hs & Hf & _).
  - unfold buf_wf, Slice_spec, slice_wf. cbn. lia.
  - cbn. lia.
  - exists s'. split; [exact Hs|exact Hf].
Defined.

Lemma vectored_receive_witness :
  ∃ bufs', Vectored_set_init 3
      (mkVectored (scatter [Byte.x61; Byte.x62; Byte.x63] [vec_of [] 2; vec_of [] 2]) [] []) =
      Done (mkVectored bufs' [] []) ∧
    concat (filled <$> bufs') = [Byte.x61; Byte.x62; Byte.x63].
Proof.
  destruct (vectored_receive (mkVectored [vec_of [] 2; vec_of [] 2] [] [])
    [Byte.x61; Byte.x62; Byte.x63]) as (bufs' & H1 & _ & H2).
  - repeat constructor; cbn; lia.
  - cbn. lia.
  - exists bufs'. split; [exact H1|exact H2].
Defined.

(** [set_init] of a vectored buffer counts capacities where the I/O slices only cover the
    uninitialised parts: with a first buffer that already holds bytes, acknowledging a receive that
    filled both buffers sets a length beyond the capacity, which is undefined behaviour. *)
Theorem vectored_set_init_overruns :
  let bufs := [vec_of [Byte.x61; Byte.x62] 2; vec_of [] 2] in
  total_spare bufs = 4 ∧
  Vectored_set_init 4
    (mkVectored (scatter [Byte.x31; Byte.x32; Byte.x33; Byte.x34] bufs) [] []) = Undef.
Proof. split; reflexivity. Qed.

(** A reversed range passes the checks of [IoBuf::slice]; the view it returns panics as soon as
    its length, its capacity or its bytes are asked for. *)
Theorem slice_reversed_range :
  let v := vec_of [Byte.x61; Byte.x62; Byte.x63] 0 in
  let s := mkSlice v 2 1 in
  slice (Included 2) (Excluded 1) v = Done s ∧
  buf_capacity s = Panic ∧ buf_len s = Panic ∧ slice_deref s = Panic.
Proof. split_and!; reflexivity. Qed.
