(* ===== verification/UnixOps.v ===== *)
(** * Operations of the Unix drivers

    [src/driver/unix/op.rs]: the operation structs shared by io_uring and
    kqueue, over the driver's descriptor type [F].  Buffers are any [IoBuf],
    scattered buffers any [AsIoSlices] ([src/buf/with_buf.rs]); the array of
    I/O slices a message header points to is represented by its contents. *)

From S2P Require Import Prelude Buf.
From stdpp Require Import base numbers list.

(** ** Scattered buffers *)

(** [src/src/buf/with_buf.rs:3-8] *)
Class AsIoSlices (V : Type) := { as_io_slices : V → list io_slice }.

(** [src/src/buf/with_buf.rs:10-17] [io_slices_poke] is the operating system writing bytes through
    the slices, in order *)
Class AsIoSlicesMut (V : Type) := {
  as_io_slices_mut : V → list io_slice;
  set_init : nat → V → outcome V;
  io_slices_poke : list byte → V → V;
}.

(** Writes into one buffer, at the start of what was its uninitialised part. *)
Definition poke_uninit {T} `{!IoBuf T, !IoBufMut T} (bs : list byte) (t : T) : outcome T :=
  n ← buf_len t; Done (buf_poke n bs t).

Fixpoint poke_slices {T} `{!IoBuf T, !IoBufMut T} (bs : list byte) (slices : list io_slice)
    (bufs : list T) : list T :=
  match slices, bufs with
  | s :: slices, b :: bufs =>
      (match poke_uninit (take s.2 bs) b with Done b' => b' | _ => b end)
        :: poke_slices (drop s.2 bs) slices bufs
  | _, _ => bufs
  end.

#[global] Instance BufWrapper_AsIoSlices {T} `{!IoBuf T} : AsIoSlices (BufWrapper T) :=
  {| as_io_slices := BufWrapper_as_io_slices |}.
#[global] Instance Vectored_AsIoSlices {T} `{!IoBuf T} : AsIoSlices (VectoredBufWrapper T) :=
  {| as_io_slices := Vectored_as_io_slices |}.
#[global] Instance BufWrapperMut_AsIoSlicesMut {T} `{!IoBuf T, !IoBufMut T} :
    AsIoSlicesMut (BufWrapperMut T) := {|
  as_io_slices_mut := BufWrapperMut_as_io_slices_mut;
  set_init := BufWrapperMut_set_init;
  io_slices_poke bs w :=
    match poke_slices bs [bwm_io_slice w] [bwm_buffer w] with
    | [b] => mkBufWrapperMut b (bwm_io_slice w)
    | _ => w
    end |}.
#[global] Instance Vectored_AsIoSlicesMut {T} `{!IoBuf T, !IoBufMut T} :
    AsIoSlicesMut (VectoredBufWrapper T) := {|
  as_io_slices_mut := Vectored_as_io_slices_mut;
  set_init := Vectored_set_init;
  io_slices_poke bs w :=
    mkVectored (poke_slices bs (vb_io_slices_mut w) (vb_buffers w)) (vb_io_slices w)
      (vb_io_slices_mut w) |}.

(** ** Addresses and message headers *)

(** [socket2::SockAddr]: where its storage is, the storage and the length. *)
Record SockAddr := mkSockAddr { sa_ptr : Z; sa_storage : list byte; sa_len : Z }.

Definition size_of_sockaddr_storage : Z := 128.

(** [mem::zeroed()] for a [sockaddr_storage]. *)
Definition zeroed_storage : list byte := replicate 128 Byte.x00.

(** [libc::msghdr] *)
Record msghdr := mkMsghdr {
  msg_name : Z; msg_namelen : Z; msg_iov : list io_slice; msg_iovlen : nat;
  msg_controllen : Z; msg_flags : Z }.

Definition zeroed_msghdr : msghdr := mkMsghdr 0 0 [] 0 0 0.

(** ** The operations *)

Section ops.
Context {F : Type}.

(** [src/src/driver/unix/op.rs:11-16] *)
Record Read (T : Type) := mkRead { read_fd : F; read_buffer : T }.
(** [src/src/driver/unix/op.rs:37-43] *)
Record ReadAt (T : Type) := mkReadAt { read_at_fd : F; read_at_offset : Z; read_at_buffer : T }.
(** [src/src/driver/unix/op.rs:65-70] *)
Record Write (T : Type) := mkWrite { write_fd : F; write_buffer : T }.
(** [src/src/driver/unix/op.rs:91-97] *)
Record WriteAt (T : Type) := mkWriteAt { write_at_fd : F; write_at_offset : Z; write_at_buffer : T }.
(** [src/src/driver/unix/op.rs:119-125] [initiated] exists outside Linux *)
Record Connect := mkConnect { connect_fd : F; connect_addr : SockAddr; initiated : bool }.
(** [src/src/driver/unix/op.rs:155-162] *)
Record Accept := mkAccept { accept_fd : F; accept_addr : SockAddr; accept_addr_len : Z }.
(** [src/src/driver/unix/op.rs:221-226] *)
Record Sync := mkSync { sync_fd : F; datasync : bool }.
(** [src/src/driver/unix/op.rs:246-251] *)
Record Recv (T : Type) := mkRecv { recv_fd : F; recv_buffer : T }.
(** [src/src/driver/unix/op.rs:272-277] *)
Record RecvVectoredImpl (V : Type) := mkRecvVectored { recv_vectored_fd : F; recv_vectored_buffer : V }.
(** [src/src/driver/unix/op.rs:298-303] *)
Record Send (T : Type) := mkSend { send_fd : F; send_buffer : T }.
(** [src/src/driver/unix/op.rs:324-329] *)
Record SendVectoredImpl (V : Type) := mkSendVectored { send_vectored_fd : F; send_vectored_buffer : V }.
(** [src/src/driver/unix/op.rs:350-357] *)
Record RecvMsgImpl (V : Type) := mkRecvMsg {
  recv_msg_fd : F; recv_msg_buffer : V; recv_msg_addr_ptr : Z; recv_msg_addr : list byte;
  recv_msg_msg : msghdr }.
(** [src/src/driver/unix/op.rs:401-408] *)
Record SendMsgImpl (V : Type) := mkSendMsg {
  send_msg_fd : F; send_msg_buffer : V; send_msg_addr : SockAddr; send_msg_msg : msghdr }.

(** Constructors.  [into] is the conversion of the descriptor ([IntoFdOrFixed]) and [ptr] the place
    where the address storage of the operation lives. *)
Section constructors.
Context {G : Type} (into : G → F).

(** [src/src/driver/unix/op.rs:18-27] *)
Definition Read_new {T} (fd : G) (buffer : T) : Read T := mkRead T (into fd) buffer.
(** [src/src/driver/unix/op.rs:45-55] *)
Definition ReadAt_new {T} (fd : G) (offset : Z) (buffer : T) : ReadAt T :=
  mkReadAt T (into fd) offset buffer.
(** [src/src/driver/unix/op.rs:72-81] *)
Definition Write_new {T} (fd : G) (buffer : T) : Write T := mkWrite T (into fd) buffer.
(** [src/src/driver/unix/op.rs:99-109] *)
Definition WriteAt_new {T} (fd : G) (offset : Z) (buffer : T) : WriteAt T :=
  mkWriteAt T (into fd) offset buffer.
(** [src/src/driver/unix/op.rs:127-145] *)
Definition Connect_new (fd : G) (addr : SockAddr) : Connect := mkConnect (into fd) addr false.
(** [src/src/driver/unix/op.rs:177-189] *)
Definition Accept_new (ptr : Z) (fd : G) : Accept :=
  mkAccept (into fd) (mkSockAddr ptr zeroed_storage size_of_sockaddr_storage)
    size_of_sockaddr_storage.
(** [src/src/driver/unix/op.rs:164-175] the socket options are for IOCP *)
Definition Accept_with_socket_opts (ptr : Z) (fd : G) (domain ty : Z) (protocol : option Z) : Accept :=
  Accept_new ptr fd.
(** [src/src/driver/unix/op.rs:191-200] only the descriptor is set again *)
Definition Accept_init_with_socket_opts (a : Accept) (fd : G) (domain ty : Z) (protocol : option Z) :
    Accept := mkAccept (into fd) (accept_addr a) (accept_addr_len a).
(** [src/src/driver/unix/op.rs:228-244] *)
Definition Sync_new (fd : G) (datasync : bool) : Sync := mkSync (into fd) datasync.
(** [src/src/driver/unix/op.rs:253-262] *)
Definition Recv_new {T} (fd : G) (buffer : T) : Recv T := mkRecv T (into fd) buffer.
(** [src/src/driver/unix/op.rs:279-288] *)
Definition RecvVectored_new {V} (fd : G) (buffer : V) : RecvVectoredImpl V :=
  mkRecvVectored V (into fd) buffer.
(** [src/src/driver/unix/op.rs:305-314] *)
Definition Send_new {T} (fd : G) (buffer : T) : Send T := mkSend T (into fd) buffer.
(** [src/src/driver/unix/op.rs:331-340] *)
Definition SendVectored_new {V} (fd : G) (buffer : V) : SendVectoredImpl V :=
  mkSendVectored V (into fd) buffer.
(** [src/src/driver/unix/op.rs:359-369] *)
Definition RecvMsg_new {V} (ptr : Z) (fd : G) (buffer : V) : RecvMsgImpl V :=
  mkRecvMsg V (into fd) buffer ptr zeroed_storage zeroed_msghdr.
(** [src/src/driver/unix/op.rs:410-420] *)
Definition SendMsg_new {V} (fd : G) (buffer : V) (addr : SockAddr) : SendMsgImpl V :=
  mkSendMsg V (into fd) buffer addr zeroed_msghdr.
End constructors.

(** [src/src/driver/unix/op.rs:29-35] *)
Definition Read_into_inner {T} (r : Read T) : T := read_buffer _ r.
(** [src/src/driver/unix/op.rs:57-63] *)
Definition ReadAt_into_inner {T} (r : ReadAt T) : T := read_at_buffer _ r.
(** [src/src/driver/unix/op.rs:83-89] *)
Definition Write_into_inner {T} (r : Write T) : T := write_buffer _ r.
(** [src/src/driver/unix/op.rs:111-117] *)
Definition WriteAt_into_inner {T} (r : WriteAt T) : T := write_at_buffer _ r.
(** [src/src/driver/unix/op.rs:264-270] *)
Definition Recv_into_inner {T} (r : Recv T) : T := recv_buffer _ r.
(** [src/src/driver/unix/op.rs:290-296] *)
Definition RecvVectored_into_inner {V} (r : RecvVectoredImpl V) : V := recv_vectored_buffer _ r.
(** [src/src/driver/unix/op.rs:316-322] *)
Definition Send_into_inner {T} (r : Send T) : T := send_buffer _ r.
(** [src/src/driver/unix/op.rs:342-348] *)
Definition SendVectored_into_inner {V} (r : SendVectoredImpl V) : V := send_vectored_buffer _ r.
(** [src/src/driver/unix/op.rs:391-399] *)
Definition RecvMsg_into_inner {V} (r : RecvMsgImpl V) : V * SockAddr :=
  (recv_msg_buffer _ r,
   mkSockAddr (recv_msg_addr_ptr _ r) (recv_msg_addr _ r) (msg_namelen (recv_msg_msg _ r))).
(** [src/src/driver/unix/op.rs:442-448] *)
Definition SendMsg_into_inner {V} (r : SendMsgImpl V) : V := send_msg_buffer _ r.

(** [src/src/driver/unix/op.rs:371-388] *)
Definition RecvMsg_set_msg {V} `{!AsIoSlicesMut V} (r : RecvMsgImpl V) : RecvMsgImpl V :=
  let slices := as_io_slices_mut (recv_msg_buffer _ r) in
  mkRecvMsg V (recv_msg_fd _ r) (recv_msg_buffer _ r) (recv_msg_addr_ptr _ r) (recv_msg_addr _ r)
    (mkMsghdr (recv_msg_addr_ptr _ r) size_of_sockaddr_storage slices (length slices) 0 0).
(** [src/src/driver/unix/op.rs:422-439] *)
Definition SendMsg_set_msg {V} `{!AsIoSlices V} (r : SendMsgImpl V) : SendMsgImpl V :=
  let slices := as_io_slices (send_msg_buffer _ r) in
  mkSendMsg V (send_msg_fd _ r) (send_msg_buffer _ r) (send_msg_addr _ r)
    (mkMsghdr (sa_ptr (send_msg_addr _ r)) (sa_len (send_msg_addr _ r)) slices (length slices) 0 0).

(** [src/src/driver/unix/op.rs:147-152] *)
Definition on_connect (c : Connect) (result : io_result Z) : io_result unit :=
  result_map (λ _, tt) result.

(** [src/src/driver/unix/op.rs:214-218] the length the kernel stored becomes the address's length *)
Definition as_sockaddr (a : Accept) : Accept :=
  mkAccept (accept_fd a)
    (mkSockAddr (sa_ptr (accept_addr a)) (sa_storage (accept_addr a)) (accept_addr_len a))
    (accept_addr_len a).

(** [src/src/driver/unix/op.rs:202-212] [set_nonblocking] is the call made outside Linux; the accepted
    socket is its descriptor, which is closed by [drop] when it is not returned *)
Definition on_accept {W} (set_nonblocking : option (Z → W → io_result unit * W)) (drop : Z → W → W)
    (a : Accept) (result : io_result Z) (w : W) : io_result (Z * SockAddr) * Accept * W :=
  match result with
  | Err e => (Err e, a, w)
  | Ok fd =>
      let accept_sock := as_i32 fd in
      let '(r, w) := match set_nonblocking with Some f => f accept_sock w | None => (Ok tt, w) end in
      match r with
      | Err e => (Err e, a, drop accept_sock w)
      | Ok _ => let a := as_sockaddr a in (Ok (accept_sock, accept_addr a), a, w)
      end
  end.

End ops.
Arguments Read : clear implicits.
Arguments ReadAt : clear implicits.
Arguments Write : clear implicits.
Arguments WriteAt : clear implicits.
Arguments Connect : clear implicits.
Arguments Accept : clear implicits.
Arguments Sync : clear implicits.
Arguments Recv : clear implicits.
Arguments RecvVectoredImpl : clear implicits.
Arguments Send : clear implicits.
Arguments SendVectoredImpl : clear implicits.
Arguments RecvMsgImpl : clear implicits.
Arguments SendMsgImpl : clear implicits.

(** ** Lemmas *)

(** The message header of a receive covers exactly the uninitialised parts of its buffers. *)
Lemma RecvMsg_set_msg_covers {F V} `{!AsIoSlicesMut V} (r : RecvMsgImpl F V) :
  msg_iov (recv_msg_msg _ (RecvMsg_set_msg r)) = as_io_slices_mut (recv_msg_buffer _ r) ∧
  msg_iovlen (recv_msg_msg _ (RecvMsg_set_msg r)) = length (as_io_slices_mut (recv_msg_buffer _ r)) ∧
  msg_namelen (recv_msg_msg _ (RecvMsg_set_msg r)) ≠ 0%Z.
Proof. done. Qed.
