(* ===== verification/Kqueue.v ===== *)
(** * The kqueue driver

    [src/driver/kqueue/mod.rs].  The driver polls: an operation is tried when
    it is submitted ([operate]); one that would block waits in [io_pending]
    and its filter is registered with the kernel, with its index in
    [io_pending] as the event's user data.  [OpCode] is the driver's trait of
    operations and [KqueueOs] what it asks of the system: the [kevent] call of
    rustix and the clock. *)

From S2P Require Import Prelude BinaryHeap Driver TimerWheel.
From stdpp Require Import base numbers sorting sets gmap list.

(** ** Events (rustix::event::kqueue) *)

Inductive EventFilter := FilterRead (fd : Z) | FilterWrite (fd : Z) | FilterOther.

#[global] Instance EventFilter_eq_dec : EqDecision EventFilter.
Proof. solve_decision. Defined.

Record Event := mkEvent { filter_of : EventFilter; flags_of : Z; data_of : Z; udata_of : Z }.

#[global] Instance Event_eq_dec : EqDecision Event.
Proof. solve_decision. Defined.

Definition EV_ADD : Z := 1.
Definition EV_ENABLE : Z := 4.
Definition EV_ONESHOT : Z := 16.
Definition EV_ERROR : Z := 16384.

(** [Event::new]: no data yet. *)
Definition Event_new (filter : EventFilter) (flags udata : Z) : Event := mkEvent filter flags 0 udata.

(** ** Descriptors and operations *)

(** [src/src/driver/kqueue/mod.rs:22-41] Fd, from_raw, as_raw_fd *)
Record Fd := from_raw { as_raw_fd : Z }.

(** [src/src/driver/kqueue/mod.rs:49-56] IntoFdOrFixed for Fd, whose target is Fd (lines 58-61) *)
Definition Fd_into (fd : Fd) : Fd := fd.

(** [src/src/driver/kqueue/mod.rs:63-67] *)
Definition INVALID_FD : Fd := from_raw (-1).

(** [src/src/driver/kqueue/mod.rs:69-83] the methods that take [&self] read the world: an operation
    may be a reference to a box *)
Class OpCode (Op W : Type) := {
  operate : Op → W → outcome (option (io_result Z) * Op * W);
  as_event : Op → Z → W → outcome Event;
  timer_delay : Op → W → outcome Z;
}.

#[global] Hint Mode OpCode ! ! : typeclass_instances.

(** The kernel's event queue, called with the change list, the room for ready events and the
    timeout, and the boot-time clock. *)
Class KqueueOs (W : Type) := {
  kevent : Z → list Event → nat → Z → W → io_result (list Event) * W;
  instant_now : W → Z * W;
  instant_add : Z → Z → outcome Z;
}.

(** [src/src/driver/kqueue/mod.rs:85-86] *)
Definition TIMER_PENDING : Z := usize_MAX - 2.

(** ** The driver *)

Section driver.
Context {Op W : Type} `{!OpCode Op W, !KqueueOs W}.

(** [src/src/driver/kqueue/mod.rs:88-111] with the capacities of the two vectors *)
Record Driver := mkDriver {
  kqueue : Z;
  squeue : list (OpObject Op);
  squeue_capacity : nat;
  squeue_drained_till : nat;
  io_pending : list (OpObject Op);
  events_to_change : list Event;
  events_capacity : nat;
  ready_events : list Event;
  completed_events_indices : gset nat;
  to_change_fd_reads : gset Z;
  to_change_fd_writes : gset Z;
  timers : TimerWheel;
}.

Definition set_squeue (q : list (OpObject Op)) (d : Driver) : Driver :=
  mkDriver (kqueue d) q (squeue_capacity d) (squeue_drained_till d) (io_pending d)
    (events_to_change d) (events_capacity d) (ready_events d) (completed_events_indices d)
    (to_change_fd_reads d) (to_change_fd_writes d) (timers d).
Definition set_drained (n : nat) (d : Driver) : Driver :=
  mkDriver (kqueue d) (squeue d) (squeue_capacity d) n (io_pending d)
    (events_to_change d) (events_capacity d) (ready_events d) (completed_events_indices d)
    (to_change_fd_reads d) (to_change_fd_writes d) (timers d).
Definition set_pending (q : list (OpObject Op)) (d : Driver) : Driver :=
  mkDriver (kqueue d) (squeue d) (squeue_capacity d) (squeue_drained_till d) q
    (events_to_change d) (events_capacity d) (ready_events d) (completed_events_indices d)
    (to_change_fd_reads d) (to_change_fd_writes d) (timers d).
Definition set_changes (evs : list Event) (reads writes : gset Z) (d : Driver) : Driver :=
  mkDriver (kqueue d) (squeue d) (squeue_capacity d) (squeue_drained_till d) (io_pending d)
    evs (events_capacity d) (ready_events d) (completed_events_indices d)
    reads writes (timers d).
Definition set_ready (evs : list Event) (d : Driver) : Driver :=
  mkDriver (kqueue d) (squeue d) (squeue_capacity d) (squeue_drained_till d) (io_pending d)
    (events_to_change d) (events_capacity d) evs (completed_events_indices d)
    (to_change_fd_reads d) (to_change_fd_writes d) (timers d).
Definition set_completed (s : gset nat) (d : Driver) : Driver :=
  mkDriver (kqueue d) (squeue d) (squeue_capacity d) (squeue_drained_till d) (io_pending d)
    (events_to_change d) (events_capacity d) (ready_events d) s
    (to_change_fd_reads d) (to_change_fd_writes d) (timers d).
Definition set_timers (tw : TimerWheel) (d : Driver) : Driver :=
  mkDriver (kqueue d) (squeue d) (squeue_capacity d) (squeue_drained_till d) (io_pending d)
    (events_to_change d) (events_capacity d) (ready_events d) (completed_events_indices d)
    (to_change_fd_reads d) (to_change_fd_writes d) tw.

(** [src/src/driver/kqueue/mod.rs:119-139] given the result of [kqueue()]; [Vec::with_capacity]
    allocates the capacity asked for *)
Definition with_ (entries files_to_register : nat) (kq : io_result Z) : io_result Driver :=
  match kq with
  | Err e => Err e
  | Ok kq =>
      Ok (mkDriver kq [] entries entries [] [] entries [] ∅ ∅ ∅ (with_capacity 16))
  end.

(** [src/src/driver/kqueue/mod.rs:114-117] *)
Definition new (kq : io_result Z) : io_result Driver := with_ 1024 0 kq.

(** [src/src/driver/kqueue/mod.rs:141-173] the iterator of [operate_squeue]: [idx] counts the
    drained operations *)
Fixpoint operate_drained (idx : nat) (ops : list (OpObject Op)) (d : Driver) (w : W) :
    outcome (list Entry * Driver * W) :=
  match ops with
  | [] => Done ([], d, w)
  | o :: ops =>
      let user_data := user_data o in
      '(res, op', w) ← operate (op o) w;
      match res with
      | None => operate_drained (S idx) ops (set_pending (io_pending d ++ [set_op o op']) d) w
      | Some res =>
          if bool_decide (res = Ok TIMER_PENDING) then
            delay ← timer_delay op' w;
            let '(now, w) := instant_now w in
            tw ← TimerWheel.insert (instant_add (W := W)) user_data delay now (timers d);
            operate_drained (S idx) ops (set_timers tw d) w
          else
            '(es, d, w) ← operate_drained (S idx) ops (set_drained (idx + 1) d) w;
            Done (Entry_new user_data res :: es, d, w)
      end
  end.

(** [src/src/driver/kqueue/mod.rs:141-173] *)
Definition operate_squeue (d : Driver) (w : W) : outcome (list Entry * Driver * W) :=
  '(es, d, w) ← operate_drained 0 (squeue d) (set_squeue [] d) w;
  Done (es, set_drained (squeue_capacity d) d, w).

(** [src/src/driver/kqueue/mod.rs:183-205] the iterator over the ready events *)
Fixpoint operate_ready (evs : list Event) (d : Driver) (w : W) :
    outcome (list Entry * Driver * W) :=
  match evs with
  | [] => Done ([], d, w)
  | event :: evs =>
      let index := Z.to_nat (as_u64 (udata_of event)) in
      o ← expect (io_pending d !! index);
      let user_data := user_data o in
      let mark := set_completed ({[index]} ∪ completed_events_indices d) in
      if bool_decide (Z.land (flags_of event) EV_ERROR ≠ 0)%Z then
        _ ← rust_assert (bool_decide (- 2 ^ 31 ≤ data_of event < 2 ^ 31)%Z);
        '(es, d, w) ← operate_ready evs (mark d) w;
        Done (Entry_new user_data (Err (Os (data_of event))) :: es, d, w)
      else
        '(res, op', w) ← operate (op o) w;
        let d' := set_pending (<[index := set_op o op']> (io_pending d)) d in
        match res with
        | None => operate_ready evs d' w
        | Some res =>
            '(es, d, w) ← operate_ready evs
                (set_completed ({[index]} ∪ completed_events_indices d') d') w;
            Done (Entry_new user_data res :: es, d, w)
        end
  end.

(** [src/src/driver/kqueue/mod.rs:209-217] the requeue loop, [n] iterations from [index] on *)
Fixpoint requeue (completed : gset nat) (index n : nat) (q : list (OpObject Op)) :
    outcome (list (OpObject Op)) :=
  match n with
  | 0 => Done q
  | S n =>
      match q with
      | [] => Panic
      | o :: q =>
          requeue completed (S index) n
            (if bool_decide (index ∈ completed) then q else q ++ [o])
      end
  end.

(** [src/src/driver/kqueue/mod.rs:175-218] *)
Definition operate_completed_and_requeue (io_pending_scanned_till : nat) (d : Driver) (w : W) :
    outcome (list Entry * Driver * W) :=
  '(es, d, w) ← operate_ready (ready_events d) (set_ready [] (set_completed ∅ d)) w;
  q ← requeue (completed_events_indices d) 0 io_pending_scanned_till (io_pending d);
  Done (es, set_pending q d, w).

(** The state of the scan over the pending operations. *)
Record Scan := mkScan {
  sc_events : list Event; sc_count : nat; sc_till : nat; sc_reads : gset Z; sc_writes : gset Z }.

(** [src/src/driver/kqueue/mod.rs:232-267] the scan of [check_readiness], from [index] on *)
Fixpoint scan_pending (w : W) (max_events index : nat) (ops : list (OpObject Op)) (sc : Scan) :
    outcome Scan :=
  match ops with
  | [] => Done sc
  | o :: ops =>
      let sc := mkScan (sc_events sc) (sc_count sc) index (sc_reads sc) (sc_writes sc) in
      if bool_decide (sc_count sc < max_events) then
        event ← as_event (op o) (Z.of_nat index) w;
        '(fd_absent, reads, writes) ←
          match filter_of event with
          | FilterRead raw_fd =>
              _ ← rust_assert (bool_decide (0 ≤ raw_fd)%Z);
              let fd := as_u64 raw_fd in
              Done (bool_decide (fd ∉ sc_reads sc), {[fd]} ∪ sc_reads sc, sc_writes sc)
          | FilterWrite raw_fd =>
              let fd := as_u64 raw_fd in
              Done (bool_decide (fd ∉ sc_writes sc), sc_reads sc, {[fd]} ∪ sc_writes sc)
          | FilterOther => Panic
          end;
        scan_pending w max_events (S index) ops
          (if fd_absent : bool
           then mkScan (sc_events sc ++ [event]) (S (sc_count sc)) (sc_till sc) reads writes
           else mkScan (sc_events sc) (sc_count sc) (sc_till sc) reads writes)
      else Done sc
  end.

(** [src/src/driver/kqueue/mod.rs:220-287] entries, and the index the scan stopped at *)
Definition check_readiness (timeout : option Z) (d : Driver) (w : W) :
    outcome (list Entry * io_result nat * Driver * W) :=
  sc ← scan_pending w (events_capacity d) 0 (io_pending d) (mkScan [] 0 0 ∅ ∅);
  let d := set_changes (sc_events sc) (sc_reads sc) (sc_writes sc) d in
  let '(timeout, w) :=
    match heap_peek (leb := Timer_leb) (timers d) with
    | Some _ => let '(now, w) := instant_now w in
                (till_next_timer_or_timeout timeout now (timers d), w)
    | None => (timeout, w)
    end in
  let timeout := match timeout with Some t => t | None => 0%Z end in
  let '(res, w) := kevent (kqueue d) (events_to_change d) (events_capacity d) timeout w in
  let d := set_ready (match res with Ok evs => evs | Err _ => [] end) d in
  let '(now, w) := instant_now w in
  let '(es, tw) := expire_timers now (timers d) in
  Done (es, result_map (λ _, sc_till sc) res, set_timers tw d, w).

(** [src/src/driver/kqueue/mod.rs:291-299] attach, and register_fd which ignores the id *)
Definition attach (fd : Z) (d : Driver) : io_result Fd * Driver := (Ok (from_raw fd), d).
(** [src/src/driver/kqueue/mod.rs:296-299] *)
Definition register_fd (fd : Z) (id : Z) (d : Driver) : io_result Fd * Driver :=
  (Ok (from_raw fd), d).
(** [src/src/driver/kqueue/mod.rs:301-304] *)
Definition unregister_fd (fixed_fd : Fd) (d : Driver) : io_result unit * Driver := (Ok tt, d).

(** [src/src/driver/kqueue/mod.rs:306-324] *)
Definition try_cancel (u : Z) (d : Driver) : result unit unit * Driver :=
  (Ok tt, set_pending (remove_first u (io_pending d)) (set_squeue (remove_first u (squeue d)) d)).

(** [src/src/driver/kqueue/mod.rs:389-393] *)
Definition Driver_as_raw_fd (d : Driver) : Z := kqueue d.

(** [src/src/driver/kqueue/mod.rs:358-361] *)
Definition capacity_left (d : Driver) : nat := squeue_drained_till d - length (squeue d).

(** [src/src/driver/kqueue/mod.rs:339-347] *)
Definition try_push_dyn (o : OpObject Op) (d : Driver) : result unit (OpObject Op) * Driver :=
  if bool_decide (0 < capacity_left d) then (Ok tt, set_squeue (squeue d ++ [o]) d)
  else (Err o, d).

(** [src/src/driver/kqueue/mod.rs:326-337] *)
Definition try_push {O} (up : O → Op) (o : Operation O) (d : Driver) :
    result unit (Operation O) * Driver :=
  if bool_decide (0 < capacity_left d)
  then (Ok tt, set_squeue (squeue d ++ [OpObject_from_Operation up o]) d)
  else (Err o, d).

(** [src/src/driver/kqueue/mod.rs:349-356] *)
Definition push_queue (ops_queue : list (OpObject Op)) (d : Driver) : list (OpObject Op) * Driver :=
  let till := Nat.min (capacity_left d) (length ops_queue) in
  (drop till ops_queue, set_squeue (squeue d ++ take till ops_queue) d).

(** [src/src/driver/kqueue/mod.rs:363-386] *)
Definition submit (timeout : option Z) (d : Driver) (w : W) :
    outcome (list Entry * io_result unit * Driver * W) :=
  let ops_pushed := bool_decide (0 < length (squeue d)) in
  '(es1, d, w) ← operate_squeue d w;
  if ops_pushed && bool_decide (io_pending d = []) then
    let '(now, w) := instant_now w in
    let '(es2, tw) := expire_timers now (timers d) in
    Done (es1 ++ es2, Ok tt, set_timers tw d, w)
  else
    '(es2, scanned, d, w) ← check_readiness timeout d w;
    match scanned with
    | Err e => Done (es1 ++ es2, Err e, d, w)
    | Ok till =>
        '(es3, d, w) ← operate_completed_and_requeue till d w;
        Done (es1 ++ es2 ++ es3, Ok tt, d, w)
    end.

(** ** Lemmas *)

#[local] Arguments check_readiness : simpl never.
#[local] Arguments operate_completed_and_requeue : simpl never.
Implicit Types (d : Driver) (w : W) (o : OpObject Op) (q : list (OpObject Op)).

(** What polling operations never touches. *)
Definition same_frame d d' : Prop :=
  squeue d' = squeue d ∧ squeue_capacity d' = squeue_capacity d ∧
  events_capacity d' = events_capacity d ∧ kqueue d' = kqueue d.

#[global] Instance same_frame_refl : Reflexive same_frame.
Proof. done. Qed.
#[global] Instance same_frame_trans : Transitive same_frame.
Proof. intros d1 d2 d3 (? & ? & ? & ?) (? & ? & ? & ?). unfold same_frame. by split_and!; etrans. Qed.

(** Every drained operation ends in exactly one place: an entry, the pending queue or the wheel. *)
Lemma operate_drained_spec ops : ∀ idx d w es d' w',
  operate_drained idx ops d w = Done (es, d', w') →
  same_frame d d' ∧ (wheel_wf (timers d) → wheel_wf (timers d')) ∧
  ∃ ps ts, io_pending d' = io_pending d ++ ps ∧
    wheel_timers (timers d') ≡ₚ ts ++ wheel_timers (timers d) ∧
    user_data <$> ops ≡ₚ (entry_user_data <$> es) ++ (user_data <$> ps) ++ (key <$> ts).
Proof.
  induction ops as [|o ops IH]; intros idx d w es d' w' E; cbn in E.
  { simplify_eq. split; [done|]. split; [done|]. exists [], []. by rewrite app_nil_r. }
  destruct (operate (op o) w) as [[[res op'] w1]| |]; simpl_outcome; try done.
  destruct res as [res|].
  - case_bool_decide.
    + destruct (timer_delay op' _) as [delay| |]; simpl_outcome; try done.
      destruct (instant_now w1) as [now w2]. destruct (TimerWheel.insert _ _ _ _ _) as [tw| |] eqn:Ei; simpl_outcome; try done.
      destruct (insert_Done _ _ _ _ _ _ Ei) as (Hi & dl & _ & Hti). apply IH in E as (Hf & Hwf & ps & ts & Hp & Ht & Hperm).
      split; [done|]. split.
      { intros. apply Hwf. cbn. by apply Hi. }
      exists ps, (ts ++ [mkTimer (user_data o) dl]). split; [done|]. split.
      { cbn in Ht. by rewrite Ht, Hti, <- app_assoc. }
      rewrite fmap_app. cbn. rewrite Hperm, !app_assoc. by rewrite Permutation_cons_append.
    + destruct (operate_drained _ _ _ _) as [[[es1 d1] w2]| |] eqn:E1; simpl_outcome; try done.
      simplify_eq. apply IH in E1 as (Hf & Hwf & ps & ts & Hp & Ht & Hperm).
      split; [done|]. split; [done|]. exists ps, ts. split_and!; try done. cbn. by rewrite Hperm.
  - apply IH in E as (Hf & Hwf & ps & ts & Hp & Ht & Hperm). split; [done|]. split; [done|].
    exists (set_op o op' :: ps), ts. cbn in *. split_and!; try done.
    + by rewrite Hp, <- app_assoc.
    + rewrite Hperm. by rewrite Permutation_middle.
Qed.

(** The operations of a prefix that are not completed. *)
Fixpoint kept (completed : gset nat) (index : nat) q : list (OpObject Op) :=
  match q with
  | [] => []
  | o :: q =>
      if bool_decide (index ∈ completed) then kept completed (S index) q
      else o :: kept completed (S index) q
  end.

Lemma requeue_app completed n : ∀ index q q2,
  length q = n →
  requeue completed index n (q ++ q2) = Done (q2 ++ kept completed index q).
Proof.
  induction n as [|n IH]; intros index q q2 Hlen; destruct q as [|o q]; try done; cbn in *.
  { by rewrite app_nil_r. }
  case_bool_decide.
  - by rewrite IH by lia.
  - rewrite <- app_assoc, IH by lia. by rewrite <- app_assoc.
Qed.

Lemma requeue_spec completed n q :
  n ≤ length q →
  requeue completed 0 n q = Done (drop n q ++ kept completed 0 (take n q)).
Proof.
  intros. rewrite <- (take_drop n q) at 1. apply requeue_app. rewrite length_take. lia.
Qed.

Lemma elem_of_kept completed q o : ∀ index,
  o ∈ kept completed index q ↔ ∃ i, q !! i = Some o ∧ index + i ∉ completed.
Proof.
  induction q as [|x q IH]; intros index; cbn.
  { split; [set_solver|]. intros (i & Hi & _). by rewrite lookup_nil in Hi. }
  case_bool_decide as Hin; [|rewrite elem_of_cons]; rewrite IH; split.
  - intros (i & Hi & Hn). exists (S i). by rewrite Nat.add_succ_r.
  - intros ([|i] & Hi & Hn); cbn in Hi.
    + by rewrite Nat.add_0_r in Hn.
    + exists i. by rewrite Nat.add_succ_r in Hn.
  - intros [->|(i & Hi & Hn)].
    + exists 0. by rewrite Nat.add_0_r.
    + exists (S i). by rewrite Nat.add_succ_r.
  - intros ([|i] & Hi & Hn); cbn in Hi; simplify_eq; [by left|].
    right. exists i. by rewrite Nat.add_succ_r in Hn.
Qed.

(** Polling the ready operations keeps the queue's user data; the entries are those of the indices
    it marks as completed. *)
Lemma operate_ready_spec evs : ∀ d w es d' w',
  operate_ready evs d w = Done (es, d', w') →
  same_frame d d' ∧ (timers d' = timers d ∧ squeue_drained_till d' = squeue_drained_till d) ∧
  user_data <$> io_pending d' = user_data <$> io_pending d ∧
  ∃ idxs, completed_events_indices d' = list_to_set idxs ∪ completed_events_indices d ∧
    Some <$> (entry_user_data <$> es) =
    (λ i : nat, (user_data <$> io_pending d) !! i) <$> idxs.
Proof.
  induction evs as [|ev evs IH]; intros d w es d' w' E; cbn in E.
  { simplify_eq. split_and!; try done. exists []. cbn. split; [set_solver|done]. }
  destruct (io_pending d !! _) as [o|] eqn:Hi; simpl_outcome; [|done].
  set (i := Z.to_nat _) in *.
  assert ((user_data <$> io_pending d) !! i = Some (user_data o)) as Hud
    by by rewrite list_lookup_fmap, Hi.
  case_bool_decide.
  - destruct (rust_assert _); simpl_outcome; try done.
    destruct (operate_ready _ _ _) as [[[es1 d1] w1]| |] eqn:E1; simpl_outcome; try done.
    simplify_eq. apply IH in E1 as (Hf & [Ht Hdt] & Hu & idxs & Hc & Hes). split_and!; try done.
    exists (i :: idxs). cbn in *. split; [set_solver|]. by rewrite Hud, Hes.
  - destruct (operate (op o) w) as [[[res op'] w1]| |]; simpl_outcome; try done.
    assert (user_data <$> <[i := set_op o op']> (io_pending d) = user_data <$> io_pending d) as Hins.
    { rewrite list_fmap_insert. cbn. by apply list_insert_id. }
    destruct res as [res|].
    + destruct (operate_ready _ _ _) as [[[es1 d1] w2]| |] eqn:E1; simpl_outcome; try done.
      simplify_eq. apply IH in E1 as (Hf & [Ht Hdt] & Hu & idxs & Hc & Hes). cbn in *. rewrite Hins in *.
      split_and!; try done. exists (i :: idxs). cbn. split; [set_solver|]. by rewrite Hud, Hes.
    + apply IH in E as (Hf & [Ht Hdt] & Hu & idxs & Hc & Hes). cbn in *. rewrite Hins in *.
      split_and!; try done. by exists idxs.
Qed.

Lemma operate_completed_and_requeue_spec till d w es d' w' :
  till ≤ length (io_pending d) →
  operate_completed_and_requeue till d w = Done (es, d', w') →
  same_frame d d' ∧ (timers d' = timers d ∧ squeue_drained_till d' = squeue_drained_till d) ∧
  ∃ q idxs,
    user_data <$> q = user_data <$> io_pending d ∧
    Some <$> (entry_user_data <$> es) = (λ i : nat, (user_data <$> io_pending d) !! i) <$> idxs ∧
    io_pending d' = drop till q ++ kept (list_to_set idxs) 0 (take till q).
Proof.
  intros Htill. unfold operate_completed_and_requeue.
  destruct (operate_ready _ _ _) as [[[es1 d1] w1]| |] eqn:E1; simpl_outcome; try done.
  apply operate_ready_spec in E1 as (Hf & [Ht Hdt] & Hu & idxs & Hc & Hes). cbn in *.
  assert (length (io_pending d1) = length (io_pending d)) as Hlen.
  { by rewrite <- (length_fmap user_data), Hu, length_fmap. }
  rewrite requeue_spec by lia. simpl_outcome. intros; simplify_eq.
  split; [exact Hf|]. split; [done|]. exists (io_pending d1), idxs. split_and!; try done. cbn.
  rewrite Hc. by rewrite (right_id_L ∅ (∪)).
Qed.

(** An event's filter is in the sets that deduplicate the change list. *)
Definition registered (sc : Scan) (ev : Event) : Prop :=
  match filter_of ev with
  | FilterRead fd => as_u64 fd ∈ sc_reads sc
  | FilterWrite fd => as_u64 fd ∈ sc_writes sc
  | FilterOther => False
  end.

Definition scan_ok (max_events : nat) (sc : Scan) : Prop :=
  sc_count sc = length (sc_events sc) ∧ sc_count sc ≤ max_events ∧
  NoDup (filter_of <$> sc_events sc) ∧ Forall (registered sc) (sc_events sc).

Lemma scan_ok_add max_events sc ev reads writes :
  scan_ok max_events sc → sc_count sc < max_events →
  sc_reads sc ⊆ reads → sc_writes sc ⊆ writes →
  ¬ registered sc ev →
  registered (mkScan [] 0 0 reads writes) ev →
  scan_ok max_events (mkScan (sc_events sc ++ [ev]) (S (sc_count sc)) (sc_till sc) reads writes).
Proof.
  intros (Hc & Hm & Hnd & Hreg) Hlt Hr Hw Hnot Hnew. rewrite Forall_forall in Hreg.
  split_and!; cbn; [rewrite length_app; cbn; lia|lia| |].
  - rewrite fmap_app. apply NoDup_app. split_and!; [done| |apply NoDup_singleton].
    intros f Hf Hf'. apply list_elem_of_singleton in Hf' as ->.
    apply list_elem_of_fmap in Hf as (ev' & Heq & Hin). specialize (Hreg _ Hin).
    apply Hnot. unfold registered in *. by rewrite Heq.
  - apply Forall_app. split; [|by apply Forall_singleton].
    apply Forall_forall. intros ev' Hin. specialize (Hreg _ Hin).
    unfold registered in *. cbn. destruct (filter_of ev'); set_solver.
Qed.

Lemma scan_ok_mono max_events sc till reads writes :
  scan_ok max_events sc → sc_reads sc ⊆ reads → sc_writes sc ⊆ writes →
  scan_ok max_events (mkScan (sc_events sc) (sc_count sc) till reads writes).
Proof.
  intros (Hc & Hm & Hnd & Hreg) Hr Hw. split_and!; cbn; try done.
  eapply Forall_impl; [exact Hreg|]. intros ev. unfold registered. cbn.
  destruct (filter_of ev); set_solver.
Qed.

Lemma scan_pending_spec w max_events ops : ∀ index sc sc',
  scan_ok max_events sc →
  scan_pending w max_events index ops sc = Done sc' →
  scan_ok max_events sc' ∧
  (∀ ev, ev ∈ sc_events sc' → ev ∈ sc_events sc ∨
     ∃ i o, ops !! i = Some o ∧ as_event (op o) (Z.of_nat (index + i)) w = Done ev ∧
            index + i ≤ sc_till sc') ∧
  (ops = [] → sc_till sc' = sc_till sc) ∧
  (ops ≠ [] → index ≤ sc_till sc' < index + length ops) ∧
  (ops ≠ [] → sc_count sc + length ops ≤ max_events → sc_till sc' = index + length ops - 1).
Proof.
  induction ops as [|o ops IH]; intros index sc sc' Hok E; cbn in E.
  { simplify_eq. split_and!; auto; done. }
  case_bool_decide as Hlt; cycle 1.
  { simplify_eq. cbn in *. split_and!; [by apply (scan_ok_mono max_events sc)|by left|done| |];
      intros; cbn; lia. }
  destruct (as_event (op o) (Z.of_nat index) w) as [ev| |] eqn:Hev; simpl_outcome; try done.
  match type of E with context [match ?x with Done _ => _ | Panic => _ | Undef => _ end] =>
    destruct x as [[[absent reads] writes]| |] eqn:Hf; [|done..] end.
  assert (sc_reads sc ⊆ reads ∧ sc_writes sc ⊆ writes ∧
    (absent = true → ¬ registered sc ev) ∧ registered (mkScan [] 0 0 reads writes) ev)
    as (Hr & Hw & Habs & Hnew).
  { unfold registered. destruct (filter_of ev) as [fd|fd|]; cbn in *; [|simplify_eq|done].
    - destruct (rust_assert _); [|done..]. simplify_eq. case_bool_decide; set_solver.
    - case_bool_decide; set_solver. }
  set (sc1 := if absent then _ else _) in E.
  assert (scan_ok max_events sc1 ∧ sc_till sc1 = index ∧ sc_count sc1 ≤ S (sc_count sc) ∧
    (∀ e, e ∈ sc_events sc1 → e ∈ sc_events sc ∨ e = ev)) as (Hok1 & Ht1 & Hc1 & Hev1).
  { subst sc1. destruct absent; cbn; split_and!; try done; try lia.
    - apply (scan_ok_add _ (mkScan (sc_events sc) (sc_count sc) index (sc_reads sc) (sc_writes sc)));
        auto.
    - intros e. rewrite elem_of_app, list_elem_of_singleton. done.
    - by apply (scan_ok_mono max_events sc).
    - auto. }
  clearbody sc1. apply IH in E as (Hok' & Hev' & Hnil & Hrange & Hfull); [|done].
  assert (index ≤ sc_till sc') as Hge.
  { destruct (decide (ops = [])) as [->|Hne]; [rewrite Hnil by done; lia|]. specialize (Hrange Hne). lia. }
  split_and!; try done.
  - intros e [Hin|(i & o' & Hi & He & Hle)]%Hev'.
    + apply Hev1 in Hin as [Hin| ->]; [by left|]. right. exists 0, o. cbn.
      rewrite Nat.add_0_r. auto.
    + right. exists (S i), o'. cbn. by rewrite Nat.add_succ_r.
  - intros _. destruct (decide (ops = [])) as [->|Hne]; cbn.
    + rewrite Hnil by done. lia.
    + specialize (Hrange Hne). lia.
  - intros _ Hle. destruct (decide (ops = [])) as [->|Hne]; cbn in *.
    + rewrite Hnil by done. lia.
    + rewrite Hfull by (done || lia). lia.
Qed.

(** The user data of every operation the driver knows. *)
Definition known d : list Z :=
  (user_data <$> squeue d) ++ (user_data <$> io_pending d) ++ (key <$> wheel_timers (timers d)).

Lemma operate_squeue_spec d w es d' w' :
  operate_squeue d w = Done (es, d', w') →
  squeue d' = [] ∧ squeue_drained_till d' = squeue_capacity d ∧
  squeue_capacity d' = squeue_capacity d ∧ events_capacity d' = events_capacity d ∧
  (wheel_wf (timers d) → wheel_wf (timers d')) ∧
  ∃ ps ts, io_pending d' = io_pending d ++ ps ∧
    wheel_timers (timers d') ≡ₚ ts ++ wheel_timers (timers d) ∧
    user_data <$> squeue d ≡ₚ (entry_user_data <$> es) ++ (user_data <$> ps) ++ (key <$> ts).
Proof.
  unfold operate_squeue. intros E.
  destruct (operate_drained _ _ _ _) as [[[es1 d1] w1]| |] eqn:E1; simpl_outcome; try done.
  simplify_eq. apply operate_drained_spec in E1 as ((Hsq & Hcap & Hev & _) & Hwf & Hex).
  by split_and!.
Qed.

Lemma check_readiness_spec t d w es r d' w' :
  wheel_wf (timers d) → check_readiness t d w = Done (es, r, d', w') →
  squeue d' = squeue d ∧ squeue_drained_till d' = squeue_drained_till d ∧
  squeue_capacity d' = squeue_capacity d ∧
  io_pending d' = io_pending d ∧ wheel_wf (timers d') ∧
  key <$> wheel_timers (timers d) ≡ₚ (entry_user_data <$> es) ++ (key <$> wheel_timers (timers d')) ∧
  ∃ sc, scan_pending w (events_capacity d) 0 (io_pending d) (mkScan [] 0 0 ∅ ∅) = Done sc ∧
    events_to_change d' = sc_events sc ∧ (∀ till, r = Ok till → till = sc_till sc).
Proof.
  intros Hwf. unfold check_readiness.
  destruct (scan_pending _ _ _ _ _) as [sc| |] eqn:Esc; simpl_outcome; try done.
  destruct (match heap_peek _ with Some _ => _ | None => _ end) as [t1 w1].
  destruct (kevent _ _ _ _ w1) as [res w2]. destruct (instant_now w2) as [now w3].
  destruct (expire_timers now (timers d)) as [es1 tw] eqn:Eex. intros; simplify_eq. cbn.
  apply expire_timers_keys in Eex as [Hwf' Hk]; [|done]. split_and!; try done.
  exists sc. split_and!; try done. intros till. by destruct res; cbn; intros; simplify_eq.
Qed.

Lemma scan_till_le w max_events ops sc :
  scan_pending w max_events 0 ops (mkScan [] 0 0 ∅ ∅) = Done sc → sc_till sc ≤ length ops.
Proof.
  intros E. apply scan_pending_spec in E as (_ & _ & Hnil & Hr & _).
  - destruct (decide (ops = [])) as [->|Hne]; [by rewrite Hnil|]. specialize (Hr Hne). lia.
  - split_and!; cbn; try done; [lia|constructor].
Qed.

(** Requeueing neither drops an operation that has no entry nor invents one. *)
Lemma requeued_known till d w es d' w' u :
  till ≤ length (io_pending d) →
  operate_completed_and_requeue till d w = Done (es, d', w') →
  u ∈ user_data <$> io_pending d ↔
    u ∈ entry_user_data <$> es ∨ u ∈ user_data <$> io_pending d'.
Proof.
  intros Htill E. apply operate_completed_and_requeue_spec in E as (_ & _ & q & idxs & Hq & Hes & Hp);
    [|done].
  assert (∀ v, v ∈ entry_user_data <$> es → v ∈ user_data <$> io_pending d) as Hin.
  { intros v Hv. apply (list_elem_of_fmap_2 Some) in Hv. rewrite Hes in Hv.
    apply list_elem_of_fmap in Hv as (i & Hi & _). symmetry in Hi.
    by eapply list_elem_of_lookup_2. }
  assert (length q = length (io_pending d)) as Hlen.
  { by rewrite <- (length_fmap user_data), Hq, length_fmap. }
  rewrite <- Hq in *. rewrite Hp, fmap_app, elem_of_app. split.
  - intros (o & -> & Ho)%list_elem_of_fmap. apply list_elem_of_lookup_1 in Ho as [i Hi].
    destruct (decide (i < till)) as [Hlt|Hge].
    + destruct (decide (i ∈ idxs)) as [Hix|Hix].
      * left. apply (list_elem_of_fmap_2 (λ i, (user_data <$> q) !! i)) in Hix.
        rewrite <- Hes, list_lookup_fmap, Hi in Hix. cbn in Hix.
        apply list_elem_of_fmap in Hix as (v & ? & ?). by simplify_eq.
      * right. right. apply list_elem_of_fmap_2, elem_of_kept. exists i. cbn.
        rewrite elem_of_list_to_set. split; [|done]. by rewrite lookup_take_lt.
    + right. left. apply list_elem_of_fmap_2, (list_elem_of_lookup_2 _ (i - till)).
      rewrite lookup_drop. by replace (till + (i - till)) with i by lia.
  - intros [Hu|[Hu|Hu]]; [by apply Hin| |].
    + rewrite fmap_drop in Hu. rewrite <- (take_drop till (user_data <$> q)). set_solver.
    + apply list_elem_of_fmap in Hu as (o & -> & (i & Hi & _)%elem_of_kept).
      apply list_elem_of_fmap_2, (list_elem_of_lookup_2 _ i). by apply lookup_take_Some in Hi as [??].
Qed.

(** What a submit does to the queues. *)
Lemma submit_spec t d w es r d' w' :
  wheel_wf (timers d) → submit t d w = Done (es, r, d', w') →
  wheel_wf (timers d') ∧ squeue d' = [] ∧ squeue_capacity d' = squeue_capacity d ∧
  squeue_drained_till d' = squeue_capacity d ∧
  ∀ u, u ∈ known d ↔ u ∈ entry_user_data <$> es ∨ u ∈ known d'.
Proof.
  intros Hwf. unfold submit.
  destruct (operate_squeue d w) as [[[es1 d1] w1]| |] eqn:E1; simpl_outcome; try done.
  apply operate_squeue_spec in E1 as (Hsq1 & Hdr1 & Hcap1 & _ & Hwf1 & ps & ts & Hp1 & Ht1 & Hk1).
  specialize (Hwf1 Hwf).
  assert (∀ u, u ∈ known d ↔ u ∈ entry_user_data <$> es1 ∨ u ∈ known d1) as Hstep.
  { intros u. unfold known. rewrite Hsq1, Hp1, Hk1, Ht1, !fmap_app. cbn. solve_mem. }
  case_match.
  - destruct (instant_now w1) as [now w2].
    destruct (expire_timers now (timers d1)) as [es2 tw] eqn:Eex. intros; simplify_eq.
    apply expire_timers_keys in Eex as [Hwf' Hk]; [|done]. split_and!; try done.
    intros u. rewrite Hstep. unfold known. cbn. rewrite Hk, fmap_app. solve_mem.
  - destruct (check_readiness t d1 w1) as [[[[es2 scanned] d2] w2]| |] eqn:E2; simpl_outcome; try done.
    apply check_readiness_spec in E2
      as (Hsq2 & Hdr2 & Hcap2 & Hp2 & Hwf2 & Hk2 & sc & Esc & _ & Htill); [|done].
    assert (∀ u, u ∈ known d ↔ u ∈ entry_user_data <$> (es1 ++ es2) ∨ u ∈ known d2) as Hstep2.
    { intros u. rewrite Hstep. unfold known. rewrite Hsq2, Hp2, Hk2, fmap_app. solve_mem. }
    destruct scanned as [till|e]; [|intros; simplify_eq; split_and!; congruence || done].
    rewrite (Htill till eq_refl). apply scan_till_le in Esc. rewrite <- Hp2 in Esc.
    destruct (operate_completed_and_requeue _ d2 w2) as [[[es3 d3] w3]| |] eqn:E3;
      simpl_outcome; try done.
    intros; simplify_eq.
    pose proof (λ u, requeued_known _ _ _ _ _ _ u Esc E3) as Hreq.
    apply operate_completed_and_requeue_spec in E3 as ((Hsq3 & Hcap3 & _) & (Ht3 & Hdr3) & _); [|done].
    split_and!; [by rewrite Ht3|congruence..|]. intros u. rewrite Hstep2. unfold known.
    rewrite Hsq3, Ht3, !fmap_app. specialize (Hreq u). solve_mem.
Qed.

(** What every poll of an operation, every wait and every look at the clock keeps, a submit keeps. *)
Section world.
Context (R : relation W) `{!PreOrder R}.
Context (operate_R : ∀ (o : Op) w res (o' : Op) w', operate o w = Done (res, o', w') → R w w').
Context (kevent_R : ∀ kq evs cap t w, R w (kevent kq evs cap t w).2).
Context (now_R : ∀ w, R w (instant_now w).2).

Lemma now_world w now w' : instant_now w = (now, w') → R w w'.
Proof. intros E. by rewrite <- (f_equal snd E : (instant_now w).2 = w'). Qed.

Lemma operate_drained_world ops : ∀ idx d w es d' w',
  operate_drained idx ops d w = Done (es, d', w') → R w w'.
Proof.
  induction ops as [|o ops IH]; intros idx d w es d' w' E; cbn in E; [by simplify_eq|].
  destruct (operate (op o) w) as [[[res op'] w1]| |] eqn:Eo; simpl_outcome; try done.
  apply operate_R in Eo. etrans; [exact Eo|]. destruct res as [res|]; [|by eapply IH].
  case_bool_decide.
  - destruct (timer_delay op' _); simpl_outcome; try done.
    destruct (instant_now w1) as [now w2] eqn:En. apply now_world in En.
    destruct (TimerWheel.insert _ _ _ _ _); simpl_outcome; try done. etrans; [exact En|by eapply IH].
  - destruct (operate_drained _ _ _ _) as [[[es1 d1] w2]| |] eqn:E1; simpl_outcome; try done.
    simplify_eq. by eapply IH.
Qed.

Lemma operate_ready_world evs : ∀ d w es d' w',
  operate_ready evs d w = Done (es, d', w') → R w w'.
Proof.
  induction evs as [|ev evs IH]; intros d w es d' w' E; cbn in E; [by simplify_eq|].
  destruct (io_pending d !! _) as [o|]; simpl_outcome; [|done]. case_bool_decide.
  - destruct (rust_assert _); simpl_outcome; try done.
    destruct (operate_ready _ _ _) as [[[es1 d1] w1]| |] eqn:E1; simpl_outcome; try done.
    simplify_eq. by eapply IH.
  - destruct (operate (op o) w) as [[[res op'] w1]| |] eqn:Eo; simpl_outcome; try done.
    apply operate_R in Eo. etrans; [exact Eo|]. destruct res as [res|]; [|by eapply IH].
    destruct (operate_ready _ _ _) as [[[es1 d1] w2]| |] eqn:E1; simpl_outcome; try done.
    simplify_eq. by eapply IH.
Qed.

Lemma check_readiness_world t d w es r d' w' :
  check_readiness t d w = Done (es, r, d', w') → R w w'.
Proof.
  unfold check_readiness. destruct (scan_pending _ _ _ _ _) as [sc| |]; simpl_outcome; try done.
  destruct (match heap_peek _ with Some _ => _ | None => _ end) as [t1 w1] eqn:E1.
  assert (R w w1) as H1.
  { destruct (heap_peek _); [|by simplify_eq]. destruct (instant_now w) as [now w0] eqn:En.
    simplify_eq. by apply now_world in En. }
  pose proof (kevent_R (kqueue d) (sc_events sc) (events_capacity d)
    (match t1 with Some t => t | None => 0%Z end) w1) as H2.
  destruct (kevent _ _ _ _ w1) as [res w2]. destruct (instant_now w2) as [now w3] eqn:En.
  apply now_world in En. destruct (expire_timers now _) as [es1 tw]. intros; simplify_eq.
  etrans; [exact H1|]. by etrans.
Qed.

Lemma submit_world t d w es r d' w' : submit t d w = Done (es, r, d', w') → R w w'.
Proof.
  unfold submit, operate_squeue.
  destruct (operate_drained _ _ _ w) as [[[es1 d1] w1]| |] eqn:E1; simpl_outcome; try done.
  apply operate_drained_world in E1. case_match.
  - destruct (instant_now w1) as [now w2] eqn:En. apply now_world in En.
    destruct (expire_timers now _) as [es2 tw]. intros; simplify_eq. by etrans.
  - destruct (check_readiness _ _ w1) as [[[[es2 scanned] d2] w2]| |] eqn:E2; simpl_outcome; try done.
    apply check_readiness_world in E2. destruct scanned as [till|e]; [|intros; simplify_eq; by etrans].
    unfold operate_completed_and_requeue.
    destruct (operate_ready _ _ w2) as [[[es3 d3] w3]| |] eqn:E3; simpl_outcome; try done.
    destruct (requeue _ _ _ _); simpl_outcome; try done.
    apply operate_ready_world in E3. intros; simplify_eq. etrans; [exact E1|]. by etrans.
Qed.
End world.

(** ** Properties *)

(** [operate_squeue] tries every pushed operation once and puts it in exactly one place: its
    entry is emitted, or it joins the end of the pending queue, or it becomes a timer; the
    submission queue is left empty with its full capacity available again. *)
Theorem operate_squeue_conserves d w es d' w' :
  operate_squeue d w = Done (es, d', w') →
  squeue d' = [] ∧ capacity_left d' = squeue_capacity d ∧
  ∃ ps ts, io_pending d' = io_pending d ++ ps ∧
    wheel_timers (timers d') ≡ₚ ts ++ wheel_timers (timers d) ∧
    user_data <$> squeue d ≡ₚ (entry_user_data <$> es) ++ (user_data <$> ps) ++ (key <$> ts).
Proof.
  intros (Hsq & Hdr & _ & _ & _ & Hex)%operate_squeue_spec. split; [done|]. split; [|done].
  unfold capacity_left. rewrite Hsq, Hdr. cbn. lia.
Qed.

(** C22 The change list that [check_readiness] hands to the kernel fits the capacity allocated for
    it, registers no filter of a descriptor twice, and consists of the events of pending
    operations, each built with the index of its operation in the pending queue; the queue itself
    does not change. *)
Theorem change_list_wellformed t d w es r d' w' :
  wheel_wf (timers d) → check_readiness t d w = Done (es, r, d', w') →
  length (events_to_change d') ≤ events_capacity d ∧
  NoDup (filter_of <$> events_to_change d') ∧
  (∀ ev, ev ∈ events_to_change d' →
    ∃ i o, io_pending d' !! i = Some o ∧ as_event (op o) (Z.of_nat i) w = Done ev) ∧
  io_pending d' = io_pending d.
Proof.
  intros Hwf E. apply check_readiness_spec in E as (_ & _ & _ & Hp & _ & _ & sc & Esc & Hev & _); [|done].
  apply scan_pending_spec in Esc as ((Hc & Hm & Hnd & _) & Hfrom & _).
  - rewrite Hev, Hp. split_and!; try done; [lia|]. intros ev [Hin|(i & o & ? & ? & _)]%Hfrom; [|eauto].
    cbn in Hin. set_solver.
  - split_and!; cbn; try done; [lia|constructor].
Qed.

(** C1 No operation is lost and none is invented: after a [submit] that returns, every operation the
    driver knew (pushed, pending or timer) either has an entry or is still known, and every entry
    and every operation still known is one the driver knew before. *)
Theorem submit_accounts_for_operations t d w es r d' w' :
  wheel_wf (timers d) → submit t d w = Done (es, r, d', w') →
  wheel_wf (timers d') ∧
  ∀ u, u ∈ known d ↔ u ∈ entry_user_data <$> es ∨ u ∈ known d'.
Proof. intros Hwf E. by apply submit_spec in E as (? & _ & _ & _ & ?). Qed.

(** The index the scan stops at is the index of the last operation it looked at, not the number
    of operations: when the pending operations fit the change list, the requeue loop stops before
    the last of them, so that operation stays in the pending queue whatever its outcome was,
    also when [submit] has just emitted its entry. *)
Theorem submit_keeps_last_pending t d w es d' w' o :
  wheel_wf (timers d) → squeue d = [] → last (io_pending d) = Some o →
  length (io_pending d) ≤ events_capacity d →
  submit t d w = Done (es, Ok tt, d', w') →
  user_data o ∈ user_data <$> io_pending d'.
Proof.
  intros Hwf Hsq Hlast Hcap. unfold submit, operate_squeue. rewrite Hsq. cbn.
  set (d1 := set_drained _ _). rewrite (bool_decide_eq_false_2 (0 < 0)) by lia. cbn [andb].
  destruct (check_readiness t d1 w) as [[[[es2 scanned] d2] w2]| |] eqn:E2; simpl_outcome; try done.
  apply check_readiness_spec in E2 as (_ & _ & _ & Hp2 & _ & _ & sc & Esc & _ & Htill); [|done].
  destruct scanned as [till|e]; [|done]. rewrite (Htill till eq_refl).
  assert (sc_till sc = length (io_pending d) - 1) as Ht.
  { apply scan_pending_spec in Esc as (_ & _ & _ & _ & Hfull);
      [|split_and!; cbn; try done; [lia|constructor]].
    cbn in Hfull. rewrite Hfull; [done| |lia]. intros E. by rewrite E in Hlast. }
  destruct (operate_completed_and_requeue _ d2 w2) as [[[es3 d3] w3]| |] eqn:E3;
    simpl_outcome; try done.
  intros E. simplify_eq. cbn in Hp2.
  apply operate_completed_and_requeue_spec in E3 as (_ & _ & q & idxs & Hq & _ & Hp3);
    [|rewrite Hp2, Ht; lia].
  rewrite Hp3, fmap_app, elem_of_app. left. rewrite fmap_drop, Hq, Hp2, Ht.
  apply last_Some in Hlast as [l ->]. rewrite length_app, fmap_app. cbn.
  rewrite Nat.add_sub, <- (length_fmap user_data), drop_app_length. set_solver.
Qed.

(** ** The driver meets the submission contract *)

#[global] Instance kqueue_CompleteIo : CompleteIo Op W Driver Fd := {|
  ci_attach fd d w := (attach fd d, w);
  ci_try_cancel := try_cancel;
  ci_try_push_dyn o d w := Done (try_push_dyn o d, w);
  ci_push_queue q d w := Done (push_queue q d, w);
  ci_capacity_left := capacity_left;
  ci_submit := submit |}.

Definition driver_wf d : Prop :=
  length (squeue d) ≤ squeue_drained_till d ∧ squeue_drained_till d ≤ squeue_capacity d ∧
  wheel_wf (timers d).

#[global] Instance kqueue_spec : CompleteIoSpec Op W Driver Fd.
Proof.
  refine (@Build_CompleteIoSpec Op W Driver Fd _ (λ d, user_data <$> squeue d) driver_wf _ _ _ _);
    cbn; unfold driver_wf, capacity_left.
  - intros o d w r d' w' (Hl & Hc & Hwf) _. unfold try_push_dyn, capacity_left. intros E. simplify_eq.
    case_bool_decide; simplify_eq; cbn; rewrite ?length_app, ?fmap_app; cbn; split_and!; auto; lia.
  - intros q d w q' d' w' (Hl & Hc & Hwf) _. unfold push_queue, capacity_left. intros E. simplify_eq. cbn.
    rewrite length_app, length_take, fmap_app. split_and!; auto; lia.
  - intros u d r d' (Hl & Hc & Hwf) E. unfold try_cancel in E. simplify_eq. cbn.
    pose proof (length_remove_first u (squeue d)). split_and!; auto; lia.
  - intros t d w es r d' w' (Hl & Hc & Hwf) E.
    apply submit_spec in E as (? & -> & -> & -> & _); [|done]. cbn. split_and!; auto; lia.
Defined.

End driver.
Arguments Driver : clear implicits.
