(* ===== verification/KqueueOps.v ===== *)
(** * The operations of the kqueue driver

    [src/driver/kqueue/op.rs] and the macro [syscall!] of [src/lib.rs]: what
    each operation asks of the system when it is polled, and the event it
    waits for.  [Posix] is the system-call interface; a call returns its value,
    [errno] and what it wrote through the pointers it was given. *)

From S2P Require Import Prelude Driver TimerWheel Buf UnixOps Kqueue.
From stdpp Require Import base numbers list gmap.

(** ** System calls *)

Inductive syscall_req :=
| SysRead (fd ptr : Z) (len : nat)
| SysPread (fd ptr : Z) (len : nat) (offset : Z)
| SysWrite (fd ptr : Z) (data : list byte)
| SysPwrite (fd ptr : Z) (data : list byte) (offset : Z)
| SysFsync (fd : Z)
| SysAccept (fd addr addr_len : Z)
| SysConnect (fd addr addr_len : Z)
| SysGetsockopt (fd level name : Z)
| SysRecv (fd ptr : Z) (len : nat) (flags : Z)
| SysReadv (fd : Z) (slices : list io_slice)
| SysSend (fd ptr : Z) (data : list byte) (flags : Z)
| SysWritev (fd : Z) (slices : list io_slice)
| SysRecvfrom (fd ptr : Z) (len : nat) (flags socklen : Z)
| SysRecvmsg (fd : Z) (msg : msghdr) (flags : Z)
| SysSendto (fd ptr : Z) (data : list byte) (flags addr addr_len : Z)
| SysSendmsg (fd : Z) (msg : msghdr) (flags : Z)
| SysClose (fd : Z).

(** [out_data] is what the call wrote into the data buffers, [out_addr] into the address storage,
    [out_len] the address length it stored, [out_int] the option value. *)
Record sysret := mkSysret {
  rv : Z; errno : Z; out_data : list byte; out_addr : list byte; out_len : Z; out_int : Z }.

Class Posix (W : Type) := { posix : syscall_req → W → sysret * W }.

Definition EAGAIN : Z := 35.
Definition EINPROGRESS : Z := 36.
Definition SOL_SOCKET : Z := 65535.
Definition SO_ERROR : Z := 4103.

(** [decode_error_kind] of the standard library, the kinds that matter here. *)
Definition decode_error_kind (code : Z) : ErrorKind :=
  if bool_decide (code = EAGAIN) then WouldBlock
  else if bool_decide (code = 60)%Z then TimedOut
  else if bool_decide (code = 22)%Z then InvalidInput
  else OtherKind.

(** [src/src/lib.rs:113-124] syscall!, the plain branch *)
Definition syscall {W} `{!Posix W} (req : syscall_req) (w : W) : io_result Z * sysret * W :=
  let '(r, w) := posix req w in
  (if bool_decide (rv r < 0)%Z then Err (Os (errno r)) else Ok (rv r), r, w).

(** [src/src/lib.rs:125-134] syscall!, the branch [maybe_block] *)
Definition maybe_block (res : io_result Z) : option (io_result Z) :=
  match res with
  | Err e =>
      if bool_decide (error_kind decode_error_kind e = WouldBlock)
         || bool_decide (raw_os_error e = Some EINPROGRESS)
      then None else Some (Err e)
  | Ok ok => Some (Ok ok)
  end.

(** ** Events *)

(** [src/src/driver/kqueue/op.rs:16-20] *)
Definition add_event_flags : Z := Z.lor (Z.lor EV_ADD EV_ENABLE) EV_ONESHOT.
(** [src/src/driver/kqueue/op.rs:22-30] [usize as isize] *)
Definition read_filter_event (fd : Fd) (user_data : Z) : Event :=
  Event_new (FilterRead (as_raw_fd fd)) add_event_flags (as_i64 user_data).
(** [src/src/driver/kqueue/op.rs:33-41] *)
Definition write_filter_event (fd : Fd) (user_data : Z) : Event :=
  Event_new (FilterWrite (as_raw_fd fd)) add_event_flags (as_i64 user_data).

(** ** The operations *)

Section operations.
Context {W : Type} `{!Posix W}.

Notation polled O := (outcome (option (io_result Z) * O * W)).

(** [src/src/driver/kqueue/op.rs:44-61] *)
Definition Read_operate {T} `{!IoBuf T, !IoBufMut T} (self : Read Fd T) (w : W) : polled (Read Fd T) :=
  let fd := as_raw_fd (read_fd _ self) in
  '(ptr, len) ← as_uninit_slice (read_buffer _ self);
  let '(res, r, w) := syscall (SysRead fd ptr len) w in
  buffer ← poke_uninit (out_data r) (read_buffer _ self);
  Done (maybe_block res, mkRead T (read_fd _ self) buffer, w).

(** [src/src/driver/kqueue/op.rs:64-82] *)
Definition ReadAt_operate {T} `{!IoBuf T, !IoBufMut T} (self : ReadAt Fd T) (w : W) :
    polled (ReadAt Fd T) :=
  let fd := as_raw_fd (read_at_fd _ self) in
  '(ptr, len) ← as_uninit_slice (read_at_buffer _ self);
  let '(res, r, w) := syscall (SysPread fd ptr len (as_i64 (read_at_offset _ self))) w in
  buffer ← poke_uninit (out_data r) (read_at_buffer _ self);
  Done (maybe_block res, mkReadAt T (read_at_fd _ self) (read_at_offset _ self) buffer, w).

(** [src/src/driver/kqueue/op.rs:85-101] *)
Definition Write_operate {T} `{!IoBuf T} (self : Write Fd T) (w : W) : polled (Write Fd T) :=
  ptr ← as_buf_ptr (write_buffer _ self); data ← as_slice (write_buffer _ self);
  let '(res, _, w) := syscall (SysWrite (as_raw_fd (write_fd _ self)) ptr data) w in
  Done (maybe_block res, self, w).

(** [src/src/driver/kqueue/op.rs:104-121] *)
Definition WriteAt_operate {T} `{!IoBuf T} (self : WriteAt Fd T) (w : W) : polled (WriteAt Fd T) :=
  ptr ← as_buf_ptr (write_at_buffer _ self); data ← as_slice (write_at_buffer _ self);
  let '(res, _, w) :=
    syscall (SysPwrite (as_raw_fd (write_at_fd _ self)) ptr data (as_i64 (write_at_offset _ self))) w in
  Done (maybe_block res, self, w).

(** [src/src/driver/kqueue/op.rs:124-134] [datasync] is not looked at *)
Definition Sync_operate (self : Sync Fd) (w : W) : polled (Sync Fd) :=
  let '(res, _, w) := syscall (SysFsync (as_raw_fd (sync_fd self))) w in
  Done (Some res, self, w).

(** [src/src/driver/kqueue/op.rs:137-151] *)
Definition Accept_operate (self : Accept Fd) (w : W) : polled (Accept Fd) :=
  let '(res, r, w) :=
    syscall (SysAccept (as_raw_fd (accept_fd self)) (sa_ptr (accept_addr self)) (accept_addr_len self)) w in
  Done (maybe_block res,
        mkAccept (accept_fd self)
          (mkSockAddr (sa_ptr (accept_addr self)) (mem_write 0 (out_addr r) (sa_storage (accept_addr self)))
             (sa_len (accept_addr self)))
          (out_len r), w).

(** [src/src/driver/kqueue/op.rs:154-186] *)
Definition Connect_operate (self : Connect Fd) (w : W) : polled (Connect Fd) :=
  let fd := as_raw_fd (connect_fd self) in
  if negb (initiated self) then
    let self := mkConnect (connect_fd self) (connect_addr self) true in
    let '(res, _, w) :=
      syscall (SysConnect fd (sa_ptr (connect_addr self)) (sa_len (connect_addr self))) w in
    Done (maybe_block res, self, w)
  else
    let '(res, r, w) := syscall (SysGetsockopt fd SOL_SOCKET SO_ERROR) w in
    match res with
    | Err syscall_err => Done (Some (Err syscall_err), self, w)
    | Ok _ =>
        let err := out_int r in
        Done (Some (if bool_decide (err = 0)%Z then Ok 0%Z else Err (Os err)), self, w)
    end.

(** [src/src/driver/kqueue/op.rs:188-199] *)
Definition Recv_operate {T} `{!IoBuf T, !IoBufMut T} (self : Recv Fd T) (w : W) : polled (Recv Fd T) :=
  '(ptr, len) ← as_uninit_slice (recv_buffer _ self);
  let '(res, r, w) := syscall (SysRecv (as_raw_fd (recv_fd _ self)) ptr len 0) w in
  buffer ← poke_uninit (out_data r) (recv_buffer _ self);
  Done (maybe_block res, mkRecv T (recv_fd _ self) buffer, w).

(** [src/src/driver/kqueue/op.rs:201-212] *)
Definition RecvVectored_operate {V} `{!AsIoSlicesMut V} (self : RecvVectoredImpl Fd V) (w : W) :
    polled (RecvVectoredImpl Fd V) :=
  let slices := as_io_slices_mut (recv_vectored_buffer _ self) in
  let '(res, r, w) := syscall (SysReadv (as_raw_fd (recv_vectored_fd _ self)) slices) w in
  Done (maybe_block res,
        mkRecvVectored V (recv_vectored_fd _ self)
          (io_slices_poke (out_data r) (recv_vectored_buffer _ self)), w).

(** [src/src/driver/kqueue/op.rs:214-224] *)
Definition Send_operate {T} `{!IoBuf T} (self : Send Fd T) (w : W) : polled (Send Fd T) :=
  ptr ← as_buf_ptr (send_buffer _ self); data ← as_slice (send_buffer _ self);
  let '(res, _, w) := syscall (SysSend (as_raw_fd (send_fd _ self)) ptr data 0) w in
  Done (maybe_block res, self, w).

(** [src/src/driver/kqueue/op.rs:226-236] *)
Definition SendVectored_operate {V} `{!AsIoSlices V} (self : SendVectoredImpl Fd V) (w : W) :
    polled (SendVectoredImpl Fd V) :=
  let '(res, _, w) :=
    syscall (SysWritev (as_raw_fd (send_vectored_fd _ self))
               (as_io_slices (send_vectored_buffer _ self))) w in
  Done (maybe_block res, self, w).

(** [src/src/driver/kqueue/op.rs:238-245] *)
Record RecvFrom (T : Type) := mkRecvFrom {
  recv_from_fd : Fd; recv_from_buffer : T; recv_from_addr_ptr : Z; recv_from_addr : list byte;
  socklen : Z }.

(** [src/src/driver/kqueue/op.rs:247-258] *)
Definition RecvFrom_new {T} (ptr : Z) (fd : Fd) (buffer : T) : RecvFrom T :=
  mkRecvFrom T (Fd_into fd) buffer ptr zeroed_storage size_of_sockaddr_storage.

(** [src/src/driver/kqueue/op.rs:260-268] *)
Definition RecvFrom_into_inner {T} (r : RecvFrom T) : T * SockAddr :=
  (recv_from_buffer _ r, mkSockAddr (recv_from_addr_ptr _ r) (recv_from_addr _ r) (socklen _ r)).

(** [src/src/driver/kqueue/op.rs:270-279] *)
Definition RecvFrom_operate {T} `{!IoBuf T, !IoBufMut T} (self : RecvFrom T) (w : W) :
    polled (RecvFrom T) :=
  '(ptr, len) ← as_uninit_slice (recv_from_buffer _ self);
  let '(res, r, w) :=
    syscall (SysRecvfrom (as_raw_fd (recv_from_fd _ self)) ptr len 0 (socklen _ self)) w in
  buffer ← poke_uninit (out_data r) (recv_from_buffer _ self);
  Done (maybe_block res,
        mkRecvFrom T (recv_from_fd _ self) buffer (recv_from_addr_ptr _ self)
          (mem_write 0 (out_addr r) (recv_from_addr _ self)) (out_len r), w).

(** What the kernel leaves in the operation after [recvmsg]: the data, the address and its length. *)
Definition recvmsg_result {V} `{!AsIoSlicesMut V} (r : sysret) (m : RecvMsgImpl Fd V) : RecvMsgImpl Fd V :=
  let msg := recv_msg_msg _ m in
  mkRecvMsg V (recv_msg_fd _ m) (io_slices_poke (out_data r) (recv_msg_buffer _ m))
    (recv_msg_addr_ptr _ m) (mem_write 0 (out_addr r) (recv_msg_addr _ m))
    (mkMsghdr (msg_name msg) (out_len r) (msg_iov msg) (msg_iovlen msg) (msg_controllen msg)
       (msg_flags msg)).

(** [src/src/driver/kqueue/op.rs:280-294] *)
Definition RecvMsg_operate {V} `{!AsIoSlicesMut V} (self : RecvMsgImpl Fd V) (w : W) :
    polled (RecvMsgImpl Fd V) :=
  let self := if bool_decide (msg_namelen (recv_msg_msg _ self) = 0)%Z
              then RecvMsg_set_msg self else self in
  let '(res, r, w) := syscall (SysRecvmsg (as_raw_fd (recv_msg_fd _ self)) (recv_msg_msg _ self) 0) w in
  Done (maybe_block res, recvmsg_result r self, w).

(** [src/src/driver/kqueue/op.rs:296-302] *)
Record SendTo (T : Type) := mkSendTo {
  send_to_fd : Fd; send_to_buffer : T; send_to_addr : SockAddr }.

(** [src/src/driver/kqueue/op.rs:304-314] *)
Definition SendTo_new {T} (fd : Fd) (buffer : T) (addr : SockAddr) : SendTo T :=
  mkSendTo T (Fd_into fd) buffer addr.

(** [src/src/driver/kqueue/op.rs:316-322] *)
Definition SendTo_into_inner {T} (s : SendTo T) : T := send_to_buffer _ s.

(** [src/src/driver/kqueue/op.rs:324-333] *)
Definition SendTo_operate {T} `{!IoBuf T} (self : SendTo T) (w : W) : polled (SendTo T) :=
  ptr ← as_buf_ptr (send_to_buffer _ self); data ← as_slice (send_to_buffer _ self);
  let '(res, _, w) :=
    syscall (SysSendto (as_raw_fd (send_to_fd _ self)) ptr data 0 (sa_ptr (send_to_addr _ self))
               (sa_len (send_to_addr _ self))) w in
  Done (maybe_block res, self, w).

(** [src/src/driver/kqueue/op.rs:335-349] *)
Definition SendMsg_operate {V} `{!AsIoSlices V} (self : SendMsgImpl Fd V) (w : W) :
    polled (SendMsgImpl Fd V) :=
  let self := if bool_decide (msg_namelen (send_msg_msg _ self) = 0)%Z
              then SendMsg_set_msg self else self in
  let '(res, _, w) := syscall (SysSendmsg (as_raw_fd (send_msg_fd _ self)) (send_msg_msg _ self) 0) w in
  Done (maybe_block res, self, w).

(** [src/src/driver/kqueue/op.rs:351-365] *)
Definition Timeout_operate (self : Timeout) (w : W) : polled Timeout :=
  Done (Some (Ok TIMER_PENDING), self, w).

(** [src/src/driver/kqueue/op.rs:367-369] *)
Definition close_raw_fd (raw_fd : Z) (w : W) : io_result Z * W :=
  let '(res, _, w) := syscall (SysClose raw_fd) w in (res, w).

(** [src/src/driver/kqueue/op.rs:371-384] *)
Definition Fd_operate (self : Fd) (w : W) : polled Fd :=
  let '(res, w) := close_raw_fd (as_raw_fd self) w in Done (Some res, self, w).

(** [src/src/driver/kqueue/op.rs:386-409] *)
Definition Option_operate {T} (into_raw_fd : T → Z) (self : option T) (w : W) : polled (option T) :=
  match self with
  | Some t => let '(res, w) := close_raw_fd (into_raw_fd t) w in Done (Some res, None, w)
  | None => Done (Some (Err (Custom InvalidInput)), None, w)
  end.

End operations.

(** ** [dyn OpCode]: the operations over one type of buffers *)

Inductive AnyOp (T V : Type) :=
| OpRead (o : Read Fd T) | OpReadAt (o : ReadAt Fd T) | OpWrite (o : Write Fd T)
| OpWriteAt (o : WriteAt Fd T) | OpSync (o : Sync Fd) | OpAccept (o : Accept Fd)
| OpConnect (o : Connect Fd) | OpRecv (o : Recv Fd T) | OpRecvVectored (o : RecvVectoredImpl Fd V)
| OpSend (o : Send Fd T) | OpSendVectored (o : SendVectoredImpl Fd V) | OpRecvFrom (o : RecvFrom T)
| OpRecvMsg (o : RecvMsgImpl Fd V) | OpSendTo (o : SendTo T) | OpSendMsg (o : SendMsgImpl Fd V)
| OpTimeout (o : Timeout) | OpCloseFd (o : Fd) | OpClose (o : option Fd).
Arguments OpRead {T V}. Arguments OpReadAt {T V}. Arguments OpWrite {T V}. Arguments OpWriteAt {T V}.
Arguments OpSync {T V}. Arguments OpAccept {T V}. Arguments OpConnect {T V}. Arguments OpRecv {T V}.
Arguments OpRecvVectored {T V}. Arguments OpSend {T V}. Arguments OpSendVectored {T V}.
Arguments OpRecvFrom {T V}. Arguments OpRecvMsg {T V}. Arguments OpSendTo {T V}.
Arguments OpSendMsg {T V}. Arguments OpTimeout {T V}. Arguments OpCloseFd {T V}. Arguments OpClose {T V}.

Definition lift_poll {W O A} (mk : O → A) (m : outcome (option (io_result Z) * O * W)) :
    outcome (option (io_result Z) * A * W) :=
  '(res, o, w) ← m; Done (res, mk o, w).

Section any_op.
Context {W T V : Type} `{!Posix W, !IoBuf T, !IoBufMut T, !AsIoSlices V, !AsIoSlicesMut V}.

Definition any_operate (a : AnyOp T V) (w : W) : outcome (option (io_result Z) * AnyOp T V * W) :=
  match a with
  | OpRead o => lift_poll OpRead (Read_operate o w)
  | OpReadAt o => lift_poll OpReadAt (ReadAt_operate o w)
  | OpWrite o => lift_poll OpWrite (Write_operate o w)
  | OpWriteAt o => lift_poll OpWriteAt (WriteAt_operate o w)
  | OpSync o => lift_poll OpSync (Sync_operate o w)
  | OpAccept o => lift_poll OpAccept (Accept_operate o w)
  | OpConnect o => lift_poll OpConnect (Connect_operate o w)
  | OpRecv o => lift_poll OpRecv (Recv_operate o w)
  | OpRecvVectored o => lift_poll OpRecvVectored (RecvVectored_operate o w)
  | OpSend o => lift_poll OpSend (Send_operate o w)
  | OpSendVectored o => lift_poll OpSendVectored (SendVectored_operate o w)
  | OpRecvFrom o => lift_poll OpRecvFrom (RecvFrom_operate o w)
  | OpRecvMsg o => lift_poll OpRecvMsg (RecvMsg_operate o w)
  | OpSendTo o => lift_poll OpSendTo (SendTo_operate o w)
  | OpSendMsg o => lift_poll OpSendMsg (SendMsg_operate o w)
  | OpTimeout o => lift_poll OpTimeout (Timeout_operate o w)
  | OpCloseFd o => lift_poll OpCloseFd (Fd_operate o w)
  | OpClose o => lift_poll OpClose (Option_operate as_raw_fd o w)
  end.

(** The [as_event] of each operation: reads wait for the read filter, writes for the write filter;
    operations that complete in one shot have none ([unreachable!]). *)
Definition any_as_event (a : AnyOp T V) (u : Z) (w : W) : outcome Event :=
  match a with
  | OpRead o => Done (read_filter_event (read_fd _ o) u)
  | OpReadAt o => Done (read_filter_event (read_at_fd _ o) u)
  | OpWrite o => Done (write_filter_event (write_fd _ o) u)
  | OpWriteAt o => Done (write_filter_event (write_at_fd _ o) u)
  | OpAccept o => Done (read_filter_event (accept_fd o) u)
  | OpConnect o => Done (write_filter_event (connect_fd o) u)
  | OpRecv o => Done (read_filter_event (recv_fd _ o) u)
  | OpRecvVectored o => Done (read_filter_event (recv_vectored_fd _ o) u)
  | OpSend o => Done (write_filter_event (send_fd _ o) u)
  | OpSendVectored o => Done (write_filter_event (send_vectored_fd _ o) u)
  | OpRecvFrom o => Done (read_filter_event (recv_from_fd _ o) u)
  | OpRecvMsg o => Done (read_filter_event (recv_msg_fd _ o) u)
  | OpSendTo o => Done (write_filter_event (send_to_fd _ o) u)
  | OpSendMsg o => Done (write_filter_event (send_msg_fd _ o) u)
  | OpSync _ | OpTimeout _ | OpCloseFd _ | OpClose _ => Panic
  end.

#[global] Instance AnyOp_OpCode : OpCode (AnyOp T V) W := {|
  operate := any_operate;
  as_event := any_as_event;
  timer_delay a _ := match a with OpTimeout o => Done (delay o) | _ => Panic end |}.
End any_op.

(** ** Lemmas *)

(** The room for data that a receiving call is given. *)
Definition data_room (req : syscall_req) : option nat :=
  match req with
  | SysRead _ _ n | SysPread _ _ n _ | SysRecv _ _ n _ | SysRecvfrom _ _ n _ _ => Some n
  | SysReadv _ s => Some (sum_list (s.*2))
  | SysRecvmsg _ m _ => Some (sum_list ((msg_iov m).*2))
  | _ => None
  end.

(** POSIX: a receiving call that fails writes nothing; one that succeeds returns how many bytes it
    wrote, which is at most the room it was given. *)
Class PosixLaws (W : Type) `{!Posix W} : Prop := {
  posix_receive req n w r w' :
    data_room req = Some n → posix req w = (r, w') →
    if bool_decide (rv r < 0)%Z then out_data r = []
    else rv r = Z.of_nat (length (out_data r)) ∧ length (out_data r) ≤ n;
}.

Lemma maybe_block_keeps res res' : maybe_block res = Some res' → res' = res.
Proof. unfold maybe_block. destruct res as [n|e]; [by intros [= <-]|]. destruct (_ || _); [done|]. by intros [= <-]. Qed.

Lemma maybe_block_os c :
  maybe_block (Err (Os c)) =
  if bool_decide (c = EAGAIN ∨ c = EINPROGRESS) then None else Some (Err (Os c)).
Proof.
  unfold maybe_block, error_kind, raw_os_error, decode_error_kind.
  destruct (decide (c = EAGAIN)) as [->|H1]; [done|].
  rewrite (bool_decide_eq_false_2 (c = EAGAIN)) by done.
  destruct (decide (c = EINPROGRESS)) as [->|H2]; [done|].
  rewrite (bool_decide_eq_false_2 (Some c = _)) by congruence.
  rewrite (bool_decide_eq_false_2 (_ ∨ _)) by naive_solver.
  by repeat case_bool_decide.
Qed.

Section receive.
Context {W T : Type} `{!Posix W, !PosixLaws W, !IoBuf T, !IoBufMut T, !IoBufMutSpec T}.
Implicit Types (b : T) (w : W).

(** A buffer [b] received from the call [req], given the address and the size of its uninitialised
    part: the call would block and the operation stays pending with nothing changed, or the call
    failed for another reason, which is the result, and nothing changed, or the operation returns [n]
    and acknowledging [n] bytes appends exactly the bytes the call wrote. *)
Definition receives (req : Z → nat → syscall_req) b w (res : option (io_result Z)) (b' : T) (w' : W) :
    Prop :=
  ∃ p r, as_buf_mut_ptr b = Done p ∧
    posix (req (p + Z.of_nat (length (filled b)))%Z (spare b)) w = (r, w') ∧
    match res with
    | None => rv r < 0 ∧ (errno r = EAGAIN ∨ errno r = EINPROGRESS) ∧ b' = b
    | Some (Err e) => rv r < 0 ∧ errno r ≠ EAGAIN ∧ errno r ≠ EINPROGRESS ∧ e = Os (errno r) ∧ b' = b
    | Some (Ok n) => n = rv r ∧ n = Z.of_nat (length (out_data r)) ∧ (length (out_data r) ≤ spare b)%nat ∧
        ∃ b'', update_buffer_len (Ok n, b') = Done (Ok n, b'') ∧
          buf_wf b'' ∧ filled b'' = filled b ++ out_data r
    end%Z.

Lemma uninit_slice_spec b :
  buf_wf b → ∃ p, as_buf_mut_ptr b = Done p ∧
    as_uninit_slice b = Done ((p + Z.of_nat (length (filled b)))%Z, spare b).
Proof.
  intros Hwf. destruct (spec_ptr b Hwf) as (p & _ & Hp). exists p. split; [done|].
  unfold as_uninit_slice. rewrite Hp, (spec_len b Hwf), (spec_capacity b Hwf). simpl_outcome.
  unfold usize_sub. rewrite bool_decide_eq_true_2 by lia. cbn. repeat f_equal. lia.
Qed.

(** The common body of the single-buffer receiving operations. *)
Lemma receive_body (req : Z → nat → syscall_req) b w :
  (∀ p n, data_room (req p n) = Some n) → buf_wf b →
  ∃ p r b' w', as_uninit_slice b = Done (p, spare b) ∧ posix (req p (spare b)) w = (r, w') ∧
    poke_uninit (out_data r) b = Done b' ∧
    receives req b w
      (maybe_block (if bool_decide (rv r < 0)%Z then Err (Os (errno r)) else Ok (rv r))) b' w'.
Proof.
  intros Hroom Hwf. destruct (uninit_slice_spec b Hwf) as (p & Hp & Hu).
  destruct (posix (req (p + Z.of_nat (length (filled b)))%Z (spare b)) w) as [r w'] eqn:Hc.
  pose proof (posix_receive _ _ _ _ _ (Hroom _ _) Hc) as Hl.
  eexists _, r, (buf_poke (length (filled b)) (out_data r) b), w'.
  split; [exact Hu|]. split; [exact Hc|]. split.
  { unfold poke_uninit. by rewrite (spec_len b Hwf). }
  exists p, r. split; [done|]. split; [done|]. case_bool_decide as Hneg.
  - rewrite maybe_block_os, Hl, spec_poke_nil. case_bool_decide; [done|]. split_and!; naive_solver.
  - destruct Hl as [Hrv Hle]. cbn. split_and!; try done.
    destruct (spec_receive b _ Hwf Hle) as (b'' & Hset & Hwf'' & Hf & _).
    exists b''. unfold update_buffer_len, update_len. cbn. rewrite Hrv, Nat2Z.id, Hset. done.
Qed.

(** C34 Every operation that receives into one buffer is total on a well-formed buffer, hands the
    system exactly the buffer's uninitialised part, stays pending just when the call would block
    ([EAGAIN] or [EINPROGRESS], leaving the buffer untouched), and otherwise its result is the call's: acknowledging it
    appends precisely the bytes received. *)
Theorem receive_operations b w :
  buf_wf b → ∀ fd offset ptr storage,
  (∃ res b' w', Read_operate (Read_new Fd_into fd b) w =
      Done (res, Read_new Fd_into fd b', w') ∧
    receives (SysRead (as_raw_fd fd)) b w res b' w') ∧
  (∃ res b' w', ReadAt_operate (ReadAt_new Fd_into fd offset b) w =
      Done (res, ReadAt_new Fd_into fd offset b', w') ∧
    receives (λ p n, SysPread (as_raw_fd fd) p n (as_i64 offset)) b w res b' w') ∧
  (∃ res b' w', Recv_operate (Recv_new Fd_into fd b) w =
      Done (res, Recv_new Fd_into fd b', w') ∧
    receives (λ p n, SysRecv (as_raw_fd fd) p n 0) b w res b' w') ∧
  (∃ res b' storage' len' w', RecvFrom_operate (mkRecvFrom T fd b ptr storage size_of_sockaddr_storage) w =
      Done (res, mkRecvFrom T fd b' ptr storage' len', w') ∧
    receives (λ p n, SysRecvfrom (as_raw_fd fd) p n 0 size_of_sockaddr_storage) b w res b' w').
Proof.
  intros Hwf fd offset ptr storage. split_and!.
  - destruct (receive_body (SysRead (as_raw_fd fd)) b w) as (p & r & b' & w' & Hu & Hc & Hp & Hr);
      [done..|].
    eexists _, b', w'. split; [|exact Hr]. unfold Read_operate, syscall, Fd_into. cbn. rewrite Hu. simpl_outcome.
    rewrite Hc. cbn. by rewrite Hp.
  - destruct (receive_body (λ p n, SysPread (as_raw_fd fd) p n (as_i64 offset)) b w)
      as (p & r & b' & w' & Hu & Hc & Hp & Hr); [done..|].
    eexists _, b', w'. split; [|exact Hr]. unfold ReadAt_operate, syscall, Fd_into. cbn. rewrite Hu. simpl_outcome.
    rewrite Hc. cbn. by rewrite Hp.
  - destruct (receive_body (λ p n, SysRecv (as_raw_fd fd) p n 0) b w)
      as (p & r & b' & w' & Hu & Hc & Hp & Hr); [done..|].
    eexists _, b', w'. split; [|exact Hr]. unfold Recv_operate, syscall, Fd_into. cbn. rewrite Hu. simpl_outcome.
    rewrite Hc. cbn. by rewrite Hp.
  - destruct (receive_body (λ p n, SysRecvfrom (as_raw_fd fd) p n 0 size_of_sockaddr_storage) b w)
      as (p & r & b' & w' & Hu & Hc & Hp & Hr); [done..|].
    eexists _, b', _, _, w'. split; [|exact Hr]. unfold RecvFrom_operate, syscall, Fd_into. cbn. rewrite Hu.
    simpl_outcome. rewrite Hc. cbn. by rewrite Hp.
Qed.
End receive.

(** Connecting takes at most two polls: the first issues [connect] and stays pending just when the
    connection is in progress; the second asks for the socket's pending error, never issues
    [connect] again, and always completes with that error. *)
Theorem connect_two_polls {W} `{!Posix W} (fd : Fd) (addr : SockAddr) (w w1 w2 : W) r1 r2 :
  posix (SysConnect (as_raw_fd fd) (sa_ptr addr) (sa_len addr)) w = (r1, w1) →
  posix (SysGetsockopt (as_raw_fd fd) SOL_SOCKET SO_ERROR) w1 = (r2, w2) →
  ∃ res1 c1 res2, Connect_operate (Connect_new Fd_into fd addr) w = Done (res1, c1, w1) ∧
    (res1 = None ↔ (rv r1 < 0)%Z ∧ (errno r1 = EAGAIN ∨ errno r1 = EINPROGRESS)) ∧
    (res1 ≠ None → (0 ≤ rv r1)%Z → res1 = Some (Ok (rv r1))) ∧
    Connect_operate c1 w1 = Done (Some res2, c1, w2) ∧
    ((0 ≤ rv r2)%Z → res2 = if bool_decide (out_int r2 = 0)%Z then Ok 0%Z else Err (Os (out_int r2))) ∧
    ((rv r2 < 0)%Z → res2 = Err (Os (errno r2))).
Proof.
  intros H1 H2. unfold Connect_operate, Connect_new, Fd_into, syscall. cbn. rewrite H1. cbn.
  eexists _, (mkConnect fd addr true), _. split; [done|]. cbn. rewrite H2. cbn. split_and!.
  - case_bool_decide as Hneg; [|split; [done|tauto]].
    rewrite maybe_block_os. case_bool_decide; split; try done; tauto.
  - intros _ Hge. by rewrite bool_decide_eq_false_2 by lia.
  - instantiate (1 := if bool_decide (rv r2 < 0)%Z then Err (Os (errno r2))
      else if bool_decide (out_int r2 = 0)%Z then Ok 0%Z else Err (Os (out_int r2))).
    by case_bool_decide.
  - intros. by rewrite bool_decide_eq_false_2 by lia.
  - intros. by rewrite bool_decide_eq_true_2 by lia.
Qed.

(** An [Option] is closed once: the first poll takes the descriptor out and issues one [close]
    for it, and whatever its outcome every later poll fails with [InvalidInput] and issues no
    system call, so that a descriptor number that was reused is never closed. *)
Theorem option_closes_once {W T} `{!Posix W} (into_raw_fd : T → Z) (t : T) (w w1 : W) :
  ∃ res, Option_operate into_raw_fd (Some t) w =
      Done (Some res, None, (posix (SysClose (into_raw_fd t)) w).2) ∧
    (is_ok res = bool_decide (0 ≤ rv (posix (SysClose (into_raw_fd t)) w).1)%Z) ∧
    Option_operate into_raw_fd None w1 = Done (Some (Err (Custom InvalidInput)), None, w1).
Proof.
  unfold Option_operate, close_raw_fd, syscall.
  destruct (posix (SysClose (into_raw_fd t)) w) as [r w'] eqn:E. eexists. split; [done|].
  split; [|done]. cbn. repeat case_bool_decide; try done; lia.
Qed.
