(* ===== verification/KqueueSim.v ===== *)
(** * The kqueue driver on a concrete kernel

    A small kernel with sockets that have bytes to read, one-shot event
    registrations and a clock: it shows that what the driver and its
    operations rely on can hold, and runs the driver on whole scenarios. *)

From S2P Require Import Prelude BinaryHeap Driver TimerWheel Buf UnixOps Kqueue KqueueOps.
From stdpp Require Import base numbers sorting list gmap.

(** ** The kernel *)

Record Sim := mkSim { sim_data : Z → list byte; sim_regs : list Event; sim_clock : Z }.

Definition sim_fresh : Sim := mkSim (λ _, []) [] 0.

(** Bytes arrive on a descriptor. *)
Definition arrive (fd : Z) (bs : list byte) (s : Sim) : Sim :=
  mkSim (λ f, if bool_decide (f = fd) then sim_data s fd ++ bs else sim_data s f) (sim_regs s) (sim_clock s).

Definition sim_receive (fd : Z) (n : nat) (s : Sim) : sysret * Sim :=
  match sim_data s fd with
  | [] => (mkSysret (-1) EAGAIN [] [] 0 0, s)
  | bs => (mkSysret (Z.of_nat (length (take n bs))) 0 (take n bs) [] 0 0,
           mkSim (λ f, if bool_decide (f = fd) then drop n bs else sim_data s f) (sim_regs s) (sim_clock s))
  end.

Definition sim_posix (req : syscall_req) (s : Sim) : sysret * Sim :=
  match req with
  | SysRead fd _ n | SysPread fd _ n _ | SysRecv fd _ n _ | SysRecvfrom fd _ n _ _ => sim_receive fd n s
  | SysReadv fd slices => sim_receive fd (sum_list (slices.*2)) s
  | SysRecvmsg fd m _ => sim_receive fd (sum_list ((msg_iov m).*2)) s
  | SysWrite _ _ data | SysPwrite _ _ data _ | SysSend _ _ data _ | SysSendto _ _ data _ _ _ =>
      (mkSysret (Z.of_nat (length data)) 0 [] [] 0 0, s)
  | SysConnect _ _ _ => (mkSysret (-1) EINPROGRESS [] [] 0 0, s)
  | SysAccept _ _ _ => (mkSysret (-1) EAGAIN [] [] 0 0, s)
  | _ => (mkSysret 0 0 [] [] 0 0, s)
  end.

#[global] Instance Sim_Posix : Posix Sim := {| posix := sim_posix |}.

Lemma sim_receive_law fd n s r s' :
  sim_receive fd n s = (r, s') →
  if bool_decide (rv r < 0)%Z then out_data r = []
  else rv r = Z.of_nat (length (out_data r)) ∧ length (out_data r) ≤ n.
Proof.
  unfold sim_receive. destruct (sim_data s fd) as [|b bs]; intros [= <- <-]; [done|].
  cbn [rv out_data]. case_bool_decide; [lia|]. split; [done|]. rewrite length_take. lia.
Qed.

#[global] Instance Sim_PosixLaws : PosixLaws Sim.
Proof.
  split. intros req n w r w' Hroom E. destruct req; try done;
    injection Hroom as <-; cbn in E; by apply sim_receive_law in E.
Qed.

Definition sim_is_ready (s : Sim) (ev : Event) : bool :=
  match filter_of ev with
  | FilterRead fd => bool_decide (sim_data s fd ≠ [])
  | FilterWrite _ => true
  | FilterOther => false
  end.

Definition sim_kevent (kq : Z) (changes : list Event) (cap : nat) (timeout : Z) (s : Sim) :
    io_result (list Event) * Sim :=
  let regs := filter (λ ev, filter_of ev ∉ (filter_of <$> changes)) (sim_regs s) ++ changes in
  let ready := take cap (filter (λ ev, sim_is_ready s ev = true) regs) in
  (Ok ready,
   mkSim (sim_data s) (filter (λ ev, ev ∉ ready) regs)
     (if bool_decide (ready = []) then sim_clock s + timeout else sim_clock s)%Z).

#[global] Instance Sim_KqueueOs : KqueueOs Sim :=
  {| kevent := sim_kevent; instant_now s := (sim_clock s, s); instant_add a b := Done (a + b)%Z |}.

(** ** Scenarios *)

Notation SimOp := (AnyOp Vec_u8 (VectoredBufWrapper Vec_u8)).

Definition sim_driver : Driver SimOp :=
  match new (Ok 3%Z) with
  | Ok d => d
  | Err _ => mkDriver 0 [] 0 0 [] [] 0 [] ∅ ∅ ∅ (with_capacity 0)
  end.

Definition recv_op (fd : Z) : SimOp := OpRecv (Recv_new Fd_into (from_raw fd) (vec_of [] 8)).

(** A driver with one receive that would block. *)
Definition waiting : Driver SimOp * Sim :=
  match submit None (try_push_dyn (OpObject_new (recv_op 5) 7) sim_driver).2 sim_fresh with
  | Done (_, _, d, w) => (d, w)
  | _ => (sim_driver, sim_fresh)
  end.

(** Push, then submit; then bytes arrive before each of two more submits. *)
Definition emitted_twice : outcome (list Entry * list Entry * list Entry) :=
  let d := (try_push_dyn (OpObject_new (recv_op 5) 7) sim_driver).2 in
  '(es1, _, d, w) ← submit None d sim_fresh;
  '(es2, _, d, w) ← submit None d (arrive 5 [Byte.x61; Byte.x62] w);
  '(es3, _, d, w) ← submit None d (arrive 5 [Byte.x63] w);
  Done (es1, es2, es3).

(** One receive, completed twice: on a driver that was just created, a single receive is pushed
    once and [submit] emits two entries for it, the second one from the operation that stayed in
    the pending queue after its entry had been handed to the caller. *)
Theorem single_receive_emitted_twice :
  emitted_twice = Done ([], [Entry_new 7 (Ok 2%Z)], [Entry_new 7 (Ok 1%Z)]).
Proof. vm_compute. reflexivity. Qed.

(** Push a receive, submit, cancel it, and submit again when bytes have arrived. *)
Definition cancelled_then_ready : outcome (list Entry) :=
  let d := (try_push_dyn (OpObject_new (recv_op 5) 7) sim_driver).2 in
  '(_, _, d, w) ← submit None d sim_fresh;
  let '(_, d) := try_cancel 7 d in
  '(es, _, _, _) ← submit None d (arrive 5 [Byte.x61] w);
  Done es.

(** A receive that was cancelled after its filter was registered: [try_cancel] leaves the
    registration in the kernel, so that the event that arrives later carries the index of an
    operation that is gone and [submit] panics. *)
Theorem cancel_leaves_registration : cancelled_then_ready = Panic.
Proof. vm_compute. reflexivity. Qed.

(** ** The properties of the driver on this kernel *)

Lemma sim_wheel_wf : wheel_wf (timers sim_driver) ∧ wheel_wf (timers waiting.1).
Proof. split; vm_compute; intros; lia. Qed.

Definition pushed : Driver SimOp := (try_push_dyn (OpObject_new (recv_op 5) 7) sim_driver).2.

(** A receive, a send and a timer are pushed: one is left pending, one is answered, one is set. *)
Lemma operate_squeue_conserves_witness :
  let q := [OpObject_new (recv_op 5) 7%Z;
            OpObject_new (OpSend (Send_new Fd_into (from_raw 6) (vec_of [Byte.x61] 0)) : SimOp) 8%Z;
            OpObject_new (OpTimeout (Timeout_new 20)) 9%Z] in
  let d := set_squeue q sim_driver in
  ∃ es d' w', operate_squeue d sim_fresh = Done (es, d', w') ∧
    squeue d' = [] ∧ capacity_left d' = 1024.
Proof.
  intros q d. destruct (operate_squeue d sim_fresh) as [[[es d'] w']| |] eqn:E;
    [|vm_compute in E; discriminate..].
  exists es, d', w'. split; [reflexivity|].
  destruct (operate_squeue_conserves d sim_fresh es d' w' E) as (H1 & H2 & _).
  split; [exact H1|exact H2].
Defined.

Lemma change_list_wellformed_witness :
  ∃ es r d' w', check_readiness None waiting.1 waiting.2 = Done (es, r, d', w') ∧
    NoDup (filter_of <$> events_to_change d').
Proof.
  destruct (check_readiness None waiting.1 waiting.2) as [[[[es r] d'] w']| |] eqn:E;
    [|vm_compute in E; discriminate..].
  exists es, r, d', w'. split; [reflexivity|].
  exact (proj1 (proj2 (change_list_wellformed None waiting.1 waiting.2 es r d' w' (proj2 sim_wheel_wf) E))).
Defined.

Lemma submit_accounts_witness :
  ∃ es r d' w', submit None pushed (arrive 5 [Byte.x61] sim_fresh) = Done (es, r, d', w') ∧
    (7%Z ∈ entry_user_data <$> es ∨ 7%Z ∈ known d').
Proof.
  destruct (submit None pushed (arrive 5 [Byte.x61] sim_fresh)) as [[[[es r] d'] w']| |] eqn:E;
    [|vm_compute in E; discriminate..].
  exists es, r, d', w'. split; [reflexivity|].
  apply (proj1 (proj2 (submit_accounts_for_operations None pushed _ es r d' w' (proj1 sim_wheel_wf) E) 7%Z)).
  apply elem_of_app. left. cbn. by left.
Defined.

Lemma submit_keeps_last_pending_witness :
  ∃ es d' w', submit None waiting.1 (arrive 5 [Byte.x61] waiting.2) = Done (es, Ok tt, d', w') ∧
    7%Z ∈ user_data <$> io_pending d'.
Proof.
  destruct (submit None waiting.1 (arrive 5 [Byte.x61] waiting.2)) as [[[[es r] d'] w']| |] eqn:E;
    [|vm_compute in E; discriminate..].
  assert (r = Ok tt) as -> by (vm_compute in E; congruence).
  exists es, d', w'. split; [reflexivity|].
  apply (submit_keeps_last_pending None waiting.1 (arrive 5 [Byte.x61] waiting.2) es d' w' (mkOpObject (recv_op 5) 7%Z)
    (proj2 sim_wheel_wf)); [reflexivity|reflexivity|vm_compute; lia|exact E].
Defined.

Lemma receive_operations_witness :
  ∃ res b' w', Recv_operate (Recv_new Fd_into (from_raw 5) (vec_of [] 8)) (arrive 5 [Byte.x61] sim_fresh) =
      Done (res, Recv_new Fd_into (from_raw 5) b', w') ∧
    receives (λ p n, SysRecv 5 p n 0) (vec_of [] 8) (arrive 5 [Byte.x61] sim_fresh) res b' w'.
Proof.
  exact (proj1 (proj2 (proj2 (receive_operations (vec_of [] 8) (arrive 5 [Byte.x61] sim_fresh)
    (vec_of_wf _ _) (from_raw 5) 0%Z 0%Z [])))).
Defined.

Lemma connect_two_polls_witness :
  ∃ c1, Connect_operate (Connect_new Fd_into (from_raw 5) (mkSockAddr 64 [] 16)) sim_fresh =
      Done (None, c1, sim_fresh) ∧
    Connect_operate c1 sim_fresh = Done (Some (Ok 0%Z), c1, sim_fresh).
Proof.
  destruct (connect_two_polls (Posix0 := Sim_Posix) (from_raw 5) (mkSockAddr 64 [] 16) sim_fresh sim_fresh sim_fresh
    (mkSysret (-1) EINPROGRESS [] [] 0 0) (mkSysret 0 0 [] [] 0 0)
    eq_refl eq_refl) as (res1 & c1 & res2 & H1 & Hn & _ & H2 & Hr & _).
  exists c1. rewrite H1, H2, (Hr ltac:(cbn; lia)).
  rewrite (proj2 Hn ltac:(vm_compute; auto)). split; reflexivity.
Defined.
