(* ===== verification/KqueueLive.v ===== *)
(** * No pending operation of the kqueue driver starves

    A submit registers the filters of the pending operations from the front of
    the queue until the change list is full and puts the ones it looked at
    behind the others.  So an operation moves forward with every submit until
    its turn comes, whatever is pushed behind it in the meantime. *)

From S2P Require Import Prelude BinaryHeap Driver TimerWheel Kqueue KqueueSim.
From stdpp Require Import base numbers sorting sets gmap list.

Section liveness.
Context {Op W : Type} `{!OpCode Op W, !KqueueOs W}.
Implicit Types (d : Driver Op) (w : W) (o : OpObject Op) (q : list (OpObject Op)).

#[local] Arguments check_readiness : simpl never.
#[local] Arguments operate_completed_and_requeue : simpl never.

(** The direction and the descriptor that an event waits for, as the driver compares them. *)
Definition filter_key (f : EventFilter) : option (bool * Z) :=
  match f with
  | FilterRead fd => Some (true, as_u64 fd)
  | FilterWrite fd => Some (false, as_u64 fd)
  | FilterOther => None
  end.

Definition covered (evs : list Event) (f : EventFilter) : Prop :=
  filter_key f ∈ (λ ev, filter_key (filter_of ev)) <$> evs.

Lemma covered_app evs evs' f : covered evs f → covered (evs ++ evs') f.
Proof. unfold covered. rewrite fmap_app, elem_of_app. by left. Qed.

(** The descriptors noted by the scan are those of its events. *)
Definition scan_covers (sc : Scan) : Prop :=
  (∀ fd, fd ∈ sc_reads sc → Some (true, fd) ∈ (λ ev, filter_key (filter_of ev)) <$> sc_events sc) ∧
  (∀ fd, fd ∈ sc_writes sc → Some (false, fd) ∈ (λ ev, filter_key (filter_of ev)) <$> sc_events sc).

(** One event of the scan: it is appended, or its filter is covered already. *)
Lemma scan_one (sc : Scan) ev absent reads writes :
  scan_covers sc →
  match filter_of ev with
  | FilterRead raw_fd =>
      _ ← rust_assert (bool_decide (0 ≤ raw_fd)%Z);
      Done (bool_decide (as_u64 raw_fd ∉ sc_reads sc), {[as_u64 raw_fd]} ∪ sc_reads sc, sc_writes sc)
  | FilterWrite raw_fd =>
      Done (bool_decide (as_u64 raw_fd ∉ sc_writes sc), sc_reads sc, {[as_u64 raw_fd]} ∪ sc_writes sc)
  | FilterOther => Panic
  end = Done (absent, reads, writes) →
  let evs := if absent : bool then sc_events sc ++ [ev] else sc_events sc in
  covered evs (filter_of ev) ∧ ∀ n t, scan_covers (mkScan evs n t reads writes).
Proof.
  intros [Hr Hw] E. unfold covered.
  assert (∀ b fd, filter_key (filter_of ev) = Some (b, fd) →
    (absent = false → Some (b, fd) ∈ (λ ev, filter_key (filter_of ev)) <$> sc_events sc) →
    Some (b, fd) ∈ (λ ev, filter_key (filter_of ev)) <$> (if absent then sc_events sc ++ [ev] else sc_events sc))
    as Hin.
  { intros b fd Hk. destruct absent; [|auto]. rewrite fmap_app, elem_of_app. cbn. rewrite Hk. set_solver. }
  assert (∀ x, x ∈ (λ ev, filter_key (filter_of ev)) <$> sc_events sc →
    x ∈ (λ ev, filter_key (filter_of ev)) <$> (if absent then sc_events sc ++ [ev] else sc_events sc)) as Hmono.
  { intros x. destruct absent; [|done]. rewrite fmap_app, elem_of_app. by left. }
  destruct (filter_of ev) as [fd|fd|] eqn:Hf; [| |done].
  - destruct (rust_assert _); simpl_outcome; try done. injection E as <- <- <-.
    assert (Some (true, as_u64 fd) ∈ (λ ev, filter_key (filter_of ev)) <$>
      (if bool_decide (as_u64 fd ∉ sc_reads sc) then sc_events sc ++ [ev] else sc_events sc)) as Hnew.
    { apply Hin; [done|]. intros Hb%bool_decide_eq_false. apply Hr. by destruct (decide (as_u64 fd ∈ sc_reads sc)). }
    split; [exact Hnew|]. intros n t. split; cbn; intros fd'; [|auto].
    intros [->%elem_of_singleton|?]%elem_of_union; auto.
  - injection E as <- <- <-.
    assert (Some (false, as_u64 fd) ∈ (λ ev, filter_key (filter_of ev)) <$>
      (if bool_decide (as_u64 fd ∉ sc_writes sc) then sc_events sc ++ [ev] else sc_events sc)) as Hnew.
    { apply Hin; [done|]. intros Hb%bool_decide_eq_false. apply Hw. by destruct (decide (as_u64 fd ∈ sc_writes sc)). }
    split; [exact Hnew|]. intros n t. split; cbn; intros fd'; [auto|].
    intros [->%elem_of_singleton|?]%elem_of_union; auto.
Qed.

(** What the scan looked at before the operation it stopped at is covered by the change list, and
    so is its first operation if there is room at all; it does not stop at its first operation when
    there are others and there is room. *)
Lemma scan_pending_covers w max_events ops : ∀ index (sc sc' : Scan),
  scan_covers sc → scan_pending w max_events index ops sc = Done sc' →
  (∀ f, covered (sc_events sc) f → covered (sc_events sc') f) ∧
  (ops ≠ [] → index ≤ sc_till sc') ∧
  (1 < length ops → sc_count sc < max_events → index < sc_till sc') ∧
  ∀ i o, ops !! i = Some o → index + i < sc_till sc' ∨ (i = 0 ∧ sc_count sc < max_events) →
    ∃ ev, as_event (op o) (Z.of_nat (index + i)) w = Done ev ∧ covered (sc_events sc') (filter_of ev).
Proof.
  induction ops as [|o ops IH]; intros index sc sc' Hsc E; cbn in E.
  { simplify_eq. split_and!; [done|done|cbn; lia|]. intros i o Hi. by rewrite lookup_nil in Hi. }
  case_bool_decide as Hlt; cycle 1.
  { simplify_eq. cbn in *. split_and!; [done|done|lia|]. intros i o' _ [?|[? ?]]; lia. }
  destruct (as_event (op o) (Z.of_nat index) w) as [ev| |] eqn:Hev; simpl_outcome; try done.
  match type of E with context [match ?x with Done _ => _ | Panic => _ | Undef => _ end] =>
    destruct x as [[[absent reads] writes]| |] eqn:Hf; [|done..] end.
  destruct (scan_one sc ev absent reads writes Hsc) as [Hcov Hsc1].
  { rewrite <- Hf. by destruct (filter_of ev). }
  set (sc1 := if absent then _ else _) in E.
  assert (sc_events sc1 = (if absent then sc_events sc ++ [ev] else sc_events sc) ∧ scan_covers sc1 ∧
    sc_till sc1 = index) as (Hev1 & Hcov1 & Ht1) by (subst sc1; destruct absent; split_and!; auto; apply Hsc1).
  clearbody sc1. destruct (IH (S index) sc1 sc' Hcov1 E) as (Hmono & Hge & _ & Hall).
  assert (index ≤ sc_till sc') as Hle.
  { destruct ops; [|specialize (Hge ltac:(done)); lia]. cbn in E. injection E as <-. lia. }
  split_and!; [|done|..].
  - intros f Hfc. apply Hmono. rewrite Hev1. destruct absent; [by apply covered_app|done].
  - intros Hlen _. cbn in Hlen. specialize (Hge ltac:(by destruct ops; [cbn in Hlen; lia|])). lia.
  - intros [|i] o' Ho' Hi; cbn in Ho'.
    + injection Ho' as <-. rewrite Nat.add_0_r. exists ev. split; [done|]. apply Hmono. by rewrite Hev1.
    + rewrite Nat.add_succ_r. apply (Hall i o' Ho'). left. destruct Hi as [?|[? _]]; lia.
Qed.

(** ** One submit *)

(** The queue that a submit scans, and the state in which it does. *)
Definition scanned d w : list (OpObject Op) * W :=
  match operate_squeue d w with Done (_, d1, w1) => (io_pending d1, w1) | _ => ([], w) end.

(** The submit emits an entry for [u], or the change list it hands to the kernel has the filter of
    the pending operation with the user data [u]. *)
Definition served (u : Z) d w (es : list Entry) d' : Prop :=
  u ∈ entry_user_data <$> es ∨
  ∃ i o ev, (scanned d w).1 !! i = Some o ∧ user_data o = u ∧
    as_event (op o) (Z.of_nat i) (scanned d w).2 = Done ev ∧ covered (events_to_change d') (filter_of ev).

Lemma operate_ready_frame evs : ∀ d w es d' w',
  operate_ready evs d w = Done (es, d', w') →
  events_to_change d' = events_to_change d.
Proof.
  induction evs as [|ev evs IH]; intros d w es d' w' E; cbn in E; [by simplify_eq|].
  destruct (io_pending d !! _) as [o|]; simpl_outcome; [|done]. case_bool_decide.
  - destruct (rust_assert _); simpl_outcome; try done.
    destruct (operate_ready _ _ _) as [[[es1 d1] w1]| |] eqn:E1; simpl_outcome; try done.
    simplify_eq. by apply IH in E1.
  - destruct (operate (op o) w) as [[[res op'] w1]| |]; simpl_outcome; try done.
    destruct res as [res|]; [|by apply IH in E].
    destruct (operate_ready _ _ _) as [[[es1 d1] w2]| |] eqn:E1; simpl_outcome; try done.
    simplify_eq. by apply IH in E1.
Qed.

Lemma requeue_frame till d w es d' w' :
  operate_completed_and_requeue till d w = Done (es, d', w') → events_to_change d' = events_to_change d.
Proof.
  unfold operate_completed_and_requeue.
  destruct (operate_ready _ _ _) as [[[es1 d1] w1]| |] eqn:E1; simpl_outcome; try done.
  destruct (requeue _ _ _ _); simpl_outcome; try done. intros; simplify_eq. by apply operate_ready_frame in E1.
Qed.

(** A submit that succeeds serves the operation at the front, and any other pending operation it
    serves or moves forward. *)
Lemma submit_progress t d w es d' w' i o :
  wheel_wf (timers d) → 0 < events_capacity d → io_pending d !! i = Some o →
  submit t d w = Done (es, Ok tt, d', w') →
  wheel_wf (timers d') ∧ events_capacity d' = events_capacity d ∧
  (served (user_data o) d w es d' ∨
   ∃ j o', j < i ∧ io_pending d' !! j = Some o' ∧ user_data o' = user_data o).
Proof.
  intros Hwf Hcap Hi Es. pose proof (submit_spec _ _ _ _ _ _ _ Hwf Es) as [Hwf' _].
  split; [done|]. revert Es. unfold submit, served, scanned.
  destruct (operate_squeue d w) as [[[es1 d1] w1]| |] eqn:E1; simpl_outcome; try done.
  apply operate_squeue_spec in E1 as (_ & _ & _ & Hev1 & Hwf1 & ps & ts & Hp1 & _).
  assert (io_pending d1 !! i = Some o) as Hi1 by (rewrite Hp1; by apply lookup_app_l_Some).
  rewrite (bool_decide_eq_false_2 (io_pending d1 = [])), andb_false_r
    by (intros Hn; rewrite Hn in Hi1; by rewrite lookup_nil in Hi1).
  destruct (check_readiness t d1 w1) as [[[[es2 till] d2] w2]| |] eqn:E2; simpl_outcome; try done.
  assert (events_capacity d2 = events_capacity d) as Hcap2.
  { revert E2. unfold check_readiness. destruct (scan_pending _ _ _ _ _); simpl_outcome; try done.
    destruct (match heap_peek _ with Some _ => _ | None => _ end) as [t1 w3].
    destruct (kevent _ _ _ _ w3) as [res w4]. destruct (instant_now w4) as [now w5].
    destruct (expire_timers now _) as [es4 tw]. intros; simplify_eq. done. }
  apply check_readiness_spec in E2 as (_ & _ & _ & Hp2 & _ & _ & sc & Esc & Hchg & Htill); [|auto].
  destruct till as [till|e]; [|done]. rewrite (Htill till eq_refl).
  pose proof (scan_till_le _ _ _ _ Esc) as Hle.
  destruct (operate_completed_and_requeue _ d2 w2) as [[[es3 d3] w3]| |] eqn:E3; simpl_outcome; try done.
  intros E; simplify_eq. pose proof (requeue_frame _ _ _ _ _ _ E3) as Hchg3.
  apply operate_completed_and_requeue_spec in E3 as ((_ & _ & Hcap3 & _) & _ & qq & idxs & Hq & _ & Hp3);
    [|by rewrite Hp2].
  split; [congruence|]. rewrite Hev1 in Esc.
  assert (scan_covers (mkScan [] 0 0 ∅ ∅)) as Hsc0 by (split; set_solver).
  destruct (scan_pending_covers _ _ _ _ _ _ Hsc0 Esc) as (_ & _ & Hmove & Hall). cbn in Hmove, Hall.
  destruct (decide (i < sc_till sc ∨ i = 0)) as [Hserve|Hnot].
  - left. right. destruct (Hall i o Hi1) as (ev & Hev & Hc); [tauto|]. exists i, o, ev.
    rewrite Hchg3, Hchg. done.
  - right. assert (i < length (io_pending d1)) by by apply lookup_lt_Some in Hi1.
    specialize (Hmove ltac:(lia) Hcap). apply (f_equal (λ l, l !! i)) in Hq.
    rewrite !list_lookup_fmap, Hp2, Hi1 in Hq. destruct (qq !! i) as [o'|] eqn:Hqi; [|done]. cbn in Hq.
    exists (i - sc_till sc), o'. split; [lia|]. split; [|by simplify_eq]. rewrite Hp3.
    apply lookup_app_l_Some. rewrite lookup_drop, <- Hqi. f_equal. lia.
Qed.

(** ** Several submits *)

(** Successful submits, one after the other; before each the client may have pushed or cancelled
    operations of the submission queue and the system may have done anything. *)
Inductive submits : Driver Op → list (Driver Op * W * list Entry * Driver Op) → Prop :=
| SubmitsNil d : submits d []
| SubmitsCons d q t w es d' w' l :
    submit t (set_squeue q d) w = Done (es, Ok tt, d', w') → submits d' l →
    submits d ((set_squeue q d, w, es, d') :: l).

(** C11 No pending operation starves: the operation at position [i] of the pending queue is served by
    one of the next [i + 1] successful submits, each of which may come with newly pushed
    operations: an entry is emitted for it, or the kernel is asked to watch its descriptor in its
    direction. *)
Theorem pending_served d i o l :
  wheel_wf (timers d) → 0 < events_capacity d → io_pending d !! i = Some o →
  submits d l → i < length l →
  Exists (λ '(d, w, es, d'), served (user_data o) d w es d') l.
Proof.
  intros Hwf Hcap Hi Hl. revert i o Hwf Hcap Hi.
  induction Hl as [d|d q t w es d' w' l Es _ IH]; intros i o Hwf Hcap Hi Hlen; cbn in Hlen; [lia|].
  destruct (submit_progress _ (set_squeue q d) _ _ _ _ i o Hwf Hcap Hi Es) as (Hwf' & Hcap' & [Hs|(j & o' & Hj & Ho' & Hu)]);
    [by apply Exists_cons_hd|]. apply Exists_cons_tl. rewrite <- Hu.
  cbn in Hcap'. apply (IH j o'); [done|congruence|done|lia].
Qed.
End liveness.

(** A change list with room for one event, and two receives: the second is served by the second
    submit. *)
Definition narrow : Driver SimOp :=
  set_pending [mkOpObject (recv_op 5) 7%Z; mkOpObject (recv_op 6) 8%Z]
    (mkDriver 3 [] 4 4 [] [] 1 [] ∅ ∅ ∅ (with_capacity 0)).

Lemma narrow_submits : ∃ l, submits narrow l ∧ length l = 2.
Proof.
  destruct (submit (Some 0%Z) (set_squeue [] narrow) sim_fresh) as [[[[es1 r1] d1] w1]| |] eqn:E1;
    [|vm_compute in E1; discriminate..].
  destruct (submit (Some 0%Z) (set_squeue [] d1) w1) as [[[[es2 r2] d2] w2]| |] eqn:E2;
    [|vm_compute in E1; simplify_eq; vm_compute in E2; discriminate..].
  assert (r1 = Ok tt ∧ r2 = Ok tt) as [-> ->].
  { vm_compute in E1. simplify_eq. vm_compute in E2. by simplify_eq. }
  eexists. split; [|shelve]. eapply SubmitsCons; [exact E1|]. eapply SubmitsCons; [exact E2|]. constructor.
  Unshelve. reflexivity.
Qed.

Lemma pending_served_witness : ∃ l, submits narrow l ∧ Exists (λ '(d, w, es, d'), served 8 d w es d') l.
Proof.
  destruct narrow_submits as (l & Hl & Hlen). exists l. split; [exact Hl|].
  apply (pending_served narrow 1 (mkOpObject (recv_op 6) 8%Z) l);
    [|vm_compute; lia|reflexivity|exact Hl|rewrite Hlen; lia].
  vm_compute. intros; lia.
Defined.
