(* ===== verification/DriverQueue.v ===== *)
(** * The submission queue as its clients see it

    Consequences of [CompleteIoSpec] alone, which hold for every driver:
    pushing a whole queue is pushing its operations one after the other until
    one is refused, and pushing never makes room or exceeds it. *)

From S2P Require Import Prelude Driver Kqueue KqueueSim.
From stdpp Require Import base numbers list relations.

Section queue.
Context {Op W D Fd : Type} `{!CompleteIo Op W D Fd, !CompleteIoSpec Op W D Fd}.
Implicit Types (d : D) (w : W) (q : list (OpObject Op)).

(** The reference: [try_push_dyn] until it returns the operation. *)
Fixpoint push_each q d w : outcome (list (OpObject Op) * D * W) :=
  match q with
  | [] => Done ([], d, w)
  | o :: q =>
      '(r, d, w) ← ci_try_push_dyn o d w;
      match r with
      | Ok _ => push_each q d w
      | Err o => Done (o :: q, d, w)
      end
  end.

(** A driver that gives a refused operation back as it was. *)
Definition keeps_refused : Prop := ∀ o d w o' d' w', ci_try_push_dyn o d w = Done (Err o', d', w') → o' = o.

Lemma push_each_spec q : ∀ d w q' d' w',
  sq_wf d → Forall (λ o, is_usize (user_data o)) q → push_each q d w = Done (q', d', w') →
  let n := Nat.min (ci_capacity_left d) (length q) in
  sq_wf d' ∧ user_data <$> q' = user_data <$> drop n q ∧ tail q' = tail (drop n q) ∧ (keeps_refused → q' = drop n q) ∧
  sq_abs d' = sq_abs d ++ (user_data <$> take n q) ∧
  ci_capacity_left d' = ci_capacity_left d - n.
Proof.
  induction q as [|o q IH]; intros d w q' d' w' Hwf Hq E; cbn [push_each length] in *.
  { simplify_eq. rewrite Nat.min_0_r. cbn. rewrite app_nil_r, Nat.sub_0_r. done. }
  apply Forall_cons in Hq as [Ho Hq].
  destruct (ci_try_push_dyn o d w) as [[[r d1] w1]| |] eqn:Ep; simpl_outcome; try done.
  pose proof Ep as [Hwf1 Hr]%sq_push; [|done..]. destruct r as [[]|o'].
  - destruct Hr as (Hpos & Habs & Hcap). destruct (IH _ _ _ _ _ Hwf1 Hq E) as (Hwf' & Hq' & Htl & Hkeep & Habs' & Hcap').
    assert (Nat.min (ci_capacity_left d) (S (length q)) = S (Nat.min (ci_capacity_left d1) (length q))) as -> by lia.
    cbn. rewrite Habs', Habs, <- app_assoc. split_and!; [done|exact Hq'|exact Htl|exact Hkeep|done|lia].
  - destruct Hr as (Hz & Hu & Habs & Hcap). simplify_eq. rewrite Hz. cbn.
    rewrite app_nil_r, Hu. split_and!; try done. intros Hkeep. by rewrite (Hkeep _ _ _ _ _ _ Ep).
Qed.

(** C23 Pushing a queue at once and pushing its operations one by one until the driver refuses one are
    equivalent for each of the drivers: the same user data is queued, in the same order, the same room
    is left, and the operations from the first one without room on are left over.  Only that first one
    may differ: pushing at once leaves it as it was, and [try_push_dyn] gives it back with its user
    data but, unless the driver keeps what it refuses, as it is after an entry was made of it. *)
Theorem push_queue_equiv q d w q1 d1 w1 q2 d2 w2 :
  sq_wf d → Forall (λ o, is_usize (user_data o)) q →
  ci_push_queue q d w = Done (q1, d1, w1) → push_each q d w = Done (q2, d2, w2) →
  sq_abs d1 = sq_abs d2 ∧ ci_capacity_left d1 = ci_capacity_left d2 ∧
  q1 = drop (Nat.min (ci_capacity_left d) (length q)) q ∧
  user_data <$> q2 = user_data <$> q1 ∧ tail q2 = tail q1 ∧ (keeps_refused → q2 = q1).
Proof.
  intros Hwf Hq (_ & -> & Habs & Hcap)%sq_push_queue (_ & Hq' & Htl & Hkeep & Habs' & Hcap')%push_each_spec; [|done..].
  split_and!; (done || congruence).
Qed.

(** Pushes, one at a time or a queue at once. *)
Inductive push_step : D → D → Prop :=
| PushOne o d w r d' w' :
    is_usize (user_data o) → ci_try_push_dyn o d w = Done (r, d', w') → push_step d d'
| PushQueue q d w q' d' w' :
    Forall (λ o, is_usize (user_data o)) q → ci_push_queue q d w = Done (q', d', w') → push_step d d'.

Lemma push_step_room d d' :
  sq_wf d → push_step d d' →
  sq_wf d' ∧ length (sq_abs d') + ci_capacity_left d' = length (sq_abs d) + ci_capacity_left d ∧
  sq_abs d `prefix_of` sq_abs d'.
Proof.
  intros Hwf Hs. revert Hwf. destruct Hs as [o d0 w r d1 w' Hu E|q d0 w q' d1 w' Hq E]; intros Hwf.
  - apply sq_push in E as [Hwf' Hr]; [|done|done]. split; [done|]. destruct r as [[]|].
    + destruct Hr as (Hpos & -> & ->). rewrite length_app. cbn. split; [lia|by eexists].
    + destruct Hr as (Hz & _ & -> & ->). split; [lia|done].
  - apply sq_push_queue in E as (Hwf' & _ & -> & ->); [|done|done]. split; [done|].
    rewrite length_app, length_fmap, length_take. split; [lia|by eexists].
Qed.

(** The submission queue is bounded and keeps its order: whatever sequence of pushes reaches the
    driver between two submits, what was queued stays where it is, later operations come behind,
    and the operations queued never exceed the room there was. *)
Theorem queue_bounded d d' :
  sq_wf d → rtc push_step d d' →
  sq_abs d `prefix_of` sq_abs d' ∧
  length (sq_abs d') + ci_capacity_left d' = length (sq_abs d) + ci_capacity_left d ∧
  length (sq_abs d') ≤ length (sq_abs d) + ci_capacity_left d.
Proof.
  intros Hwf Hr. assert (sq_abs d `prefix_of` sq_abs d' ∧
    length (sq_abs d') + ci_capacity_left d' = length (sq_abs d) + ci_capacity_left d) as [? ?]; [|split_and!; [done..|lia]].
  revert Hwf. induction Hr as [|d d1 d' Hs _ IH]; intros Hwf; [done|].
  destruct (push_step_room _ _ Hwf Hs) as (Hwf1 & Hl & Hp). destruct (IH Hwf1) as [Hp' Hl'].
  split; [by etrans|lia].
Qed.
End queue.

(** The kqueue driver gives a refused operation back as it was. *)
Lemma kqueue_keeps_refused {Op W} `{!OpCode Op W, !KqueueOs W} : keeps_refused (Op := Op) (W := W) (D := Driver Op) (Fd := Fd).
Proof. intros o d w o' d' w'. cbn. unfold try_push_dyn. case_bool_decide; [done|]. by intros [= <- <- <-]. Qed.

(** ** On the kqueue driver, with room for one operation *)

Definition one_slot : Driver SimOp := set_drained 1 sim_driver.

Lemma one_slot_wf : sq_wf (Op := SimOp) (W := Sim) (Fd := Fd) one_slot.
Proof. change (driver_wf one_slot). split_and!; [cbn; lia|cbn; lia|]. apply sim_wheel_wf. Qed.

Definition two_ops : list (OpObject SimOp) := [OpObject_new (recv_op 5) 7%Z; OpObject_new (recv_op 6) 8%Z].

Lemma two_ops_usize : Forall (λ o, is_usize (user_data o)) two_ops.
Proof. repeat constructor; cbn; unfold usize_MAX; lia. Qed.

Lemma push_queue_equiv_witness :
  ∃ q1 d1 q2 d2 w1 w2,
    ci_push_queue (Fd := Fd) two_ops one_slot sim_fresh = Done (q1, d1, w1) ∧
    push_each (Fd := Fd) two_ops one_slot sim_fresh = Done (q2, d2, w2) ∧ q2 = q1 ∧ user_data <$> q2 = [8%Z].
Proof.
  do 6 eexists. split; [reflexivity|]. split; [reflexivity|]. split; [|reflexivity].
  destruct (push_queue_equiv two_ops one_slot sim_fresh _ _ _ _ _ _ one_slot_wf two_ops_usize eq_refl eq_refl) as (_ & _ & _ & _ & _ & H).
  exact (H kqueue_keeps_refused).
Defined.

Lemma queue_bounded_witness :
  ∃ d', rtc (push_step (Op := SimOp) (W := Sim) (Fd := Fd)) one_slot d' ∧
    length (sq_abs (W := Sim) (Fd := Fd) d') ≤ 1 ∧ length (squeue d') = 1.
Proof.
  eexists. assert (rtc (push_step (Op := SimOp) (W := Sim) (Fd := Fd)) one_slot
    (push_queue two_ops one_slot).2) as Hr.
  { apply rtc_once. eapply (PushQueue two_ops one_slot sim_fresh); [exact two_ops_usize|reflexivity]. }
  split; [exact Hr|]. split; [|reflexivity].
  exact (proj2 (proj2 (queue_bounded one_slot _ one_slot_wf Hr))).
Defined.
