(* ===== verification/Attacher.v ===== *)
(** * Handles and the runtime they use

    [src/attacher.rs], and the interface through which files and sockets use
    the runtime: [runtime.attach(fd)] is [RuntimeAttach] and
    [runtime.submit(op).await] is [Await], which returns the result of the
    operation with the operation as the driver left it. *)

From S2P Require Import Prelude.
From stdpp Require Import base numbers.

(** [F] is the driver's attached descriptor, [W] the runtime and everything behind it. *)
Class RuntimeAttach (F W : Type) := { runtime_attach : Z → W → io_result F * W }.
Class Await (O W : Type) := { await_op : O → W → io_result Z * O * W }.

(** [src/src/attacher.rs:18-22] *)
Record Attacher (F : Type) := mkAttacher { once : option F }.
Arguments mkAttacher {F}.
Arguments once {F}.

(** [src/src/attacher.rs:25-29] *)
Definition Attacher_new {F} : Attacher F := mkAttacher None.

Section attacher.
Context {F W : Type} `{!RuntimeAttach F W}.

(** [src/src/attacher.rs:31-35] [OnceLock::get_or_try_init] *)
Definition Attacher_attach (self : Attacher F) (source : Z) (w : W) : io_result F * Attacher F * W :=
  match once self with
  | Some fd => (Ok fd, self, w)
  | None =>
      match runtime_attach source w with
      | (Ok fd, w) => (Ok fd, mkAttacher (Some fd), w)
      | (Err e, w) => (Err e, self, w)
      end
  end.

(** A handle that was attached is not attached again, and keeps its descriptor. *)
Lemma attach_once self source w fd self' w' :
  Attacher_attach self source w = (Ok fd, self', w') →
  ∀ source' w'', Attacher_attach self' source' w'' = (Ok fd, self', w'').
Proof.
  unfold Attacher_attach. destruct (once self) as [f|] eqn:Ho.
  - intros [= -> <- <-] source' w''. by rewrite Ho.
  - destruct (runtime_attach source w) as [[f|e] w1]; [|done]. by intros [= -> <- <-].
Qed.
End attacher.
