(* ===== verification/Runtime.v ===== *)
(** * The runtime

    [src/key.rs], [src/task/op.rs], [src/task/runtime.rs]:
    the slab of registered operations, the queues in front of the driver, and
    the futures that wait for operations.  An operation lives in a leaked box;
    the slab and the driver both hold its address, so that the driver's
    [OpObject]s refer to boxes and the boxes are part of the [World].  The
    driver is any implementation of [CompleteIo]; the slab crate is the class
    [Slab].  A task is a number and waking it schedules it. *)

From S2P Require Import Prelude Driver Attacher.
From stdpp Require Import base numbers list gmap.

(** ** Keys *)

(** What the type argument of a key says of the operation behind it. *)
Inductive KeyType := KOp | KUnit.

(** [src/src/key.rs:1-6] *)
Record Key := mkKey { key_user_data : Z; key_type : KeyType }.

(** [src/src/key.rs:16-30] *)
Definition Key_new (user_data : Z) : Key := mkKey user_data KOp.
(** [src/src/key.rs:32-38] *)
Definition Key_new_dummy (user_data : Z) : Key := mkKey user_data KUnit.

(** [src/src/key.rs:8-12] *)
Definition Key_clone (self : Key) : Key := self.
(** [src/src/key.rs:40-46] *)
Definition Key_deref (self : Key) : Z := key_user_data self.

(** ** Registered operations *)

Notation task := nat (only parsing).

(** [src/src/task/op.rs:20-25] [op] is the address of the leaked box *)
Record RegisteredOp := mkRegisteredOp {
  reg_op : option Z; reg_waker : option task; reg_result : option (io_result Z); reg_cancelled : bool }.

(** [src/src/task/op.rs:27-36] *)
Definition RegisteredOp_new (op : option Z) : RegisteredOp := mkRegisteredOp op None None false.

(** The slab crate: [insert] returns the key of a slot that was vacant (and panics when the address
    space is exhausted), [get_mut] gives access to an occupied slot, [remove] empties one. *)
Class Slab (S : Type) := {
  slab_empty : S;
  slab_get : Z → S → option RegisteredOp;
  slab_insert : RegisteredOp → S → outcome (Z * S);
  slab_set : Z → RegisteredOp → S → S;
  slab_remove : Z → S → S;
}.

Class SlabLaws (S : Type) `{!Slab S} : Prop := {
  slab_empty_get k : slab_get k slab_empty = None;
  slab_insert_fresh r s k s' :
    slab_insert r s = Done (k, s') → is_usize k ∧ slab_get k s = None;
  slab_insert_get r s k s' k' :
    slab_insert r s = Done (k, s') →
    slab_get k' s' = if bool_decide (k' = k) then Some r else slab_get k' s;
  slab_set_get k r s k' :
    slab_get k s ≠ None → slab_get k' (slab_set k r s) = if bool_decide (k' = k) then Some r else slab_get k' s;
  slab_remove_get k s k' :
    slab_get k' (slab_remove k s) = if bool_decide (k' = k) then None else slab_get k' s;
}.

(** The boxes that were leaked and not freed, and the rest of the system. *)
Record World (Op W : Type) := mkWorld { boxes : gmap Z Op; sys : W }.
Arguments mkWorld {Op W}.
Arguments boxes {Op W}.
Arguments sys {Op W}.

(** The allocator: the address of a new box. *)
Class BoxAlloc (Op W : Type) := { box_addr : World Op W → Z }.
Class BoxAllocLaws (Op W : Type) `{!BoxAlloc Op W} : Prop := {
  box_addr_fresh w : boxes w !! box_addr w = None }.

(** The async-task crate: waking a task schedules it at the end of the run queue, unless it is
    scheduled already or has completed. *)
Class AsyncTask := {
  wake : task → list task → list task;
  task_completed : task → Prop;
  wake_schedules t q :
    wake t q = q ++ [t] ∨ (wake t q = q ∧ (t ∈ q ∨ task_completed t));
}.

(** ** OpRuntime *)

Section op_runtime.
Context {Op W S : Type} `{!Slab S, !BoxAlloc Op W}.
Notation world := (World Op W).

(** [OpRuntime] is the slab. *)
Notation OpRuntime := S (only parsing).

(** [src/src/task/op.rs:44-50] *)
Definition insert (o : Op) (s : OpRuntime) (w : world) : outcome (Key * Z * OpRuntime * world) :=
  let op_ptr := box_addr w in
  let w := mkWorld (<[op_ptr := o]> (boxes w)) (sys w) in
  '(user_data, s) ← slab_insert (RegisteredOp_new (Some op_ptr)) s;
  Done (Key_new user_data, op_ptr, s, w).

(** [src/src/task/op.rs:52-54] *)
Definition insert_dummy (s : OpRuntime) : outcome (Key * OpRuntime) :=
  '(user_data, s) ← slab_insert (RegisteredOp_new None) s; Done (Key_new_dummy user_data, s).

(** [src/src/task/op.rs:56-60] *)
Definition update_waker (key : Key) (waker : task) (s : OpRuntime) : OpRuntime :=
  match slab_get (key_user_data key) s with
  | Some op => slab_set (key_user_data key)
                 (mkRegisteredOp (reg_op op) (Some waker) (reg_result op) (reg_cancelled op)) s
  | None => s
  end.

(** [src/src/task/op.rs:87-97] with [T = ()] the box is not freed: a box of a zero-sized type owns
    no allocation *)
Definition remove (key : Key) (s : OpRuntime) (w : world) :
    outcome (option (io_result Z) * option (Op + unit) * OpRuntime * world) :=
  registered_op ← expect (slab_get (key_user_data key) s);
  let s := slab_remove (key_user_data key) s in
  match reg_op registered_op with
  | None => Done (reg_result registered_op, None, s, w)
  | Some ptr =>
      match key_type key with
      | KUnit => Done (reg_result registered_op, Some (inr tt), s, w)
      | KOp =>
          match boxes w !! ptr with
          | Some operation =>
              Done (reg_result registered_op, Some (inl operation), s,
                    mkWorld (delete ptr (boxes w)) (sys w))
          | None => Undef
          end
      end
  end.

(** [src/src/task/op.rs:62-72] the tasks woken *)
Definition update_result (key : Key) (result : io_result Z) (s : OpRuntime) (w : world) :
    outcome (list task * OpRuntime * world) :=
  match slab_get (key_user_data key) s with
  | Some op =>
      let woken := match reg_waker op with Some waker => [waker] | None => [] end in
      let s := slab_set (key_user_data key)
                 (mkRegisteredOp (reg_op op) None (Some result) (reg_cancelled op)) s in
      if reg_cancelled op then
        '(_, _, s, w) ← remove key s w; Done (woken, s, w)
      else Done (woken, s, w)
  | None => Done ([], s, w)
  end.

(** [src/src/task/op.rs:74-79] *)
Definition has_result (key : Key) (s : OpRuntime) : bool :=
  match slab_get (key_user_data key) s with
  | Some op => bool_decide (is_Some (reg_result op))
  | None => false
  end.

(** [src/src/task/op.rs:81-85] *)
Definition cancel (key : Key) (s : OpRuntime) : OpRuntime :=
  match slab_get (key_user_data key) s with
  | Some op => slab_set (key_user_data key)
                 (mkRegisteredOp (reg_op op) (reg_waker op) (reg_result op) true) s
  | None => s
  end.

(** [src/src/task/op.rs:104-113] *)
Fixpoint extend (entries : list Entry) (s : OpRuntime) (w : world) :
    outcome (list task * OpRuntime * world) :=
  match entries with
  | [] => Done ([], s, w)
  | entry :: entries =>
      '(woken, s, w) ← update_result (Key_new_dummy (entry_user_data entry)) (entry_result entry) s w;
      '(woken', s, w) ← extend entries s w;
      Done (woken ++ woken', s, w)
  end.
End op_runtime.

(** ** Runtime *)

Section runtime.
Context {Op W S D Fd : Type} `{!AsyncTask, !Slab S, !BoxAlloc Op W, !CompleteIo Z (World Op W) D Fd}.
Notation world := (World Op W).

(** [src/src/task/runtime.rs:18-24] *)
Record Runtime := mkRuntime {
  rt_driver : D; runnables : list task; unqueued_operations : list (OpObject Z);
  unqueued_cancels : list Z; op_runtime : S }.

(** [src/src/task/runtime.rs:26-35] given the result of [Driver::new] *)
Definition Runtime_new (driver : io_result D) : io_result Runtime :=
  result_map (λ d, mkRuntime d [] [] [] slab_empty) driver.

Definition set_runnables (q : list task) (rt : Runtime) : Runtime :=
  mkRuntime (rt_driver rt) q (unqueued_operations rt) (unqueued_cancels rt) (op_runtime rt).

(** The wakers called, in order. *)
Definition wake_all (ts : list task) (rt : Runtime) : Runtime :=
  set_runnables (foldl (λ q t, wake t q) (runnables rt) ts) rt.

(** [src/src/task/runtime.rs:37-40] [as_raw_fd] is that of the driver *)
Definition raw_driver (as_raw_fd : D → Z) (rt : Runtime) : Z := as_raw_fd (rt_driver rt).

(** [src/src/task/runtime.rs:42-48] async-task's [spawn_unchecked]: the new task [t] is scheduled *)
Definition spawn_unchecked (t : task) (rt : Runtime) : Runtime :=
  set_runnables (runnables rt ++ [t]) rt.

(** [src/src/task/runtime.rs:69-71] *)
Definition spawn (t : task) (rt : Runtime) : Runtime := spawn_unchecked t rt.

(** [src/src/task/runtime.rs:73-75] *)
Definition rt_attach (fd : Z) (rt : Runtime) (w : world) : io_result Fd * Runtime * world :=
  let '(r, d, w) := ci_attach fd (rt_driver rt) w in
  (r, mkRuntime d (runnables rt) (unqueued_operations rt) (unqueued_cancels rt) (op_runtime rt), w).

(** [src/src/task/runtime.rs:77-88] the future is spawned as the task [t] *)
Definition rt_submit (t : task) (o : Op) (rt : Runtime) (w : world) : outcome (Key * Runtime * world) :=
  '(user_data, op_mut, s, w) ← insert o (op_runtime rt) w;
  let op_object := OpObject_new op_mut (key_user_data user_data) in
  '(r, d, w) ← ci_try_push_dyn op_object (rt_driver rt) w;
  let unqueued := match r with
                  | Err op_object => unqueued_operations rt ++ [op_object]
                  | Ok _ => unqueued_operations rt
                  end in
  Done (user_data,
        spawn_unchecked t (mkRuntime d (runnables rt) unqueued (unqueued_cancels rt) s), w).

(** [src/src/task/runtime.rs:90-93] *)
Definition submit_dummy (rt : Runtime) : outcome (Key * Runtime) :=
  '(k, s) ← insert_dummy (op_runtime rt);
  Done (k, mkRuntime (rt_driver rt) (runnables rt) (unqueued_operations rt) (unqueued_cancels rt) s).

(** [src/src/task/runtime.rs:95-101] *)
Definition cancel_op (user_data : Key) (rt : Runtime) : Runtime :=
  match ci_try_cancel (key_user_data user_data) (rt_driver rt) with
  | (Err _, d) => mkRuntime d (runnables rt) (unqueued_operations rt)
                    (unqueued_cancels rt ++ [key_user_data user_data]) (op_runtime rt)
  | (Ok _, d) => mkRuntime d (runnables rt) (unqueued_operations rt) (unqueued_cancels rt)
                   (cancel user_data (op_runtime rt))
  end.

Definition set_op_runtime (s : S) (rt : Runtime) : Runtime :=
  mkRuntime (rt_driver rt) (runnables rt) (unqueued_operations rt) (unqueued_cancels rt) s.

(** [src/src/task/runtime.rs:103-118] [cx] is the polling task *)
Definition poll_task (cx : task) (user_data : Key) (rt : Runtime) (w : world) :
    outcome (Poll (io_result Z * (Op + unit)) * Runtime * world) :=
  if has_result user_data (op_runtime rt) then
    '(maybe_result, maybe_op, s, w) ← remove user_data (op_runtime rt) w;
    result ← expect maybe_result;
    operation ← expect maybe_op;
    Done (Ready (result, operation), set_op_runtime s rt, w)
  else Done (Pending, set_op_runtime (update_waker user_data cx (op_runtime rt)) rt, w).

(** [src/src/task/runtime.rs:120-130] *)
Definition poll_dummy (cx : task) (user_data : Key) (rt : Runtime) (w : world) :
    outcome (Poll (io_result Z) * Runtime * world) :=
  if has_result user_data (op_runtime rt) then
    '(maybe_result, _, s, w) ← remove user_data (op_runtime rt) w;
    result ← expect maybe_result;
    Done (Ready result, set_op_runtime s rt, w)
  else Done (Pending, set_op_runtime (update_waker user_data cx (op_runtime rt)) rt, w).

(** [src/src/task/runtime.rs:135-140] the loop of [poll] over the outstanding cancels *)
Fixpoint retry_cancels (cancels : list Z) (d : D) : list Z * D :=
  match cancels with
  | [] => ([], d)
  | user_data :: cancels =>
      match ci_try_cancel user_data d with
      | (Err _, d) => (user_data :: cancels, d)
      | (Ok _, d) => retry_cancels cancels d
      end
  end.

(** [src/src/task/runtime.rs:132-161] [kind] is [io::Error::kind] *)
Definition rt_poll (kind : io_error → ErrorKind) (rt : Runtime) (w : world) : outcome (Runtime * world) :=
  let '(cancels, d) := retry_cancels (unqueued_cancels rt) (rt_driver rt) in
  '(unqueued, d, w) ← ci_push_queue (unqueued_operations rt) d w;
  let timeout := if bool_decide (0 < length unqueued) then Some 0%Z else None in
  '(entries, r, d, w) ← ci_submit timeout d w;
  '(woken, s, w) ← extend entries (op_runtime rt) w;
  let rt := wake_all woken (mkRuntime d (runnables rt) unqueued cancels s) in
  match r with
  | Ok _ => Done (rt, w)
  | Err e => if bool_decide (kind e = TimedOut) then Done (rt, w) else Panic
  end.

(** ** The future of an operation *)

(** [src/src/task/op.rs:115-120] *)
Record OpFuture := mkOpFuture { fut_user_data : Key; completed : bool }.

(** [src/src/task/op.rs:122-130] *)
Definition OpFuture_new (user_data : Key) : OpFuture := mkOpFuture user_data false.

(** [src/src/task/op.rs:132-142] *)
Definition OpFuture_poll (cx : task) (self : OpFuture) (rt : Runtime) (w : world) :
    outcome (Poll (io_result Z * (Op + unit)) * OpFuture * Runtime * world) :=
  '(res, rt, w) ← poll_task cx (fut_user_data self) rt w;
  Done (res, match res with Ready _ => mkOpFuture (fut_user_data self) true | Pending => self end, rt, w).

(** [src/src/task/op.rs:144-154] *)
Definition OpFuture_unit_poll (cx : task) (self : OpFuture) (rt : Runtime) (w : world) :
    outcome (Poll (io_result Z) * OpFuture * Runtime * world) :=
  '(res, rt, w) ← poll_dummy cx (fut_user_data self) rt w;
  Done (res, match res with Ready _ => mkOpFuture (fut_user_data self) true | Pending => self end, rt, w).

(** [src/src/task/op.rs:156-162] *)
Definition OpFuture_drop (self : OpFuture) (rt : Runtime) : Runtime :=
  if negb (completed self) then cancel_op (fut_user_data self) rt else rt.

(** ** The executor

    [run t] is one [Runnable::run] of the task [t]: it polls the future of the task, which calls
    into the runtime; [U] is the state of the futures. *)
Section executor.
Context {U R : Type} (run : task → Runtime → world → U → outcome (Runtime * world * U))
  (take_result : U → option R) (kind : io_error → ErrorKind).

(** [src/src/task/runtime.rs:54-61] the inner loop, [None] when the fuel does not suffice *)
Fixpoint run_tasks (fuel : nat) (rt : Runtime) (w : world) (u : U) :
    option (outcome (Runtime * world * U)) :=
  match runnables rt with
  | [] => Some (Done (rt, w, u))
  | next_task :: rest =>
      match fuel with
      | 0 => None
      | Datatypes.S fuel =>
          match run next_task (set_runnables rest rt) w u with
          | Done (rt, w, u) => run_tasks fuel rt w u
          | Panic => Some Panic
          | Undef => Some Undef
          end
      end
  end.

Fixpoint block_on_loop (fuel : nat) (rt : Runtime) (w : world) (u : U) :
    option (outcome (R * Runtime * world * U)) :=
  match run_tasks fuel rt w u with
  | None => None
  | Some Panic => Some Panic
  | Some Undef => Some Undef
  | Some (Done (rt, w, u)) =>
      match take_result u with
      | Some result => Some (Done (result, rt, w, u))
      | None =>
          match fuel with
          | 0 => None
          | Datatypes.S fuel =>
              match rt_poll kind rt w with
              | Done (rt, w) => block_on_loop fuel rt w u
              | Panic => Some Panic
              | Undef => Some Undef
              end
          end
      end
  end.

(** [src/src/task/runtime.rs:50-67] the main future is the task [main] *)
Definition block_on (fuel : nat) (main : task) (rt : Runtime) (w : world) (u : U) :
    option (outcome (R * Runtime * world * U)) :=
  block_on_loop fuel (spawn_unchecked main rt) w u.

(** *** The runtime of a thread *)

(** [src/src/task/mod.rs:22-24] the thread-local runtime: made at its first use, with what
    [Driver::new] then returns *)
Definition RUNTIME_with (runtime : option Runtime) (driver : io_result D) : outcome Runtime :=
  match runtime with
  | Some rt => Done rt
  | None => match Runtime_new driver with Ok rt => Done rt | Err _ => Panic end
  end.

(** [src/src/task/mod.rs:45-47] *)
Definition task_block_on (fuel : nat) (main : task) (runtime : option Runtime) (driver : io_result D) (w : world) (u : U) :
    option (outcome (R * Runtime * world * U)) :=
  match RUNTIME_with runtime driver with
  | Done rt => block_on fuel main rt w u
  | Panic => Some Panic
  | Undef => Some Undef
  end.

(** [src/src/task/mod.rs:64-66] *)
Definition task_spawn (t : task) (runtime : option Runtime) (driver : io_result D) : outcome Runtime :=
  rt ← RUNTIME_with runtime driver; Done (spawn t rt).
End executor.

(** What the handles call: [runtime.attach], on the runtime and the world. *)
#[global] Instance runtime_RuntimeAttach : RuntimeAttach Fd (Runtime * world) := {|
  runtime_attach fd '(rt, w) := let '(r, rt, w) := rt_attach fd rt w in (r, (rt, w)) |}.

End runtime.
Arguments Runtime : clear implicits.
