(* ===== verification/RuntimeSpec.v ===== *)
(** * Properties of the runtime

    What the slab of operations promises to the futures ([deliver],
    [OpState]), the invariant that every call into the runtime keeps, and the
    life of an operation from its submission to the poll that returns it. *)

From S2P Require Import Prelude Driver Attacher Runtime.
From stdpp Require Import base numbers list gmap.

(** ** Delivering completions *)

(** What one completion does to a slot. *)
Definition deliver (slot : option RegisteredOp) (r : io_result Z) : option RegisteredOp :=
  match slot with
  | Some op => if reg_cancelled op then None else Some (mkRegisteredOp (reg_op op) None (Some r) false)
  | None => None
  end.

(** The results that a list of entries carries for one key. *)
Definition results_for (k : Z) (es : list Entry) : list (io_result Z) :=
  entry_result <$> filter (λ e, entry_user_data e = k) es.

Lemma results_for_cons k e es :
  results_for k (e :: es) =
    if bool_decide (k = entry_user_data e) then entry_result e :: results_for k es else results_for k es.
Proof.
  unfold results_for. case_bool_decide.
  - by rewrite filter_cons_True.
  - by rewrite filter_cons_False.
Qed.
#[global] Arguments results_for : simpl never.

Definition waker_of (slot : option RegisteredOp) : list nat :=
  match slot with
  | Some op => match reg_waker op with Some t => [t] | None => [] end
  | None => []
  end.

Section op_runtime_spec.
Context {Op W S : Type} `{!Slab S, !SlabLaws S}.
Implicit Types (s : S) (w : World Op W).

Lemma update_result_spec k r s w :
  ∃ s', update_result (Key_new_dummy k) r s w = Done (waker_of (slab_get k s), s', w) ∧
    ∀ k', slab_get k' s' = if bool_decide (k' = k) then deliver (slab_get k s) r else slab_get k' s.
Proof.
  unfold update_result. cbn. destruct (slab_get k s) as [op|] eqn:Hk.
  2: { eexists. split; [done|]. intros k'. case_bool_decide; by subst. }
  assert (∀ r' k', slab_get k' (slab_set k r' s) = if bool_decide (k' = k) then Some r' else slab_get k' s)
    as Hset by (intros; apply slab_set_get; by rewrite Hk).
  destruct (reg_cancelled op) eqn:Hc.
  - unfold Runtime.remove. cbn. rewrite Hset, bool_decide_eq_true_2 by done. cbn.
    destruct (reg_op op); (eexists; split; [done|]); intros k'; rewrite slab_remove_get, Hset;
      cbn; rewrite ?Hc; by case_bool_decide.
  - eexists. split; [done|]. intros k'. rewrite Hset. cbn. by rewrite Hc.
Qed.

Lemma extend_spec es : ∀ s w,
  ∃ woken s', extend es s w = Done (woken, s', w) ∧
    (∀ k, slab_get k s' = foldl deliver (slab_get k s) (results_for k es)) ∧
    (∀ k, results_for k es ≠ [] → waker_of (slab_get k s) ⊆ woken).
Proof.
  induction es as [|e es IH]; intros s w; cbn [extend].
  { exists [], s. split_and!; done. }
  destruct (update_result_spec (entry_user_data e) (entry_result e) s w) as (s1 & -> & Hs1).
  destruct (IH s1 w) as (woken & s' & E & Hs' & Hw). simpl_outcome. rewrite E.
  eexists _, s'. split; [done|]. split; intros k; rewrite results_for_cons.
  - rewrite Hs', Hs1. by case_bool_decide; subst.
  - case_bool_decide as Hk; [subst; intros _|intros Hne]; intros t Ht; apply elem_of_app; [by left|right].
    apply (Hw k Hne). by rewrite Hs1, bool_decide_eq_false_2.
Qed.

(** Delivering a batch of entries never fails; each slot receives exactly the entries with its
    key, in order; a cancelled slot is vacated by its first entry; slots of other keys and all
    boxes stay as they are; and every task that waited on a slot with an entry is woken. *)
Theorem extend_delivers es s w :
  ∃ woken s', extend es s w = Done (woken, s', w) ∧
    (∀ k, slab_get k s' = foldl deliver (slab_get k s) (results_for k es)) ∧
    (∀ k, results_for k es ≠ [] → waker_of (slab_get k s) ⊆ woken).
Proof. apply extend_spec. Qed.

End op_runtime_spec.

(** ** The run queue *)

Section wakers.
Context `{!AsyncTask}.

Lemma foldl_wake_prefix ts : ∀ q, q `prefix_of` foldl (λ q t, wake t q) q ts.
Proof.
  induction ts as [|t ts IH]; intros q; cbn; [done|]. etrans; [|apply IH].
  destruct (wake_schedules t q) as [->|[-> _]]; [by eexists|done].
Qed.

Lemma foldl_wake_elem ts t : ∀ q,
  t ∈ ts → t ∈ foldl (λ q t, wake t q) q ts ∨ task_completed t.
Proof.
  induction ts as [|t' ts IH]; intros q; [by intros ?%elem_of_nil|].
  intros [->|Hin]%elem_of_cons; cbn; [|auto].
  destruct (foldl_wake_prefix ts (wake t' q)) as [q' ->].
  destruct (wake_schedules t' q) as [->|[-> [?|?]]]; set_solver.
Qed.
End wakers.

(** ** The invariant *)

Section runtime_spec.
Context {Op W S D Fd : Type} `{!AsyncTask, !Slab S, !SlabLaws S, !BoxAlloc Op W, !BoxAllocLaws Op W,
  !CompleteIo Z (World Op W) D Fd, !CompleteIoSpec Z (World Op W) D Fd}.
Notation world := (World Op W).
Notation rt_t := (Runtime S D).
Implicit Types (rt : rt_t) (w : world) (k : Z).

(** A driver reads and writes the boxes its operations refer to; it neither allocates nor frees. *)
Class BoxesKept : Prop := {
  submit_keeps_boxes t (d : D) w es r d' w' :
    ci_submit t d w = Done (es, r, d', w') → dom (boxes w') = dom (boxes w);
  push_keeps_boxes o (d : D) w r d' w' :
    ci_try_push_dyn o d w = Done (r, d', w') → dom (boxes w') = dom (boxes w);
  push_queue_keeps_boxes q (d : D) w q' d' w' :
    ci_push_queue q d w = Done (q', d', w') → dom (boxes w') = dom (boxes w);
  attach_keeps_boxes fd (d : D) w r d' w' :
    ci_attach fd d w = (r, d', w') → boxes w' = boxes w ∧ (sq_wf d → sq_wf d');
}.

(** The box of a slot is allocated, and no two slots share a box. *)
Definition slots_own_boxes (s : S) (bs : gset Z) : Prop :=
  (∀ k op p, slab_get k s = Some op → reg_op op = Some p → p ∈ bs) ∧
  (∀ k k' op op' p, slab_get k s = Some op → slab_get k' s = Some op' →
     reg_op op = Some p → reg_op op' = Some p → k = k').

Definition rt_wf rt w : Prop :=
  sq_wf (rt_driver rt) ∧ Forall (λ o, is_usize (user_data o)) (unqueued_operations rt) ∧
  slots_own_boxes (op_runtime rt) (dom (boxes w)).

Lemma rt_wf_init (d : D) w : sq_wf d → rt_wf (mkRuntime d [] [] [] slab_empty) w.
Proof.
  intros Hd. split_and!; cbn; [done|constructor|]. split; intros *; by rewrite slab_empty_get.
Qed.

(** A slab whose slots hold the same boxes, or fewer slots. *)
Lemma slots_own_boxes_sub s s' bs :
  (∀ k op', slab_get k s' = Some op' → ∃ op, slab_get k s = Some op ∧ reg_op op = reg_op op') →
  slots_own_boxes s bs → slots_own_boxes s' bs.
Proof.
  intros Hsub [H1 H2]. split.
  - intros k op' p Hk Hp. apply Hsub in Hk as (op & Hk & Ho). apply (H1 k op p Hk). congruence.
  - intros k k' op op' p Hk Hk' Hp Hp'. apply Hsub in Hk as (o & Hk & Ho).
    apply Hsub in Hk' as (o' & Hk' & Ho'). apply (H2 k k' o o' p); congruence.
Qed.

Lemma insert_spec (o : Op) (s : S) w key ptr s' w' :
  Runtime.insert o s w = Done (key, ptr, s', w') →
  is_usize (key_user_data key) ∧ key_type key = KOp ∧ slab_get (key_user_data key) s = None ∧
  boxes w !! ptr = None ∧ w' = mkWorld (<[ptr := o]> (boxes w)) (sys w) ∧
  ∀ k, slab_get k s' = if bool_decide (k = key_user_data key)
         then Some (RegisteredOp_new (Some ptr)) else slab_get k s.
Proof.
  unfold Runtime.insert. destruct (slab_insert _ _) as [[k s1]| |] eqn:E; simpl_outcome; try done.
  intros [= <- <- <- <-]. cbn. pose proof (slab_insert_fresh _ _ _ _ E) as [? ?]. split_and!; try done.
  - apply box_addr_fresh.
  - intros k'. by apply slab_insert_get.
Qed.

Lemma register_wf (o : Op) (s : S) w key ptr s' w' :
  Runtime.insert o s w = Done (key, ptr, s', w') →
  slots_own_boxes s (dom (boxes w)) → slots_own_boxes s' (dom (boxes w')).
Proof.
  intros (_ & _ & Hfresh & Hbox & -> & Hget)%insert_spec [H1 H2]. cbn. split.
  - intros k op p. rewrite Hget. case_bool_decide.
    + intros [= <-] [= <-]. set_solver.
    + intros Hk Hp. pose proof (H1 _ _ _ Hk Hp). set_solver.
  - apply not_elem_of_dom in Hbox.
    intros k k' op op' p. rewrite !Hget. repeat case_bool_decide; subst; try done.
    + intros [= <-] Hk' [= <-] Hp'. by pose proof (H1 _ _ _ Hk' Hp').
    + intros Hk [= <-] Hp [= <-]. by pose proof (H1 _ _ _ Hk Hp).
    + apply H2.
Qed.

Lemma rt_submit_spec t o rt w key rt' w' `{!BoxesKept} :
  rt_wf rt w → rt_submit t o rt w = Done (key, rt', w') →
  let k := key_user_data key in
  key_type key = KOp ∧ slab_get k (op_runtime rt) = None ∧
  (∃ ptr r, boxes w !! ptr = None ∧
    ci_try_push_dyn (OpObject_new ptr k) (rt_driver rt) (mkWorld (<[ptr := o]> (boxes w)) (sys w)) =
      Done (r, rt_driver rt', w') ∧
    ∀ k', slab_get k' (op_runtime rt') =
      if bool_decide (k' = k) then Some (RegisteredOp_new (Some ptr)) else slab_get k' (op_runtime rt)) ∧
  runnables rt' = runnables rt ++ [t] ∧ unqueued_cancels rt' = unqueued_cancels rt ∧
  (if bool_decide (0 < ci_capacity_left (rt_driver rt))
   then sq_abs (rt_driver rt') = sq_abs (rt_driver rt) ++ [k] ∧
        unqueued_operations rt' = unqueued_operations rt
   else sq_abs (rt_driver rt') = sq_abs (rt_driver rt) ∧
        user_data <$> unqueued_operations rt' = (user_data <$> unqueued_operations rt) ++ [k]) ∧
  rt_wf rt' w'.
Proof.
  intros (Hsq & Hun & Hown). unfold rt_submit.
  destruct (Runtime.insert o _ w) as [[[[key1 ptr] s1] w1]| |] eqn:Ei; simpl_outcome; try done.
  destruct (ci_try_push_dyn _ _ _) as [[[r d] w2]| |] eqn:Ep; simpl_outcome; try done.
  intros [= <- <- <-]. cbn.
  pose proof (register_wf _ _ _ _ _ _ _ Ei Hown) as Hown'.
  rewrite <- (push_keeps_boxes _ _ _ _ _ _ Ep) in Hown'.
  apply insert_spec in Ei as (Hus & Hty & Hfresh & Hbox & -> & Hget).
  pose proof Ep as Ep'. apply sq_push in Ep' as [Hsq' Hr]; [|done|done]. cbn in Hr.
  split; [done|]. split; [done|]. split; [by exists ptr, r|]. do 2 (split; [done|]).
  destruct r as [[]|o'].
  - destruct Hr as (Hc & Habs & _). rewrite bool_decide_eq_true_2 by done. split; [done|].
    split_and!; done.
  - destruct Hr as (Hc & Hu & Habs & _). rewrite bool_decide_eq_false_2 by lia.
    split; [by rewrite fmap_app, <- Hu|]. split_and!; [done| |done].
    apply Forall_app. split; [done|]. repeat constructor; rewrite Hu; apply Hus.
Qed.

(** Submitting an operation registers it under a key that no live operation has, in a box of its
    own, and queues it exactly once: in the driver's queue while it has room, and otherwise at the
    end of the operations that wait for room; nothing else the runtime holds changes, and the
    future that waits for the operation is scheduled. *)
Theorem submit_registers t o rt w key rt' w' `{!BoxesKept} :
  rt_wf rt w → rt_submit t o rt w = Done (key, rt', w') →
  let k := key_user_data key in
  slab_get k (op_runtime rt) = None ∧
  (∃ ptr r, boxes w !! ptr = None ∧
    ci_try_push_dyn (OpObject_new ptr k) (rt_driver rt) (mkWorld (<[ptr := o]> (boxes w)) (sys w)) =
      Done (r, rt_driver rt', w') ∧
    ∀ k', slab_get k' (op_runtime rt') =
      if bool_decide (k' = k) then Some (RegisteredOp_new (Some ptr)) else slab_get k' (op_runtime rt)) ∧
  runnables rt' = runnables rt ++ [t] ∧
  (if bool_decide (0 < ci_capacity_left (rt_driver rt))
   then sq_abs (rt_driver rt') = sq_abs (rt_driver rt) ++ [k] ∧
        unqueued_operations rt' = unqueued_operations rt
   else sq_abs (rt_driver rt') = sq_abs (rt_driver rt) ∧
        user_data <$> unqueued_operations rt' = (user_data <$> unqueued_operations rt) ++ [k]).
Proof. intros Hwf E. apply rt_submit_spec in E; [|done..]. naive_solver. Qed.

(** *** Polling a task *)

Lemma update_waker_get (key : Key) t (s : S) k :
  slab_get k (update_waker key t s) =
    if bool_decide (k = key_user_data key)
    then (λ op, mkRegisteredOp (reg_op op) (Some t) (reg_result op) (reg_cancelled op)) <$>
           slab_get (key_user_data key) s
    else slab_get k s.
Proof.
  unfold update_waker. destruct (slab_get (key_user_data key) s) as [op|] eqn:Hk.
  - by rewrite slab_set_get by by rewrite Hk.
  - case_bool_decide; by subst.
Qed.

Lemma cancel_get (key : Key) (s : S) k :
  slab_get k (Runtime.cancel key s) =
    if bool_decide (k = key_user_data key)
    then (λ op, mkRegisteredOp (reg_op op) (reg_waker op) (reg_result op) true) <$>
           slab_get (key_user_data key) s
    else slab_get k s.
Proof.
  unfold Runtime.cancel. destruct (slab_get (key_user_data key) s) as [op|] eqn:Hk.
  - by rewrite slab_set_get by by rewrite Hk.
  - case_bool_decide; by subst.
Qed.

Lemma poll_task_ready cx k rt w op p r :
  rt_wf rt w → slab_get k (op_runtime rt) = Some op → reg_op op = Some p → reg_result op = Some r →
  ∃ o rt', boxes w !! p = Some o ∧
    poll_task cx (Key_new k) rt w =
      Done (Ready (r, inl o), rt', mkWorld (delete p (boxes w)) (sys w)) ∧
    (∀ k', slab_get k' (op_runtime rt') =
       if bool_decide (k' = k) then None else slab_get k' (op_runtime rt)) ∧
    rt_driver rt' = rt_driver rt ∧ unqueued_operations rt' = unqueued_operations rt ∧
    runnables rt' = runnables rt ∧ unqueued_cancels rt' = unqueued_cancels rt.
Proof.
  intros (Hsq & Hun & Hown) Hk Hp Hr.
  assert (is_Some (boxes w !! p)) as [o Ho] by (apply elem_of_dom; by eapply (proj1 Hown)).
  eexists o, _. split; [done|]. unfold poll_task, has_result, Runtime.remove. cbn.
  rewrite Hk, bool_decide_eq_true_2 by (rewrite Hr; by eexists). cbn. simpl_outcome.
  rewrite Hp. cbn. rewrite Ho. cbn. rewrite Hr. cbn. split_and!; [done|..|done|done|done|done].
  intros k'. apply slab_remove_get.
Qed.

Lemma poll_task_pending cx key rt w :
  has_result key (op_runtime rt) = false →
  poll_task cx key rt w = Done (Pending, set_op_runtime (update_waker key cx (op_runtime rt)) rt, w).
Proof. unfold poll_task. by intros ->. Qed.

(** Emptying a slot and freeing its box. *)
Lemma slots_own_boxes_delete (s s' : S) bs k op p :
  slab_get k s = Some op → reg_op op = Some p →
  (∀ k', slab_get k' s' = if bool_decide (k' = k) then None else slab_get k' s) →
  slots_own_boxes s bs → slots_own_boxes s' (bs ∖ {[p]}).
Proof.
  intros Hk Hp Hget [H1 H2]. split.
  - intros k' op' p'. rewrite Hget. case_bool_decide; [done|]. intros Hk' Hp'.
    pose proof (H1 _ _ _ Hk' Hp'). assert (p' ≠ p); [|set_solver].
    intros ->. by pose proof (H2 _ _ _ _ _ Hk Hk' Hp Hp').
  - intros k1 k2 o1 o2 p'. rewrite !Hget. repeat case_bool_decide; try done. apply H2.
Qed.

Lemma poll_task_wf cx k rt w res rt' w' :
  rt_wf rt w → poll_task cx (Key_new k) rt w = Done (res, rt', w') → rt_wf rt' w'.
Proof.
  intros Hwf E. destruct (has_result (Key_new k) (op_runtime rt)) eqn:Hh.
  - unfold has_result in Hh. cbn in Hh. destruct (slab_get k (op_runtime rt)) as [op|] eqn:Hk; [|done].
    apply bool_decide_eq_true in Hh as [r Hr]. destruct (reg_op op) as [p|] eqn:Hp.
    + destruct (poll_task_ready cx k rt w op p r Hwf Hk Hp Hr)
        as (o & rt1 & Ho & E1 & Hget & Hd & Hu & _ & _).
      rewrite E1 in E. simplify_eq. destruct Hwf as (? & ? & Hown). split_and!; try congruence.
      cbn. rewrite dom_delete_L. by eapply slots_own_boxes_delete.
    + exfalso. unfold poll_task, has_result, Runtime.remove in E. cbn in E.
      rewrite Hk, bool_decide_eq_true_2 in E by (rewrite Hr; by eexists). cbn in E. simpl_outcome.
      rewrite Hp in E. cbn in E. by rewrite Hr in E.
  - rewrite poll_task_pending in E by done. simplify_eq. destruct Hwf as (? & ? & Hown).
    split_and!; [done..|]. cbn. eapply slots_own_boxes_sub; [|exact Hown].
    intros k' op'. rewrite update_waker_get. case_bool_decide; [|by eauto]. cbn. subst.
    intros (op & Hk & ->)%fmap_Some_1. by exists op.
Qed.

Lemma poll_dummy_wf cx k rt w res rt' w' :
  rt_wf rt w → poll_dummy cx (Key_new_dummy k) rt w = Done (res, rt', w') → rt_wf rt' w'.
Proof.
  intros (? & ? & Hown). unfold poll_dummy. destruct (has_result _ _).
  - unfold Runtime.remove. cbn. destruct (slab_get k (op_runtime rt)) as [op|]; cbn; [|done].
    assert (slots_own_boxes (slab_remove k (op_runtime rt)) (dom (boxes w))).
    { eapply slots_own_boxes_sub; [|exact Hown]. intros k' op'. rewrite slab_remove_get. case_bool_decide; [done|]. by eauto. }
    destruct (reg_op op), (reg_result op); cbn; intros; by simplify_eq.
  - intros E. simplify_eq. split_and!; [done..|]. cbn. eapply slots_own_boxes_sub; [|exact Hown].
    intros k' op'. rewrite update_waker_get. case_bool_decide; [|by eauto]. cbn. subst.
    intros (op & Hk & ->)%fmap_Some_1. by exists op.
Qed.

(** *** Polling the driver *)

Lemma retry_cancels_wf cs : ∀ (d : D),
  sq_wf d → sq_wf (retry_cancels cs d).2 ∧ suffix (retry_cancels cs d).1 cs.
Proof.
  induction cs as [|u cs IH]; intros d Hd; cbn; [done|].
  destruct (ci_try_cancel u d) as [[[]|[]] d1] eqn:E.
  - destruct (IH d1) as [? ?]; [by eapply sq_cancel|]. split; [done|]. by apply suffix_cons_r.
  - split; [by eapply sq_cancel|done].
Qed.

Lemma deliver_reg_op rs : ∀ slot op',
  foldl deliver slot rs = Some op' → ∃ op, slot = Some op ∧ reg_op op = reg_op op'.
Proof.
  induction rs as [|r rs IH]; intros slot op'; cbn; [by eauto|].
  intros (op & Hd & Ho)%IH. destruct slot as [op0|]; [|done]. cbn in Hd.
  destruct (reg_cancelled op0); [done|]. simplify_eq. by exists op0.
Qed.

Lemma rt_poll_spec kind rt w rt' w' `{!BoxesKept} :
  rt_wf rt w → rt_poll kind rt w = Done (rt', w') →
  ∃ (d1 d2 : D) w0 es r d3,
    d1 = (retry_cancels (unqueued_cancels rt) (rt_driver rt)).2 ∧
    let n := Nat.min (ci_capacity_left d1) (length (unqueued_operations rt)) in
    unqueued_operations rt' = drop n (unqueued_operations rt) ∧
    ci_push_queue (unqueued_operations rt) d1 w = Done (unqueued_operations rt', d2, w0) ∧
    sq_abs d2 = sq_abs d1 ++ (user_data <$> take n (unqueued_operations rt)) ∧
    ci_submit (if bool_decide (0 < length (unqueued_operations rt')) then Some 0%Z else None) d2 w0 =
      Done (es, r, d3, w') ∧
    (∀ k, slab_get k (op_runtime rt') = foldl deliver (slab_get k (op_runtime rt)) (results_for k es)) ∧
    (∀ k t, results_for k es ≠ [] → t ∈ waker_of (slab_get k (op_runtime rt)) →
       t ∈ runnables rt' ∨ task_completed t) ∧
    runnables rt `prefix_of` runnables rt' ∧
    suffix (unqueued_cancels rt') (unqueued_cancels rt) ∧
    rt_wf rt' w'.
Proof.
  intros (Hsq & Hun & Hown). unfold rt_poll.
  destruct (retry_cancels_wf (unqueued_cancels rt) (rt_driver rt) Hsq) as [Hsq1 Hsuf].
  destruct (retry_cancels _ _) as [cs d1] eqn:Ec.
  destruct (ci_push_queue _ d1 w) as [[[unq d2] w0]| |] eqn:Ep; simpl_outcome; try done.
  destruct (ci_submit _ d2 w0) as [[[[es r] d3] w1]| |] eqn:Es; simpl_outcome; try done.
  destruct (extend_spec es (op_runtime rt) w1) as (woken & s' & Ee & Hget & Hwake).
  rewrite Ee. intros E.
  assert ((rt', w') = (wake_all woken (mkRuntime d3 (runnables rt) unq cs s'), w1)) as Heq.
  { destruct r; [by simplify_eq|]. by case_bool_decide; simplify_eq. }
  simplify_eq. pose proof Ep as Ep'. apply sq_push_queue in Ep' as (Hsq2 & Hunq & Habs & _); [|done|done].
  exists d1, d2, w0, es, r, d3. cbn. split; [done|]. split; [done|]. split; [done|]. split; [done|]. split; [done|].
  split; [done|]. split.
  { intros k t Hr Ht. apply foldl_wake_elem. by apply (Hwake k). }
  split; [apply foldl_wake_prefix|]. split; [done|]. split_and!; cbn.
  - by eapply sq_submit.
  - rewrite Hunq. by apply Forall_drop.
  - rewrite (submit_keeps_boxes _ _ _ _ _ _ _ Es), (push_queue_keeps_boxes _ _ _ _ _ _ Ep). eapply slots_own_boxes_sub; [|exact Hown].
    intros k op'. rewrite Hget. apply deliver_reg_op.
Qed.

(** One round of the event loop: operations that waited for room are handed to the driver from
    the front, in order, and those that still do not fit keep waiting in order, in which case the
    driver is asked not to block; a cancellation that could not be queued is kept, from the first
    one that failed on; every task that waits for an operation with an entry is scheduled behind
    the tasks that were already runnable, or has completed. *)
Theorem poll_round kind rt w rt' w' `{!BoxesKept} :
  rt_wf rt w → rt_poll kind rt w = Done (rt', w') →
  ∃ (d1 d2 : D) w0 es r d3,
    d1 = (retry_cancels (unqueued_cancels rt) (rt_driver rt)).2 ∧
    let n := Nat.min (ci_capacity_left d1) (length (unqueued_operations rt)) in
    unqueued_operations rt' = drop n (unqueued_operations rt) ∧
    ci_push_queue (unqueued_operations rt) d1 w = Done (unqueued_operations rt', d2, w0) ∧
    sq_abs d2 = sq_abs d1 ++ (user_data <$> take n (unqueued_operations rt)) ∧
    ci_submit (if bool_decide (0 < length (unqueued_operations rt')) then Some 0%Z else None) d2 w0 =
      Done (es, r, d3, w') ∧
    (∀ k t, results_for k es ≠ [] → t ∈ waker_of (slab_get k (op_runtime rt)) →
       t ∈ runnables rt' ∨ task_completed t) ∧
    runnables rt `prefix_of` runnables rt' ∧
    suffix (unqueued_cancels rt') (unqueued_cancels rt).
Proof.
  intros Hwf E. apply rt_poll_spec in E as (d1 & d2 & w0 & es & r & d3 & HH); [|done..].
  exists d1, d2, w0, es, r, d3. cbn in HH |- *. tauto.
Qed.

(** C15 The life of an operation: when the driver's round emits exactly one entry for an operation
    that is registered, not cancelled and not completed, the next poll of its future returns that
    result together with the operation as the driver left it in its box; the slot is vacated and
    the box freed, so that the key and the memory can be used again. *)
Theorem completion_reaches_future kind rt w unq d2 w0 es d3 w' k op p r cx `{!BoxesKept} :
  rt_wf rt w → slab_get k (op_runtime rt) = Some op → reg_op op = Some p → reg_cancelled op = false →
  ci_push_queue (unqueued_operations rt) (retry_cancels (unqueued_cancels rt) (rt_driver rt)).2 w =
    Done (unq, d2, w0) →
  ci_submit (if bool_decide (0 < length unq) then Some 0%Z else None) d2 w0 = Done (es, Ok tt, d3, w') →
  results_for k es = [r] →
  ∃ rt' o rt'', rt_poll kind rt w = Done (rt', w') ∧ boxes w' !! p = Some o ∧
    poll_task cx (Key_new k) rt' w' = Done (Ready (r, inl o), rt'', mkWorld (delete p (boxes w')) (sys w')) ∧
    slab_get k (op_runtime rt'') = None.
Proof.
  intros Hwf Hk Hp Hc Ep Es Hes.
  assert (∃ rt', rt_poll kind rt w = Done (rt', w') ∧
    ∀ k', slab_get k' (op_runtime rt') = foldl deliver (slab_get k' (op_runtime rt)) (results_for k' es))
    as (rt' & E & Hget).
  { unfold rt_poll. destruct (retry_cancels _ _) as [cs d1]. cbn in Ep. rewrite Ep. simpl_outcome.
    rewrite Es. destruct (extend_spec es (op_runtime rt) w') as (woken & s' & -> & Hget & _).
    by eexists. }
  assert (rt_wf rt' w') as Hwf'.
  { apply rt_poll_spec in E as (? & ? & ? & ? & ? & ? & HH); [|done..]. cbn in HH. tauto. }
  pose proof (Hget k) as Hk'. rewrite Hes, Hk in Hk'. cbn in Hk'. rewrite Hc in Hk'.
  edestruct (poll_task_ready cx k rt' w') as (o & rt'' & Ho & E' & Hg & _);
    [exact Hwf'|exact Hk'|exact Hp|done|].
  exists rt', o, rt''. split_and!; [done|done|done|]. by rewrite Hg, bool_decide_eq_true_2.
Qed.

(** *** Every call keeps the invariant *)

(** The calls that futures and the event loop make, and what the system does meanwhile. *)
Inductive rt_step (kind : io_error → ErrorKind) : rt_t * world → rt_t * world → Prop :=
| StepSubmit t o rt w key rt' w' :
    rt_submit t o rt w = Done (key, rt', w') → rt_step kind (rt, w) (rt', w')
| StepSubmitDummy rt w key rt' : submit_dummy rt = Done (key, rt') → rt_step kind (rt, w) (rt', w)
| StepPollTask cx k rt w res rt' w' :
    poll_task cx (Key_new k) rt w = Done (res, rt', w') → rt_step kind (rt, w) (rt', w')
| StepPollDummy cx k rt w res rt' w' :
    poll_dummy cx (Key_new_dummy k) rt w = Done (res, rt', w') → rt_step kind (rt, w) (rt', w')
| StepDropFuture fut rt w : rt_step kind (rt, w) (OpFuture_drop fut rt, w)
| StepAttach a fd rt w r a' rt' w' :
    Attacher_attach (F := Fd) a fd (rt, w) = (r, a', (rt', w')) → rt_step kind (rt, w) (rt', w')
| StepSystem rt w s' : rt_step kind (rt, w) (rt, mkWorld (boxes w) s')
| StepRun t q rt w : runnables rt = t :: q → rt_step kind (rt, w) (set_runnables q rt, w)
| StepPoll rt w rt' w' : rt_poll kind rt w = Done (rt', w') → rt_step kind (rt, w) (rt', w').

Lemma insert_dummy_wf rt w key rt' :
  rt_wf rt w → submit_dummy rt = Done (key, rt') → rt_wf rt' w.
Proof.
  intros (? & ? & Hown). unfold submit_dummy, insert_dummy.
  destruct (slab_insert _ _) as [[k s]| |] eqn:E; simpl_outcome; try done. intros [= <- <-].
  split_and!; [done..|]. cbn. destruct Hown as [Ho1 Ho2].
  assert (∀ k' op p, slab_get k' s = Some op → reg_op op = Some p →
    slab_get k' (op_runtime rt) = Some op) as Hold.
  { intros k' op p. rewrite (slab_insert_get _ _ _ _ k' E). case_bool_decide; [|done].
    by intros [= <-]. }
  split; [by eauto|]. intros. by eauto 10.
Qed.

Lemma cancel_op_wf key rt w : rt_wf rt w → rt_wf (cancel_op key rt) w.
Proof.
  intros (Hsq & ? & Hown). unfold cancel_op.
  destruct (ci_try_cancel _ _) as [[[]|[]] d] eqn:E; split_and!; cbn; try done; try by eapply sq_cancel.
  eapply slots_own_boxes_sub; [|exact Hown]. intros k op'. rewrite cancel_get.
  case_bool_decide; [|by eauto]. subst. intros (op & Hk & ->)%fmap_Some_1. by exists op.
Qed.

Lemma attach_wf a fd rt w r a' rt' w' `{!BoxesKept} :
  rt_wf rt w → Attacher_attach (F := Fd) a fd (rt, w) = (r, a', (rt', w')) → rt_wf rt' w'.
Proof.
  intros Hwf. unfold Attacher_attach. cbn. unfold rt_attach.
  destruct (once a); [by intros [= <- <- <- <-]|].
  destruct (ci_attach fd _ w) as [[r1 d1] w1] eqn:E. apply attach_keeps_boxes in E as [Hb Hsq].
  destruct Hwf as (? & ? & ?). destruct r1; intros [= <- <- <- <-]; split_and!; cbn; auto; by rewrite Hb.
Qed.

Lemma rt_step_wf kind `{!BoxesKept} x y :
  rt_step kind x y → rt_wf x.1 x.2 → rt_wf y.1 y.2.
Proof.
  destruct 1; cbn; intros Hwf.
  - eapply rt_submit_spec in Hwf; [|done..]. tauto.
  - by eapply insert_dummy_wf.
  - by eapply poll_task_wf.
  - by eapply poll_dummy_wf.
  - unfold OpFuture_drop. destruct (completed fut); [done|]. by apply cancel_op_wf.
  - by eapply attach_wf.
  - done.
  - by destruct Hwf as (? & ? & ?).
  - eapply rt_poll_spec in Hwf as (? & ? & ? & ? & ? & ? & HH); [|done..]. cbn in HH. tauto.
Qed.

Lemma rtc_rt_step_wf kind `{!BoxesKept} x y :
  rtc (rt_step kind) x y → rt_wf x.1 x.2 → rt_wf y.1 y.2.
Proof. induction 1 as [|x y z Hs _ IH]; [done|]. intros Hwf. apply IH. by eapply rt_step_wf. Qed.

(** C10 Whatever sequence of calls a program makes on a new runtime, and whatever the system does in
    between, the slots own their boxes: every
    registered operation's box is allocated and no two slots share one.  A poll of a completed
    operation's future therefore never frees memory twice and never panics. *)
Theorem runtime_memory_safe kind (d : D) (sys0 : W) rt w `{!BoxesKept} :
  sq_wf d →
  rtc (rt_step kind) (mkRuntime d [] [] [] slab_empty, mkWorld ∅ sys0) (rt, w) →
  slots_own_boxes (op_runtime rt) (dom (boxes w)) ∧
  ∀ cx k op, slab_get k (op_runtime rt) = Some op → is_Some (reg_op op) →
    ∃ res rt' w', poll_task cx (Key_new k) rt w = Done (res, rt', w').
Proof.
  intros Hd Hsteps. apply rtc_rt_step_wf in Hsteps as Hwf; [|done|].
  2: { by apply rt_wf_init. }
  cbn in Hwf. split; [apply Hwf|]. intros cx k op Hk [p Hp].
  destruct (reg_result op) as [r|] eqn:Hr.
  - destruct (poll_task_ready cx k rt w op p r Hwf Hk Hp Hr) as (o & rt' & _ & E & _). by eauto.
  - rewrite poll_task_pending; [by eauto|]. unfold has_result. cbn. rewrite Hk, Hr.
    by rewrite bool_decide_eq_false_2 by (intros [? ?]; done).
Qed.

(** A future that is dropped before it completed: when the driver accepts the cancellation its
    slot is marked, and the first entry that arrives afterwards vacates the slot but frees no box,
    so that the operation's memory is leaked. *)
Theorem cancelled_operation_leaks_box k op p rt w d r :
  rt_wf rt w → slab_get k (op_runtime rt) = Some op → reg_op op = Some p →
  ci_try_cancel k (rt_driver rt) = (Ok tt, d) →
  let rt1 := OpFuture_drop (OpFuture_new (Key_new k)) rt in
  ∃ woken s', extend [Entry_new k r] (op_runtime rt1) w = Done (woken, s', w) ∧
    slab_get k s' = None ∧ is_Some (boxes w !! p) ∧
    (∀ k' op', slab_get k' s' = Some op' → reg_op op' ≠ Some p).
Proof.
  intros (_ & _ & [H1 H2]) Hk Hp Hcan rt1.
  assert (op_runtime rt1 = Runtime.cancel (Key_new k) (op_runtime rt)) as ->.
  { unfold rt1, OpFuture_drop, cancel_op. cbn. by rewrite Hcan. }
  destruct (extend_spec [Entry_new k r] (Runtime.cancel (Key_new k) (op_runtime rt)) w)
    as (woken & s' & E & Hget & _).
  assert (∀ k', slab_get k' s' = if bool_decide (k' = k) then None else slab_get k' (op_runtime rt)) as Hg.
  { intros k'. rewrite Hget, results_for_cons, cancel_get. cbn. case_bool_decide; [|done].
    subst. by rewrite Hk. }
  exists woken, s'. split_and!; [done|by rewrite Hg, bool_decide_eq_true_2|..].
  - apply elem_of_dom. by eapply H1.
  - intros k' op'. rewrite Hg. case_bool_decide as Hne; [done|]. intros Hk' Hp'.
    apply Hne. by apply (H2 k' k op' op p).
Qed.

(** A future that is dropped while the driver's queue is full: the cancellation is queued, but the
    slot is never marked.  Whatever the later rounds of the event loop do, the operation's entry
    then finds a slot that is not cancelled, stores its result there, and no future is left to
    take it out: the slot is never vacated. *)
Theorem queued_cancel_leaks_slot kind k op rt w rt' w' d `{!BoxesKept} :
  rt_wf rt w → slab_get k (op_runtime rt) = Some op → reg_cancelled op = false →
  ci_try_cancel k (rt_driver rt) = (Err tt, d) →
  rt_poll kind (OpFuture_drop (OpFuture_new (Key_new k)) rt) w = Done (rt', w') →
  ∃ op', slab_get k (op_runtime rt') = Some op' ∧ reg_op op' = reg_op op ∧ reg_cancelled op' = false.
Proof.
  intros Hwf Hk Hc Hcan E.
  assert (op_runtime (OpFuture_drop (OpFuture_new (Key_new k)) rt) = op_runtime rt) as Hs.
  { unfold OpFuture_drop, cancel_op. cbn. by rewrite Hcan. }
  apply rt_poll_spec in E as (d1 & d2 & w0 & es & r & d3 & _ & _ & _ & _ & _ & Hget & _);
    [|done|by apply cancel_op_wf].
  rewrite Hget, Hs, Hk. clear -Hc. revert op Hc.
  induction (results_for k es) as [|r rs IH]; intros op Hc; cbn; [by eauto|].
  rewrite Hc. destruct (IH (mkRegisteredOp (reg_op op) None (Some r) false)) as (op' & ? & ? & ?); eauto.
Qed.

End runtime_spec.
