(* ===== verification/RuntimeRefine.v ===== *)
(** * The runtime refines the life of operations

    An abstract machine in which an operation waits, is finished or is
    abandoned, without slab, boxes, queues or driver; a client that holds one
    future for each operation it submitted; and a forward simulation: whatever
    such a client does with the runtime, over any driver that keeps its
    contract, is a run of the abstract machine.  What is proved of the machine
    then holds of the runtime. *)

From S2P Require Import Prelude Driver Attacher Runtime RuntimeSpec.
From stdpp Require Import base numbers list gmap.

(** ** The abstract machine *)

(** Waiting, with the task to wake; finished and not yet returned; abandoned by its future. *)
Inductive life := Waiting (waker : option nat) | Finished (r : io_result Z) | Abandoned.

#[global] Instance life_eq_dec : EqDecision life.
Proof. solve_decision. Defined.

(** What a client sees: a submission got the key [k]; a future was polled; it was dropped, and the
    driver took the cancellation or not; the event loop turned and the driver emitted entries. *)
Inductive call :=
| Submitted (k : Z)
| Polled (k : Z) (cx : nat) (res : Poll (io_result Z))
| Dropped (k : Z) (taken : bool)
| Turned (es : list Entry)
| Silent.

Definition a_complete (m : gmap Z life) (e : Entry) : gmap Z life :=
  match m !! entry_user_data e with
  | Some Abandoned => delete (entry_user_data e) m
  | Some _ => <[entry_user_data e := Finished (entry_result e)]> m
  | None => m
  end.

Inductive a_step (m : gmap Z life) : call → gmap Z life → Prop :=
| ASubmit k : m !! k = None → a_step m (Submitted k) (<[k := Waiting None]> m)
| APending k cx ow : m !! k = Some (Waiting ow) → a_step m (Polled k cx Pending) (<[k := Waiting (Some cx)]> m)
| AReady k cx r : m !! k = Some (Finished r) → a_step m (Polled k cx (Ready r)) (delete k m)
| ADrop k l : m !! k = Some l → a_step m (Dropped k true) (<[k := Abandoned]> m)
| ADropLate k : a_step m (Dropped k false) m
| ATurn es : a_step m (Turned es) (foldl a_complete m es)
| ASilent : a_step m Silent m.

(** Runs, the latest call last. *)
Inductive a_run : list call → gmap Z life → Prop :=
| ARunNil : a_run [] ∅
| ARunSnoc ls m c m' : a_run ls m → a_step m c m' → a_run (ls ++ [c]) m'.

(** *** What holds of every run *)

(** The driver has emitted [r] for [k] since the operation with the key [k] was submitted, and its
    future has not returned yet. *)
Definition completed_with (ls : list call) (k : Z) (r : io_result Z) : Prop :=
  ∃ l1 es l2, ls = l1 ++ Turned es :: l2 ∧ mkEntry k r ∈ es ∧
    (Submitted k ∉ l2) ∧ (∀ cx r', Polled k cx (Ready r') ∉ l2).

Lemma a_complete_finished m es : ∀ k r,
  foldl a_complete m es !! k = Some (Finished r) → mkEntry k r ∈ es ∨ m !! k = Some (Finished r).
Proof.
  revert m. induction es as [|e es IH]; intros m k r; cbn; [by right|].
  intros [?|Hm]%IH; [by left; apply elem_of_cons; right|].
  unfold a_complete in Hm. destruct e as [k' r']. cbn in Hm.
  destruct (decide (k = k')) as [<-|Hne].
  - destruct (m !! k) as [[]|] eqn:Hk; try (rewrite lookup_insert_eq in Hm; injection Hm as <-; left; apply elem_of_cons; by left).
    + by rewrite lookup_delete_eq in Hm.
    + by rewrite Hk in Hm.
  - right. destruct (m !! k') as [[]|]; rewrite ?lookup_insert_ne, ?lookup_delete_ne in Hm by done; done.
Qed.

(** A finished operation was completed by the driver since it was submitted. *)
Lemma finished_completed ls m :
  a_run ls m → ∀ k r, m !! k = Some (Finished r) → completed_with ls k r.
Proof.
  induction 1 as [|ls m c m' _ IH Hs]; intros k r; [by rewrite lookup_empty|].
  assert (m !! k = Some (Finished r) →
    c ≠ Submitted k → (∀ cx r', c ≠ Polled k cx (Ready r')) → completed_with (ls ++ [c]) k r) as Hkeep.
  { intros (l1 & es & l2 & -> & He & Hs2 & Hp2)%IH Hns Hnp. exists l1, es, (l2 ++ [c]).
    rewrite <- app_assoc. split_and!; [done|done|set_solver|].
    intros cx r' [?|?%list_elem_of_singleton]%elem_of_app; [by eapply Hp2|by eapply Hnp]. }
  destruct Hs as [k'|k' cx ow Hk|k' cx r' Hk|k' l Hk|k'|es|]; intros Hm; try by apply Hkeep.
  - destruct (decide (k = k')) as [->|]; [by rewrite lookup_insert_eq in Hm|].
    rewrite lookup_insert_ne in Hm by done. apply Hkeep; [done|congruence|done].
  - destruct (decide (k = k')) as [->|]; [by rewrite lookup_insert_eq in Hm|].
    rewrite lookup_insert_ne in Hm by done. by apply Hkeep.
  - destruct (decide (k = k')) as [->|]; [by rewrite lookup_delete_eq in Hm|].
    rewrite lookup_delete_ne in Hm by done. apply Hkeep; [done|done|congruence].
  - destruct (decide (k = k')) as [->|]; [by rewrite lookup_insert_eq in Hm|].
    rewrite lookup_insert_ne in Hm by done. by apply Hkeep.
  - apply a_complete_finished in Hm as [Hin|Hm]; [|by apply Hkeep].
    exists ls, es, []. split_and!; [done|done|set_solver|set_solver].
Qed.

(** ** The client *)

Section refinement.
Context {Op W S D Fd : Type} `{!AsyncTask, !Slab S, !SlabLaws S, !BoxAlloc Op W, !BoxAllocLaws Op W,
  !CompleteIo Z (World Op W) D Fd, !CompleteIoSpec Z (World Op W) D Fd, !BoxesKept}.
Context (kind : io_error → ErrorKind).
Notation world := (World Op W).
Notation rt_t := (Runtime S D).
Implicit Types (rt : rt_t) (w : world) (k : Z).

(** The entries that the driver emits in the next turn of the event loop. *)
Definition turn_entries rt w : option (list Entry) :=
  match ci_push_queue (unqueued_operations rt) (retry_cancels (unqueued_cancels rt) (rt_driver rt)).2 w with
  | Done (unq, d, w) =>
      match ci_submit (if bool_decide (0 < length unq) then Some 0%Z else None) d w with
      | Done (es, _, _, _) => Some es
      | _ => None
      end
  | _ => None
  end.

(** A client holds the futures of the keys [F]; it polls and drops only those, and no longer holds
    a future that has returned or was dropped.  Between its calls the system may do anything. *)
Inductive client_step : rt_t * world * gset Z → call → rt_t * world * gset Z → Prop :=
| ClientSubmit t o rt w key rt' w' F :
    rt_submit t o rt w = Done (key, rt', w') →
    client_step (rt, w, F) (Submitted (key_user_data key)) (rt', w', {[key_user_data key]} ∪ F)
| ClientPending k cx rt w fut rt' w' F :
    k ∈ F → OpFuture_poll cx (OpFuture_new (Key_new k)) rt w = Done (Pending, fut, rt', w') →
    client_step (rt, w, F) (Polled k cx Pending) (rt', w', F)
| ClientReady k cx r o rt w fut rt' w' F :
    k ∈ F → OpFuture_poll cx (OpFuture_new (Key_new k)) rt w = Done (Ready (r, o), fut, rt', w') →
    client_step (rt, w, F) (Polled k cx (Ready r)) (rt', w', F ∖ {[k]})
| ClientDrop k rt w F :
    k ∈ F →
    client_step (rt, w, F) (Dropped k (is_ok (ci_try_cancel k (rt_driver rt)).1))
      (OpFuture_drop (OpFuture_new (Key_new k)) rt, w, F ∖ {[k]})
| ClientTurn rt w es rt' w' F :
    turn_entries rt w = Some es → rt_poll kind rt w = Done (rt', w') →
    client_step (rt, w, F) (Turned es) (rt', w', F)
| ClientAttach a fd rt w r a' rt' w' F :
    Attacher_attach (F := Fd) a fd (rt, w) = (r, a', (rt', w')) → client_step (rt, w, F) Silent (rt', w', F)
| ClientSystem rt w s' F : client_step (rt, w, F) Silent (rt, mkWorld (boxes w) s', F)
| ClientRun t q rt w F : runnables rt = t :: q → client_step (rt, w, F) Silent (set_runnables q rt, w, F).

Inductive client_run (d : D) (sys0 : W) : list call → rt_t * world * gset Z → Prop :=
| ClientNil : client_run d sys0 [] (mkRuntime d [] [] [] slab_empty, mkWorld ∅ sys0, ∅)
| ClientSnoc ls x c y : client_run d sys0 ls x → client_step x c y → client_run d sys0 (ls ++ [c]) y.

(** ** The simulation *)

Definition slot_life (op : RegisteredOp) : life :=
  if reg_cancelled op then Abandoned
  else match reg_result op with Some r => Finished r | None => Waiting (reg_waker op) end.

(** Runtime and machine agree on every key; the futures that exist find their operations. *)
Definition refines (m : gmap Z life) (x : rt_t * world * gset Z) : Prop :=
  let '(rt, w, F) := x in
  rt_wf rt w ∧ (∀ k, m !! k = slot_life <$> slab_get k (op_runtime rt)) ∧
  ∀ k, k ∈ F → ∃ op, slab_get k (op_runtime rt) = Some op ∧ reg_cancelled op = false ∧ is_Some (reg_op op).

Lemma a_complete_lookup m e k slot :
  m !! k = slot_life <$> slot →
  a_complete m e !! k =
    slot_life <$> (if bool_decide (k = entry_user_data e) then deliver slot (entry_result e) else slot).
Proof.
  intros Hm. unfold a_complete. case_bool_decide as Hk.
  - subst k. rewrite Hm. destruct slot as [[p t o []]|]; cbn; [by rewrite lookup_delete_eq| |done].
    destruct o; cbn; by rewrite lookup_insert_eq.
  - destruct (m !! entry_user_data e) as [[]|]; rewrite ?lookup_insert_ne, ?lookup_delete_ne by done; done.
Qed.

Lemma a_complete_all es : ∀ m k slot,
  m !! k = slot_life <$> slot →
  foldl a_complete m es !! k = slot_life <$> foldl deliver slot (results_for k es).
Proof.
  induction es as [|e es IH]; intros m k slot Hm; [done|]. rewrite results_for_cons. cbn.
  rewrite (IH _ _ _ (a_complete_lookup m e k slot Hm)). by case_bool_decide.
Qed.

(** A slot that is not cancelled keeps its operation when entries are delivered. *)
Lemma deliver_live rs : ∀ op,
  reg_cancelled op = false →
  ∃ op', foldl deliver (Some op) rs = Some op' ∧ reg_cancelled op' = false ∧ reg_op op' = reg_op op.
Proof.
  induction rs as [|r rs IH]; intros op Hc; cbn; [by eauto|]. rewrite Hc.
  by apply (IH (mkRegisteredOp (reg_op op) None (Some r) false)).
Qed.

Lemma turn_refines m rt w es rt' w' F :
  turn_entries rt w = Some es → rt_poll kind rt w = Done (rt', w') →
  refines m (rt, w, F) → refines (foldl a_complete m es) (rt', w', F).
Proof.
  intros Ht Hp (Hwf & Hm & HF).
  apply rt_poll_spec in Hp as (d1 & d2 & w0 & es' & r & d3 & -> & _ & Epq & _ & Es & Hget & _ & _ & _ & Hwf'); [|done..].
  unfold turn_entries in Ht. rewrite Epq, Es in Ht. injection Ht as ->.
  split_and!; [done|..].
  - intros k. rewrite Hget. by apply a_complete_all.
  - intros k (op & Hk & Hc & Ho)%HF. destruct (deliver_live (results_for k es) op Hc) as (op' & E & ? & Hop).
    exists op'. rewrite Hget, Hk, Hop. done.
Qed.

Lemma submit_refines m t o rt w key rt' w' F :
  rt_submit t o rt w = Done (key, rt', w') → refines m (rt, w, F) →
  m !! key_user_data key = None ∧
  refines (<[key_user_data key := Waiting None]> m) (rt', w', {[key_user_data key]} ∪ F).
Proof.
  intros E (Hwf & Hm & HF). apply rt_submit_spec in E as (_ & Hn & (p & r & _ & _ & Hget) & _ & _ & _ & Hwf'); [|done..].
  split; [by rewrite Hm, Hn|]. split_and!; [done|..].
  - intros k. rewrite Hget. case_bool_decide as Hk; [subst; by rewrite lookup_insert_eq|].
    by rewrite lookup_insert_ne.
  - intros k. rewrite Hget. case_bool_decide; [by eexists|]. intros Hk. apply HF. set_solver.
Qed.

(** The slot of a future that exists, seen through its poll. *)
Lemma poll_refines m k cx rt w F :
  k ∈ F → refines m (rt, w, F) →
  (∃ op rt', slab_get k (op_runtime rt) = Some op ∧ m !! k = Some (Waiting (reg_waker op)) ∧
     poll_task cx (Key_new k) rt w = Done (Pending, rt', w) ∧
     refines (<[k := Waiting (Some cx)]> m) (rt', w, F)) ∨
  (∃ r o rt' w', m !! k = Some (Finished r) ∧
     poll_task cx (Key_new k) rt w = Done (Ready (r, o), rt', w') ∧
     refines (delete k m) (rt', w', F ∖ {[k]})).
Proof.
  intros Hk Href. pose proof Href as (Hwf & Hm & HF). destruct (HF k Hk) as (op & Hs & Hc & [p Hp]).
  pose proof (Hm k) as Hmk. rewrite Hs in Hmk. cbn in Hmk. unfold slot_life in Hmk. rewrite Hc in Hmk.
  destruct (reg_result op) as [r|] eqn:Hr; [right|left].
  - destruct (poll_task_ready cx k rt w op p r Hwf Hs Hp Hr) as (o & rt' & _ & E & Hget & _).
    pose proof (poll_task_wf cx k rt w _ _ _ Hwf E) as Hwf'. eexists r, (inl o), rt', _.
    split; [done|]. split; [exact E|]. split; [exact Hwf'|]. split.
    + intros k'. rewrite Hget. case_bool_decide; [subst; by rewrite lookup_delete_eq|].
      by rewrite lookup_delete_ne.
    + intros k' [Hk' Hne]%elem_of_difference. rewrite Hget, bool_decide_eq_false_2 by set_solver. by apply HF.
  - assert (has_result (Key_new k) (op_runtime rt) = false) as Hh.
    { unfold has_result. cbn. rewrite Hs, Hr. apply bool_decide_eq_false_2. by intros []. }
    pose proof (poll_task_pending cx (Key_new k) rt w Hh) as E.
    pose proof (poll_task_wf cx k rt w _ _ _ Hwf E) as Hwf'. eexists op, _.
    split; [done|]. split; [done|]. split; [exact E|]. split; [exact Hwf'|]. split; cbn.
    + intros k'. rewrite update_waker_get. cbn. case_bool_decide as Hkk.
      * subst k'. rewrite lookup_insert_eq, Hs. unfold slot_life. cbn. by rewrite Hc, Hr.
      * by rewrite lookup_insert_ne.
    + intros k' Hk'. destruct (HF k' Hk') as (op' & Hs' & Hc' & Ho'). rewrite update_waker_get. cbn.
      case_bool_decide; [subst; rewrite Hs'; by eexists|by eauto].
Qed.

Lemma drop_refines m k rt w F :
  k ∈ F → refines m (rt, w, F) →
  ∃ m', a_step m (Dropped k (is_ok (ci_try_cancel k (rt_driver rt)).1)) m' ∧
    refines m' (OpFuture_drop (OpFuture_new (Key_new k)) rt, w, F ∖ {[k]}).
Proof.
  intros Hk (Hwf & Hm & HF). destruct (HF k Hk) as (op & Hs & Hc & Ho).
  pose proof (cancel_op_wf (Key_new k) rt w Hwf) as Hwf'. unfold OpFuture_drop. cbn [completed OpFuture_new negb fut_user_data].
  unfold cancel_op in *. cbn [key_user_data Key_new] in *.
  destruct (ci_try_cancel k (rt_driver rt)) as [[[]|[]] d]; cbn [is_ok fst].
  - eexists. split; [apply (ADrop _ _ (slot_life op)); by rewrite Hm, Hs|]. split_and!; [done|..]; cbn.
    + intros k'. rewrite cancel_get. cbn. case_bool_decide; [subst; by rewrite lookup_insert_eq, Hs|].
      by rewrite lookup_insert_ne.
    + intros k' [Hk' Hne]%elem_of_difference. rewrite cancel_get. cbn.
      rewrite bool_decide_eq_false_2 by set_solver. by apply HF.
  - exists m. split; [constructor|]. split_and!; [done|done|]. intros k' [Hk' _]%elem_of_difference. by apply HF.
Qed.

Lemma client_step_refines x c y m :
  client_step x c y → refines m x → ∃ m', a_step m c m' ∧ refines m' y.
Proof.
  destruct 1 as [t o rt w key rt' w' F E|k cx rt w fut rt' w' F Hk E|k cx r o rt w fut rt' w' F Hk E|k rt w F Hk
    |rt w es rt' w' F Ht E|a fd rt w r a' rt' w' F E|rt w s' F|t q rt w F Hq]; intros Href.
  - destruct (submit_refines m _ _ _ _ _ _ _ _ E Href) as [? ?]. eexists. split; [by constructor|done].
  - unfold OpFuture_poll in E. cbn in E. destruct (poll_refines m k cx rt w F Hk Href) as
      [(op & rt1 & _ & Hm & Ep & Hr)|(r1 & o1 & rt1 & w1 & Hm & Ep & Hr)]; rewrite Ep in E; simpl_outcome; simplify_eq.
    eexists. split; [by econstructor|done].
  - unfold OpFuture_poll in E. cbn in E. destruct (poll_refines m k cx rt w F Hk Href) as
      [(op & rt1 & _ & Hm & Ep & Hr)|(r1 & o1 & rt1 & w1 & Hm & Ep & Hr)]; rewrite Ep in E; simpl_outcome; simplify_eq.
    eexists. split; [by econstructor|done].
  - by apply drop_refines.
  - eexists. split; [constructor|]. by eapply turn_refines.
  - exists m. split; [constructor|]. destruct Href as (Hwf & Hm & HF).
    pose proof (attach_wf _ _ _ _ _ _ _ _ Hwf E) as Hwf'.
    assert (op_runtime rt' = op_runtime rt) as Heq.
    { revert E. unfold Attacher_attach. cbn. unfold rt_attach. destruct (once a); [by intros [= _ _ <- _]|].
      destruct (ci_attach fd _ w) as [[[] d1] w1]; by intros [= _ _ <- _]. }
    split; [done|]. rewrite Heq. by split.
  - exists m. split; [constructor|done].
  - exists m. split; [constructor|]. destruct Href as ((? & ? & ?) & Hm & HF). by split_and!.
Qed.

Lemma client_run_refines d sys0 ls x :
  sq_wf d → client_run d sys0 ls x → ∃ m, a_run ls m ∧ refines m x.
Proof.
  intros Hd. induction 1 as [|ls x c y _ (m & Hm & Hr) Hs].
  - exists ∅. split; [constructor|]. split_and!; [by apply rt_wf_init| |set_solver].
    intros k. cbn. by rewrite lookup_empty, slab_empty_get.
  - destruct (client_step_refines _ _ _ _ Hs Hr) as (m' & ? & ?). exists m'. split; [by econstructor|done].
Qed.

(** C2 The runtime refines the life of operations: what any client sees when it uses the runtime over
    a driver that keeps its contract is a run of the abstract machine, at the end of which machine
    and slab agree on every key, and a future that still exists has a waiting or finished operation
    that it can poll without a panic, whatever was submitted, completed, cancelled and dropped
    before. *)
Theorem runtime_refines d sys0 ls rt w F :
  sq_wf d → client_run d sys0 ls (rt, w, F) →
  ∃ m, a_run ls m ∧ (∀ k, m !! k = slot_life <$> slab_get k (op_runtime rt)) ∧
    ∀ k, k ∈ F → m !! k ≠ None ∧ m !! k ≠ Some Abandoned ∧
      ∀ cx, ∃ res fut rt' w', OpFuture_poll cx (OpFuture_new (Key_new k)) rt w = Done (res, fut, rt', w').
Proof.
  intros Hd Hrun. destruct (client_run_refines _ _ _ _ Hd Hrun) as (m & Hm & Hr).
  exists m. split; [done|]. pose proof Hr as (_ & Hlook & _). split; [done|]. intros k Hk.
  assert (∀ cx, m !! k ≠ None ∧ m !! k ≠ Some Abandoned ∧
    ∃ res fut rt' w', OpFuture_poll cx (OpFuture_new (Key_new k)) rt w = Done (res, fut, rt', w')) as Hall.
  { intros cx. unfold OpFuture_poll. cbn. destruct (poll_refines m k cx rt w F Hk Hr) as
      [(op & rt1 & _ & -> & -> & _)|(r1 & o1 & rt1 & w1 & -> & -> & _)]; (split_and!; [done|done|]); simpl_outcome; by eauto. }
  split_and!; [apply (Hall 0)..|]. intros cx. apply Hall.
Qed.

(** C12 A future returns only what the driver emitted for its operation: when the poll of a future is
    ready with a result, the driver emitted an entry with that key and result in an earlier turn,
    and since then neither was the key given to another operation nor had a future with it
    returned. *)
Theorem future_result_emitted d sys0 ls k cx r x :
  sq_wf d → client_run d sys0 (ls ++ [Polled k cx (Ready r)]) x → completed_with ls k r.
Proof.
  intros Hd Hrun. inversion Hrun as [E|ls' x' c y Hrun' Hs E]; [by destruct ls|].
  apply app_inj_tail in E as [-> ->]. destruct (client_run_refines _ _ _ _ Hd Hrun') as (m & Hm & Hr).
  destruct (client_step_refines _ _ _ _ Hs Hr) as (m' & Ha & _). inversion Ha; subst.
  by eapply finished_completed.
Qed.
End refinement.
