(* ===== verification/Executor.v ===== *)
(** * The executor runs a program to its end

    [block_on] of [src/task/runtime.rs] against a direct reading of the
    program it runs.  The program is an [async] block that submits operations,
    any number of them at a time, and awaits them in any order.  Its direct
    reading ([completes]) knows nothing of tasks, wakers and run queues: an
    operation is pushed when it is submitted, awaiting one lets the driver
    turn until it has emitted an entry for it, and every turn settles the
    operations it emitted entries for.  The executor instead runs tasks from a
    queue, parks them behind wakers and turns the driver when nothing can run.
    The theorem says that it gets there: no wake-up is lost, the result is that
    of the direct reading, and neither a slot nor a box is left behind. *)

From S2P Require Import Prelude Driver Attacher Runtime RuntimeSpec.
From stdpp Require Import base numbers list gmap.

(** ** Programs *)

(** An [async] block: it returns, submits an operation and goes on with the handle of its task, awaits
    such a handle and goes on with the result and the operation it gets back, or attaches a
    descriptor to the driver of the runtime. *)
Inductive async (Op Fd R : Type) : Type :=
| Return (a : R)
| Spawn (o : Op) (k : nat → async Op Fd R)
| AwaitTask (t : nat) (k : io_result Z → Op → async Op Fd R)
| AttachFd (fd : Z) (k : io_result Fd → async Op Fd R).
Arguments Return {Op Fd R} a.
Arguments Spawn {Op Fd R} o k.
Arguments AwaitTask {Op Fd R} t k.
Arguments AttachFd {Op Fd R} fd k.

(** An operation that was submitted and not yet joined: in flight under a key, in a box; or ended. *)
Inductive job (Op : Type) : Type :=
| InFlight (key ptr : Z)
| Ended (r : io_result Z) (o : Op).
Arguments InFlight {Op} key ptr.
Arguments Ended {Op} r o.

Section jobs.
Context {Op W : Type}.
Implicit Types (J : gmap nat (job Op)) (w : World Op W).

Definition job_key (j : job Op) : option Z := match j with InFlight k _ => Some k | Ended _ _ => None end.
Definition used_keys J : gset Z := list_to_set (omap job_key (map_to_list J).*2).

Lemma elem_of_used_keys J k : k ∈ used_keys J ↔ ∃ t p, J !! t = Some (InFlight k p).
Proof.
  unfold used_keys. rewrite elem_of_list_to_set, list_elem_of_omap. split.
  - intros (j & ([t j'] & -> & Hj)%list_elem_of_fmap & Hk). apply elem_of_map_to_list in Hj. cbn in Hk.
    destruct j' as [k' p|]; [|done]. injection Hk as ->. by exists t, p.
  - intros (t & p & Hj). exists (InFlight k p). split; [|done]. apply list_elem_of_fmap.
    exists (t, InFlight k p). split; [done|]. by apply elem_of_map_to_list.
Qed.

(** What the entries of a turn do to a job: it ends with the last result under its key and the
    operation that is in its box. *)
Definition settle (es : list Entry) w (j : job Op) : job Op :=
  match j with
  | InFlight k p =>
      match last (results_for k es), boxes w !! p with Some r, Some o => Ended r o | _, _ => j end
  | Ended _ _ => j
  end.

(** The boxes of the jobs that end. *)
Definition settled_ptr (es : list Entry) (j : job Op) : option Z :=
  match j with
  | InFlight k p => if decide (results_for k es = []) then None else Some p
  | Ended _ _ => None
  end.
Definition settled_ptrs (es : list Entry) J : list Z := omap (settled_ptr es) (map_to_list J).*2.

Lemma elem_of_settled_ptrs es J p :
  p ∈ settled_ptrs es J ↔ ∃ t k, J !! t = Some (InFlight k p) ∧ results_for k es ≠ [].
Proof.
  unfold settled_ptrs. rewrite list_elem_of_omap. split.
  - intros (j & ([t j'] & -> & Hj)%list_elem_of_fmap & Hk). apply elem_of_map_to_list in Hj. cbn in Hk.
    destruct j' as [k p'|]; [|done]. cbn in Hk. destruct (decide _); [done|]. injection Hk as ->. by exists t, k.
  - intros (t & k & Hj & Hr). exists (InFlight k p). split; [|cbn; by rewrite decide_False].
    apply list_elem_of_fmap. exists (t, InFlight k p). split; [done|]. by apply elem_of_map_to_list.
Qed.

Definition free (ps : list Z) w : World Op W := mkWorld (foldr delete (boxes w) ps) (sys w).
End jobs.

Section executor.
Context {Op W S D Fd R : Type} `{!AsyncTask, !Slab S, !SlabLaws S, !BoxAlloc Op W, !BoxAllocLaws Op W,
  !CompleteIo Z (World Op W) D Fd, !CompleteIoSpec Z (World Op W) D Fd, !BoxesKept (Op := Op) (W := W) (D := D) (Fd := Fd)}.
Context (kind : io_error → ErrorKind).
Notation world := (World Op W).
Notation rt_t := (Runtime S D).
Implicit Types (rt : rt_t) (w : world) (p : async Op Fd R) (J : gmap nat (job Op)) (q : list (OpObject Z)).

(** ** The direct reading *)

(** One turn of the driver: what waits in [q] is pushed as far as it fits, and the driver emits
    entries; it is not to block while something still waits.  An error other than a timeout has no
    entries. *)
Definition turn q (d : D) w : option (list Entry * list (OpObject Z) * D * world) :=
  match ci_push_queue q d w with
  | Done (q, d, w) =>
      match ci_submit (if bool_decide (0 < length q) then Some 0%Z else None) d w with
      | Done (es, Ok _, d, w) => Some (es, q, d, w)
      | Done (es, Err e, d, w) => if bool_decide (kind e = TimedOut) then Some (es, q, d, w) else None
      | _ => None
      end
  | _ => None
  end.

(** The turn that makes the event loop panic: the driver panics, or fails with an error other than a
    timeout. *)
Definition turn_panics q (d : D) w : Prop :=
  match ci_push_queue q d w with
  | Done (q, d, w) =>
      match ci_submit (if bool_decide (0 < length q) then Some 0%Z else None) d w with
      | Done (_, Err e, _, _) => kind e ≠ TimedOut
      | Panic => True
      | _ => False
      end
  | Panic => True
  | Undef => False
  end.

(** What may go wrong in the turn from a state. *)
Notation faults := (list (OpObject Z) → D → world → Prop).
Definition no_fault : faults := λ _ _ _, False.

(** The driver turns until the job [t] has ended, or until it is about to turn from a state with
    [fault]. *)
Inductive awaits (fault : faults) (t : nat) (Q : io_result Z → Op → gmap nat (job Op) → list (OpObject Z) → D → world → Prop) :
    gmap nat (job Op) → list (OpObject Z) → D → world → Prop :=
| awaits_ended J q d w r o :
    J !! t = Some (Ended r o) → Q r o J q d w → awaits fault t Q J q d w
| awaits_fault J q d w k ptr :
    J !! t = Some (InFlight k ptr) → fault q d w → awaits fault t Q J q d w
| awaits_turn J q d w k ptr es q' d' w' :
    J !! t = Some (InFlight k ptr) → turn q d w = Some (es, q', d', w') →
    awaits fault t Q (settle es w' <$> J) q' d' (free (settled_ptrs es J) w') → awaits fault t Q J q d w.

(** The keys that a slab gives when [used] are the keys of its occupied slots: it panics only when
    the keys are used up. *)
Context (keys : gset Z → Z → Prop).
Class SlabKeys : Prop := slab_insert_keys r (s : S) (used : gset Z) :
  (∀ k, slab_get k s = None ↔ k ∉ used) → (Z.of_nat (size used) < usize_MAX)%Z →
  ∃ k s', slab_insert r s = Done (k, s') ∧ keys used k.

(** The program, read directly, ends in a state with [Q], having joined all it submitted, unless a
    turn has a [fault]; [n] operations were submitted before. *)
Fixpoint completes (fault : faults) p (n : nat) J q (d : D) w (Q : R → list (OpObject Z) → D → world → Prop) : Prop :=
  match p with
  | Return a => J = ∅ ∧ Q a q d w
  | Spawn o k => (Z.of_nat (size (used_keys J)) < usize_MAX)%Z ∧ ∀ key, keys (used_keys J) key → ∃ r d1 w1,
      ci_try_push_dyn (OpObject_new (box_addr w) key) d (mkWorld (<[box_addr w := o]> (boxes w)) (sys w)) =
        Done (r, d1, w1) ∧
      completes fault (k (Datatypes.S n)) (Datatypes.S n) (<[Datatypes.S n := InFlight key (box_addr w)]> J)
        (match r with Ok _ => q | Err o => q ++ [o] end) d1 w1 Q
  | AwaitTask t k => awaits fault t (λ r o J q d w, completes fault (k r o) n (delete t J) q d w Q) J q d w
  | AttachFd fd k => let '(r, d1, w1) := ci_attach fd d w in completes fault (k r) n J q d1 w1 Q
  end.

(** The states from which the driver turns while the program is read directly. *)
Inductive comes_to : async Op Fd R → nat → gmap nat (job Op) → list (OpObject Z) → D → world →
    list (OpObject Z) → D → world → Prop :=
| comes_here t k n J q d w key ptr : J !! t = Some (InFlight key ptr) → comes_to (AwaitTask t k) n J q d w q d w
| comes_turn t k n J q d w key ptr es q1 d1 w1 q' d' w' :
    J !! t = Some (InFlight key ptr) → turn q d w = Some (es, q1, d1, w1) →
    comes_to (AwaitTask t k) n (settle es w1 <$> J) q1 d1 (free (settled_ptrs es J) w1) q' d' w' →
    comes_to (AwaitTask t k) n J q d w q' d' w'
| comes_join t k n J q d w r o q' d' w' :
    J !! t = Some (Ended r o) → comes_to (k r o) n (delete t J) q d w q' d' w' → comes_to (AwaitTask t k) n J q d w q' d' w'
| comes_spawn o k n J q d w key r d1 w1 q' d' w' :
    keys (used_keys J) key →
    ci_try_push_dyn (OpObject_new (box_addr w) key) d (mkWorld (<[box_addr w := o]> (boxes w)) (sys w)) = Done (r, d1, w1) →
    comes_to (k (Datatypes.S n)) (Datatypes.S n) (<[Datatypes.S n := InFlight key (box_addr w)]> J)
      (match r with Ok _ => q | Err o => q ++ [o] end) d1 w1 q' d' w' →
    comes_to (Spawn o k) n J q d w q' d' w'
| comes_attach fd k n J q d w r d1 w1 q' d' w' :
    ci_attach fd d w = (r, d1, w1) → comes_to (k r) n J q d1 w1 q' d' w' → comes_to (AttachFd fd k) n J q d w q' d' w'.

(** ** The program as tasks

    The block is the task 0; the future of an operation that it submits is a
    task of its own, whose end wakes the block if it awaits it. *)

Inductive task_state := Running (fut : OpFuture) | Finished (out : io_result Z * (Op + unit)).
Inductive stage := At (p : async Op Fd R) | Awaiting (t : nat) (k : io_result Z → Op → async Op Fd R) | Over.

Record block := mkBlock {
  block_stage : stage; block_tasks : gmap nat task_state; spawned : nat; block_result : option R }.

(** The block runs to its next await that is not ready. *)
Fixpoint resume p (n : nat) (ts : gmap nat task_state) rt w : outcome (rt_t * world * block) :=
  match p with
  | Return a => Done (rt, w, mkBlock Over ts n (Some a))
  | Spawn o k =>
      '(key, rt, w) ← rt_submit (Datatypes.S n) o rt w;
      resume (k (Datatypes.S n)) (Datatypes.S n) (<[Datatypes.S n := Running (OpFuture_new key)]> ts) rt w
  | AwaitTask t k =>
      match ts !! t with
      | Some (Finished (r, inl o)) => resume (k r o) n (delete t ts) rt w
      | Some (Running _) => Done (rt, w, mkBlock (Awaiting t k) ts n None)
      | _ => Panic
      end
  | AttachFd fd k => let '(r, rt, w) := rt_attach fd rt w in resume (k r) n ts rt w
  end.

(** One run of the task [t]. *)
Definition run_block (t : nat) rt w (u : block) : outcome (rt_t * world * block) :=
  if bool_decide (t = 0) then
    match block_stage u with
    | At p => resume p (spawned u) (block_tasks u) rt w
    | Awaiting t k => resume (AwaitTask t k) (spawned u) (block_tasks u) rt w
    | Over => Done (rt, w, u)
    end
  else
    match block_tasks u !! t with
    | Some (Running fut) =>
        '(res, fut, rt, w) ← OpFuture_poll t fut rt w;
        match res with
        | Ready out =>
            let woken := match block_stage u with
                         | Awaiting t' _ => if bool_decide (t = t') then [0] else []
                         | _ => []
                         end in
            Done (wake_all woken rt, w,
                  mkBlock (block_stage u) (<[t := Finished out]> (block_tasks u)) (spawned u) (block_result u))
        | Pending =>
            Done (rt, w, mkBlock (block_stage u) (<[t := Running fut]> (block_tasks u)) (spawned u) (block_result u))
        end
    | _ => Done (rt, w, u)
    end.

Notation tasks := (run_tasks run_block).
Notation loop := (block_on_loop run_block block_result kind).

(** What [block_on] does when the run queue is empty. *)
Definition after_tasks (fuel : nat) (x : option (outcome (rt_t * world * block))) :
    option (outcome (R * rt_t * world * block)) :=
  match x with
  | None => None
  | Some Panic => Some Panic
  | Some Undef => Some Undef
  | Some (Done (rt, w, u)) =>
      match block_result u with
      | Some result => Some (Done (result, rt, w, u))
      | None =>
          match fuel with
          | 0 => None
          | Datatypes.S fuel =>
              match rt_poll kind rt w with
              | Done (rt, w) => loop fuel rt w u
              | Panic => Some Panic
              | Undef => Some Undef
              end
          end
      end
  end.

Lemma loop_unfold fuel rt w u : loop fuel rt w u = after_tasks fuel (tasks fuel rt w u).
Proof. by destruct fuel. Qed.

(** ** Waking tasks *)

Context (task_live : ∀ t, ¬ task_completed t).

Lemma foldl_wake_nodup ts : ∀ qu, NoDup (qu ++ ts) → foldl (λ qu t, wake t qu) qu ts = qu ++ ts.
Proof.
  induction ts as [|t ts IH]; intros qu Hnd; cbn; [by rewrite app_nil_r|].
  assert (wake t qu = qu ++ [t]) as ->.
  { apply NoDup_app in Hnd as (_ & Hnd & _).
    destruct (wake_schedules t qu) as [->|[_ [Ht|Ht]]]; [done| |by apply task_live in Ht].
    by destruct (Hnd t Ht); apply list_elem_of_here. }
  rewrite IH; rewrite <- app_assoc; [done|exact Hnd].
Qed.

(** The slot after results were delivered to it. *)
Definition delivered (rs : list (io_result Z)) (op : RegisteredOp) : RegisteredOp :=
  match last rs with Some r => mkRegisteredOp (reg_op op) None (Some r) false | None => op end.

Lemma delivered_cons op r rs :
  delivered rs (mkRegisteredOp (reg_op op) None (Some r) false) = delivered (r :: rs) op.
Proof. unfold delivered. rewrite last_cons. by destruct (last rs). Qed.

Definition slab_live (s : S) : Prop :=
  (∀ k op, slab_get k s = Some op → reg_cancelled op = false) ∧
  (∀ k k' op op' t, slab_get k s = Some op → slab_get k' s = Some op' →
     reg_waker op = Some t → reg_waker op' = Some t → k = k').

(** Delivering entries wakes each waiting task once, however many entries there are. *)
Lemma extend_wakes es : ∀ s w, slab_live s →
  ∃ woken s', extend es s w = Done (woken, s', w) ∧
    (∀ k, slab_get k s' = delivered (results_for k es) <$> slab_get k s) ∧ NoDup woken ∧
    (∀ t, t ∈ woken ↔ ∃ k op, slab_get k s = Some op ∧ reg_waker op = Some t ∧ results_for k es ≠ []).
Proof.
  induction es as [|e es IH]; intros s w [Hc Hw]; cbn [extend].
  { exists [], s. split; [done|]. split; [intros k; by destruct (slab_get k s)|]. split; [constructor|].
    intros t. rewrite elem_of_nil. split; [done|]. by intros (? & ? & _ & _ & []). }
  destruct (update_result_spec (entry_user_data e) (entry_result e) s w) as (s1 & -> & Hs1).
  set (u := entry_user_data e) in *.
  assert (∀ k, slab_get k s1 = if bool_decide (k = u)
    then (λ op, mkRegisteredOp (reg_op op) None (Some (entry_result e)) false) <$> slab_get u s else slab_get k s) as Hs1'.
  { intros k. rewrite Hs1. destruct (slab_get u s) as [op|] eqn:Hu; [|done]. cbn. by rewrite (Hc u op Hu). }
  clear Hs1. destruct (IH s1 w) as (woken & s' & E & Hs' & Hnd & Hin).
  { split.
    - intros k op. rewrite Hs1'. case_bool_decide; [|by apply Hc]. intros (op0 & _ & ->)%fmap_Some_1. done.
    - intros k k' op op' t. rewrite !Hs1'. repeat case_bool_decide; subst; try done;
        try (intros (op0 & _ & ->)%fmap_Some_1; done); try (intros _ (op0 & _ & ->)%fmap_Some_1; done). apply Hw. }
  simpl_outcome. rewrite E. eexists _, s'. split; [done|].
  assert (∀ t, t ∈ waker_of (slab_get u s) ↔ ∃ op, slab_get u s = Some op ∧ reg_waker op = Some t) as Hwo.
  { intros t. unfold waker_of. destruct (slab_get u s) as [op|]; [|set_solver]. destruct (reg_waker op) eqn:?; set_solver. }
  assert (∀ t, t ∈ woken ↔ ∃ k op, k ≠ u ∧ slab_get k s = Some op ∧ reg_waker op = Some t ∧ results_for k es ≠ []) as Hin'.
  { intros t. rewrite Hin. setoid_rewrite Hs1'. split.
    - intros (k & op & Hk & Ht & Hr). case_bool_decide; [|by exists k, op]. apply fmap_Some_1 in Hk as (? & _ & ->). done.
    - intros (k & op & Hne & Hk & Ht & Hr). exists k, op. by rewrite bool_decide_eq_false_2. }
  split; [|split].
  - intros k. rewrite Hs', Hs1', results_for_cons. fold u. case_bool_decide; subst; [|done].
    destruct (slab_get u s); cbn; [|done]. by rewrite delivered_cons.
  - apply NoDup_app. split_and!; [|intros t|done].
    + unfold waker_of. destruct (slab_get u s) as [op|]; [|constructor]. destruct (reg_waker op); [apply NoDup_singleton|constructor].
    + rewrite Hwo, Hin'. intros (op & Hu & Ht) (k & op' & Hne & Hk & Ht' & _). by destruct Hne; eapply Hw.
  - intros t. rewrite elem_of_app, Hwo, Hin'. setoid_rewrite results_for_cons. fold u. split.
    + intros [(op & Hu & Ht)|(k & op & Hne & Hk & Ht & Hr)].
      * exists u, op. by rewrite bool_decide_eq_true_2.
      * exists k, op. by rewrite bool_decide_eq_false_2.
    + intros (k & op & Hk & Ht & Hr). case_bool_decide; subst; [left; by exists op|right; by exists k, op].
Qed.

(** A round of the event loop is a turn of the driver whose entries are delivered. *)
Lemma rt_poll_turn q d w es q' d' w' s :
  turn q d w = Some (es, q', d', w') → slab_live s →
  ∃ woken s', rt_poll kind (mkRuntime d [] q [] s) w = Done (mkRuntime d' woken q' [] s', w') ∧
    (∀ k, slab_get k s' = delivered (results_for k es) <$> slab_get k s) ∧ NoDup woken ∧
    (∀ t, t ∈ woken ↔ ∃ k op, slab_get k s = Some op ∧ reg_waker op = Some t ∧ results_for k es ≠ []).
Proof.
  intros Ht Hs. unfold turn in Ht. unfold rt_poll. cbn.
  destruct (ci_push_queue q d w) as [[[q1 d1] w1]| |] eqn:Ep; [|done..]. simpl_outcome.
  destruct (ci_submit _ d1 w1) as [[[[es1 r] d2] w2]| |] eqn:Es; [|done..].
  assert ((es1, q1, d2, w2) = (es, q', d', w') ∧ match r with Ok _ => True | Err e => kind e = TimedOut end)
    as [[= -> -> -> ->] Hr].
  { destruct r as [|e]; [by simplify_eq|]. case_bool_decide; by simplify_eq. }
  destruct (extend_wakes es s w' Hs) as (woken & s' & Ee & Hget & Hnd & Hin). exists woken, s'. split; [|done].
  rewrite Ee. unfold wake_all. cbn. rewrite foldl_wake_nodup by done. cbn.
  destruct r as [|e]; [done|]. by rewrite bool_decide_eq_true_2.
Qed.

Lemma rt_poll_panics q d w s : turn_panics q d w → slab_live s → rt_poll kind (mkRuntime d [] q [] s) w = Panic.
Proof.
  intros Ht Hs. unfold turn_panics in Ht. unfold rt_poll. cbn.
  destruct (ci_push_queue q d w) as [[[q1 d1] w1]| |]; [simpl_outcome|done..].
  destruct (ci_submit _ d1 w1) as [[[[es [u|e]] d2] w2]| |]; [done| |done..]. simpl_outcome.
  destruct (extend_wakes es s w2 Hs) as (woken & s' & -> & _). simpl_outcome. by rewrite bool_decide_eq_false_2.
Qed.

Lemma turn_keeps q d w es q' d' w' : turn q d w = Some (es, q', d', w') → dom (boxes w') = dom (boxes w).
Proof.
  unfold turn. destruct (ci_push_queue q d w) as [[[q1 d1] w1]| |] eqn:Ep; [|done..].
  destruct (ci_submit _ d1 w1) as [[[[es1 r] d2] w2]| |] eqn:Es; [|done..]. intros Ht.
  rewrite <- (push_queue_keeps_boxes _ _ _ _ _ _ Ep), <- (submit_keeps_boxes _ _ _ _ _ _ _ Es).
  destruct r; [by simplify_eq|]. case_bool_decide; by simplify_eq.
Qed.

(** ** The invariant

    A task that was spawned has not run yet, is parked behind its waker, or
    finds a result in its slot. *)

Inductive phase := Fresh | Parked | HasResult (r : io_result Z).

Definition slot (t : nat) (ptr : Z) (ph : phase) : RegisteredOp :=
  mkRegisteredOp (Some ptr) (match ph with Parked => Some t | _ => None end)
    (match ph with HasResult r => Some r | _ => None end) false.

Definition tasks_of J : gmap nat task_state :=
  (λ j, match j with
        | InFlight k _ => Running (OpFuture_new (Key_new k))
        | Ended r o => Finished (r, inl o)
        end) <$> J.

(** The slots are those of the jobs in flight, and so are the boxes besides [bs]. *)
Record jobs_inv (ph : nat → phase) J (n : nat) (bs : gset Z) (s : S) w : Prop := {
  inv_slot t k ptr : J !! t = Some (InFlight k ptr) → slab_get k s = Some (slot t ptr (ph t));
  inv_job k op : slab_get k s = Some op → ∃ t ptr, J !! t = Some (InFlight k ptr);
  inv_key t t' k ptr ptr' : J !! t = Some (InFlight k ptr) → J !! t' = Some (InFlight k ptr') → t = t';
  inv_boxes ptr : ptr ∈ dom (boxes w) ↔ ptr ∈ bs ∨ ∃ t k, J !! t = Some (InFlight k ptr);
  inv_own t k ptr : J !! t = Some (InFlight k ptr) → ptr ∉ bs;
  inv_spawned t j : J !! t = Some j → 0 < t ≤ n;
}.

Lemma jobs_inv_live ph J n bs s w : jobs_inv ph J n bs s w → slab_live s.
Proof.
  intros Hi. assert (∀ k op, slab_get k s = Some op → ∃ t ptr, J !! t = Some (InFlight k ptr) ∧ op = slot t ptr (ph t)) as Hslot.
  { intros k op Hk. destruct (inv_job _ _ _ _ _ _ Hi k op Hk) as (t & ptr & HJ). exists t, ptr. split; [done|].
    pose proof (inv_slot _ _ _ _ _ _ Hi t k ptr HJ). congruence. }
  split.
  - intros k op (t & ptr & _ & ->)%Hslot. done.
  - intros k k' op op' t (t1 & p1 & H1 & ->)%Hslot (t2 & p2 & H2 & ->)%Hslot. cbn.
    destruct (ph t1), (ph t2); intros [= ->] [= ->]. congruence.
Qed.

Lemma jobs_inv_used ph J n bs s w : jobs_inv ph J n bs s w → ∀ k, slab_get k s = None ↔ k ∉ used_keys J.
Proof.
  intros Hi k. rewrite elem_of_used_keys. split.
  - intros Hk (t & ptr & HJ). pose proof (inv_slot _ _ _ _ _ _ Hi t k ptr HJ). congruence.
  - intros Hk. destruct (slab_get k s) as [op|] eqn:E; [|done]. by destruct Hk; eapply inv_job.
Qed.

(** A box belongs to one job. *)
Lemma jobs_inv_ptr ph J n bs s w t t' k k' ptr :
  jobs_inv ph J n bs s w → slots_own_boxes s (dom (boxes w)) →
  J !! t = Some (InFlight k ptr) → J !! t' = Some (InFlight k' ptr) → t = t'.
Proof.
  intros Hi [_ Hown] Ht Ht'. assert (k = k') as ->; [|by eapply (inv_key _ _ _ _ _ _ Hi)].
  eapply Hown; [by eapply (inv_slot _ _ _ _ _ _ Hi)|by eapply (inv_slot _ _ _ _ _ _ Hi)|done|done].
Qed.

(** A job that has ended and is joined. *)
Lemma jobs_inv_join ph J n bs s w t r o :
  jobs_inv ph J n bs s w → J !! t = Some (Ended r o) → jobs_inv ph (delete t J) n bs s w.
Proof.
  intros Hi Ht. assert (∀ t' k ptr, delete t J !! t' = Some (InFlight k ptr) ↔ J !! t' = Some (InFlight k ptr)) as Hd.
  { intros t' k ptr. rewrite lookup_delete_Some. split; [tauto|]. intros HJ. split; [congruence|done]. }
  split; try setoid_rewrite Hd; try apply Hi. intros t' j [_ HJ]%lookup_delete_Some. by eapply inv_spawned.
Qed.

(** *** Running one task *)

Lemma tasks_of_lookup J t k ptr : J !! t = Some (InFlight k ptr) → tasks_of J !! t = Some (Running (OpFuture_new (Key_new k))).
Proof. intros Ht. unfold tasks_of. by rewrite lookup_fmap, Ht. Qed.

(** The queue after the task [t] has ended. *)
Definition end_wakes (stg : stage) (t : nat) (qu : list nat) : list nat :=
  match stg with
  | Awaiting t' _ => if bool_decide (t = t') then wake 0 qu else qu
  | _ => qu
  end.

(** A task with a result ends: its job ends, its slot is vacated and its box freed. *)
Lemma run_ready ph J n bs s w t k ptr r d qu q stg :
  jobs_inv ph J n bs s w → rt_wf (mkRuntime d qu q [] s) w → J !! t = Some (InFlight k ptr) → ph t = HasResult r →
  ∃ o s', boxes w !! ptr = Some o ∧ jobs_inv ph (<[t := Ended r o]> J) n bs s' (free [ptr] w) ∧
    rt_wf (mkRuntime d qu q [] s') (free [ptr] w) ∧
    run_block t (mkRuntime d qu q [] s) w (mkBlock stg (tasks_of J) n None) =
      Done (mkRuntime d (end_wakes stg t qu) q [] s', free [ptr] w, mkBlock stg (tasks_of (<[t := Ended r o]> J)) n None).
Proof.
  intros Hi Hwf Ht Hph. pose proof (inv_slot _ _ _ _ _ _ Hi t k ptr Ht) as Hk. rewrite Hph in Hk.
  destruct (poll_task_ready t k _ w _ ptr r Hwf Hk eq_refl eq_refl)
    as (o & [d' qu' un' cs' s'] & Ho & Ep & Hget & Hd & Hun & Hq & Hcs). cbn in *. subst.
  pose proof (poll_task_wf _ _ _ _ _ _ _ Hwf Ep) as Hwf'. exists o, s'. split; [done|].
  assert (∀ t' k' ptr', <[t := Ended r o]> J !! t' = Some (InFlight k' ptr') ↔ t' ≠ t ∧ J !! t' = Some (InFlight k' ptr')) as HJ.
  { intros t' k' ptr'. rewrite lookup_insert_Some. naive_solver. }
  assert (∀ t' k' ptr', t' ≠ t → J !! t' = Some (InFlight k' ptr') → k' ≠ k ∧ ptr' ≠ ptr) as Hne.
  { intros t' k' ptr' Hne Ht'. split; intros ->; destruct Hne; [by eapply (inv_key _ _ _ _ _ _ Hi)|].
    eapply (jobs_inv_ptr _ _ _ _ _ _ _ _ _ _ _ Hi); [apply Hwf|done|done]. }
  split; [|split; [exact Hwf'|]].
  - split.
    + intros t' k' ptr' [Hn Ht']%HJ. rewrite Hget. rewrite bool_decide_eq_false_2 by by eapply Hne.
      by apply (inv_slot _ _ _ _ _ _ Hi).
    + intros k' op. rewrite Hget. case_bool_decide as Hkk; [done|]. intros (t' & ptr' & Ht')%(inv_job _ _ _ _ _ _ Hi).
      exists t', ptr'. apply HJ. split; [|done]. intros ->. congruence.
    + intros t1 t2 k' p1 p2 [_ H1]%HJ [_ H2]%HJ. by eapply (inv_key _ _ _ _ _ _ Hi).
    + intros ptr'. cbn. rewrite dom_delete_L, elem_of_difference, (inv_boxes _ _ _ _ _ _ Hi), elem_of_singleton.
      setoid_rewrite HJ. pose proof (inv_own _ _ _ _ _ _ Hi t k ptr Ht). split.
      * intros [[?|(t' & k' & Ht')] Hp]; [by left|right]. exists t', k'. split; [|done]. intros ->. congruence.
      * intros [?|(t' & k' & Hn & Ht')]; split; [by left|set_solver|right; by eauto|]. by eapply Hne.
    + intros t' k' ptr' [_ Ht']%HJ. by eapply (inv_own _ _ _ _ _ _ Hi).
    + intros t' j [[<- _]|[_ Hj]]%lookup_insert_Some; by eapply (inv_spawned _ _ _ _ _ _ Hi).
  - unfold run_block. pose proof (inv_spawned _ _ _ _ _ _ Hi t _ Ht). rewrite bool_decide_eq_false_2 by lia.
    cbn [block_tasks block_stage spawned block_result]. rewrite (tasks_of_lookup _ _ _ _ Ht). unfold OpFuture_poll.
    cbn [fut_user_data OpFuture_new]. rewrite Ep. cbn.
    unfold tasks_of. rewrite fmap_insert. unfold wake_all, set_runnables, end_wakes. cbn.
    destruct stg; try done. by case_bool_decide.
Qed.

(** A task that runs for the first time parks. *)
Lemma run_fresh ph J n bs s w t k ptr d qu q stg :
  jobs_inv ph J n bs s w → rt_wf (mkRuntime d qu q [] s) w → J !! t = Some (InFlight k ptr) → ph t = Fresh →
  ∃ s', jobs_inv (λ t', if decide (t' = t) then Parked else ph t') J n bs s' w ∧
    rt_wf (mkRuntime d qu q [] s') w ∧
    run_block t (mkRuntime d qu q [] s) w (mkBlock stg (tasks_of J) n None) =
      Done (mkRuntime d qu q [] s', w, mkBlock stg (tasks_of J) n None).
Proof.
  intros Hi Hwf Ht Hph. pose proof (inv_slot _ _ _ _ _ _ Hi t k ptr Ht) as Hk. rewrite Hph in Hk.
  assert (poll_task t (Key_new k) (mkRuntime d qu q [] s) w =
    Done (Pending, mkRuntime d qu q [] (update_waker (Key_new k) t s), w)) as Ep.
  { apply poll_task_pending. unfold has_result. cbn. rewrite Hk. by apply bool_decide_eq_false_2; intros []. }
  pose proof (poll_task_wf _ _ _ _ _ _ _ Hwf Ep) as Hwf'. eexists. split; [|split; [exact Hwf'|]].
  - split; try apply Hi.
    + intros t' k' ptr' Ht'. rewrite update_waker_get. cbn. case_bool_decide as Hkk.
      * subst k'. assert (t' = t) as -> by by eapply (inv_key _ _ _ _ _ _ Hi).
        rewrite Ht in Ht'. injection Ht' as <-. by rewrite Hk, decide_True.
      * rewrite decide_False by congruence. by apply (inv_slot _ _ _ _ _ _ Hi).
    + intros k' op. rewrite update_waker_get. cbn. case_bool_decide; [subst; by eauto|apply (inv_job _ _ _ _ _ _ Hi)].
  - unfold run_block. pose proof (inv_spawned _ _ _ _ _ _ Hi t _ Ht). rewrite bool_decide_eq_false_2 by lia.
    cbn [block_tasks block_stage spawned block_result]. rewrite (tasks_of_lookup _ _ _ _ Ht). unfold OpFuture_poll.
    cbn [fut_user_data OpFuture_new]. rewrite Ep. cbn. by rewrite insert_id by by apply (tasks_of_lookup _ _ _ ptr).
Qed.

(** *** Running the tasks that are scheduled *)

Lemma jobs_inv_ext ph ph' J n bs s w :
  (∀ t k ptr, J !! t = Some (InFlight k ptr) → ph t = ph' t) → jobs_inv ph J n bs s w → jobs_inv ph' J n bs s w.
Proof. intros He Hi. split; try apply Hi. intros t k ptr Ht. rewrite <- (He t k ptr Ht). by apply (inv_slot _ _ _ _ _ _ Hi). Qed.

Lemma rt_wf_queue d qu qu' q cs (s : S) w : rt_wf (mkRuntime d qu q cs s) w → rt_wf (mkRuntime d qu' q cs s) w.
Proof. done. Qed.

Lemma tasks_step t qu d q s w u rt' w' u' fin :
  run_block t (mkRuntime d qu q [] s) w u = Done (rt', w', u') →
  tasks (Datatypes.S fin) (mkRuntime d (t :: qu) q [] s) w u = tasks fin rt' w' u'.
Proof.
  intros E. cbn [run_tasks runnables]. unfold set_runnables at 1.
  cbn [rt_driver unqueued_operations unqueued_cancels op_runtime]. by rewrite E.
Qed.

Definition fresh_or_parked (ts : list nat) (t : nat) : phase := if decide (t ∈ ts) then Fresh else Parked.

Lemma run_fresh_all ts J n bs q d w stg : ∀ s,
  NoDup ts → (∀ t, t ∈ ts → ∃ k ptr, J !! t = Some (InFlight k ptr)) →
  jobs_inv (fresh_or_parked ts) J n bs s w → rt_wf (mkRuntime d ts q [] s) w →
  ∃ s', jobs_inv (λ _, Parked) J n bs s' w ∧ rt_wf (mkRuntime d [] q [] s') w ∧
    ∀ fin, tasks (length ts + fin) (mkRuntime d ts q [] s) w (mkBlock stg (tasks_of J) n None) =
      tasks fin (mkRuntime d [] q [] s') w (mkBlock stg (tasks_of J) n None).
Proof.
  induction ts as [|t ts IH]; intros s Hnd Hin Hi Hwf; [by exists s|]. apply NoDup_cons in Hnd as [Hn Hnd].
  destruct (Hin t) as (k & ptr & Ht); [left|].
  destruct (run_fresh _ _ _ _ _ _ t k ptr d ts q stg Hi (rt_wf_queue _ _ _ _ _ _ _ Hwf) Ht) as (s1 & Hi1 & Hwf1 & E).
  { unfold fresh_or_parked. by rewrite decide_True by left. }
  destruct (IH s1 Hnd) as (s' & Hi' & Hwf' & E'); [intros; apply Hin; by right| |done|].
  { eapply jobs_inv_ext, Hi1. intros t' _ _ _. cbn. unfold fresh_or_parked.
    destruct (decide (t' = t)) as [->|Hne]; [by rewrite decide_False|].
    destruct (decide (t' ∈ ts)); [by rewrite decide_True by by right|]. rewrite decide_False; [done|]. set_solver. }
  exists s'. split_and!; [done..|]. intros fin. cbn [length Nat.add]. by rewrite (tasks_step _ _ _ _ _ _ _ _ _ _ _ E).
Qed.

Definition result_or_parked (res : nat → io_result Z) (ts : list nat) (t : nat) : phase :=
  if decide (t ∈ ts) then HasResult (res t) else Parked.

(** The jobs and the boxes after the tasks [ts] have ended. *)
Definition tasks_ended (res : nat → io_result Z) (ts : list nat) J w J' w' : Prop :=
  sys w' = sys w ∧ (∀ t, t ∉ ts → J' !! t = J !! t) ∧
  (∀ t k ptr, t ∈ ts → J !! t = Some (InFlight k ptr) →
     boxes w' !! ptr = None ∧ ∃ o, boxes w !! ptr = Some o ∧ J' !! t = Some (Ended (res t) o)) ∧
  (∀ ptr, (∀ t k, t ∈ ts → J !! t ≠ Some (InFlight k ptr)) → boxes w' !! ptr = boxes w !! ptr).

(** One more task that ended. *)
Lemma tasks_ended_cons res t ts J w J' w' k ptr o :
  t ∉ ts → J !! t = Some (InFlight k ptr) → boxes w !! ptr = Some o →
  (∀ t' k' ptr', t' ∈ ts → J !! t' = Some (InFlight k' ptr') → ptr' ≠ ptr) →
  tasks_ended res ts (<[t := Ended (res t) o]> J) (free [ptr] w) J' w' → tasks_ended res (t :: ts) J w J' w'.
Proof.
  intros Hn Ht Ho Hne (Hsys & Hout & Hend & Hbox).
  assert (∀ t', t' ∈ ts → <[t := Ended (res t) o]> J !! t' = J !! t') as HJ1.
  { intros t' Ht'. apply lookup_insert_ne. by intros <-. }
  split; [exact Hsys|]. split_and!.
  - intros t' Ht'. rewrite Hout by set_solver. apply lookup_insert_ne. intros ->. by destruct Ht'; left.
  - intros t' k' ptr' [->|Ht']%elem_of_cons Hj.
    + rewrite Ht in Hj. injection Hj as <- <-. split.
      * rewrite Hbox; [apply lookup_delete_eq|]. intros t' k' Ht'. rewrite HJ1 by done. intros Hj. by eapply Hne.
      * exists o. split; [done|]. rewrite Hout by done. apply lookup_insert_eq.
    + destruct (Hend t' k' ptr' Ht') as (Hnone & o' & Ho' & Hj'); [by rewrite HJ1|]. split; [done|].
      exists o'. split; [|done]. cbn in Ho'. by rewrite lookup_delete_Some in Ho'; destruct Ho'.
  - intros ptr' Hall. rewrite Hbox.
    + apply lookup_delete_ne. intros ->. by apply (Hall t k); [left|].
    + intros t' k' Ht'. rewrite HJ1 by done. apply Hall. by right.
Qed.

(** The tasks that were woken run one after the other. *)
Lemma run_ready_all res ts a k0 n bs q d : ∀ J qu s w,
  NoDup ts → (∀ t, t ∈ ts → ∃ k ptr, J !! t = Some (InFlight k ptr)) → (a ∈ ts → qu = []) →
  jobs_inv (result_or_parked res ts) J n bs s w → rt_wf (mkRuntime d (ts ++ qu) q [] s) w →
  ∃ J' s' w', jobs_inv (λ _, Parked) J' n bs s' w' ∧ rt_wf (mkRuntime d [] q [] s') w' ∧ tasks_ended res ts J w J' w' ∧
    ∀ fin, tasks (length ts + fin) (mkRuntime d (ts ++ qu) q [] s) w (mkBlock (Awaiting a k0) (tasks_of J) n None) =
      tasks fin (mkRuntime d (if decide (a ∈ ts) then [0] else qu) q [] s') w' (mkBlock (Awaiting a k0) (tasks_of J') n None).
Proof.
  induction ts as [|t ts IH]; intros J qu s w Hnd Hin Hqu Hi Hwf.
  { exists J, s, w. split; [done|]. split; [done|]. split; [|done]. split_and!; try done. set_solver. }
  apply NoDup_cons in Hnd as [Hn Hnd]. destruct (Hin t) as (k & ptr & Ht); [left|].
  destruct (run_ready _ _ _ _ _ _ t k ptr (res t) d (ts ++ qu) q (Awaiting a k0) Hi (rt_wf_queue _ _ _ _ _ _ _ Hwf) Ht)
    as (o & s1 & Ho & Hi1 & Hwf1 & E).
  { unfold result_or_parked. by rewrite decide_True by left. }
  set (J1 := <[t := Ended (res t) o]> J) in *.
  assert (∀ t', t' ∈ ts → J1 !! t' = J !! t') as HJ1.
  { intros t' Ht'. apply lookup_insert_ne. by intros <-. }
  assert (∀ t', t' ∈ ts → 0 < t') as Hpos.
  { intros t' Ht'. destruct (Hin t') as (? & ? & Hj); [by right|]. apply (inv_spawned _ _ _ _ _ _ Hi) in Hj. lia. }
  set (qu1 := if decide (a = t) then [0] else qu).
  assert (end_wakes (Awaiting a k0) t (ts ++ qu) = ts ++ qu1) as Hqu1.
  { unfold end_wakes, qu1. destruct (decide (a = t)) as [->|Hne]; [|by rewrite bool_decide_eq_false_2].
    rewrite bool_decide_eq_true_2, Hqu, app_nil_r by (done || left).
    destruct (wake_schedules 0 ts) as [->|[_ [H0|H0]]]; [done| |by apply task_live in H0]. apply Hpos in H0. lia. }
  rewrite Hqu1 in E.
  destruct (IH J1 qu1 s1 (free [ptr] w) Hnd) as (J' & s' & w' & Hi' & Hwf' & Hend & E').
  { intros t' Ht'. rewrite HJ1 by done. apply Hin. by right. }
  { intros Ha. unfold qu1. rewrite decide_False by by intros ->. apply Hqu. by right. }
  { eapply jobs_inv_ext, Hi1. intros t' k' ptr' [[_ ?]|[Hne _]]%lookup_insert_Some; [done|]. unfold result_or_parked.
    destruct (decide (t' ∈ ts)); [by rewrite decide_True by by right|]. rewrite decide_False; [done|]. set_solver. }
  { done. }
  exists J', s', w'. split; [done|]. split; [done|]. split.
  - eapply tasks_ended_cons; [done|exact Ht|exact Ho| |exact Hend]. intros t' k' ptr' Ht' Hj ->. destruct Hn.
    rewrite (jobs_inv_ptr _ _ _ _ _ _ t t' k k' ptr Hi); [done|apply Hwf|done|done].
  - intros fin. cbn [length Nat.add app]. rewrite (tasks_step _ _ _ _ _ _ _ _ _ _ _ E), E'.
    unfold qu1. destruct (decide (a ∈ t :: ts)) as [Ha|Ha]; destruct (decide (a ∈ ts)) as [Ha'|Ha']; try done.
    + apply elem_of_cons in Ha as [->|?]; [|done]. by rewrite decide_True.
    + by destruct Ha; right.
    + rewrite decide_False; [done|]. intros ->. by destruct Ha; left.
Qed.

(** *** A turn of the driver *)

Definition job_result (es : list Entry) J (t : nat) : io_result Z :=
  match J !! t with Some (InFlight k _) => default (Ok 0%Z) (last (results_for k es)) | _ => Ok 0%Z end.

(** The entries are in the slots, and the tasks they wake are scheduled. *)
Lemma turn_delivers J n bs s w q d es q' d' w' :
  jobs_inv (λ _, Parked) J n bs s w → rt_wf (mkRuntime d [] q [] s) w → turn q d w = Some (es, q', d', w') →
  ∃ woken s', rt_poll kind (mkRuntime d [] q [] s) w = Done (mkRuntime d' woken q' [] s', w') ∧
    NoDup woken ∧ (∀ t, t ∈ woken ↔ ∃ k ptr, J !! t = Some (InFlight k ptr) ∧ results_for k es ≠ []) ∧
    jobs_inv (result_or_parked (job_result es J) woken) J n bs s' w' ∧ rt_wf (mkRuntime d' woken q' [] s') w'.
Proof.
  intros Hi Hwf Ht. destruct (rt_poll_turn _ _ _ _ _ _ _ s Ht (jobs_inv_live _ _ _ _ _ _ Hi))
    as (woken & s' & Ep & Hget & Hnd & Hin).
  assert (∀ t, t ∈ woken ↔ ∃ k ptr, J !! t = Some (InFlight k ptr) ∧ results_for k es ≠ []) as Hin'.
  { intros t. rewrite Hin. split.
    - intros (k & op & Hk & Hw & Hr). destruct (inv_job _ _ _ _ _ _ Hi k op Hk) as (t' & ptr & HJ).
      rewrite (inv_slot _ _ _ _ _ _ Hi t' k ptr HJ) in Hk. injection Hk as <-. cbn in Hw. injection Hw as <-. by exists k, ptr.
    - intros (k & ptr & HJ & Hr). eexists k, _. split; [by apply (inv_slot _ _ _ _ _ _ Hi t k ptr)|done]. }
  exists woken, s'. do 3 (split; [done|]). split.
  - split; try apply Hi.
    + intros t k ptr HJ. rewrite Hget, (inv_slot _ _ _ _ _ _ Hi t k ptr HJ). cbn. unfold delivered, result_or_parked, job_result.
      rewrite HJ. destruct (last (results_for k es)) as [r|] eqn:El.
      * rewrite decide_True; [done|]. apply Hin'. exists k, ptr. split; [done|]. intros Hn. by rewrite Hn in El.
      * apply last_None in El. rewrite decide_False; [done|]. rewrite Hin'. by intros (k' & ptr' & HJ' & Hr'); simplify_eq.
    + intros k op. rewrite Hget. intros (op0 & Hk & _)%fmap_Some_1. by eapply (inv_job _ _ _ _ _ _ Hi).
    + intros ptr. rewrite (turn_keeps _ _ _ _ _ _ _ Ht). apply (inv_boxes _ _ _ _ _ _ Hi).
  - pose proof (rt_poll_spec _ _ _ _ _ Hwf Ep) as (? & ? & ? & ? & ? & ? & HH). cbn in HH. tauto.
Qed.

(** When the tasks it wakes have run, the jobs are settled. *)
Lemma settle_ended es J woken w J' w' :
  (∀ t, t ∈ woken ↔ ∃ k ptr, J !! t = Some (InFlight k ptr) ∧ results_for k es ≠ []) →
  tasks_ended (job_result es J) woken J w J' w' → J' = settle es w <$> J ∧ w' = free (settled_ptrs es J) w.
Proof.
  intros Hin (Hsys & Hout & Hend & Hbox). split.
  - apply map_eq. intros t. rewrite lookup_fmap. destruct (decide (t ∈ woken)) as [Ht|Ht].
    + destruct (proj1 (Hin t) Ht) as (k & ptr & HJ & Hr). destruct (Hend t k ptr Ht HJ) as (_ & o & Ho & ->).
      unfold job_result. rewrite HJ. cbn. rewrite Ho.
      destruct (last (results_for k es)) eqn:El; [done|]. by apply last_None in El.
    + rewrite Hout by done. destruct (J !! t) as [[k ptr|]|] eqn:HJ; [|done..]. cbn.
      destruct (last (results_for k es)) eqn:El; [|done]. destruct Ht. apply Hin. exists k, ptr. split; [done|].
      intros Hn. by rewrite Hn in El.
  - destruct w' as [bs' sys']. cbn in *. unfold free. f_equal; [|done]. apply map_eq. intros ptr.
    destruct (decide (ptr ∈ settled_ptrs es J)) as [Hp|Hp].
    + rewrite lookup_foldr_delete by done. apply elem_of_settled_ptrs in Hp as (t & k & HJ & Hr).
      eapply Hend; [|done]. apply Hin. by exists k, ptr.
    + rewrite lookup_foldr_delete_not_elem_of by done. apply Hbox. intros t k Ht HJ. destruct Hp.
      apply elem_of_settled_ptrs. exists t, k. split; [done|]. apply Hin in Ht as (? & ? & ? & ?). congruence.
Qed.

(** A turn while the block awaits the job [a]: it is scheduled when the job has ended. *)
Lemma idle_turn J n bs s w q d es q' d' w' a k0 ka pa :
  jobs_inv (λ _, Parked) J n bs s w → rt_wf (mkRuntime d [] q [] s) w → turn q d w = Some (es, q', d', w') →
  J !! a = Some (InFlight ka pa) →
  let J' := settle es w' <$> J in let w'' := free (settled_ptrs es J) w' in
  ∃ s' m, jobs_inv (λ _, Parked) J' n bs s' w'' ∧ rt_wf (mkRuntime d' [] q' [] s') w'' ∧
    ∀ f, m ≤ f → after_tasks (Datatypes.S f) (Some (Done (mkRuntime d [] q [] s, w, mkBlock (Awaiting a k0) (tasks_of J) n None))) =
      after_tasks f (tasks (f - m) (mkRuntime d' (match J' !! a with Some (Ended _ _) => [0] | _ => [] end) q' [] s') w''
        (mkBlock (Awaiting a k0) (tasks_of J') n None)).
Proof.
  intros Hi Hwf Ht Ha J' w''. destruct (turn_delivers _ _ _ _ _ _ _ _ _ _ _ Hi Hwf Ht) as (woken & s1 & Ep & Hnd & Hin & Hi1 & Hwf1).
  destruct (run_ready_all (job_result es J) woken a k0 n bs q' d' J [] s1 w' Hnd) as (J1 & s' & w1 & Hi' & Hwf' & Hend & E);
    [intros t (k & ptr & HJ & _)%Hin; by eauto|done|done|by rewrite app_nil_r|].
  pose proof Hend as (_ & Hout & Hend' & _). destruct (settle_ended _ _ _ _ _ _ Hin Hend) as [-> ->]. subst J' w''.
  exists s', (length woken). split; [done|]. split; [done|]. intros f Hf. cbn [after_tasks block_result]. rewrite Ep, loop_unfold.
  rewrite app_nil_r in E. replace f with (length woken + (f - length woken)) at 2 by lia. rewrite E. f_equal. f_equal. f_equal.
  destruct (decide (a ∈ woken)) as [Hw|Hw]; [by destruct (Hend' a ka pa Hw Ha) as (_ & o & _ & ->)|by rewrite Hout, Ha].
Qed.

(** ** Running the program *)

(** [block_on] returns, with nothing left behind. *)
Definition ends (bs : gset Z) (Q : R → list (OpObject Z) → D → world → Prop)
    (x : option (outcome (R * rt_t * world * block))) : Prop :=
  ∃ a rt w u, x = Some (Done (a, rt, w, u)) ∧ Q a (unqueued_operations rt) (rt_driver rt) w ∧
    runnables rt = [] ∧ unqueued_cancels rt = [] ∧ (∀ k, slab_get k (op_runtime rt) = None) ∧ dom (boxes w) = bs.

(** It returns, or it came to a turn with a fault; if that turn panics, so does [block_on]. *)
Definition stops (fault : faults) (bs : gset Z) (Q : R → list (OpObject Z) → D → world → Prop)
    (x : option (outcome (R * rt_t * world * block))) : Prop :=
  ends bs Q x ∨ ∃ q d w, fault q d w ∧ (turn_panics q d w → x = Some Panic).

(** The block goes on with [p], and then the executor with the rest. *)
Definition go (fin fout : nat) p (n : nat) (ts : gmap nat task_state) rt w : option (outcome (R * rt_t * world * block)) :=
  after_tasks fout (match resume p n ts rt w with
                    | Done (rt, w, u) => tasks fin rt w u
                    | Panic => Some Panic
                    | Undef => Some Undef
                    end).

Lemma resume_join t k n J r o rt w :
  J !! t = Some (Ended r o) → resume (AwaitTask t k) n (tasks_of J) rt w = resume (k r o) n (tasks_of (delete t J)) rt w.
Proof. intros Ht. cbn. unfold tasks_of at 1. rewrite lookup_fmap, Ht. cbn. unfold tasks_of. by rewrite fmap_delete. Qed.

(** The block awaits a job while the driver turns. *)
Lemma block_waits fault t k n bs Q Q' J q d w :
  awaits fault t Q' J q d w →
  (∀ r o J q d w s, J !! t = Some (Ended r o) → Q' r o J q d w →
     jobs_inv (λ _, Parked) J n bs s w → rt_wf (mkRuntime d [] q [] s) w →
     ∃ N, ∀ fin fout, N ≤ fin → N ≤ fout → stops fault bs Q (go fin fout (k r o) n (tasks_of (delete t J)) (mkRuntime d [] q [] s) w)) →
  ∀ s ka pa, J !! t = Some (InFlight ka pa) → jobs_inv (λ _, Parked) J n bs s w → rt_wf (mkRuntime d [] q [] s) w →
  ∃ N, ∀ f, N ≤ f → stops fault bs Q (after_tasks f (Some (Done (mkRuntime d [] q [] s, w, mkBlock (Awaiting t k) (tasks_of J) n None)))).
Proof.
  intros Haw Hcont. induction Haw as [J q d w r o Ht HQ|J q d w k1 ptr Ht Hf|J q d w k1 ptr es q' d' w' Ht Eturn Haw IH]; intros s ka pa Hta Hi Hwf.
  { congruence. }
  { exists 1. intros [|f] Hle; [lia|]. right. exists q, d, w. split; [done|]. intros Hp. cbn [after_tasks block_result].
    by rewrite (rt_poll_panics _ _ _ _ Hp (jobs_inv_live _ _ _ _ _ _ Hi)). }
  destruct (idle_turn _ _ _ _ _ _ _ _ _ _ _ t k ka pa Hi Hwf Eturn Hta) as (s' & m & Hi' & Hwf' & E).
  set (J' := settle es w' <$> J) in *. set (w'' := free (settled_ptrs es J) w') in *.
  destruct (J' !! t) as [[k2 p2|r o]|] eqn:Ht'.
  - destruct (IH s' k2 p2 eq_refl Hi' Hwf') as [N HN]. exists (N + m + 1). intros [|f] Hf; [lia|]. rewrite E by lia.
    assert (∀ fin u, tasks fin (mkRuntime d' [] q' [] s') w'' u = Some (Done (mkRuntime d' [] q' [] s', w'', u))) as ->
      by by intros [].
    apply HN. lia.
  - assert (Q' r o J' q' d' w'') as HQ by (inversion Haw; subst; congruence).
    destruct (Hcont r o J' q' d' w'' s' Ht' HQ Hi' Hwf') as [N HN].
    exists (N + m + 2). intros [|f] Hf; [lia|]. rewrite E by lia. replace (f - m) with (Datatypes.S (f - m - 1)) by lia.
    cbn [run_tasks runnables]. unfold set_runnables. cbn [rt_driver unqueued_operations unqueued_cancels op_runtime].
    unfold run_block at 1. rewrite bool_decide_eq_true_2 by done. cbn [block_stage spawned block_tasks].
    rewrite (resume_join t k n J' r o) by done. apply HN; lia.
  - exfalso. unfold J' in Ht'. by rewrite lookup_fmap, Hta in Ht'.
Qed.

(** Submitting an operation. *)
Lemma submit_job o key d s w q n d1 w1 s1 r J bs ts :
  jobs_inv (fresh_or_parked ts) J n bs s w → (∀ t, t ∈ ts → ∃ k ptr, J !! t = Some (InFlight k ptr)) →
  rt_wf (mkRuntime d ts q [] s) w →
  slab_insert (RegisteredOp_new (Some (box_addr w))) s = Done (key, s1) →
  ci_try_push_dyn (OpObject_new (box_addr w) key) d (mkWorld (<[box_addr w := o]> (boxes w)) (sys w)) = Done (r, d1, w1) →
  let rt' := mkRuntime d1 (ts ++ [Datatypes.S n]) (match r with Ok _ => q | Err o => q ++ [o] end) [] s1 in
  rt_submit (Datatypes.S n) o (mkRuntime d ts q [] s) w = Done (Key_new key, rt', w1) ∧ rt_wf rt' w1 ∧
  jobs_inv (fresh_or_parked (ts ++ [Datatypes.S n])) (<[Datatypes.S n := InFlight key (box_addr w)]> J) (Datatypes.S n) bs s1 w1.
Proof.
  intros Hi Hts Hwf Ei Ep rt'.
  assert (rt_submit (Datatypes.S n) o (mkRuntime d ts q [] s) w = Done (Key_new key, rt', w1)) as Es.
  { unfold rt_submit, Runtime.insert. cbn. rewrite Ei. simpl_outcome. by rewrite Ep. }
  split; [done|]. split; [pose proof (rt_submit_spec _ _ _ _ _ _ _ Hwf Es) as Hsub; cbn in Hsub; tauto|].
  pose proof (slab_insert_fresh _ _ _ _ Ei) as [_ Hfresh].
  assert (dom (boxes w1) = {[box_addr w]} ∪ dom (boxes w)) as Hdom.
  { rewrite (push_keeps_boxes _ _ _ _ _ _ Ep). cbn. by rewrite dom_insert_L. }
  assert (box_addr w ∉ dom (boxes w)) as Hptr by (apply not_elem_of_dom, box_addr_fresh).
  assert (∀ t k ptr, <[Datatypes.S n := InFlight key (box_addr w)]> J !! t = Some (InFlight k ptr) ↔
    (t = Datatypes.S n ∧ k = key ∧ ptr = box_addr w) ∨ (t ≠ Datatypes.S n ∧ k ≠ key ∧ J !! t = Some (InFlight k ptr))) as HJ.
  { intros t k ptr. rewrite lookup_insert_Some. split; [|naive_solver].
    intros [[<- [= <- <-]]|[Hne HJ]]; [by left|right]. split; [done|]. split; [|done]. intros ->.
    rewrite (inv_slot _ _ _ _ _ _ Hi t key ptr HJ) in Hfresh. done. }
  assert (∀ t j, J !! t = Some j → t ≠ Datatypes.S n) as Hn.
  { intros t j Hj ->. apply (inv_spawned _ _ _ _ _ _ Hi) in Hj. lia. }
  split.
  - intros t k ptr [(-> & -> & ->)|(Hne & Hk & Hj)]%HJ; rewrite (slab_insert_get _ _ _ _ _ Ei).
    + rewrite bool_decide_eq_true_2 by done. unfold fresh_or_parked. by rewrite decide_True by set_solver.
    + rewrite bool_decide_eq_false_2 by done. rewrite (inv_slot _ _ _ _ _ _ Hi t k ptr Hj). unfold fresh_or_parked.
      destruct (decide (t ∈ ts)); [by rewrite decide_True by set_solver|]. by rewrite decide_False by set_solver.
  - intros k op. rewrite (slab_insert_get _ _ _ _ _ Ei). setoid_rewrite HJ. case_bool_decide; [by eauto 10|].
    intros (t & ptr & Hj)%(inv_job _ _ _ _ _ _ Hi). exists t, ptr. right. split; [by eapply Hn|done].
  - intros t t' k p p'. rewrite !HJ. intros [(-> & -> & _)|(_ & Hk & Hj)] [(-> & ? & _)|(_ & ? & Hj')]; try done.
    by eapply (inv_key _ _ _ _ _ _ Hi).
  - intros ptr. rewrite Hdom, elem_of_union, elem_of_singleton, (inv_boxes _ _ _ _ _ _ Hi). setoid_rewrite HJ. split.
    + intros [->|[?|(t & k & Hj)]]; [right; by eauto 10|by left|right]. exists t, k. right. split; [by eapply Hn|].
      split; [|done]. intros ->. rewrite (inv_slot _ _ _ _ _ _ Hi t key ptr Hj) in Hfresh. done.
    + intros [?|(t & k & [(_ & _ & ->)|(_ & _ & Hj)])]; [right; by left|by left|right; right; by eauto].
  - intros t k ptr [(-> & -> & ->)|(_ & _ & Hj)]%HJ; [|by eapply (inv_own _ _ _ _ _ _ Hi)].
    intros Hbs. destruct Hptr. apply (inv_boxes _ _ _ _ _ _ Hi). by left.
  - intros t j [[<- _]|[_ Hj]]%lookup_insert_Some; [lia|]. apply (inv_spawned _ _ _ _ _ _ Hi) in Hj. lia.
Qed.

Context `{!SlabKeys}.

Lemma block_runs fault p Q bs : ∀ n J q d w s ts,
  NoDup ts → (∀ t, t ∈ ts → ∃ k ptr, J !! t = Some (InFlight k ptr)) →
  jobs_inv (fresh_or_parked ts) J n bs s w → rt_wf (mkRuntime d ts q [] s) w → completes fault p n J q d w Q →
  ∃ N, ∀ fin fout, N ≤ fin → N ≤ fout → stops fault bs Q (go fin fout p n (tasks_of J) (mkRuntime d ts q [] s) w).
Proof.
  induction p as [a|o k IH|t k IH|fd k IH]; intros n J q d w s ts Hnd Hts Hi Hwf Hp.
  - destruct Hp as [-> HQ]. exists 0. intros fin fout _ _.
    assert (ts = []) as ->. { destruct ts as [|t ts]; [done|]. destruct (Hts t) as (? & ? & ?); [left|done]. }
    assert (go fin fout (Return a) n (tasks_of ∅) (mkRuntime d [] q [] s) w =
      Some (Done (a, mkRuntime d [] q [] s, w, mkBlock Over (tasks_of ∅) n (Some a)))) as -> by by destruct fin.
    left. eexists _, _, _, _. split; [reflexivity|]. do 3 (split; [done|]). split.
    + intros k. apply (jobs_inv_used _ _ _ _ _ _ Hi). rewrite elem_of_used_keys. by intros (? & ? & ?).
    + apply set_eq. intros ptr. rewrite (inv_boxes _ _ _ _ _ _ Hi). split; [|by left]. by intros [?|(? & ? & ?)].
  - destruct Hp as [Hroom Hp]. destruct (slab_insert_keys (RegisteredOp_new (Some (box_addr w))) s (used_keys J)
      (jobs_inv_used _ _ _ _ _ _ Hi) Hroom) as (key & s1 & Ei & Hkey).
    destruct (Hp key Hkey) as (r & d1 & w1 & Ep & Hk).
    destruct (submit_job o key d s w q n d1 w1 s1 r J bs ts Hi Hts Hwf Ei Ep) as (Es & Hwf1 & Hi1).
    assert (Datatypes.S n ∉ ts) as Hn.
    { intros (? & ? & Hj)%Hts. apply (inv_spawned _ _ _ _ _ _ Hi) in Hj. lia. }
    edestruct (IH (Datatypes.S n)) as [N HN]; [| |exact Hi1|exact Hwf1|exact Hk|].
    { apply NoDup_app. split; [done|]. split; [set_solver|apply NoDup_singleton]. }
    { intros t [Ht| ->%list_elem_of_singleton]%elem_of_app; [|rewrite lookup_insert_eq; by eauto].
      rewrite lookup_insert_ne by by intros <-. by apply Hts. }
    exists N. intros fin fout Hfin Hfout. unfold go. cbn [resume]. rewrite Es. cbn [mbind outcome_bind].
    specialize (HN fin fout Hfin Hfout). unfold go in HN. unfold tasks_of in HN |- *. by rewrite fmap_insert in HN.
  - destruct (J !! t) as [[ka pa|r o]|] eqn:Ht.
    + destruct (run_fresh_all ts J n bs q d w (Awaiting t k) s Hnd Hts Hi Hwf) as (s' & Hi' & Hwf' & E).
      destruct (block_waits fault t k n bs Q _ _ _ _ _ Hp) with (s := s') (ka := ka) (pa := pa) as [N HN]; [|done..|].
      { intros r o J1 q1 d1 w1 s2 Hj HQ Hi1 Hwf1. apply IH; [constructor|by intros ? ?%elem_of_nil| |done|done].
        eapply jobs_inv_join in Hi1; [|done]. eapply jobs_inv_ext, Hi1. done. }
      exists (N + length ts). intros fin fout Hfin Hfout. unfold go. cbn [resume]. rewrite (tasks_of_lookup _ _ _ _ Ht).
      replace fin with (length ts + (fin - length ts)) by lia. rewrite E.
      destruct (fin - length ts); apply HN; lia.
    + assert (completes fault (k r o) n (delete t J) q d w Q) as Hk by (inversion Hp; subst; congruence).
      edestruct (IH r o n (delete t J) q d w s ts Hnd) as [N HN]; [|by eapply jobs_inv_join|done|done|].
      { intros t' Ht'. destruct (Hts t' Ht') as (k' & ptr & Hj). exists k', ptr. rewrite lookup_delete_ne; [done|congruence]. }
      exists N. intros fin fout Hfin Hfout. unfold go. rewrite (resume_join t k n J r o) by done. by apply HN.
    + inversion Hp; congruence.
  - cbn [completes] in Hp. destruct (ci_attach fd d w) as [[r d1] w1] eqn:Ea.
    destruct (attach_keeps_boxes _ _ _ _ _ _ Ea) as [Hb Hd]. destruct (IH r n J q d1 w1 s ts Hnd Hts) as [N HN]; [|..|exact Hp|].
    { destruct Hi. split; try rewrite Hb; done. }
    { destruct Hwf as (? & ? & ?). split_and!; cbn; rewrite ?Hb; [by apply Hd|done|done]. }
    exists N. intros fin fout Hfin Hfout. unfold go. cbn [resume]. unfold rt_attach. cbn. rewrite Ea. by apply HN.
Qed.

Lemma block_on_stops fault p Q (d : D) w :
  sq_wf d → completes fault p 0 ∅ [] d w Q →
  ∃ N, ∀ fuel, N ≤ fuel → stops fault (dom (boxes w)) Q
    (task_block_on run_block block_result kind fuel 0 None (Ok d) w (mkBlock (At p) ∅ 0 None)).
Proof.
  intros Hd Hp. destruct (block_runs fault p Q (dom (boxes w)) 0 ∅ [] d w slab_empty [])
    as [N HN]; [constructor|by intros ? ?%elem_of_nil| |by apply rt_wf_init|done|].
  { split; try done.
    - intros k op. by rewrite slab_empty_get.
    - intros ptr. split; [by left|]. by intros [?|(? & ? & ?)]. }
  exists (N + 1). intros [|fuel] Hf; [lia|]. unfold task_block_on, RUNTIME_with, Runtime_new, block_on. cbn [result_map].
  rewrite loop_unfold. unfold spawn_unchecked, set_runnables. cbn [runnables app rt_driver unqueued_operations unqueued_cancels op_runtime].
  cbn [run_tasks runnables]. unfold set_runnables. cbn [rt_driver unqueued_operations unqueued_cancels op_runtime].
  unfold run_block at 1. rewrite bool_decide_eq_true_2 by done. cbn [block_stage spawned block_tasks].
  apply (HN fuel (Datatypes.S fuel)); lia.
Qed.

Lemma block_on_ends' p Q (d : D) w :
  sq_wf d → completes no_fault p 0 ∅ [] d w Q →
  ∃ N, ∀ fuel, N ≤ fuel → ∃ a rt w' u,
    task_block_on run_block block_result kind fuel 0 None (Ok d) w (mkBlock (At p) ∅ 0 None) =
      Some (Done (a, rt, w', u)) ∧
    Q a (unqueued_operations rt) (rt_driver rt) w' ∧ runnables rt = [] ∧ unqueued_cancels rt = [] ∧
    (∀ k, slab_get k (op_runtime rt) = None) ∧ dom (boxes w') = dom (boxes w).
Proof.
  intros Hd Hp. destruct (block_on_stops _ p Q d w Hd Hp) as [N HN]. exists N. intros fuel Hf.
  by destruct (HN fuel Hf) as [He|(? & ? & ? & [] & _)].
Qed.

(** C3 [block_on] runs a program to its end, whatever operations it has in flight: on a driver that, read
    directly, ends every operation the program awaits after finitely many turns, the executor
    returns what the program returns there, with the driver and the system in the same state; no
    wake-up is lost, whatever order the entries come in and whether the program awaits an operation
    before or after it has ended; and when it returns the run queue is empty, every slot is vacant
    and every box of an operation has been freed. *)
Theorem block_on_completes p Q (d : D) w :
  sq_wf d → completes no_fault p 0 ∅ [] d w Q →
  ∃ N, ∀ fuel, N ≤ fuel → ∃ a rt w' u,
    task_block_on run_block block_result kind fuel 0 None (Ok d) w (mkBlock (At p) ∅ 0 None) =
      Some (Done (a, rt, w', u)) ∧
    Q a (unqueued_operations rt) (rt_driver rt) w' ∧ runnables rt = [] ∧ unqueued_cancels rt = [] ∧
    (∀ k, slab_get k (op_runtime rt) = None) ∧ dom (boxes w') = dom (boxes w).
Proof. apply block_on_ends'. Qed.
End executor.
