(* ===== verification/ExecutorLive.v ===== *)
(** * Programs end on a driver that serves

    A driver serves when it accepts the operations it has room for and, while
    it holds any, emits an entry within finitely many turns ([DriverServes]).
    On such a driver every program that awaits each operation it submits, once,
    and has no more in flight than the driver holds, ends under [block_on],
    unless the driver comes to a turn with a fault: what the faults are, the
    driver says in terms of its system. *)

From S2P Require Import Prelude Driver Attacher Runtime RuntimeSpec Executor.
From stdpp Require Import base numbers list gmap.

(** ** Programs that await what they submit *)

(** [live] are the tasks that were spawned and not yet awaited, [n] how many were spawned; the
    operations submitted satisfy [op_ok]. *)
Fixpoint awaits_all {Op Fd R} (op_ok : Op → Prop) (cap : nat) (p : async Op Fd R) (live : gset nat) (n : nat) : Prop :=
  match p with
  | Return _ => live = ∅
  | Spawn o k => op_ok o ∧ size live < cap ∧ awaits_all op_ok cap (k (S n)) ({[S n]} ∪ live) (S n)
  | AwaitTask t k => t ∈ live ∧ ∀ r o, awaits_all op_ok cap (k r o) (live ∖ {[t]}) n
  | AttachFd fd k => ∀ r, awaits_all op_ok cap (k r) live n
  end.

Definition entry_keys (es : list Entry) : gset Z := list_to_set (entry_user_data <$> es).

Lemma entry_keys_results es k : k ∈ entry_keys es ↔ results_for k es ≠ [].
Proof.
  unfold entry_keys, results_for. rewrite elem_of_list_to_set, list_elem_of_fmap. split.
  - intros (e & -> & He) Hn. apply fmap_nil_inv in Hn. assert (e ∈ filter (λ e', entry_user_data e' = entry_user_data e) es) as Hf
      by by apply list_elem_of_filter. rewrite Hn in Hf. by apply elem_of_nil in Hf.
  - intros Hn. destruct (filter (λ e, entry_user_data e = k) es) as [|e l] eqn:E; [done|].
    assert (e ∈ filter (λ e, entry_user_data e = k) es) as [<- He]%list_elem_of_filter by (rewrite E; left). by exists e.
Qed.

Section live.
Context {Op W S D Fd R : Type} `{!AsyncTask, !Slab S, !SlabLaws S, !BoxAlloc Op W, !BoxAllocLaws Op W,
  !CompleteIo Z (World Op W) D Fd, !CompleteIoSpec Z (World Op W) D Fd, !BoxesKept (Op := Op) (W := W) (D := D) (Fd := Fd)}.
Context (kind : io_error → ErrorKind).
Notation world := (World Op W).
Implicit Types (w : world) (d : D) (p : async Op Fd R) (J : gmap nat (job Op)).

(** [out d] are the keys of the operations the driver holds, [cap d] how many it has room for; [ok] is
    kept by the driver, and [op_ok] says that an operation can be started.  A turn has a [fault], or
    succeeds; then, if it emits nothing the driver held, it brings its state and that of the system
    down in a well-founded order. *)
Class DriverServes {A} (lt : relation A) (fault : D → world → Prop) (op_ok : Op → Prop) (ok : D → world → Prop) (out : D → gset Z) (cap : D → nat)
    (rank : D → W → A) : Prop := {
  serves_wf : well_founded lt;
  serves_push o d w x : sq_wf d → ok d w → is_usize (user_data o) → user_data o ≠ usize_MAX → user_data o ∉ out d →
    boxes w !! op o = None → op_ok x → size (out d) < cap d →
    ∃ d' w', ci_try_push_dyn o d (mkWorld (<[op o := x]> (boxes w)) (sys w)) = Done (Ok tt, d', w') ∧
      ok d' w' ∧ out d' = {[user_data o]} ∪ out d ∧ cap d' = cap d;
  serves_turn d w : sq_wf d → ok d w → out d ≠ ∅ → fault d w ∨
    ∃ es d' w', turn kind [] d w = Some (es, [], d', w') ∧ (∀ ptrs, ok d' (free ptrs w')) ∧
      out d' = out d ∖ entry_keys es ∧ cap d' = cap d ∧ (entry_keys es ## out d → lt (rank d' (sys w')) (rank d (sys w)));
  serves_attach fd d w r d' w' : sq_wf d → ok d w → ci_attach fd d w = (r, d', w') → ok d' w' ∧ out d' = out d ∧ cap d' = cap d;
}.

Context {A} (lt : relation A) (fault : D → world → Prop) (op_ok : Op → Prop) (ok : D → world → Prop) (out : D → gset Z) (cap : D → nat)
  (rank : D → W → A) `{!DriverServes lt fault op_ok ok out cap rank}.

(** The jobs in flight are what the driver holds, each in a box of its own. *)
Record live_inv J (live : gset nat) (n c : nat) d w : Prop := {
  li_wf : sq_wf d;
  li_ok : ok d w;
  li_cap : cap d = c;
  li_live : dom J = live;
  li_spawned t : t ∈ live → t ≤ n;
  li_out : used_keys J = out d;
  li_box t k ptr : J !! t = Some (InFlight k ptr) → is_Some (boxes w !! ptr);
  li_ptr t t' k k' ptr : J !! t = Some (InFlight k ptr) → J !! t' = Some (InFlight k' ptr) → t = t';
  li_key t t' k ptr ptr' : J !! t = Some (InFlight k ptr) → J !! t' = Some (InFlight k ptr') → t = t';
}.

Lemma settle_in_flight es w J t k ptr :
  (∀ t k ptr, J !! t = Some (InFlight k ptr) → is_Some (boxes w !! ptr)) →
  (settle es w <$> J) !! t = Some (InFlight k ptr) ↔ J !! t = Some (InFlight k ptr) ∧ k ∉ entry_keys es.
Proof.
  intros Hbox. rewrite lookup_fmap, entry_keys_results. split.
  - intros (j & Hj & Hs)%fmap_Some_1. destruct j as [k' ptr'|]; [|done]. cbn in Hs. destruct (Hbox t k' ptr' Hj) as [o Ho].
    rewrite Ho in Hs. destruct (last (results_for k' es)) eqn:El; [done|]. injection Hs as -> ->. apply last_None in El. by split; [|intros []].
  - intros [Hj Hk]. rewrite Hj. cbn. destruct (last (results_for k es)) eqn:El; [|done].
    destruct Hk. intros Hn. by rewrite Hn in El.
Qed.

Lemma live_turn J live n c d w es d' w' :
  live_inv J live n c d w → turn kind [] d w = Some (es, [], d', w') → out d' = out d ∖ entry_keys es → cap d' = cap d → sq_wf d' →
  (∀ ptrs, ok d' (free ptrs w')) →
  live_inv (settle es w' <$> J) live n c d' (free (settled_ptrs es J) w').
Proof.
  intros Hi Et Hout Hcap Hwf Hok. pose proof (turn_keeps _ _ _ _ _ _ _ _ Et) as Hdom.
  assert (∀ t k ptr, J !! t = Some (InFlight k ptr) → is_Some (boxes w' !! ptr)) as Hbox.
  { intros t k ptr Hj%(li_box _ _ _ _ _ _ Hi). apply elem_of_dom. rewrite Hdom. by apply elem_of_dom. }
  split; try apply Hi; try done.
  - by rewrite Hcap; apply Hi.
  - rewrite dom_fmap_L. apply Hi.
  - rewrite Hout, <- (li_out _ _ _ _ _ _ Hi). apply set_eq. intros k. rewrite elem_of_difference, !elem_of_used_keys.
    setoid_rewrite (λ t ptr, settle_in_flight es w' J t k ptr Hbox). naive_solver.
  - intros t k ptr [Hj Hk]%(settle_in_flight es w' J t k ptr Hbox). cbn. rewrite lookup_foldr_delete_not_elem_of; [by eapply Hbox|].
    intros (t' & k' & Hj' & Hr)%elem_of_settled_ptrs. assert (t' = t) as -> by by eapply (li_ptr _ _ _ _ _ _ Hi).
    rewrite Hj in Hj'. injection Hj' as <-. by apply Hk, entry_keys_results.
  - intros t t' k k' ptr [Hj _]%(settle_in_flight es w' J t k ptr Hbox) [Hj' _]%(settle_in_flight es w' J t' k' ptr Hbox).
    by eapply (li_ptr _ _ _ _ _ _ Hi).
  - intros t t' k ptr ptr' [Hj _]%(settle_in_flight es w' J t k ptr Hbox) [Hj' _]%(settle_in_flight es w' J t' k ptr' Hbox).
    by eapply (li_key _ _ _ _ _ _ Hi).
Qed.

Lemma turn_wf q d w es q' d' w' : sq_wf d → Forall (λ o, is_usize (user_data o)) q →
  turn kind q d w = Some (es, q', d', w') → sq_wf d'.
Proof.
  intros Hwf Hq. unfold turn. destruct (ci_push_queue q d w) as [[[q1 d1] w1]| |] eqn:Ep; [|done..].
  pose proof (sq_push_queue _ _ _ _ _ _ Hwf Hq Ep) as (Hwf1 & _).
  destruct (ci_submit _ d1 w1) as [[[[es1 r] d2] w2]| |] eqn:Es; [|done..]. intros Ht.
  assert (d2 = d') as <- by (destruct r; [by simplify_eq|]; case_bool_decide; by simplify_eq).
  by eapply sq_submit.
Qed.

(** What a slab may give: a key that is not in use; the keys of a slab are the indices of a vector, so
    that [usize::MAX] is none. *)
Definition fresh_keys (used : gset Z) (k : Z) : Prop := is_usize k ∧ k ≠ usize_MAX ∧ k ∉ used.

(** [reached] holds of the states with a fault that the program comes to. *)
Definition reaches (reached : D → world → Prop) p n J d w : Prop :=
  ∀ d' w', comes_to kind fresh_keys p n J [] d w [] d' w' → fault d' w' → reached d' w'.
Definition at_fault (reached : D → world → Prop) : list (OpObject Z) → D → world → Prop := λ q d w, q = [] ∧ reached d w.

(** Awaiting a live task ends. *)
Lemma live_awaits reached t k0 (Q : io_result Z → Op → gmap nat (job Op) → list (OpObject Z) → D → world → Prop) live n c :
  (∀ r o J d w, J !! t = Some (Ended r o) → live_inv J live n c d w → reaches reached (AwaitTask t k0) n J d w → Q r o J [] d w) →
  ∀ m rk J d w, size (out d) ≤ m → rank d (sys w) = rk → t ∈ live → live_inv J live n c d w →
    reaches reached (AwaitTask t k0) n J d w → awaits kind (at_fault reached) t Q J [] d w.
Proof.
  intros HQ m. induction m as [|m IHm]; intros rk; induction rk as [rk IHrk] using (well_founded_ind serves_wf); intros J d w Hm Hrk Ht Hi Hre.
  all: assert (is_Some (J !! t)) as [[k ptr|r o] Hj] by (apply elem_of_dom; by rewrite (li_live _ _ _ _ _ _ Hi));
    [|by eapply awaits_ended; [|apply HQ]].
  all: assert (k ∈ out d) as Hk by (rewrite <- (li_out _ _ _ _ _ _ Hi); apply elem_of_used_keys; by eauto).
  { exfalso. assert (size (out d) = 0) as H0 by lia. apply size_empty_inv in H0. set_solver. }
  destruct (serves_turn d w (li_wf _ _ _ _ _ _ Hi) (li_ok _ _ _ _ _ _ Hi)) as [Hf|(es & d' & w' & Et & Hok & Hout & Hcap & Hrank)]; [set_solver| |].
  { eapply awaits_fault; [done|]. split; [done|]. apply Hre; [by eapply comes_here|done]. }
  pose proof (live_turn _ _ _ _ _ _ _ _ _ Hi Et Hout Hcap (turn_wf _ _ _ _ _ _ _ (li_wf _ _ _ _ _ _ Hi) (Forall_nil_2 _) Et) Hok) as Hi'.
  assert (reaches reached (AwaitTask t k0) n (settle es w' <$> J) d' (free (settled_ptrs es J) w')) as Hre'.
  { intros d2 w2 Hc. apply Hre. by eapply comes_turn. }
  eapply awaits_turn; [done|exact Et|]. destruct (decide (entry_keys es ## out d)) as [He|He].
  - specialize (Hrank He). subst rk. apply (IHrk _ Hrank); [rewrite Hout, difference_disjoint_L by done; lia|done|done|done|done].
  - eapply IHm; [|reflexivity|done|done|done]. assert (size (out d') < size (out d)); [|lia].
    rewrite Hout. apply subset_size. set_solver.
Qed.

Lemma live_join J live n c d w t r o :
  live_inv J live n c d w → J !! t = Some (Ended r o) → live_inv (delete t J) (live ∖ {[t]}) n c d w.
Proof.
  intros Hi Ht. assert (∀ t' k ptr, delete t J !! t' = Some (InFlight k ptr) ↔ J !! t' = Some (InFlight k ptr)) as Hd.
  { intros t' k ptr. rewrite lookup_delete_Some. split; [tauto|]. intros HJ. split; [congruence|done]. }
  split; try setoid_rewrite Hd; try apply Hi.
  - by rewrite dom_delete_L, (li_live _ _ _ _ _ _ Hi).
  - intros t' Ht'. apply (li_spawned _ _ _ _ _ _ Hi). set_solver.
  - rewrite <- (li_out _ _ _ _ _ _ Hi). apply set_eq. intros k. rewrite !elem_of_used_keys. by setoid_rewrite Hd.
Qed.

Lemma used_keys_size J : size (used_keys J) ≤ size (dom J).
Proof.
  unfold used_keys. rewrite size_dom, size_list_to_set_le, length_omap_le. by rewrite length_fmap, length_map_to_list.
Qed.

Lemma live_spawn J live n c d w key o d1 w1 :
  live_inv J live n c d w → fresh_keys (used_keys J) key →
  ci_try_push_dyn (OpObject_new (box_addr w) key) d (mkWorld (<[box_addr w := o]> (boxes w)) (sys w)) = Done (Ok tt, d1, w1) →
  ok d1 w1 → out d1 = {[key]} ∪ out d → cap d1 = cap d →
  live_inv (<[Datatypes.S n := InFlight key (box_addr w)]> J) ({[Datatypes.S n]} ∪ live) (Datatypes.S n) c d1 w1.
Proof.
  intros Hi (Hus & _ & Hfresh) Ep Hok Hout Hcap.
  assert (dom (boxes w1) = {[box_addr w]} ∪ dom (boxes w)) as Hdom.
  { rewrite (push_keeps_boxes _ _ _ _ _ _ Ep). cbn. by rewrite dom_insert_L. }
  assert (boxes w !! box_addr w = None) as Hptr by apply box_addr_fresh.
  assert (∀ t k ptr, <[Datatypes.S n := InFlight key (box_addr w)]> J !! t = Some (InFlight k ptr) →
    (t = Datatypes.S n ∧ k = key ∧ ptr = box_addr w) ∨ (t ≠ Datatypes.S n ∧ k ≠ key ∧ ptr ≠ box_addr w ∧ J !! t = Some (InFlight k ptr))) as HJ.
  { intros t k ptr [[<- [= <- <-]]|[Hne Hj]]%lookup_insert_Some; [by left|right]. split; [done|]. split; [|split; [|done]].
    - intros ->. destruct Hfresh. apply elem_of_used_keys. by eauto.
    - intros ->. apply (li_box _ _ _ _ _ _ Hi) in Hj as [? ?]. congruence. }
  assert (J !! Datatypes.S n = None) as Hn.
  { apply not_elem_of_dom. rewrite (li_live _ _ _ _ _ _ Hi). intros Hl%(li_spawned _ _ _ _ _ _ Hi). lia. }
  pose proof (sq_push (OpObject_new (box_addr w) key) _ _ _ _ _ (li_wf _ _ _ _ _ _ Hi) Hus Ep) as [Hwf _]. split; [done|done|..].
  - by rewrite Hcap; apply Hi.
  - by rewrite dom_insert_L, (li_live _ _ _ _ _ _ Hi).
  - intros t [->%elem_of_singleton|Ht%(li_spawned _ _ _ _ _ _ Hi)]%elem_of_union; lia.
  - rewrite Hout, <- (li_out _ _ _ _ _ _ Hi). apply set_eq. intros k. rewrite elem_of_union, elem_of_singleton, !elem_of_used_keys. split.
    + intros (t & ptr & [(_ & -> & _)|(_ & _ & _ & Hj)]%HJ); [by left|right; by eauto].
    + intros [->|(t & ptr & Hj)]; [exists (Datatypes.S n), (box_addr w); apply lookup_insert_eq|].
      exists t, ptr. rewrite lookup_insert_ne; [done|]. intros <-. congruence.
  - intros t k ptr Hj%HJ. apply elem_of_dom. rewrite Hdom. destruct Hj as [(_ & _ & ->)|(_ & _ & _ & Hj)]; [set_solver|].
    apply elem_of_union_r, elem_of_dom. by apply (li_box _ _ _ _ _ _ Hi) in Hj.
  - intros t t' k k' ptr [(-> & _ & ->)|(_ & _ & Hp & Hj)]%HJ [(-> & _ & ?)|(_ & _ & ? & Hj')]%HJ; try done. by eapply (li_ptr _ _ _ _ _ _ Hi).
  - intros t t' k ptr ptr' [(-> & -> & _)|(_ & Hk & _ & Hj)]%HJ [(-> & ? & _)|(_ & ? & _ & Hj')]%HJ; try done. by eapply (li_key _ _ _ _ _ _ Hi).
Qed.

(** On a driver that serves, the direct reading of the program ends. *)
Lemma live_completes reached c p : (Z.of_nat c ≤ usize_MAX)%Z → ∀ n live J d w,
  live_inv J live n c d w → awaits_all op_ok c p live n → reaches reached p n J d w →
  completes kind fresh_keys (at_fault reached) p n J [] d w (λ _ _ _ _, True).
Proof.
  intros Hc. induction p as [a|o k IH|t k IH|fd k IH]; intros n live J d w Hi Hp Hre.
  - split; [|done]. apply dom_empty_inv_L. by rewrite (li_live _ _ _ _ _ _ Hi).
  - destruct Hp as (Hop & Hroom & Hp). pose proof (used_keys_size J) as Hsz. rewrite (li_live _ _ _ _ _ _ Hi) in Hsz.
    split; [lia|]. intros key Hkey.
    destruct (serves_push (OpObject_new (box_addr w) key) d w o)
      as (d1 & w1 & Ep & Hok & Hout & Hcap); cbn; try apply Hi; try apply Hkey; try done.
    + rewrite <- (li_out _ _ _ _ _ _ Hi). apply Hkey.
    + apply box_addr_fresh.
    + rewrite <- (li_out _ _ _ _ _ _ Hi), (li_cap _ _ _ _ _ _ Hi). lia.
    + exists (Ok tt), d1, w1. split; [done|]. eapply IH; [|exact Hp|]; [by eapply live_spawn|].
      intros d2 w2 Hct. apply Hre. by eapply comes_spawn.
  - destruct Hp as [Ht Hp]. eapply (live_awaits reached t k _ live n c); [|reflexivity|reflexivity|done|done|done].
    intros r o J1 d1 w1 Hj Hi1 Hre1. eapply IH; [|apply Hp|]; [by eapply live_join|].
    intros d2 w2 Hct. apply Hre1. by eapply comes_join.
  - cbn. destruct (ci_attach fd d w) as [[r d1] w1] eqn:Ea. apply (IH r n live); [|apply Hp|intros d2 w2 Hct; apply Hre; by eapply comes_attach].
    destruct (attach_keeps_boxes _ _ _ _ _ _ Ea) as [Hb Hd]. destruct (serves_attach _ _ _ _ _ _ (li_wf _ _ _ _ _ _ Hi) (li_ok _ _ _ _ _ _ Hi) Ea) as (Hok & Hout & Hcap).
    destruct Hi. split; rewrite ?Hb, ?Hout, ?Hcap; auto.
Qed.

(** The slab does not panic before the keys are used up, and [usize::MAX] is not a key. *)
Class SlabRoom : Prop := slab_room r (s : S) (used : gset Z) :
  (∀ k, slab_get k s = None ↔ k ∉ used) → (Z.of_nat (size used) < usize_MAX)%Z → ∃ k s', slab_insert r s = Done (k, s') ∧ k ≠ usize_MAX.
Context `{!SlabRoom} (task_live : ∀ t, ¬ task_completed t).

#[global] Instance fresh_SlabKeys : SlabKeys (S := S) fresh_keys.
Proof.
  intros r s used Hs Hu. destruct (slab_room r s used Hs Hu) as (k & s' & E & Hne). exists k, s'. split; [done|].
  apply slab_insert_fresh in E as [? ?]. split_and!; [done|done|by apply Hs].
Qed.

Lemma block_on_ends p d w :
  sq_wf d → ok d w → out d = ∅ → (Z.of_nat (cap d) ≤ usize_MAX)%Z → awaits_all op_ok (cap d) p ∅ 0 →
  ∃ N, ∀ fuel, N ≤ fuel →
    let x := task_block_on run_block block_result kind fuel 0 None (Ok d) w (mkBlock (At p) ∅ 0 None) in
    (∃ a rt w' u, x = Some (Done (a, rt, w', u)) ∧ runnables rt = [] ∧ unqueued_cancels rt = [] ∧
       (∀ k, slab_get k (op_runtime rt) = None) ∧ dom (boxes w') = dom (boxes w)) ∨
    ∃ d' w', comes_to kind fresh_keys p 0 ∅ [] d w [] d' w' ∧ fault d' w' ∧ (turn_panics kind [] d' w' → x = Some Panic).
Proof.
  intros Hd Hok Ho Hc Hp.
  set (reached := λ d' w', comes_to kind fresh_keys p 0 ∅ [] d w [] d' w' ∧ fault d' w').
  destruct (block_on_stops kind fresh_keys task_live (at_fault reached) p (λ _ _ _ _, True) d w Hd) as [N HN].
  - eapply (live_completes reached (cap d)); [done| |exact Hp|by intros ???]. by split.
  - exists N. intros fuel Hf. destruct (HN fuel Hf) as [(a & rt & w' & u & ? & _ & ?)|(q & d' & w' & (-> & ? & ?) & ?)].
    + left. by exists a, rt, w', u.
    + right. by exists d', w'.
Qed.
End live.
