(* ===== verification/AsyncFn.v ===== *)
(** * Asynchronous functions on the executor

    An asynchronous function of the crate awaits each operation where it
    submits it.  [prog] is such a function: it returns, attaches a descriptor,
    or submits an operation and goes on with its result and the operation it
    gets back.  [exec] reads it directly, on the interface [Await] through
    which the handles of the crate are modelled; [async_of] is the [async]
    block that the executor runs.  On a driver that does with one operation
    what [Await] says ([DriverAwaits]) [block_on] returns what [exec] returns:
    what is proved of a function against the interface holds under the
    executor. *)

From S2P Require Import Prelude Driver Attacher Runtime RuntimeSpec Executor ExecutorLive.
From stdpp Require Import base numbers list gmap.

Inductive prog (Op Fd R : Type) : Type :=
| Ret (a : R)
| Submit (o : Op) (k : io_result Z → Op → prog Op Fd R)
| Attach (fd : Z) (k : io_result Fd → prog Op Fd R).
Arguments Ret {Op Fd R} a.
Arguments Submit {Op Fd R} o k.
Arguments Attach {Op Fd R} fd k.

Fixpoint pbind {Op Fd A B} (p : prog Op Fd A) (f : A → prog Op Fd B) : prog Op Fd B :=
  match p with
  | Ret a => f a
  | Submit o k => Submit o (λ r o, pbind (k r o) f)
  | Attach fd k => Attach fd (λ r, pbind (k r) f)
  end.

(** [runtime.submit(op).await]: the future of the operation is a task, which is awaited. *)
Fixpoint async_of {Op Fd R} (p : prog Op Fd R) : async Op Fd R :=
  match p with
  | Ret a => Return a
  | Submit o k => Spawn o (λ t, AwaitTask t (λ r o, async_of (k r o)))
  | Attach fd k => AttachFd fd (λ r, async_of (k r))
  end.

(** ** The direct reading *)

Section exec.
Context {Op Fd W : Type} `{!Await Op W, !RuntimeAttach Fd W}.

Fixpoint exec {R} (p : prog Op Fd R) (s : W) : R * W :=
  match p with
  | Ret a => (a, s)
  | Submit o k => let '(r, o, s) := await_op o s in exec (k r o) s
  | Attach fd k => let '(r, s) := runtime_attach fd s in exec (k r) s
  end.

(** Every operation that is submitted satisfies [op_ok] when it is. *)
Fixpoint submits {R} (op_ok : Op → W → Prop) (p : prog Op Fd R) (s : W) : Prop :=
  match p with
  | Ret a => True
  | Submit o k => op_ok o s ∧ let '(r, o, s) := await_op o s in submits op_ok (k r o) s
  | Attach fd k => let '(r, s) := runtime_attach fd s in submits op_ok (k r) s
  end.

Lemma exec_pbind {A B} (p : prog Op Fd A) (f : A → prog Op Fd B) : ∀ s,
  exec (pbind p f) s = let '(a, s) := exec p s in exec (f a) s.
Proof.
  induction p as [a|o k IH|fd k IH]; intros s; cbn; [done| |].
  - by destruct (await_op o s) as [[r o'] s'].
  - by destruct (runtime_attach fd s) as [r s'].
Qed.

Lemma submits_pbind {A B} op_ok (p : prog Op Fd A) (f : A → prog Op Fd B) : ∀ s,
  submits op_ok (pbind p f) s ↔ submits op_ok p s ∧ let '(a, s) := exec p s in submits op_ok (f a) s.
Proof.
  induction p as [a|o k IH|fd k IH]; intros s; cbn; [tauto| |].
  - destruct (await_op o s) as [[r o'] s']. rewrite IH. tauto.
  - destruct (runtime_attach fd s) as [r s']. apply IH.
Qed.
End exec.

(** ** The executor *)

(** One job in flight: a turn that answers it, and one that does not. *)
Section one_job.
Context {Op W : Type}.
Implicit Types (w : World Op W).

Lemma settle_one t k ptr res w x : boxes w !! ptr = Some x →
  settle [Entry_new k res] w <$> ({[t := InFlight k ptr]} : gmap nat (job Op)) = ({[t := Ended res x]} : gmap nat (job Op)) ∧
  free (settled_ptrs [Entry_new k res] ({[t := InFlight k ptr]} : gmap nat (job Op))) w = mkWorld (delete ptr (boxes w)) (sys w).
Proof.
  intros Hx. assert (results_for k [Entry_new k res] = [res]) as Hrf by (unfold results_for; cbn; by rewrite decide_True).
  split.
  - rewrite map_fmap_singleton. cbn [settle]. by rewrite Hrf, Hx.
  - unfold settled_ptrs. rewrite map_to_list_singleton. cbn. by rewrite decide_False by (by rewrite Hrf).
Qed.

Lemma settle_nothing t k ptr w :
  settle [] w <$> ({[t := InFlight k ptr]} : gmap nat (job Op)) = ({[t := InFlight k ptr]} : gmap nat (job Op)) ∧
  free (settled_ptrs [] ({[t := InFlight k ptr]} : gmap nat (job Op))) w = w.
Proof. unfold settled_ptrs. rewrite map_fmap_singleton, map_to_list_singleton. by destruct w. Qed.
End one_job.

Section adequacy.
Context {Op W S D Fd R : Type} `{!AsyncTask, !Slab S, !SlabLaws S, !SlabRoom (S := S), !BoxAlloc Op W, !BoxAllocLaws Op W,
  !CompleteIo Z (World Op W) D Fd, !CompleteIoSpec Z (World Op W) D Fd, !BoxesKept (Op := Op) (W := W) (D := D) (Fd := Fd)}.
Context `{!Await Op W, !RuntimeAttach Fd W} (kind : io_error → ErrorKind).
Notation world := (World Op W).
Implicit Types (w : world) (d : D) (p : prog Op Fd R).

(** A driver at rest that is given one operation turns until it has ended as [Await] says, and is at
    rest again. *)
Class DriverAwaits (rest : D → W → Prop) (op_ok : Op → W → Prop) : Prop := {
  rest_wf d s : rest d s → sq_wf d;
  rest_attach fd d w r d' w' : rest d (sys w) → ci_attach fd d w = (r, d', w') →
    rest d' (sys w') ∧ runtime_attach fd (sys w) = (r, sys w');
  rest_await o d w key t r o' s' : rest d (sys w) → op_ok o (sys w) → is_usize key → key ≠ usize_MAX →
    await_op o (sys w) = (r, o', s') →
    ∃ d1 w1, ci_try_push_dyn (OpObject_new (box_addr w) key) d (mkWorld (<[box_addr w := o]> (boxes w)) (sys w)) =
        Done (Ok tt, d1, w1) ∧
      awaits kind no_fault t (λ r2 o2 J q d2 w2, r2 = r ∧ o2 = o' ∧ J = {[t := Ended r o']} ∧ q = [] ∧ rest d2 s' ∧ w2 = mkWorld (boxes w) s')
        {[t := InFlight key (box_addr w)]} [] d1 w1;
}.
Context (rest : D → W → Prop) (op_ok : Op → W → Prop) `{!DriverAwaits rest op_ok}.

Lemma awaits_mono fault t (Q Q' : io_result Z → Op → gmap nat (job Op) → list (OpObject Z) → D → world → Prop) J q d w :
  (∀ r o J q d w, Q r o J q d w → Q' r o J q d w) → awaits kind fault t Q J q d w → awaits kind fault t Q' J q d w.
Proof. intros HQ. induction 1; [by eapply awaits_ended; eauto|by eapply awaits_fault; eauto|by eapply awaits_turn; eauto]. Qed.

Lemma completes_mono fault keys (a : async Op Fd R) (Q Q' : R → list (OpObject Z) → D → world → Prop) :
  (∀ r q d w, Q r q d w → Q' r q d w) → ∀ n J q d w, completes kind keys fault a n J q d w Q → completes kind keys fault a n J q d w Q'.
Proof.
  intros HQ. induction a as [r|o k IH|t k IH|fd k IH]; intros n J q d w; cbn.
  - intros [? ?]. by auto.
  - intros [? Hk]. split; [done|]. intros key Hkey. destruct (Hk key Hkey) as (r & d1 & w1 & ? & ?). exists r, d1, w1. by eauto.
  - apply awaits_mono. by eauto.
  - destruct (ci_attach fd d w) as [[r d1] w1]. by eauto.
Qed.

Lemma prog_completes p : ∀ n d w, rest d (sys w) → submits op_ok p (sys w) →
  completes kind fresh_keys no_fault (async_of p) n ∅ [] d w (λ a q d' w', (a, sys w') = exec p (sys w) ∧ boxes w' = boxes w).
Proof.
  induction p as [a|o k IH|fd k IH]; intros n d w Hr Hs; cbn in Hs |- *; [done| |].
  - destruct Hs as [Ho Hs]. split; [done|]. intros key (Hkey & Hmax & _).
    destruct (await_op o (sys w)) as [[r o'] s'] eqn:Ea.
    destruct (rest_await o d w key (Datatypes.S n) r o' s' Hr Ho Hkey Hmax Ea) as (d1 & w1 & -> & Haw).
    eexists _, d1, w1. split; [done|]. eapply awaits_mono, Haw. intros r2 o2 J q d2 w2 (-> & -> & -> & -> & Hr2 & ->).
    rewrite delete_singleton_eq. by apply (IH r o' (Datatypes.S n) d2 (mkWorld (boxes w) s')).
  - destruct (ci_attach fd d w) as [[r d1] w1] eqn:Ea. destruct (rest_attach _ _ _ _ _ _ Hr Ea) as [Hr1 Hat].
    destruct (attach_keeps_boxes _ _ _ _ _ _ Ea) as [Hb _]. rewrite Hat in Hs |- *. rewrite <- Hb. by apply IH.
Qed.

Lemma block_on_exec' p d w : (∀ t, ¬ task_completed t) → rest d (sys w) → submits op_ok p (sys w) →
  ∃ N, ∀ fuel, N ≤ fuel → ∃ rt w' u,
    task_block_on (S := S) run_block block_result kind fuel 0 None (Ok d) w (mkBlock (At (async_of p)) ∅ 0 None) =
      Some (Done ((exec p (sys w)).1, rt, w', u)) ∧
    sys w' = (exec p (sys w)).2 ∧ boxes w' = boxes w ∧
    runnables rt = [] ∧ unqueued_cancels rt = [] ∧ (∀ k, slab_get k (op_runtime rt) = None).
Proof.
  intros Hlive Hr Hs. destruct (block_on_ends' (S := S) kind fresh_keys Hlive (async_of p) _ d w (rest_wf _ _ Hr) (prog_completes p 0 d w Hr Hs))
    as [N HN]. exists N. intros fuel Hf. destruct (HN fuel Hf) as (a & rt & w' & u & E & [He Hb] & ? & ? & ? & _).
  exists rt, w', u. rewrite <- He. cbn. by split_and!.
Qed.

(** C9 An asynchronous function run by the executor does what its direct reading says: on a driver that
    ends one operation as [Await] says, [block_on] returns the value of [exec], with the system in the
    same state, whatever the function does with the results it gets, and no task, slot or box is left. *)
Theorem block_on_exec p d w : (∀ t, ¬ task_completed t) → rest d (sys w) → submits op_ok p (sys w) →
  ∃ N, ∀ fuel, N ≤ fuel → ∃ rt w' u,
    task_block_on (S := S) run_block block_result kind fuel 0 None (Ok d) w (mkBlock (At (async_of p)) ∅ 0 None) =
      Some (Done ((exec p (sys w)).1, rt, w', u)) ∧
    sys w' = (exec p (sys w)).2 ∧ boxes w' = boxes w ∧
    runnables rt = [] ∧ unqueued_cancels rt = [] ∧ (∀ k, slab_get k (op_runtime rt) = None).
Proof. apply block_on_exec'. Qed.
End adequacy.
