(* ===== verification/KqueueRuntime.v ===== *)
(** * The runtime on the kqueue driver

    The runtime hands references to leaked boxes to the driver: an operation
    of the driver is the address of a box, and polling it polls the contents
    of the box.  With that the driver meets what the runtime relies on; the
    scenarios run the two together on the kernel of [KqueueSim]. *)

From S2P Require Import Prelude BinaryHeap Driver TimerWheel Buf.
From S2P Require Import UnixOps Kqueue KqueueOps KqueueSim Runtime RuntimeSpec RuntimeRefine Executor ExecutorLive.
From stdpp Require Import base numbers sorting list gmap.

(** ** Operations behind references *)

Section references.
Context {Op W : Type} `{!OpCode Op W, !KqueueOs W}.

(** Calling a method through a reference; a reference to a box that was freed is dangling. *)
Definition deref {A} (p : Z) (w : World Op W) (f : Op → outcome A) : outcome A :=
  match boxes w !! p with Some o => f o | None => Undef end.

#[global] Instance ref_OpCode : OpCode Z (World Op W) := {|
  operate p w := deref p w (λ o,
    '(res, o, s) ← operate o (sys w); Done (res, p, mkWorld (<[p := o]> (boxes w)) s));
  as_event p u w := deref p w (λ o, as_event o u (sys w));
  timer_delay p w := deref p w (λ o, timer_delay o (sys w)) |}.

#[global] Instance World_KqueueOs : KqueueOs (World Op W) := {|
  kevent kq evs cap t w := let '(r, s) := kevent kq evs cap t (sys w) in (r, mkWorld (boxes w) s);
  instant_now w := let '(now, s) := instant_now (sys w) in (now, mkWorld (boxes w) s);
  instant_add := instant_add (W := W) |}.

#[global] Instance kqueue_BoxesKept :
  @BoxesKept Op W (Driver Z) Fd kqueue_CompleteIo kqueue_spec.
Proof.
  split.
  - intros t d w es r d' w' E. cbn in E.
    assert (PreOrder (λ w w' : World Op W, dom (boxes w') = dom (boxes w))) as Hpre.
    { split; [done|]. intros w1 w2 w3 H12 H23. by rewrite H23. }
    refine (submit_world (λ w w', dom (boxes w') = dom (boxes w)) _ _ _ _ _ _ _ _ _ _ E).
    + intros o w1 res o' w2. cbn. unfold deref. destruct (boxes w1 !! o) as [op|] eqn:Ho; [|done].
      destruct (operate op (sys w1)) as [[[res' o1] s1]| |]; simpl_outcome; try done.
      intros; simplify_eq. cbn. rewrite dom_insert_lookup_L; [done|by eexists].
    + intros kq evs cap t1 w1. cbn. by destruct (kevent _ _ _ _ _).
    + intros w1. cbn. by destruct (instant_now _).
  - intros o d w r d' w' E. cbn in E. by simplify_eq.
  - intros q d w q' d' w' E. cbn in E. by simplify_eq.
  - intros fd d w r d' w' [= <- <- <-]. done.
Qed.
End references.

(** ** A slab, an allocator, an executor *)

(** The first vacant slot, or a new one at the end. *)
Fixpoint vacant (s : list (option RegisteredOp)) : nat :=
  match s with
  | None :: _ => 0
  | Some _ :: s => S (vacant s)
  | [] => 0
  end.

Definition slot_at (k : Z) (s : list (option RegisteredOp)) : option RegisteredOp :=
  if bool_decide (0 ≤ k)%Z then mjoin (s !! Z.to_nat k) else None.

#[global] Instance list_Slab : Slab (list (option RegisteredOp)) := {|
  slab_empty := [];
  slab_get := slot_at;
  slab_insert r s :=
    let i := vacant s in
    if bool_decide (Z.of_nat i ≤ usize_MAX)%Z
    then Done (Z.of_nat i, if bool_decide (i < length s) then <[i := Some r]> s else s ++ [Some r])
    else Panic;
  slab_set k r s := if bool_decide (0 ≤ k)%Z then <[Z.to_nat k := Some r]> s else s;
  slab_remove k s := if bool_decide (0 ≤ k)%Z then <[Z.to_nat k := None]> s else s |}.

Lemma vacant_spec s :
  (vacant s < length s ∧ s !! vacant s = Some None) ∨ vacant s = length s.
Proof.
  induction s as [|[r|] s IH]; cbn; [by right| |left; split; [lia|done]].
  destruct IH as [[? ?]|?]; [left; split; [lia|done]|right; lia].
Qed.

Lemma slot_at_insert i v s k :
  i < length s → slot_at k (<[i := v]> s) = if bool_decide (k = Z.of_nat i) then v else slot_at k s.
Proof.
  intros Hi. unfold slot_at. case_bool_decide as H0.
  - destruct (decide (k = Z.of_nat i)) as [->|Hne].
    + rewrite bool_decide_eq_true_2, Nat2Z.id, list_lookup_insert_eq by done. by destruct v.
    + rewrite bool_decide_eq_false_2 by done. by rewrite list_lookup_insert_ne by lia.
  - by rewrite bool_decide_eq_false_2 by lia.
Qed.

Lemma slot_at_lt k s r : slot_at k s = Some r → (0 ≤ k)%Z ∧ Z.to_nat k < length s.
Proof.
  unfold slot_at. case_bool_decide; [|done]. intros Hj. split; [done|]. apply lookup_lt_is_Some.
  destruct (s !! Z.to_nat k); [by eexists|done].
Qed.

#[global] Instance list_SlabLaws : SlabLaws (list (option RegisteredOp)).
Proof.
  split; cbn.
  - intros k. unfold slot_at. by case_bool_decide.
  - intros r s k s'. case_bool_decide as Hb; [|done]. intros [= <- _].
    split; [unfold is_usize; lia|]. unfold slot_at. rewrite bool_decide_eq_true_2, Nat2Z.id by lia.
    destruct (vacant_spec s) as [[_ ->]| ->]; [done|]. by rewrite lookup_ge_None_2.
  - intros r s k s' k'. case_bool_decide as Hb; [|done]. intros [= <- <-]. case_bool_decide as Hl.
    + by rewrite slot_at_insert.
    + destruct (vacant_spec s) as [[? _]| ->]; [lia|]. unfold slot_at. case_bool_decide as H0.
      * destruct (decide (k' = Z.of_nat (length s))) as [->|Hne].
        -- rewrite bool_decide_eq_true_2, Nat2Z.id by done. by rewrite list_lookup_middle.
        -- rewrite bool_decide_eq_false_2 by done. destruct (decide (Z.to_nat k' < length s)).
           ++ by rewrite lookup_app_l.
           ++ rewrite !lookup_ge_None_2; [done|lia|]. rewrite length_app. cbn. lia.
      * by rewrite bool_decide_eq_false_2 by lia.
  - intros k r s k' Hk. destruct (slot_at k s) as [r'|] eqn:E; [|done].
    apply slot_at_lt in E as [? ?]. rewrite bool_decide_eq_true_2, slot_at_insert by done.
    by rewrite Z2Nat.id.
  - intros k s k'. case_bool_decide.
    + destruct (decide (Z.to_nat k < length s)).
      * rewrite slot_at_insert by done. by rewrite Z2Nat.id.
      * rewrite list_insert_ge by lia. case_bool_decide; [|done]. subst. unfold slot_at.
        rewrite bool_decide_eq_true_2 by done. by rewrite lookup_ge_None_2 by lia.
    + case_bool_decide; [|done]. subst. unfold slot_at. by rewrite bool_decide_eq_false_2.
Qed.

#[global] Instance bump_BoxAlloc {Op W} : BoxAlloc Op W :=
  {| box_addr w := (foldr Z.max 0 (elements (dom (boxes w))) + 1)%Z |}.

Lemma foldr_max_ge (l : list Z) x : x ∈ l → (x ≤ foldr Z.max 0 l)%Z.
Proof. induction 1; cbn; lia. Qed.

#[global] Instance bump_BoxAllocLaws {Op W} : BoxAllocLaws Op W.
Proof.
  split. intros w. apply not_elem_of_dom. intros Hin%elem_of_elements%foldr_max_ge. cbn in Hin. lia.
Qed.

Definition queue_wake (t : nat) (q : list nat) : list nat :=
  if bool_decide (t ∈ q) then q else q ++ [t].

Lemma queue_wake_schedules t q :
  queue_wake t q = q ++ [t] ∨ (queue_wake t q = q ∧ (t ∈ q ∨ False)).
Proof. unfold queue_wake. case_bool_decide; auto. Qed.

#[global] Instance queue_AsyncTask : AsyncTask :=
  {| wake := queue_wake; task_completed _ := False; wake_schedules := queue_wake_schedules |}.

(** ** Scenarios *)

Notation sim_runtime := (Runtime (list (option RegisteredOp)) (Driver Z)).
Notation sim_world := (World SimOp Sim).

Definition ref_driver : Driver Z :=
  match new (Ok 3%Z) with
  | Ok d => d
  | Err _ => mkDriver 0 [] 0 0 [] [] 0 [] ∅ ∅ ∅ (with_capacity 0)
  end.

Definition rt0 : sim_runtime := mkRuntime ref_driver [] [] [] slab_empty.
Definition w0 : sim_world := mkWorld ∅ sim_fresh.

Definition world_arrive (fd : Z) (bs : list byte) (w : sim_world) : sim_world :=
  mkWorld (boxes w) (arrive fd bs (sys w)).

Definition kind_of : io_error → ErrorKind := error_kind decode_error_kind.

(** The task 1 submits a receive and waits; bytes arrive, the loop polls the driver and the task
    takes the result; more bytes arrive and the loop polls again. *)
Definition receive_then_poll_again :
    outcome (Poll (io_result Z * (SimOp + unit)) * outcome (sim_runtime * sim_world)) :=
  '(key, rt, w) ← rt_submit 1 (recv_op 5) rt0 w0;
  '(_, rt, w) ← poll_task 1 key rt w;
  '(rt, w) ← rt_poll kind_of rt w;
  '(rt, w) ← rt_poll kind_of rt (world_arrive 5 [Byte.x61; Byte.x62] w);
  '(res, rt, w) ← poll_task 1 key rt w;
  Done (res, rt_poll kind_of rt (world_arrive 5 [Byte.x63] w)).

(** A use after free: a program that receives once on a socket, takes the result and lets the
    event loop run on is undefined behaviour, because the driver still polls the operation whose
    box the future has freed. *)
Theorem runtime_use_after_free :
  ∃ o, receive_then_poll_again = Done (Ready (Ok 2%Z, inl (OpRecv o)), Undef) ∧
    raw_len (vec_raw (recv_buffer _ o)) = 0 ∧
    take 2 (raw_mem (vec_raw (recv_buffer _ o))) = [Byte.x61; Byte.x62].
Proof. eexists. vm_compute. split_and!; reflexivity. Qed.

(** ** The properties of the runtime on this driver *)

Lemma ref_driver_wf : sq_wf (Op := Z) (W := sim_world) (Fd := Fd) ref_driver.
Proof. change (driver_wf ref_driver). split_and!; [cbn; lia|cbn; lia|]. apply sim_wheel_wf. Qed.

Lemma rt0_wf : rt_wf rt0 w0.
Proof. apply rt_wf_init, ref_driver_wf. Qed.

(** A receive that is registered and waiting. *)
Definition rt1 : sim_runtime * sim_world :=
  match rt_submit 1 (recv_op 5) rt0 w0 with Done (_, rt, w) => (rt, w) | _ => (rt0, w0) end.

Definition slot1 : RegisteredOp := RegisteredOp_new (Some 1%Z).

Lemma rt1_wf : rt_wf rt1.1 rt1.2.
Proof.
  unfold rt1. destruct (rt_submit 1 (recv_op 5) rt0 w0) as [[[key rt] w]| |] eqn:E; [|apply rt0_wf..].
  apply rt_submit_spec in E; [|apply _|apply rt0_wf]. cbn in *. tauto.
Qed.

Lemma extend_delivers_witness :
  ∃ woken s', extend [Entry_new 0 (Ok 3%Z)] (op_runtime rt1.1) rt1.2 = Done (woken, s', rt1.2) ∧
    slab_get 0%Z s' = Some (mkRegisteredOp (Some 1%Z) None (Some (Ok 3%Z)) false).
Proof.
  destruct (extend_delivers [Entry_new 0 (Ok 3%Z)] (op_runtime rt1.1) rt1.2) as (woken & s' & E & H & _).
  exists woken, s'. split; [exact E|]. rewrite H. vm_compute. reflexivity.
Defined.

Lemma submit_registers_witness :
  ∃ key rt w, rt_submit 1 (recv_op 5) rt0 w0 = Done (key, rt, w) ∧ runnables rt = [1].
Proof.
  destruct (rt_submit 1 (recv_op 5) rt0 w0) as [[[key rt] w]| |] eqn:E; [|vm_compute in E; discriminate..].
  exists key, rt, w. split; [reflexivity|].
  destruct (submit_registers 1 (recv_op 5) rt0 w0 key rt w rt0_wf E) as (_ & _ & H & _). exact H.
Defined.

Lemma poll_round_witness :
  ∃ rt w, rt_poll kind_of rt1.1 rt1.2 = Done (rt, w) ∧ runnables rt1.1 `prefix_of` runnables rt.
Proof.
  destruct (rt_poll kind_of rt1.1 rt1.2) as [[rt w]| |] eqn:E; [|vm_compute in E; discriminate..].
  exists rt, w. split; [reflexivity|].
  destruct (poll_round kind_of rt1.1 rt1.2 rt w rt1_wf E) as (d1 & d2 & w1 & es & r & d3 & H).
  cbn in H. apply H.
Defined.

(** The receive of [rt1] when bytes are there. *)
Definition ready_world : sim_world := world_arrive 5 [Byte.x61] rt1.2.

Lemma ready_wf : rt_wf rt1.1 ready_world.
Proof. exact rt1_wf. Qed.

Lemma completion_reaches_future_witness :
  ∃ rt' w' o rt'', rt_poll kind_of rt1.1 ready_world = Done (rt', w') ∧
    poll_task 1 (Key_new 0) rt' w' =
      Done (Ready (Ok 1%Z, inl o), rt'', mkWorld (delete 1%Z (boxes w')) (sys w')).
Proof.
  destruct (ci_push_queue (unqueued_operations rt1.1)
    (retry_cancels (Op := SimOp) (W := Sim) (Fd := Fd) (unqueued_cancels rt1.1) (rt_driver rt1.1)).2 ready_world) as [[[unq d2] w1]| |] eqn:Ep;
    [|vm_compute in Ep; discriminate..].
  destruct (ci_submit (if bool_decide (0 < length unq) then Some 0%Z else None) d2 w1)
    as [[[[es r] d3] w']| |] eqn:Es; [|vm_compute in Ep; simplify_eq; vm_compute in Es; discriminate..].
  assert (r = Ok tt ∧ results_for 0 es = [Ok 1%Z]) as [-> Hes].
  { vm_compute in Ep. simplify_eq. vm_compute in Es. simplify_eq. split; vm_compute; reflexivity. }
  destruct (completion_reaches_future kind_of rt1.1 ready_world unq d2 w1 es d3 w' 0 slot1 1 (Ok 1%Z) 1
    ready_wf ltac:(vm_compute; reflexivity) ltac:(reflexivity) ltac:(reflexivity) Ep Es Hes)
    as (rt' & o & rt'' & H1 & _ & H2 & _).
  exists rt', w', o, rt''. split; [exact H1|exact H2].
Defined.

Lemma runtime_memory_safe_witness :
  slots_own_boxes (op_runtime rt1.1) (dom (boxes rt1.2)) ∧
  ∃ res rt' w', poll_task 1 (Key_new 0) rt1.1 rt1.2 = Done (res, rt', w').
Proof.
  destruct (runtime_memory_safe kind_of ref_driver sim_fresh rt1.1 rt1.2 ref_driver_wf) as [H1 H2].
  - apply rtc_once. unfold rt1.
    destruct (rt_submit 1 (recv_op 5) rt0 w0) as [[[key rt] w]| |] eqn:E; [|vm_compute in E; discriminate..].
    exact (StepSubmit kind_of 1 (recv_op 5) rt0 w0 key rt w E).
  - split; [exact H1|]. apply (H2 1 0%Z slot1); [vm_compute; reflexivity|by eexists].
Defined.

Lemma cancelled_operation_leaks_box_witness :
  let rt2 := OpFuture_drop (Op := SimOp) (W := Sim) (Fd := Fd) (OpFuture_new (Key_new 0)) rt1.1 in
  ∃ woken s', extend [Entry_new 0 (Err (Os 85))] (op_runtime rt2) rt1.2 = Done (woken, s', rt1.2) ∧
    slab_get 0%Z s' = None ∧ is_Some (boxes rt1.2 !! 1%Z).
Proof.
  destruct (cancelled_operation_leaks_box 0 slot1 1 rt1.1 rt1.2
    (try_cancel 0 (rt_driver rt1.1)).2 (Err (Os 85)) rt1_wf)
    as (woken & s' & H1 & H2 & H3 & _); [vm_compute; reflexivity|reflexivity|reflexivity|].
  exists woken, s'. split; [exact H1|]. split; [exact H2|exact H3].
Defined.

(** The receive is submitted, bytes arrive, the loop turns and the future returns. *)
Lemma receive_run :
  ∃ es (rt : sim_runtime) (w : sim_world), client_run (Fd := Fd) kind_of ref_driver sim_fresh [Submitted 0; Silent; Turned es; Polled 0 1 (Ready (Ok 1%Z))]
    (rt, w, ∅ : gset Z).
Proof.
  destruct (rt_submit 1 (recv_op 5) rt0 w0) as [[[key rt] w]| |] eqn:E1; [|vm_compute in E1; discriminate..].
  destruct (turn_entries (Fd := Fd) rt (world_arrive 5 [Byte.x61] w)) as [es|] eqn:E2;
    [|vm_compute in E1; simplify_eq; vm_compute in E2; discriminate].
  destruct (rt_poll kind_of rt (world_arrive 5 [Byte.x61] w)) as [[rt2 w2]| |] eqn:E3;
    [|vm_compute in E1; simplify_eq; vm_compute in E3; discriminate..].
  assert (key = Key_new 0) as -> by (vm_compute in E1; by simplify_eq).
  assert (∃ o fut rt3 w3, OpFuture_poll 1 (OpFuture_new (Key_new 0)) rt2 w2 = Done (Ready (Ok 1%Z, o), fut, rt3, w3))
    as (o & fut & rt3 & w3 & E4).
  { vm_compute in E1. simplify_eq. vm_compute in E3. simplify_eq. do 4 eexists. vm_compute. reflexivity. }
  exists es, rt3, w3.
  change [Submitted 0; Silent; Turned es; Polled 0 1 (Ready (Ok 1%Z))] with
    (([] ++ [Submitted (key_user_data (Key_new 0))]) ++ [Silent] ++ [Turned es] ++ [Polled 0 1 (Ready (Ok 1%Z))]).
  rewrite !app_assoc. replace ∅ with (({[key_user_data (Key_new 0)]} ∪ ∅) ∖ {[0%Z]} : gset Z) by set_solver.
  eapply ClientSnoc; [|eapply ClientReady; [set_solver|exact E4]].
  eapply ClientSnoc; [|eapply ClientTurn; [exact E2|exact E3]].
  eapply ClientSnoc; [|eapply ClientSystem].
  eapply ClientSnoc; [constructor|]. eapply ClientSubmit. exact E1.
Qed.

Lemma runtime_refines_witness : ∃ es m, a_run [Submitted 0; Silent; Turned es; Polled 0 1 (Ready (Ok 1%Z))] m.
Proof.
  destruct receive_run as (es & rt & w & Hrun).
  destruct (runtime_refines kind_of ref_driver sim_fresh _ rt w ∅ ref_driver_wf Hrun) as (m & Hm & _).
  exists es, m. exact Hm.
Defined.

Lemma future_result_emitted_witness : ∃ es, completed_with [Submitted 0; Silent; Turned es] 0 (Ok 1%Z).
Proof.
  destruct receive_run as (es & rt & w & Hrun). exists es.
  exact (future_result_emitted kind_of ref_driver sim_fresh [Submitted 0; Silent; Turned es] 0 1 (Ok 1%Z) _
    ref_driver_wf Hrun).
Defined.

(** ** A program that runs to its end *)

(** The slab gives the first key that is not in use. *)
Definition first_keys (used : gset Z) (k : Z) : Prop := (0 ≤ k ≤ Z.of_nat (size used))%Z ∧ k ∉ used.

Lemma vacant_occupied s i : i < vacant s → is_Some (slot_at (Z.of_nat i) s).
Proof.
  unfold slot_at. rewrite bool_decide_eq_true_2, Nat2Z.id by lia. revert i.
  induction s as [|[r|] s IH]; intros [|i]; cbn; try lia; [by eexists|]. intros Hi. apply IH. lia.
Qed.

#[global] Instance list_SlabKeys : SlabKeys (S := list (option RegisteredOp)) first_keys.
Proof.
  intros r s used Hs Hroom. assert (vacant s ≤ size used) as Hv.
  { assert (list_to_set (Z.of_nat <$> seq 0 (vacant s)) ⊆ used) as Hsub.
    { intros k. rewrite elem_of_list_to_set, list_elem_of_fmap. intros (i & -> & Hi%elem_of_seq).
      destruct (vacant_occupied s i) as [op Hop]; [lia|]. destruct (decide (Z.of_nat i ∈ used)) as [?|Hn]; [done|].
      apply Hs in Hn. cbn in Hn. congruence. }
    apply subseteq_size in Hsub. rewrite size_list_to_set, length_fmap, length_seq in Hsub; [done|].
    apply NoDup_fmap_2; [apply _|apply NoDup_seq]. }
  assert (∃ s', slab_insert r s = Done (Z.of_nat (vacant s), s')) as [s' E].
  { cbn. rewrite bool_decide_eq_true_2 by lia. by eexists. }
  exists (Z.of_nat (vacant s)), s'. split; [exact E|]. split; [lia|]. apply Hs. by eapply slab_insert_fresh.
Qed.

#[global] Instance list_SlabRoom : SlabRoom (S := list (option RegisteredOp)).
Proof.
  intros r s used Hs Hu. destruct (slab_insert_keys first_keys r s used Hs Hu) as (k & s' & E & Hk & _).
  exists k, s'. split; [done|]. lia.
Qed.

Lemma queue_tasks_live t : ¬ task_completed t.
Proof. by intros []. Qed.

(** Two receives in flight; the one that was submitted last is awaited first. *)
Definition receive_both : async SimOp Fd (io_result Z * io_result Z) :=
  Spawn (recv_op 5) (λ t1, Spawn (recv_op 6) (λ t2,
    AwaitTask t2 (λ r2 _, AwaitTask t1 (λ r1 _, Return (r1, r2))))).

Definition both_arrived : sim_world := world_arrive 6 [Byte.x63] (world_arrive 5 [Byte.x61; Byte.x62] w0).

Lemma first_keys_0 k : first_keys (used_keys (∅ : gmap nat (job SimOp))) k → k = 0%Z.
Proof. intros [Hk _]. change (size (used_keys ∅)) with 0 in Hk. lia. Qed.

Lemma first_keys_1 k p : first_keys (used_keys ({[1 := InFlight 0 p]} : gmap nat (job SimOp))) k → k = 1%Z.
Proof.
  intros [Hk Hn]. assert (used_keys ({[1 := InFlight 0 p]} : gmap nat (job SimOp)) = {[0%Z]}) as Hu.
  { unfold used_keys. rewrite map_to_list_singleton. cbn. set_solver. }
  rewrite Hu in *. rewrite size_singleton in Hk. assert (k ≠ 0%Z) by set_solver. lia.
Qed.

Lemma receive_both_completes :
  completes kind_of first_keys no_fault receive_both 0 ∅ [] ref_driver both_arrived (λ a q _ _, a = (Ok 2%Z, Ok 1%Z) ∧ q = []).
Proof.
  split; [vm_compute; reflexivity|]. intros key ->%first_keys_0. eexists _, _, _. split; [vm_compute; reflexivity|].
  split; [vm_compute; reflexivity|]. intros key ->%first_keys_1. eexists _, _, _. split; [vm_compute; reflexivity|].
  eapply awaits_turn; [reflexivity|vm_compute; reflexivity|].
  eapply awaits_ended; [vm_compute; reflexivity|]. eapply awaits_ended; [vm_compute; reflexivity|].
  split; [vm_compute; reflexivity|done].
Qed.

Lemma block_on_completes_witness :
  ∃ fuel rt w u, task_block_on run_block (block_result (R := io_result Z * io_result Z)) kind_of fuel 0 None
    (Ok ref_driver) both_arrived (mkBlock (At receive_both) ∅ 0 None) = Some (Done ((Ok 2%Z, Ok 1%Z), rt, w, u)) ∧
    dom (boxes w) = dom (boxes both_arrived).
Proof.
  destruct (block_on_completes kind_of first_keys queue_tasks_live receive_both _ ref_driver both_arrived ref_driver_wf
    receive_both_completes) as [N HN].
  destruct (HN N (le_n N)) as (a & rt & w & u & E & [-> _] & _ & _ & _ & Hdom).
  exists N, rt, w, u. split; [exact E|exact Hdom].
Defined.
