(* ===== verification/KqueueServe.v ===== *)
(** * Timers and immediate operations on the kqueue driver

    An operation that is answered at its first try, as those on files are, or
    that is a timer, never enters the pending queue of the kqueue driver.  As
    long as nothing else is submitted the driver serves the runtime
    ([ExecutorLive.DriverServes]): programs that sleep and work on files end,
    or panic for one of two reasons, which the code does not handle: a wait
    for the kernel failed ([EINTR] is the one to expect), or the deadline of a
    timer is no instant.  What is assumed of the kernel is that without
    registered filters [kevent] returns no events, and that the clock moves on,
    possibly in steps that take many calls. *)

From S2P Require Import Prelude BinaryHeap Driver TimerWheel Buf UnixOps Kqueue KqueueOps KqueueSim.
From S2P Require Import Runtime RuntimeSpec Executor ExecutorLive KqueueRuntime.
From Stdlib Require Import Lexicographic_Product Relation_Operators.
From stdpp Require Import base numbers sorting list gmap.

Section serve.
Context {Op W : Type} `{!OpCode Op W, !KqueueOs W}.
Notation world := (World Op W).
Notation driver := (Driver Z).
Implicit Types (d : driver) (w : world) (s : W).
#[local] Arguments check_readiness : simpl never.
#[local] Arguments operate_completed_and_requeue : simpl never.

(** ** A kernel without registered filters *)

(** [stall s] bounds the calls during which the clock shows the same time. *)
Section clock.
Context (clock : W → Z) (stall : W → nat).
Definition not_before s s' : Prop := (clock s < clock s')%Z ∨ clock s' = clock s ∧ stall s' ≤ stall s.
Definition after s s' : Prop := (clock s < clock s')%Z ∨ clock s' = clock s ∧ stall s' < stall s.

Lemma not_before_trans s1 s2 s3 : not_before s1 s2 → not_before s2 s3 → not_before s1 s3.
Proof. unfold not_before. lia. Qed.
Lemma after_between s1 s2 s3 s4 : not_before s1 s2 → after s2 s3 → not_before s3 s4 → after s1 s4.
Proof. unfold not_before, after. lia. Qed.
End clock.

Context (kind : io_error → ErrorKind).

(** Without filters [kevent] fails, though not with [ETIMEDOUT], or returns no events after some time.
    The sum of an instant and a duration is exact, or there is a panic. *)
Class IdleKernel (idle : W → Prop) (clock : W → Z) (stall : W → nat) : Prop := {
  idle_now s now s' : idle s → instant_now s = (now, s') → now = clock s' ∧ not_before clock stall s s' ∧ idle s';
  idle_kevent kq cap t s res s' : idle s → (0 ≤ t)%Z → kevent kq [] cap t s = (res, s') →
    match res with
    | Ok evs => evs = [] ∧ idle s' ∧ not_before clock stall s s' ∧ ((0 < t)%Z → after clock stall s s')
    | Err e => kind e ≠ TimedOut
    end;
  idle_add (a b : Z) : instant_add (W := W) a b = Done (a + b)%Z ∨ instant_add (W := W) a b = Panic;
}.
Context (idle : W → Prop) (clock : W → Z) (stall : W → nat) `{!IdleKernel idle clock stall}.

(** An operation that is answered at its first try, or is a timer; it registers no filter. *)
Definition prompt (x : Op) : Prop := ∀ s, idle s → ∃ res x' s', operate x s = Done (Some res, x', s') ∧
  not_before clock stall s s' ∧ idle s' ∧ (res = Ok TIMER_PENDING → ∃ delay, timer_delay x' s' = Done delay).

(** A queued operation and its box. *)
Definition queued_prompt w (o : OpObject Z) : Prop := ∃ x, boxes w !! op o = Some x ∧ prompt x.

(** The keys the driver holds. *)
Definition held d : list Z := (user_data <$> squeue d) ++ (key <$> wheel_timers (timers d)).

Record prompt_only d w : Prop := {
  po_idle : idle (sys w);
  po_pending : io_pending d = [];
  po_drained : squeue_drained_till d = squeue_capacity d;
  po_keys : NoDup (held d);
  po_boxes : NoDup (op <$> squeue d);
  po_prompt : Forall (queued_prompt w) (squeue d);
}.

(** ** The two faults *)

(** The operations before one of [ops] are started, it is a timer, and its deadline is no instant. *)
Definition overflow_at (idx : nat) (ops : list (OpObject Z)) d w : Prop :=
  ∃ pre o post es d1 w1 p2 w2 delay now w3, ops = pre ++ o :: post ∧
    operate_drained idx pre d w = Done (es, d1, w1) ∧
    operate (op o) w1 = Done (Some (Ok TIMER_PENDING), p2, w2) ∧ timer_delay p2 w2 = Done delay ∧
    instant_now w2 = (now, w3) ∧ instant_add (W := W) now delay = Panic.
Definition deadline_overflows d w : Prop := overflow_at 0 (squeue d) (set_squeue [] d) w.

(** The driver has nothing to start, and its wait for the next timer fails. *)
Definition wait_fails d w : Prop :=
  squeue d = [] ∧ ∃ now s t e s', instant_now (sys w) = (now, s) ∧ till_next_timer_or_timeout None now (timers d) = Some t ∧
    kevent (kqueue d) [] (events_capacity d) t s = (Err e, s').

(** ** A turn *)

(** Every drained operation is answered or becomes a timer, unless its deadline is out of range. *)
Lemma drained_prompt ops : ∀ idx d w, idle (sys w) → NoDup (op <$> ops) → Forall (queued_prompt w) ops →
  operate_drained idx ops d w = Panic ∧ overflow_at idx ops d w ∨
  ∃ es d' w', operate_drained idx ops d w = Done (es, d', w') ∧ io_pending d' = io_pending d ∧
    idle (sys w') ∧ not_before clock stall (sys w) (sys w').
Proof.
  induction ops as [|o ops IH]; intros idx d w Hidle Hnd Hops.
  { right. exists [], d, w. split_and!; try done. by right. }
  apply NoDup_cons in Hnd as [Hnin Hnd]. apply Forall_cons in Hops as [(x & Hx & Hpr) Hops].
  destruct (Hpr (sys w) Hidle) as (res & x' & s' & Eo & Hnb & Hidle' & Htimer).
  set (w1 := mkWorld (<[op o := x']> (boxes w)) s').
  assert (Forall (queued_prompt w1) ops) as Hops1.
  { apply Forall_forall. intros o' Ho'. rewrite Forall_forall in Hops. destruct (Hops o' Ho') as (y & Hy & Hpy).
    exists y. split; [|done]. cbn. rewrite lookup_insert_ne; [done|]. intros Heq. apply Hnin. rewrite Heq. by apply list_elem_of_fmap_2. }
  assert (operate (op o) w = Done (Some res, op o, w1)) as Eop by (cbn; unfold deref; by rewrite Hx, Eo).
  cbn [operate_drained]. rewrite Eop. cbn [outcome_bind mbind]. case_bool_decide as Hres.
  - destruct (Htimer Hres) as [delay Hd]. assert (timer_delay (op o) w1 = Done delay) as Edelay.
    { cbn. unfold deref. cbn. by rewrite lookup_insert_eq. }
    rewrite Edelay. cbn [mbind outcome_bind]. destruct (instant_now w1) as [now w2] eqn:En. pose proof En as En'. cbn in En.
    destruct (instant_now s') as [now' s2] eqn:Es. injection En as -> <-. destruct (idle_now _ _ _ Hidle' Es) as (-> & Hnb2 & Hidle2).
    destruct (TimerWheel.insert _ _ _ _ _) as [tw| |] eqn:Ei; cbn [mbind outcome_bind].
    2,3: unfold TimerWheel.insert in Ei; cbn in Ei; destruct (idle_add (clock s2) delay) as [Ea|Ea]; rewrite Ea in Ei; try done.
    2:{ left. split; [done|]. exists [], o, ops, [], d, w, (op o), w1, delay, (clock s2). eexists. subst res. by split_and!. }
    destruct (IH (S idx) (set_timers tw d) (mkWorld (boxes w1) s2)) as [[E Hov]|(es & d' & w' & E & Hp & Hi & Hn)]; [done|done|done| |].
    + left. split; [done|]. destruct Hov as (pre & o1 & post & es & d1 & w4 & p2 & w5 & delay1 & now1 & w6 & -> & Epre & ?).
      exists (o :: pre), o1, post, es, d1, w4, p2, w5, delay1, now1, w6. split; [done|]. split; [|done]. cbn [operate_drained]. rewrite Eop.
      cbn [mbind outcome_bind]. rewrite (bool_decide_eq_true_2 (res = _)) by done. rewrite Edelay. cbn [mbind outcome_bind].
      rewrite En', Ei. exact Epre.
    + right. exists es, d', w'. split_and!; [done|done|done|]. eapply not_before_trans; [|exact Hn]. by eapply not_before_trans.
  - destruct (IH (S idx) (set_drained (idx + 1) d) w1) as [[E Hov]|(es & d' & w' & E & Hp & Hi & Hn)]; [done|done|done| |].
    + left. rewrite E. split; [done|]. destruct Hov as (pre & o1 & post & es & d1 & w4 & p2 & w5 & delay1 & now1 & w6 & -> & Epre & ?).
      exists (o :: pre), o1, post, (Entry_new (user_data o) res :: es), d1, w4, p2, w5, delay1, now1, w6. split; [done|]. split; [|done].
      cbn [operate_drained]. rewrite Eop. cbn [mbind outcome_bind]. rewrite (bool_decide_eq_false_2 (res = _)) by done. by rewrite Epre.
    + right. exists (Entry_new (user_data o) res :: es), d', w'. rewrite E. split_and!; try done. by eapply not_before_trans.
Qed.

(** Waiting with nothing but timers. *)
Lemma readiness_idle d w : driver_wf d → idle (sys w) → io_pending d = [] → wheel_timers (timers d) ≠ [] →
  (∃ es e d' w', check_readiness None d w = Done (es, Err e, d', w') ∧ kind e ≠ TimedOut ∧ (squeue d = [] → wait_fails d w)) ∨
  ∃ es d' w', check_readiness None d w = Done (es, Ok 0, d', w') ∧ io_pending d' = [] ∧ ready_events d' = [] ∧
    idle (sys w') ∧ expire_timers (clock (sys w')) (timers d) = (es, timers d') ∧
    (es = [] → after clock stall (sys w) (sys w')) ∧ boxes w' = boxes w ∧ not_before clock stall (sys w) (sys w').
Proof.
  intros (_ & _ & Hwf) Hidle Hp Hne. unfold check_readiness. rewrite Hp. cbn.
  destruct (heap_peek (timers d)) as [t|] eqn:Ht; [|by apply heap_peek_None in Ht].
  destruct (instant_now (sys w)) as [now s1] eqn:E1. destruct (idle_now _ _ _ Hidle E1) as (-> & Hn1 & Hi1). cbn.
  unfold till_next_timer_or_timeout, duration_till_next_timer. cbn. rewrite Ht. cbn.
  destruct (kevent _ [] _ _ s1) as [res s2] eqn:E2.
  assert (0 ≤ saturating_duration_since (deadline t) (clock s1))%Z as Hpos by (unfold saturating_duration_since; lia).
  pose proof (idle_kevent _ _ _ _ _ _ Hi1 Hpos E2) as Hres. destruct res as [evs|e].
  2:{ left. cbn. destruct (instant_now s2) as [now s3]. cbn. destruct (expire_timers now (timers d)) as [es tw].
      do 4 eexists. split; [reflexivity|]. split; [done|]. intros Hsq. split; [done|].
      exists (clock s1), s1, (saturating_duration_since (deadline t) (clock s1)), e, s2. split; [done|]. split; [|exact E2].
      unfold till_next_timer_or_timeout, duration_till_next_timer. by rewrite Ht. }
  right. destruct Hres as (-> & Hi2 & Hn2 & Hlate). cbn.
  destruct (instant_now s2) as [now s3] eqn:E3. destruct (idle_now _ _ _ Hi2 E3) as (-> & Hn3 & Hi3). cbn.
  destruct (expire_timers (clock s3) (timers d)) as [es tw] eqn:Ex. do 3 eexists. split; [reflexivity|]. cbn.
  split_and!; try done; [|by do 2 (eapply not_before_trans; [done|])]. intros ->. eapply after_between; [exact Hn1| |exact Hn3]. apply Hlate.
  apply expire_timers_nil in Ex as [_ Hall]; [|done]. rewrite Forall_forall in Hall. specialize (Hall t (peek_timer _ _ Ht)).
  unfold expired in Hall. unfold saturating_duration_since, not_before in *. lia.
Qed.

(** A submit of a driver with nothing but prompt operations and timers. *)
Definition submit_faults d w : Prop :=
  submit None d w = Panic ∧ deadline_overflows d w ∨
  (∃ es e d' w', submit None d w = Done (es, Err e, d', w') ∧ kind e ≠ TimedOut) ∧ wait_fails d w.

Lemma submit_prompt d w : driver_wf d → prompt_only d w → held d ≠ [] → submit_faults d w ∨
  ∃ es d' w', submit None d w = Done (es, Ok tt, d', w') ∧ idle (sys w') ∧ io_pending d' = [] ∧
    held d ≡ₚ (entry_user_data <$> es) ++ (key <$> wheel_timers (timers d')) ∧
    (squeue d = [] → es = [] → timers d' = timers d ∧ after clock stall (sys w) (sys w') ∧
       Forall (λ t, ¬ expired (clock (sys w')) t) (wheel_timers (timers d))).
Proof.
  intros Hwf [Hidle Hpend _ _ Hnd Hops] Hne.
  destruct (drained_prompt (squeue d) 0 (set_squeue [] d) w Hidle Hnd Hops) as [[E1 Hov]|(es1 & d1 & w1 & E1 & Hp1 & Hi1 & Hn1)].
  { left. left. split; [|done]. unfold submit, operate_squeue. by rewrite E1. }
  cbn in Hp1.
  assert (operate_squeue d w = Done (es1, set_drained (squeue_capacity d1) d1, w1)) as Eop by (unfold operate_squeue; by rewrite E1).
  pose proof (operate_squeue_spec _ _ _ _ _ Eop) as (Hsq & Hdr & Hcap & _ & Hwf1 & ps & ts & Hps & Hts & Hk). cbn in *.
  rewrite Hp1, Hpend in Hps. cbn in Hps. subst ps. cbn in Hk.
  assert (held d ≡ₚ (entry_user_data <$> es1) ++ (key <$> wheel_timers (timers d1))) as Hheld.
  { unfold held. rewrite Hk, Hts, fmap_app. by rewrite app_assoc. }
  unfold submit_faults, submit, wait_fails. rewrite Eop. cbn. rewrite (bool_decide_eq_true_2 (io_pending d1 = [])) by congruence. rewrite andb_true_r.
  destruct (squeue d) as [|o q] eqn:Hq.
  - cbn in E1. injection E1 as <- <- <-. cbn in Hheld |- *.
    destruct (readiness_idle (set_drained (squeue_capacity d) (set_squeue [] d)) w)
      as [(es & e & d' & w' & Er & Hk1 & Hf)|(es & d' & w' & Er & Hp' & Hr' & Hi' & Hx & Hlate & _)].
    { destruct Hwf as (? & ? & ?). split_and!; cbn; [lia|done|done]. } { done. } { done. }
    { intros Hnil. apply Hne. unfold held. rewrite Hq. cbn in Hnil. by rewrite Hnil. }
    { left. right. rewrite Er. cbn. split; [by do 4 eexists|]. destruct (Hf eq_refl) as [_ Hw]. by split. }
    right. rewrite Er. cbn. unfold operate_completed_and_requeue. rewrite Hr'. cbn. rewrite Hp', app_nil_r. cbn in Hx.
    pose proof (expire_timers_keys _ _ _ _ (proj2 (proj2 Hwf)) Hx) as [_ Hkx]. do 3 eexists. split; [reflexivity|].
    cbn. split_and!; [done|done| |].
    { by rewrite Hheld, Hkx. }
    intros _ Hes. subst es. apply expire_timers_nil in Hx as [Hx Hall]; [|apply Hwf]. split_and!; [done|by apply Hlate|done].
  - right. rewrite bool_decide_eq_true_2 by (cbn; lia). cbn. destruct (instant_now (sys w1)) as [now s2] eqn:En.
    destruct (idle_now _ _ _ Hi1 En) as (_ & _ & Hi2). cbn. destruct (expire_timers now (timers d1)) as [es2 tw] eqn:Ex.
    apply expire_timers_keys in Ex as [_ Hkx]; [|apply Hwf1, Hwf]. do 3 eexists. split; [reflexivity|]. cbn. split_and!; [done|congruence| |done].
    by rewrite Hheld, Hkx, fmap_app, app_assoc.
Qed.

(** ** The driver serves *)

Definition serve_out d : gset Z := list_to_set (held d).

(** Operations to start, then the time left until the next timer, then the calls until the clock moves. *)
Definition time_left d s : nat :=
  match heap_peek (leb := Timer_leb) (timers d) with Some t => Z.to_nat (deadline t - clock s) | None => 0 end.
Definition serve_rank d s : nat * (nat * nat) := (length (squeue d), (time_left d s, stall s)).
Definition serve_lt : relation (nat * (nat * nat)) := slexprod _ _ Nat.lt (slexprod _ _ Nat.lt Nat.lt).

Lemma serve_lt_wf : well_founded serve_lt.
Proof. apply wf_slexprod; [apply lt_wf|]. apply wf_slexprod; apply lt_wf. Qed.

(** What is pushed is the last of the queue. *)
Lemma push_prompt (o : OpObject Z) d w x : prompt_only d w → user_data o ∉ serve_out d → boxes w !! op o = None → prompt x →
  prompt_only (set_squeue (squeue d ++ [o]) d) (mkWorld (<[op o := x]> (boxes w)) (sys w)).
Proof.
  intros [Hi Hp Hdr Hk Hb Hq] Hout Hnew Hx. unfold serve_out in Hout. rewrite elem_of_list_to_set in Hout.
  assert (∀ o', o' ∈ squeue d → op o' ≠ op o) as Hne.
  { intros o' Ho' Heq. rewrite Forall_forall in Hq. destruct (Hq o' Ho') as (y & Hy & _). congruence. }
  split; cbn; try done.
  - unfold held in *. cbn. rewrite fmap_app, <- app_assoc. cbn. rewrite <- Permutation_middle. by constructor.
  - rewrite fmap_app. apply NoDup_app. split; [done|]. cbn. split; [|apply NoDup_singleton].
    intros p (o' & -> & Ho')%list_elem_of_fmap Heq%list_elem_of_singleton. by eapply Hne.
  - apply Forall_app. split; [|repeat constructor; exists x; cbn; by rewrite lookup_insert_eq].
    apply Forall_forall. intros o' Ho'. rewrite Forall_forall in Hq. destruct (Hq o' Ho') as (y & Hy & Hpy).
    exists y. cbn. rewrite lookup_insert_ne; [done|]. intros Heq. by eapply Hne.
Qed.

(** What makes a turn panic. *)
Definition kqueue_fault d w : Prop := turn_panics (D := driver) (Fd := Fd) kind [] d w ∧ (deadline_overflows d w ∨ wait_fails d w).

(** A turn with nothing left to push is a submit. *)
Lemma submit_turn d w :
  turn kind [] d w = match submit None d w with
    | Done (es, Ok _, d, w) => Some (es, [], d, w)
    | Done (es, Err e, d, w) => if bool_decide (kind e = TimedOut) then Some (es, [], d, w) else None
    | _ => None
    end ∧
  (submit_faults d w → kqueue_fault d w).
Proof.
  assert (ci_push_queue [] d w = Done ([], d, w)) as Ep.
  { cbn. unfold push_queue. rewrite Nat.min_0_r. cbn. rewrite app_nil_r. by destruct d. }
  unfold turn, kqueue_fault, turn_panics. rewrite Ep. cbn -[submit]. rewrite (bool_decide_eq_false_2 (0 < 0)) by lia. split; [done|].
  intros [[-> ?]|[(es & e & d' & w' & -> & ?) ?]]; (split; [done|]); [by left|by right].
Qed.

#[global] Instance kqueue_serves :
  DriverServes (D := driver) (Fd := Fd) kind serve_lt kqueue_fault prompt prompt_only serve_out squeue_capacity serve_rank.
Proof.
  split; [apply serve_lt_wf|..].
  - intros o d w x (Hl & _ & _) Hok _ _ Hout Hnew Hx Hroom. cbn. unfold try_push_dyn, capacity_left.
    assert (length (squeue d) ≤ size (serve_out d)) as Hsz.
    { unfold serve_out. rewrite size_list_to_set by apply Hok. unfold held. rewrite length_app, length_fmap. lia. }
    rewrite bool_decide_eq_true_2 by (rewrite (po_drained _ _ Hok); lia). eexists _, _. split; [reflexivity|].
    split; [by apply push_prompt|]. split; [|done]. unfold serve_out, held. cbn. rewrite fmap_app, !list_to_set_app_L. cbn. set_solver.
  - intros d w Hwf Hok Hne. assert (held d ≠ []) as Hh by (intros Hh; apply Hne; unfold serve_out; by rewrite Hh).
    destruct (submit_turn d w) as [Et Hfault].
    destruct (submit_prompt d w Hwf Hok Hh) as [Hf|(es & d' & w' & Es & Hi & Hp & Hperm & Hwait)]; [by left; apply Hfault|right].
    pose proof (submit_spec _ _ _ _ _ _ _ (proj2 (proj2 Hwf)) Es) as (_ & Hsq & Hcap & Hdr & _).
    pose proof (po_keys _ _ Hok) as Hnd. rewrite Hperm in Hnd. apply NoDup_app in Hnd as (_ & Hdis & Hnd).
    exists es, d', w'. split; [by rewrite Et, Es|].
    assert (held d' = key <$> wheel_timers (timers d')) as Hheld by (unfold held; by rewrite Hsq).
    split_and!; [|..]; [|unfold serve_out; rewrite Hperm, Hheld, list_to_set_app_L; unfold entry_keys; set_solver|done|].
    { intros ptrs. split; cbn; try done; [congruence|by rewrite Hheld|by rewrite Hsq; constructor|by rewrite Hsq]. }
    intros He. assert (es = []) as ->.
    { destruct es as [|e es]; [done|]. exfalso. apply (He (entry_user_data e)); unfold entry_keys, serve_out; [set_solver|].
      rewrite Hperm. set_solver. }
    unfold serve_lt, serve_rank. rewrite Hsq. destruct (squeue d) as [|o q] eqn:Hq; [|left; cbn; lia].
    destruct (Hwait eq_refl eq_refl) as (Ht & Ha & Hall). right. unfold time_left. rewrite Ht.
    destruct (heap_peek (timers d)) as [t|] eqn:Htop.
    + apply peek_timer in Htop. rewrite Forall_forall in Hall. specialize (Hall t Htop). unfold expired in Hall.
      destruct Ha as [Ha|[-> Ha]]; [left; lia|by right].
    + apply heap_peek_None in Htop. unfold held in Hh. by rewrite Hq, Htop in Hh.
  - intros fd d w r d' w' _ Hok [= <- <- <-]. done.
Qed.

(** ** Programs end *)

Context {S A : Type} `{!AsyncTask, !Slab S, !SlabLaws S, !SlabRoom (S := S), !BoxAlloc Op W, !BoxAllocLaws Op W}.

(** C5 Sleeping and working on files on the kqueue driver: while no filter is registered and the clock
    moves on, every program that submits timers and operations that are answered at once, at most as
    many at a time as the submission queue has room for, and awaits each of them ends under
    [block_on]: no timer is lost, none is waited for forever, and nothing is left behind.  The only
    other end is a panic, at a state the driver has come to where a [kevent] call fails (as with
    [EINTR]) or the deadline of a timer that is about to be set is out of the range of instants. *)
Theorem kqueue_block_on_ends (p : async Op Fd A) d w :
  (∀ t, ¬ task_completed t) → idle (sys w) → wheel_wf (timers d) → squeue d = [] → io_pending d = [] → wheel_timers (timers d) = [] →
  squeue_drained_till d = squeue_capacity d → (Z.of_nat (squeue_capacity d) ≤ usize_MAX)%Z →
  awaits_all prompt (squeue_capacity d) p ∅ 0 →
  ∃ N, ∀ fuel, N ≤ fuel →
    let x := task_block_on (S := S) run_block block_result kind fuel 0 None (Ok d) w (mkBlock (At p) ∅ 0 None) in
    (∃ a rt w' u, x = Some (Done (a, rt, w', u)) ∧ runnables rt = [] ∧ unqueued_cancels rt = [] ∧
       (∀ k, slab_get k (op_runtime rt) = None) ∧ dom (boxes w') = dom (boxes w)) ∨
    x = Some Panic ∧ ∃ d' w', comes_to kind fresh_keys p 0 ∅ [] d w [] d' w' ∧ (deadline_overflows d' w' ∨ wait_fails d' w').
Proof.
  intros Hlive Hidle Hwf Hsq Hpend Htimers Hdr Hcap Hp. assert (held d = []) as Hheld by (unfold held; by rewrite Hsq, Htimers).
  destruct (block_on_ends kind serve_lt kqueue_fault prompt prompt_only serve_out squeue_capacity serve_rank Hlive p d w) as [N HN];
    [..|done|done|exists N; intros fuel Hf; destruct (HN fuel Hf) as [He|(d' & w' & Hd & [Hpan Hr] & Hx)]; [by left|right; split; [by apply Hx|by exists d', w']]].
  - unfold sq_wf. cbn. split_and!; [rewrite Hsq; cbn; lia|lia|done].
  - split; try done; rewrite ?Hheld, ?Hsq; constructor.
  - unfold serve_out. by rewrite Hheld.
Qed.
End serve.

(** ** The operations of the crate *)

Section crate.
Context {W T V : Type} `{!Posix W, !KqueueOs W, !IoBuf T, !IoBufMut T, !IoBufMutSpec T, !AsIoSlices V, !AsIoSlicesMut V}.
Context (idle : W → Prop) (clock : W → Z) (stall : W → nat).

(** The system calls that are made register no filters and do not return [TIMER_PENDING]. *)
Class IdlePosix (asked : syscall_req → Prop) : Prop := idle_posix req s r s' :
  asked req → idle s → posix req s = (r, s') → idle s' ∧ not_before clock stall s s' ∧ rv r ≠ TIMER_PENDING.
Context (asked : syscall_req → Prop) `{!IdlePosix asked}.

Lemma syscall_prompt req s : asked req → idle s → ∃ res r s', KqueueOps.syscall req s = (res, r, s') ∧
  idle s' ∧ not_before clock stall s s' ∧ res ≠ Ok TIMER_PENDING.
Proof.
  intros Hreq Hs. unfold KqueueOps.syscall. destruct (posix req s) as [r s'] eqn:E. destruct (idle_posix _ _ _ _ Hreq Hs E) as (Hi & Hn & Hr).
  eexists _, _, _. split; [reflexivity|]. split_and!; [done|done|]. case_bool_decide; [done|]. by intros [= Heq].
Qed.

(** Timers, syncing and closing. *)
Lemma one_shot_prompt (a : AnyOp T V) :
  match a with
  | OpTimeout _ | OpClose None => True
  | OpSync o => asked (SysFsync (as_raw_fd (sync_fd o)))
  | OpCloseFd fd | OpClose (Some fd) => asked (SysClose (as_raw_fd fd))
  | _ => False
  end → prompt idle clock stall a.
Proof.
  intros Ha s Hs. destruct a as [| | | |o| | | | | | | | | | |o|o|[o|]]; try done; cbn.
  - destruct (syscall_prompt (SysFsync (as_raw_fd (sync_fd o))) s Ha Hs) as (res & r & s' & E & Hi & Hn & Hr).
    unfold Sync_operate. rewrite E. eexists _, _, _. split_and!; done.
  - eexists _, _, _. split; [reflexivity|]. split_and!; [by right|done|]. intros _. by eexists.
  - destruct (syscall_prompt (SysClose (as_raw_fd o)) s Ha Hs) as (res & r & s' & E & Hi & Hn & Hr).
    unfold Fd_operate, close_raw_fd. rewrite E. eexists _, _, _. split_and!; done.
  - destruct (syscall_prompt (SysClose (as_raw_fd o)) s Ha Hs) as (res & r & s' & E & Hi & Hn & Hr).
    unfold close_raw_fd. rewrite E. eexists _, _, _. split_and!; done.
  - eexists _, _, _. split; [reflexivity|]. split_and!; [by right|done|done].
Qed.

(** A descriptor whose positional reads and writes do not block, as those of regular files. *)
Definition regular_file (fd : Fd) : Prop := ∀ req s,
  match req with SysPread f _ _ _ | SysPwrite f _ _ _ => f = as_raw_fd fd | _ => False end →
  asked req ∧ is_Some (maybe_block (KqueueOps.syscall req s).1.1).

Lemma file_prompt (a : AnyOp T V) :
  match a with
  | OpReadAt o => buf_wf (read_at_buffer _ o) ∧ regular_file (read_at_fd _ o)
  | OpWriteAt o => buf_wf (write_at_buffer _ o) ∧ regular_file (write_at_fd _ o)
  | _ => False
  end → prompt idle clock stall a.
Proof.
  intros Ha s Hs. destruct a as [|o| |o| | | | | | | | | | | | | | ]; try done; cbn; destruct Ha as [Hwf Hf].
  - destruct (uninit_slice_done _ Hwf) as [ptr Hptr]. unfold ReadAt_operate. rewrite Hptr. simpl_outcome.
    set (req := SysPread _ _ _ _). destruct (Hf req s eq_refl) as [Hreq [res' Hres]].
    destruct (syscall_prompt req s Hreq Hs) as (res & r & s' & E & Hi & Hn & Hr). rewrite E in Hres |- *. cbn in Hres. rewrite Hres. apply maybe_block_keeps in Hres as ->.
    unfold poke_uninit. rewrite (spec_len _ Hwf). cbn. eexists _, _, _. split_and!; done.
  - destruct (spec_ptr _ Hwf) as (ptr & Hptr & _). unfold WriteAt_operate. rewrite Hptr, (as_slice_filled _ Hwf). simpl_outcome.
    set (req := SysPwrite _ _ _ _). destruct (Hf req s eq_refl) as [Hreq [res' Hres]].
    destruct (syscall_prompt req s Hreq Hs) as (res & r & s' & E & Hi & Hn & Hr). rewrite E in Hres |- *. cbn in Hres. rewrite Hres. apply maybe_block_keeps in Hres as ->.
    cbn. eexists _, _, _. split_and!; done.
Qed.
End crate.

(** ** A program on the kernel of the simulation *)

Definition sim_idle (s : Sim) : Prop := sim_regs s = [].

#[global] Instance Sim_idle kind : IdleKernel kind sim_idle sim_clock (λ _, 0).
Proof.
  split; cbn; unfold sim_idle.
  - intros s now s' Hs [= <- <-]. split_and!; [done|by right|done].
  - intros kq cap t s res s' Hs Ht [= <- <-]. rewrite Hs. cbn. rewrite take_nil. cbn. unfold not_before, after. cbn. split_and!; try done; lia.
  - intros a b. by left.
Qed.

(** Syncing and closing leave the simulated kernel as it is. *)
Definition sim_asked (req : syscall_req) : Prop := match req with SysFsync _ | SysClose _ => True | _ => False end.

#[global] Instance Sim_idle_posix : IdlePosix sim_idle sim_clock (λ _, 0) sim_asked.
Proof.
  intros req s r s' Hreq Hs E. destruct req; try done; cbn in E; injection E as <- <-; (split_and!; [done|by right|done]).
Qed.

(** Two timers, the longer one first, and a sync between them. *)
Definition sleep_and_sync : async SimOp Fd (io_result Z) :=
  Spawn (OpTimeout (Timeout_new 500)) (λ t1, Spawn (OpTimeout (Timeout_new 20)) (λ t2,
    AwaitTask t1 (λ _ _, Spawn (OpSync (Sync_new Fd_into (from_raw 4) false)) (λ t3,
      AwaitTask t3 (λ r _, AwaitTask t2 (λ _ _, Return r)))))).

Lemma kqueue_block_on_ends_witness :
  ∃ fuel a rt w u, task_block_on (S := list (option RegisteredOp)) run_block (block_result (R := io_result Z)) kind_of fuel 0 None
      (Ok ref_driver) w0 (mkBlock (At sleep_and_sync) ∅ 0 None) = Some (Done (a, rt, w, u)) ∧ dom (boxes w) = ∅.
Proof.
  assert (∀ t, prompt sim_idle sim_clock (λ _, 0) (OpTimeout t : SimOp)) as Ht.
  { intros t. by apply (one_shot_prompt _ _ _ sim_asked). }
  assert (∀ fd, prompt sim_idle sim_clock (λ _, 0) (OpSync (Sync_new Fd_into fd false) : SimOp)) as Hs.
  { intros fd. by apply (one_shot_prompt _ _ _ sim_asked). }
  destruct (kqueue_block_on_ends (Op := SimOp) (W := Sim) kind_of sim_idle sim_clock (λ _, 0)
    (S := list (option RegisteredOp)) sleep_and_sync ref_driver w0) as [N HN].
  - exact queue_tasks_live.
  - reflexivity.
  - apply ref_driver_wf.
  - reflexivity.
  - reflexivity.
  - reflexivity.
  - reflexivity.
  - vm_compute. discriminate.
  - split; [apply Ht|]. split; [vm_compute; lia|]. split; [apply Ht|]. split; [vm_compute; lia|].
    split; [vm_compute; tauto|]. intros r1 o1. split; [apply Hs|]. split; [vm_compute; lia|].
    split; [vm_compute; tauto|]. intros r2 o2. split; [vm_compute; tauto|]. intros r3 o3. vm_compute. reflexivity.
  - destruct (HN N (le_n N)) as [(a & rt & w & u & E & _ & _ & _ & Hd)|(_ & d' & w' & _ & Hf)].
    + exists N, a, rt, w, u. split; [exact E|exact Hd].
    + exfalso. destruct Hf as [(? & ? & ? & ? & ? & ? & ? & ? & ? & ? & ? & _ & _ & _ & _ & _ & Hadd)|(_ & ? & ? & ? & ? & ? & _ & _ & Hk)].
      * discriminate Hadd.
      * discriminate Hk.
Defined.
