(* ===== verification/Iour.v ===== *)
(** * The io_uring driver

    [src/driver/iour/mod.rs].  The rings belong to the io-uring crate: the
    class [IoUring] is what the driver calls of it, [IoUringLaws] what the
    crate documents (a push fails just when the queue is full, the kernel
    consumes entries from the front, entries that are not consumed stay).  The
    entry of an asynchronous file update points to the driver's own table, so
    that entering the kernel shows it the table as it is then. *)

From S2P Require Import Prelude Driver UnixOps Buf.
From stdpp Require Import base numbers list.

(** ** Descriptors *)

(** [src/src/driver/iour/mod.rs:23-45] Fd, from_raw, as_raw_fd *)
Record Fd := from_raw { as_raw_fd : Z }.

(** [src/src/driver/iour/mod.rs:53-73] FixedFd, from_offset, as_offset *)
Record FixedFd := from_offset { as_offset : Z }.

(** [src/src/driver/iour/mod.rs:81-88] *)
Inductive FdOrFixed := FdOrFixed_Fd (fd : Fd) | FdOrFixed_Fixed (fixed : FixedFd).

(** [src/src/driver/iour/mod.rs:90-97] *)
Definition Fd_into (fd : Fd) : FdOrFixed := FdOrFixed_Fd fd.
(** [src/src/driver/iour/mod.rs:99-106] *)
Definition FixedFd_into (fd : FixedFd) : FdOrFixed := FdOrFixed_Fixed fd.

(** [src/src/driver/iour/mod.rs:108-109] *)
Definition INVALID_FD : Fd := from_raw (-1).
(** [src/src/driver/iour/mod.rs:110-112] *)
Definition INVALID_FIXED_FD : FixedFd := from_offset u32_MAX.

(** ** Queue entries *)

Inductive target := TFd (fd : Z) | TFixed (offset : Z).

Record Timespec := mkTimespec { tv_sec : Z; tv_nsec : Z }.

(** The entries the crate builds; an offset that the source does not set is [None]. *)
Inductive sqe_body :=
| SqRead (t : target) (ptr : Z) (len : Z) (offset : option Z)
| SqWrite (t : target) (ptr : Z) (len : Z) (data : list byte) (offset : option Z)
| SqFsync (t : target) (datasync : bool)
| SqAccept (t : target) (addr addr_len : Z)
| SqConnect (t : target) (addr addr_len : Z)
| SqRecv (t : target) (ptr : Z) (len : Z)
| SqReadv (t : target) (slices : list io_slice) (len : Z)
| SqSend (t : target) (ptr : Z) (len : Z) (data : list byte)
| SqWritev (t : target) (slices : list io_slice) (len : Z)
| SqRecvMsg (t : target) (msg : msghdr)
| SqSendMsg (t : target) (msg : msghdr)
| SqTimeout (ts : Timespec) (flags : Z)
| SqClose (fd : Z)
| SqAsyncCancel (user_data : Z)
| SqFilesUpdate (len : Z).

Record sqe := mkSqe { sqe_op : sqe_body; sqe_user_data : Z }.
Record cqe := mkCqe { cqe_user_data : Z; cqe_result : Z }.

(** The types of the fields: [u64] and [i32]. *)
Definition cqe_wf (c : cqe) : Prop := is_usize (cqe_user_data c) ∧ is_i32 (cqe_result c).

(** How the driver enters the kernel. *)
Inductive enter := SubmitAndWait (want : nat) | SubmitOnly | SubmitWithArgs (want : nat) (ts : Timespec).

(** ** The io-uring crate *)

Class IoUring (R W : Type) := {
  uring_new : Z → W → io_result R * W;
  probe_socket_supported : R → W → io_result bool * W;
  register_files_sparse : Z → R → W → io_result unit * R * W;
  register_files : list Z → R → W → io_result unit * R * W;
  register_files_update : Z → list Z → R → W → io_result unit * R * W;
  sq_entries : R → list sqe;
  sq_capacity : R → nat;
  sq_sync : R → R;
  sq_push_entry : sqe → R → result R unit;
  sq_push_multiple : list sqe → R → result R unit;
  uring_enter : enter → list Z → R → W → io_result Z * R * W;
  cq_drain : R → W → list cqe * R * W;
}.

Definition sq_len {R W} `{!IoUring R W} (r : R) : nat := length (sq_entries r).

Class IoUringLaws (R W : Type) `{!IoUring R W} : Prop := {
  uring_bound r : sq_len r ≤ sq_capacity r;
  sync_law r : sq_entries (sq_sync r) = sq_entries r ∧ sq_capacity (sq_sync r) = sq_capacity r;
  push_law e r :
    match sq_push_entry e r with
    | Ok r' => sq_len r < sq_capacity r ∧ sq_entries r' = sq_entries r ++ [e] ∧
               sq_capacity r' = sq_capacity r
    | Err _ => sq_len r = sq_capacity r
    end;
  push_multiple_law es r :
    match sq_push_multiple es r with
    | Ok r' => sq_len r + length es ≤ sq_capacity r ∧ sq_entries r' = sq_entries r ++ es ∧
               sq_capacity r' = sq_capacity r
    | Err _ => sq_capacity r < sq_len r + length es
    end;
  enter_law how mem r w n r' w' :
    uring_enter how mem r w = (n, r', w') →
    suffix (sq_entries r') (sq_entries r) ∧ sq_capacity r' = sq_capacity r;
  drain_law r w cs r' w' :
    cq_drain r w = (cs, r', w') →
    Forall cqe_wf cs ∧ sq_entries r' = sq_entries r ∧ sq_capacity r' = sq_capacity r;
  files_update_law id fds r w n r' w' :
    register_files_update id fds r w = (n, r', w') →
    sq_entries r' = sq_entries r ∧ sq_capacity r' = sq_capacity r;
}.

(** ** Operations *)

(** [src/src/driver/iour/mod.rs:114-118] the operation may live behind a reference *)
Class OpCode (Op W : Type) := {
  create_entry_op : Op → W → outcome (sqe_body * Op * W);
}.

#[global] Hint Mode OpCode ! ! : typeclass_instances.

(** ** The driver *)

(** [src/src/driver/iour/mod.rs:130-137] *)
Inductive FilesUpdateState := NoUpdateInProgress | Pushed | Submitted.

#[global] Instance FilesUpdateState_eq_dec : EqDecision FilesUpdateState.
Proof. solve_decision. Defined.

Definition SKIP_FILE : Z := -2.

(** [src/src/driver/iour/mod.rs:140-140] *)
Definition FILES_UPDATE_KEY : Z := u64_MAX.

Definition ETIME : Z := 62.
Definition EBUSY : Z := 16.
Definition EAGAIN : Z := 11.
Definition ENOENT : Z := 2.
Definition EALREADY : Z := 114.

(** [src/src/driver/iour/mod.rs:389-394] a duration in nanoseconds *)
Definition timespec (duration : Z) : Timespec :=
  mkTimespec (duration `div` 1000000000) (duration `mod` 1000000000).

(** [src/src/driver/iour/mod.rs:378-387] *)
Definition create_entry (entry : cqe) : Entry :=
  let result := cqe_result entry in
  let result := if bool_decide (result < 0)%Z then Err (Os (- result)%Z) else Ok (as_u64 result) in
  Entry_new (as_u64 (cqe_user_data entry)) result.

Section driver.
Context {Op R W : Type} `{!OpCode Op W, !IoUring R W}.

(** [src/src/driver/iour/mod.rs:120-128] *)
Record Driver := mkDriver {
  inner : R; squeue_buffer : list sqe; files_update_fds : list Z; files_update_state : FilesUpdateState }.

Definition set_inner (r : R) (d : Driver) : Driver :=
  mkDriver r (squeue_buffer d) (files_update_fds d) (files_update_state d).
Definition set_files (fds : list Z) (st : FilesUpdateState) (d : Driver) : Driver :=
  mkDriver (inner d) (squeue_buffer d) fds st.

(** [src/src/driver/iour/mod.rs:147-177] *)
Definition with_ (entries files_to_register : Z) (w : W) : io_result Driver * W :=
  match uring_new entries w with
  | (Err e, w) => (Err e, w)
  | (Ok r, w) =>
      let n := Z.to_nat files_to_register in
      let fin r fds w := (Ok (mkDriver r [] fds NoUpdateInProgress), w) in
      if bool_decide (0 < files_to_register)%Z then
        match probe_socket_supported r w with
        | (Err e, w) => (Err e, w)
        | (Ok true, w) =>
            match register_files_sparse files_to_register r w with
            | (Err e, _, w) => (Err e, w)
            | (Ok _, r, w) => fin r (replicate n SKIP_FILE) w
            end
        | (Ok false, w) =>
            match register_files (replicate n (-1)%Z) r w with
            | (Err e, _, w) => (Err e, w)
            | (Ok _, r, w) => fin r (replicate n SKIP_FILE) w
            end
        end
      else fin r [] w
  end.

(** [src/src/driver/iour/mod.rs:142-145] *)
Definition new (w : W) : io_result Driver * W := with_ 1024 0 w.

(** [src/src/driver/iour/mod.rs:179-201] *)
Definition submit_impl (timeout : option Z) (d : Driver) (w : W) : io_result unit * Driver * W :=
  let how := match timeout with
             | None => SubmitAndWait 1
             | Some duration =>
                 if bool_decide (duration = 0)%Z then SubmitOnly else SubmitWithArgs 1 (timespec duration)
             end in
  let '(res, r, w) := uring_enter how (files_update_fds d) (inner d) w in
  let d := set_inner r d in
  match res with
  | Ok _ => (Ok tt, d, w)
  | Err e =>
      if bool_decide (raw_os_error e = Some ETIME) || bool_decide (raw_os_error e = Some EBUSY)
         || bool_decide (raw_os_error e = Some EAGAIN)
      then (Ok tt, d, w) else (Err e, d, w)
  end.

(** [src/src/driver/iour/mod.rs:208-235] one completion queue entry *)
Definition complete_entry (entry : cqe) (d : Driver) : option Entry * Driver :=
  if bool_decide (cqe_user_data entry = FILES_UPDATE_KEY) then
    (None, set_files ((λ _, SKIP_FILE) <$> files_update_fds d) NoUpdateInProgress d)
  else if bool_decide (cqe_result entry = - ETIME)%Z then
    (Some (Entry_new (as_u64 (cqe_user_data entry)) (Ok 0%Z)), d)
  else if bool_decide (cqe_result entry = - ENOENT)%Z || bool_decide (cqe_result entry = - EALREADY)%Z then
    (None, d)
  else (Some (create_entry entry), d).

Fixpoint complete_all (cs : list cqe) (d : Driver) : list Entry * Driver :=
  match cs with
  | [] => ([], d)
  | c :: cs =>
      let '(e, d) := complete_entry c d in
      let '(es, d) := complete_all cs d in
      (option_list e ++ es, d)
  end.

(** [src/src/driver/iour/mod.rs:203-237] *)
Definition complete_entries (d : Driver) (w : W) : list Entry * Driver * W :=
  let '(cs, r, w) := cq_drain (inner d) w in
  let '(es, d) := complete_all cs (set_inner r d) in (es, d, w).

(** [src/src/driver/iour/mod.rs:239-277] *)
Definition register_fd_impl (fd id : Z) (d : Driver) (w : W) : outcome (io_result unit * Driver * W) :=
  _ ← rust_assert (bool_decide (0 < length (files_update_fds d)));
  _ ← rust_assert (bool_decide (id < Z.of_nat (length (files_update_fds d)))%Z);
  let is_squeue_full := bool_decide (sq_len (inner d) = sq_capacity (inner d)) in
  let fds := <[Z.to_nat id := fd]> (files_update_fds d) in
  match is_squeue_full, files_update_state d with
  | true, _ | false, Submitted =>
      let '(res, r, w) := register_files_update id [fd] (inner d) w in
      Done (res, set_inner r d, w)
  | false, NoUpdateInProgress =>
      let d := set_files fds (files_update_state d) d in
      _ ← rust_assert (bool_decide (Z.of_nat (length fds) ≤ u32_MAX)%Z);
      let squeue_entry := mkSqe (SqFilesUpdate (Z.of_nat (length fds))) FILES_UPDATE_KEY in
      match sq_push_entry squeue_entry (inner d) with
      | Ok r => Done (Ok tt, set_files fds Pushed (set_inner r d), w)
      | Err _ => Panic
      end
  | false, Pushed => Done (Ok tt, set_files fds Pushed d, w)
  end.

(** [src/src/driver/iour/mod.rs:281-284] *)
Definition attach (fd : Z) (d : Driver) : io_result Fd * Driver := (Ok (from_raw fd), d).

(** [src/src/driver/iour/mod.rs:286-290] *)
Definition register_fd (fd id : Z) (d : Driver) (w : W) : outcome (io_result FixedFd * Driver * W) :=
  '(res, d, w) ← register_fd_impl fd id d w; Done (result_map (λ _, from_offset id) res, d, w).

(** [src/src/driver/iour/mod.rs:292-295] *)
Definition unregister_fd (fixed_fd : FixedFd) (d : Driver) (w : W) : outcome (io_result unit * Driver * W) :=
  register_fd_impl (-1) (as_offset fixed_fd) d w.

(** [src/src/driver/iour/mod.rs:297-303] *)
Definition try_cancel (user_data : Z) (d : Driver) : result unit unit * Driver :=
  match sq_push_entry (mkSqe (SqAsyncCancel (as_u64 user_data)) (as_u64 user_data)) (inner d) with
  | Ok r => (Ok tt, set_inner r d)
  | Err _ => (Err tt, d)
  end.

(** [src/src/driver/iour/mod.rs:315-320] *)
Definition try_push_dyn (o : OpObject Op) (d : Driver) (w : W) :
    outcome (result unit (OpObject Op) * Driver * W) :=
  '(body, op', w) ← create_entry_op (op o) w;
  match sq_push_entry (mkSqe body (as_u64 (user_data o))) (inner d) with
  | Ok r => Done (Ok tt, set_inner r d, w)
  | Err _ => Done (Err (set_op o op'), d, w)
  end.

(** [src/src/driver/iour/mod.rs:305-313] *)
Definition try_push {O} (create : O → W → outcome (sqe_body * O * W)) (o : Operation O) (d : Driver) (w : W) :
    outcome (result unit (Operation O) * Driver * W) :=
  '(body, op', w) ← create (operation_op o) w;
  match sq_push_entry (mkSqe body (as_u64 (operation_user_data o))) (inner d) with
  | Ok r => Done (Ok tt, set_inner r d, w)
  | Err _ => Done (Err (mkOperation op' (operation_user_data o)), d, w)
  end.

(** [src/src/driver/iour/mod.rs:346-350] *)
Definition capacity_left (d : Driver) : nat := sq_capacity (inner d) - sq_len (inner d).

(** [src/src/driver/iour/mod.rs:333-336] the entries of the drained operations *)
Fixpoint create_entries (ops : list (OpObject Op)) (w : W) : outcome (list sqe * W) :=
  match ops with
  | [] => Done ([], w)
  | o :: ops =>
      '(body, _, w) ← create_entry_op (op o) w;
      '(es, w) ← create_entries ops w;
      Done (mkSqe body (as_u64 (user_data o)) :: es, w)
  end.

(** [src/src/driver/iour/mod.rs:322-344] *)
Definition push_queue (ops_queue : list (OpObject Op)) (d : Driver) (w : W) :
    outcome (list (OpObject Op) * Driver * W) :=
  let to_drain := Nat.min (capacity_left d) (length ops_queue) in
  if bool_decide (to_drain = 0) then Done (ops_queue, d, w)
  else
    '(buffer, w) ← create_entries (take to_drain ops_queue) w;
    match sq_push_multiple buffer (inner d) with
    | Ok r => Done (drop to_drain ops_queue,
                    mkDriver r buffer (files_update_fds d) (files_update_state d), w)
    | Err _ => Panic
    end.

(** [src/src/driver/iour/mod.rs:352-369] *)
Definition submit (timeout : option Z) (d : Driver) (w : W) :
    outcome (list Entry * io_result unit * Driver * W) :=
  let d := set_inner (sq_sync (inner d)) d in
  let d := match files_update_state d with
           | Pushed => set_files (files_update_fds d) Submitted d
           | _ => d
           end in
  let '(res, d, w) := submit_impl timeout d w in
  let '(es, d, w) := complete_entries d w in
  Done (es, res, d, w).

End driver.
Arguments Driver : clear implicits.
