(* ===== verification/IourOps.v ===== *)
(** * The operations of the io_uring driver

    [src/driver/iour/op.rs]: the submission queue entry that each operation
    builds.  Building an entry may change the operation: a message header is
    filled in, and closing an [Option] takes the descriptor out of it. *)

From S2P Require Import Prelude Driver Buf UnixOps Iour.
From stdpp Require Import base numbers list.

(** [src/src/driver/iour/op.rs:20-28] *)
Definition apply_to_fd_or_fixed (fd : FdOrFixed) : target :=
  match fd with
  | FdOrFixed_Fd fd => TFd (as_raw_fd fd)
  | FdOrFixed_Fixed fixed_fd => TFixed (as_offset fixed_fd)
  end.

(** Lengths are passed as [u32]. *)
Definition len_u32 (n : nat) : Z := as_u32 (Z.of_nat n).

(** [src/src/driver/iour/op.rs:30-37] *)
Definition Read_create_entry {T} `{!IoBuf T, !IoBufMut T} (self : Read FdOrFixed T) : outcome sqe_body :=
  '(ptr, len) ← as_uninit_slice (read_buffer _ self);
  Done (SqRead (apply_to_fd_or_fixed (read_fd _ self)) ptr (len_u32 len) None).

(** [src/src/driver/iour/op.rs:39-47] *)
Definition ReadAt_create_entry {T} `{!IoBuf T, !IoBufMut T} (self : ReadAt FdOrFixed T) : outcome sqe_body :=
  '(ptr, len) ← as_uninit_slice (read_at_buffer _ self);
  Done (SqRead (apply_to_fd_or_fixed (read_at_fd _ self)) ptr (len_u32 len)
          (Some (as_u64 (read_at_offset _ self)))).

(** [src/src/driver/iour/op.rs:49-55] *)
Definition Write_create_entry {T} `{!IoBuf T} (self : Write FdOrFixed T) : outcome sqe_body :=
  ptr ← as_buf_ptr (write_buffer _ self); data ← as_slice (write_buffer _ self);
  Done (SqWrite (apply_to_fd_or_fixed (write_fd _ self)) ptr (len_u32 (length data)) data None).

(** [src/src/driver/iour/op.rs:57-65] *)
Definition WriteAt_create_entry {T} `{!IoBuf T} (self : WriteAt FdOrFixed T) : outcome sqe_body :=
  ptr ← as_buf_ptr (write_at_buffer _ self); data ← as_slice (write_at_buffer _ self);
  Done (SqWrite (apply_to_fd_or_fixed (write_at_fd _ self)) ptr (len_u32 (length data)) data
          (Some (as_u64 (write_at_offset _ self)))).

(** [src/src/driver/iour/op.rs:67-77] *)
Definition Sync_create_entry (self : Sync FdOrFixed) : outcome sqe_body :=
  Done (SqFsync (apply_to_fd_or_fixed (sync_fd self)) (datasync self)).

(** [src/src/driver/iour/op.rs:79-85] *)
Definition Accept_create_entry (self : Accept FdOrFixed) : outcome sqe_body :=
  Done (SqAccept (apply_to_fd_or_fixed (accept_fd self)) (sa_ptr (accept_addr self)) (accept_addr_len self)).

(** [src/src/driver/iour/op.rs:87-93] *)
Definition Connect_create_entry (self : Connect FdOrFixed) : outcome sqe_body :=
  Done (SqConnect (apply_to_fd_or_fixed (connect_fd self)) (sa_ptr (connect_addr self))
          (sa_len (connect_addr self))).

(** [src/src/driver/iour/op.rs:95-113] *)
Definition Recv_create_entry {T} `{!IoBuf T, !IoBufMut T} (self : Recv FdOrFixed T) : outcome sqe_body :=
  '(ptr, len) ← as_uninit_slice (recv_buffer _ self);
  Done (SqRecv (apply_to_fd_or_fixed (recv_fd _ self)) ptr (len_u32 len)).

(** [src/src/driver/iour/op.rs:115-121] *)
Definition RecvVectored_create_entry {V} `{!AsIoSlicesMut V} (self : RecvVectoredImpl FdOrFixed V) :
    outcome sqe_body :=
  let slices := as_io_slices_mut (recv_vectored_buffer _ self) in
  Done (SqReadv (apply_to_fd_or_fixed (recv_vectored_fd _ self)) slices (len_u32 (length slices))).

(** [src/src/driver/iour/op.rs:123-130] *)
Definition Send_create_entry {T} `{!IoBuf T} (self : Send FdOrFixed T) : outcome sqe_body :=
  ptr ← as_buf_ptr (send_buffer _ self); data ← as_slice (send_buffer _ self);
  Done (SqSend (apply_to_fd_or_fixed (send_fd _ self)) ptr (len_u32 (length data)) data).

(** [src/src/driver/iour/op.rs:132-139] *)
Definition SendVectored_create_entry {V} `{!AsIoSlices V} (self : SendVectoredImpl FdOrFixed V) :
    outcome sqe_body :=
  let slices := as_io_slices (send_vectored_buffer _ self) in
  Done (SqWritev (apply_to_fd_or_fixed (send_vectored_fd _ self)) slices (len_u32 (length slices))).

(** [src/src/driver/iour/op.rs:173-180] *)
Definition RecvMsg_create_entry {V} `{!AsIoSlicesMut V} (self : RecvMsgImpl FdOrFixed V) :
    outcome (sqe_body * RecvMsgImpl FdOrFixed V) :=
  let self := RecvMsg_set_msg self in
  Done (SqRecvMsg (apply_to_fd_or_fixed (recv_msg_fd _ self)) (recv_msg_msg _ self), self).

(** [src/src/driver/iour/op.rs:210-217] *)
Definition SendMsg_create_entry {V} `{!AsIoSlices V} (self : SendMsgImpl FdOrFixed V) :
    outcome (sqe_body * SendMsgImpl FdOrFixed V) :=
  let self := SendMsg_set_msg self in
  Done (SqSendMsg (apply_to_fd_or_fixed (send_msg_fd _ self)) (send_msg_msg _ self), self).

(** [src/src/driver/iour/op.rs:144-147] *)
Record RecvFrom (T : Type) := mkRecvFrom { recv_from_inner : RecvMsgImpl FdOrFixed (BufWrapperMut T) }.
Arguments mkRecvFrom {T}.
Arguments recv_from_inner {T}.

(** [src/src/driver/iour/op.rs:149-156] *)
Definition RecvFrom_new {G T} `{!IoBuf T, !IoBufMut T} (into : G → FdOrFixed) (ptr : Z) (fd : G) (buffer : T) :
    outcome (RecvFrom T) :=
  b ← BufWrapperMut_from buffer; Done (mkRecvFrom (RecvMsg_new into ptr fd b)).

(** [src/src/driver/iour/op.rs:158-165] *)
Definition RecvFrom_into_inner {T} `{!IoBuf T, !IoBufMut T} (self : RecvFrom T) : T * SockAddr :=
  let '(bufwrapper, sockaddr) := RecvMsg_into_inner (recv_from_inner self) in
  (BufWrapperMut_into_inner bufwrapper, sockaddr).

(** [src/src/driver/iour/op.rs:167-171] *)
Definition RecvFrom_create_entry {T} `{!IoBuf T, !IoBufMut T} (self : RecvFrom T) :
    outcome (sqe_body * RecvFrom T) :=
  '(e, m) ← RecvMsg_create_entry (recv_from_inner self); Done (e, mkRecvFrom m).

(** [src/src/driver/iour/op.rs:182-185] *)
Record SendTo (T : Type) := mkSendTo { send_to_inner : SendMsgImpl FdOrFixed (BufWrapper T) }.
Arguments mkSendTo {T}.
Arguments send_to_inner {T}.

(** [src/src/driver/iour/op.rs:187-194] *)
Definition SendTo_new {G T} `{!IoBuf T} (into : G → FdOrFixed) (fd : G) (buffer : T) (addr : SockAddr) :
    outcome (SendTo T) :=
  b ← BufWrapper_from buffer; Done (mkSendTo (SendMsg_new into fd b addr)).

(** [src/src/driver/iour/op.rs:196-202] *)
Definition SendTo_into_inner {T} `{!IoBuf T} (self : SendTo T) : T :=
  BufWrapper_into_inner (SendMsg_into_inner (send_to_inner self)).

(** [src/src/driver/iour/op.rs:204-208] *)
Definition SendTo_create_entry {T} `{!IoBuf T} (self : SendTo T) : outcome (sqe_body * SendTo T) :=
  '(e, m) ← SendMsg_create_entry (send_to_inner self); Done (e, mkSendTo m).

(** [src/src/driver/iour/op.rs:219-230] *)
Record Timeout := mkTimeout { timeout_timespec : Timespec }.

Definition TimeoutFlags_BOOTTIME : Z := 4.
Definition TimeoutFlags_ETIME_SUCCESS : Z := 32.

(** [src/src/driver/iour/op.rs:234-239] *)
Definition Timeout_FLAGS : Z := Z.lor TimeoutFlags_BOOTTIME TimeoutFlags_ETIME_SUCCESS.

(** [src/src/driver/iour/op.rs:241-245] *)
Definition Timeout_new (delay : Z) : Timeout := mkTimeout (timespec delay).

(** [src/src/driver/iour/op.rs:248-255] *)
Definition Timeout_create_entry (self : Timeout) : outcome sqe_body :=
  Done (SqTimeout (timeout_timespec self) Timeout_FLAGS).

(** [src/src/driver/iour/op.rs:257-262] *)
Definition Fd_create_entry (self : Fd) : outcome sqe_body := Done (SqClose (as_raw_fd self)).

(** [src/src/driver/iour/op.rs:264-277] *)
Definition Option_create_entry {T} (into_raw_fd : T → Z) (self : option T) : outcome (sqe_body * option T) :=
  match self with
  | Some t => Done (SqClose (into_raw_fd t), None)
  | None => Panic
  end.

(** ** [dyn OpCode]: the operations over one type of buffers *)

Inductive AnyOp (T V : Type) :=
| OpRead (o : Read FdOrFixed T) | OpReadAt (o : ReadAt FdOrFixed T) | OpWrite (o : Write FdOrFixed T)
| OpWriteAt (o : WriteAt FdOrFixed T) | OpSync (o : Sync FdOrFixed) | OpAccept (o : Accept FdOrFixed)
| OpConnect (o : Connect FdOrFixed) | OpRecv (o : Recv FdOrFixed T)
| OpRecvVectored (o : RecvVectoredImpl FdOrFixed V) | OpSend (o : Send FdOrFixed T)
| OpSendVectored (o : SendVectoredImpl FdOrFixed V) | OpRecvFrom (o : RecvFrom T)
| OpRecvMsg (o : RecvMsgImpl FdOrFixed V) | OpSendTo (o : SendTo T) | OpSendMsg (o : SendMsgImpl FdOrFixed V)
| OpTimeout (o : Timeout) | OpCloseFd (o : Fd) | OpClose (o : option Fd).
Arguments OpRead {T V}. Arguments OpReadAt {T V}. Arguments OpWrite {T V}. Arguments OpWriteAt {T V}.
Arguments OpSync {T V}. Arguments OpAccept {T V}. Arguments OpConnect {T V}. Arguments OpRecv {T V}.
Arguments OpRecvVectored {T V}. Arguments OpSend {T V}. Arguments OpSendVectored {T V}.
Arguments OpRecvFrom {T V}. Arguments OpRecvMsg {T V}. Arguments OpSendTo {T V}.
Arguments OpSendMsg {T V}. Arguments OpTimeout {T V}. Arguments OpCloseFd {T V}. Arguments OpClose {T V}.

Section any_op.
Context {T V : Type} `{!IoBuf T, !IoBufMut T, !AsIoSlices V, !AsIoSlicesMut V}.

Definition any_create_entry (a : AnyOp T V) : outcome (sqe_body * AnyOp T V) :=
  let same (m : outcome sqe_body) := e ← m; Done (e, a) in
  match a with
  | OpRead o => same (Read_create_entry o)
  | OpReadAt o => same (ReadAt_create_entry o)
  | OpWrite o => same (Write_create_entry o)
  | OpWriteAt o => same (WriteAt_create_entry o)
  | OpSync o => same (Sync_create_entry o)
  | OpAccept o => same (Accept_create_entry o)
  | OpConnect o => same (Connect_create_entry o)
  | OpRecv o => same (Recv_create_entry o)
  | OpRecvVectored o => same (RecvVectored_create_entry o)
  | OpSend o => same (Send_create_entry o)
  | OpSendVectored o => same (SendVectored_create_entry o)
  | OpRecvFrom o => '(e, o) ← RecvFrom_create_entry o; Done (e, OpRecvFrom o)
  | OpRecvMsg o => '(e, o) ← RecvMsg_create_entry o; Done (e, OpRecvMsg o)
  | OpSendTo o => '(e, o) ← SendTo_create_entry o; Done (e, OpSendTo o)
  | OpSendMsg o => '(e, o) ← SendMsg_create_entry o; Done (e, OpSendMsg o)
  | OpTimeout o => same (Timeout_create_entry o)
  | OpCloseFd o => same (Fd_create_entry o)
  | OpClose o => '(e, o) ← Option_create_entry as_raw_fd o; Done (e, OpClose o)
  end.

#[global] Instance AnyOp_OpCode {W} : OpCode (AnyOp T V) W := {|
  create_entry_op a w := '(e, a) ← any_create_entry a; Done (e, a, w) |}.
End any_op.

(** ** Properties *)

(** C35 The entries of the operations that transfer data through one buffer: a receiving operation is
    given the buffer's uninitialised part and a sending one its initialised bytes, at the offset
    asked for; the length is exact as long as it fits 32 bits. *)
Theorem entries_cover_buffers {T} `{!IoBuf T, !IoBufMut T, !IoBufMutSpec T} (b : T) (fd : FdOrFixed) offset :
  buf_wf b → (Z.of_nat (length (filled b) + spare b) < 2 ^ 32)%Z → is_usize offset →
  ∃ p, as_buf_ptr b = Done p ∧
    let t := apply_to_fd_or_fixed fd in
    let tail := (p + Z.of_nat (length (filled b)))%Z in
    let room := Z.of_nat (spare b) in
    let size := Z.of_nat (length (filled b)) in
    Read_create_entry (Read_new id fd b) = Done (SqRead t tail room None) ∧
    ReadAt_create_entry (ReadAt_new id fd offset b) = Done (SqRead t tail room (Some offset)) ∧
    Recv_create_entry (Recv_new id fd b) = Done (SqRecv t tail room) ∧
    Write_create_entry (Write_new id fd b) = Done (SqWrite t p size (filled b) None) ∧
    WriteAt_create_entry (WriteAt_new id fd offset b) = Done (SqWrite t p size (filled b) (Some offset)) ∧
    Send_create_entry (Send_new id fd b) = Done (SqSend t p size (filled b)).
Proof.
  intros Hwf Hlen Hoff. destruct (spec_ptr b Hwf) as (p & Hp & Hpm). exists p. split; [done|]. cbn zeta.
  assert (as_uninit_slice b = Done ((p + Z.of_nat (length (filled b)))%Z, spare b)) as Hu.
  { unfold as_uninit_slice. rewrite Hpm, (spec_len b Hwf), (spec_capacity b Hwf). simpl_outcome.
    unfold usize_sub. rewrite bool_decide_eq_true_2 by lia. cbn. repeat f_equal. lia. }
  pose proof (as_slice_filled b Hwf) as Hs.
  assert (∀ n, n ≤ length (filled b) + spare b → len_u32 n = Z.of_nat n) as Hn.
  { intros n Hn. unfold len_u32, as_u32. apply Z.mod_small. lia. }
  unfold Read_create_entry, ReadAt_create_entry, Recv_create_entry, Write_create_entry,
    WriteAt_create_entry, Send_create_entry. cbn. rewrite Hu, Hs, Hp. simpl_outcome.
  rewrite !Hn by lia. rewrite as_u64_id by done. done.
Qed.

Lemma entries_cover_buffers_witness :
  ∃ p, as_buf_ptr (vec_of [Byte.x61] 3) = Done p ∧
    Recv_create_entry (Recv_new id (Fd_into (from_raw 5)) (vec_of [Byte.x61] 3)) =
      Done (SqRecv (TFd 5) (p + 1)%Z 3%Z).
Proof.
  destruct (entries_cover_buffers (vec_of [Byte.x61] 3) (Fd_into (from_raw 5)) 0%Z (vec_of_wf _ _))
    as (p & Hp & _ & _ & Hr & _).
  - vm_compute. reflexivity.
  - unfold is_usize, usize_MAX. lia.
  - exists p. split; [exact Hp|exact Hr].
Defined.

(** A receive into a buffer whose free room is exactly 4 GiB asks the kernel for zero bytes: the
    length is cast to 32 bits, so that a result of 0, which means end of file, is to be expected. *)
Theorem receive_length_truncated {T} `{!IoBuf T, !IoBufMut T, !IoBufMutSpec T} (b : T) (fd : FdOrFixed) :
  buf_wf b → spare b = Z.to_nat (2 ^ 32) →
  ∃ p, Recv_create_entry (Recv_new id fd b) = Done (SqRecv (apply_to_fd_or_fixed fd) p 0%Z).
Proof.
  intros Hwf Hsp. destruct (spec_ptr b Hwf) as (p & _ & Hpm).
  exists (p + Z.of_nat (length (filled b)))%Z. unfold Recv_create_entry, as_uninit_slice. cbn.
  rewrite Hpm, (spec_len b Hwf), (spec_capacity b Hwf). simpl_outcome.
  unfold usize_sub. rewrite bool_decide_eq_true_2 by lia. cbn. unfold len_u32, as_u32.
  replace (length (filled b) + spare b - length (filled b)) with (spare b) by lia.
  rewrite Hsp, Z2Nat.id by lia. done.
Qed.

Lemma receive_length_truncated_witness :
  ∃ b : Vec_u8, ∃ p, Recv_create_entry (Recv_new id (Fd_into (from_raw 5)) b) = Done (SqRecv (TFd 5) p 0%Z).
Proof.
  exists (vec_of [] (Z.to_nat (2 ^ 32))).
  apply (receive_length_truncated (vec_of [] (Z.to_nat (2 ^ 32))) (Fd_into (from_raw 5)) (vec_of_wf _ _)).
  unfold spare, Vec_spec, raw_spec, vec_of.
  cbn [vec_raw raw_mem raw_len length app]. rewrite length_replicate. apply Nat.sub_0_r.
Defined.
