(* ===== verification/IourSpec.v ===== *)
(** * Properties of the io_uring driver

    The driver meets the submission contract of [CompleteIoSpec]; completions
    are translated to entries in order; registrations of fixed files
    accumulate in one asynchronous update. *)

From S2P Require Import Prelude Driver UnixOps Buf Iour.
From stdpp Require Import base numbers list.

Section iour_spec.
Context {Op R W : Type} `{!OpCode Op W, !IoUring R W, !IoUringLaws R W}.
Implicit Types (d : Driver R) (w : W) (o : OpObject Op).

(** ** The submission queue *)

Lemma create_entries_user_data ops : ∀ w es w',
  Forall (λ o, is_usize (user_data o)) ops → create_entries ops w = Done (es, w') →
  sqe_user_data <$> es = user_data <$> ops ∧ length es = length ops.
Proof.
  induction ops as [|o ops IH]; intros w es w' Hu E; cbn in E; [by simplify_eq|].
  apply Forall_cons in Hu as [Ho Hu].
  destruct (create_entry_op (op o) w) as [[[body op'] w1]| |]; simpl_outcome; try done.
  destruct (create_entries ops w1) as [[es1 w2]| |] eqn:E1; simpl_outcome; try done.
  simplify_eq. apply IH in E1 as [H1 H2]; [|done]. cbn. rewrite as_u64_id by done. split; congruence.
Qed.

Lemma push_capacity d e r :
  sq_push_entry e (inner d) = Ok r →
  0 < capacity_left d ∧ sq_entries r = sq_entries (inner d) ++ [e] ∧
  capacity_left (set_inner r d) = capacity_left d - 1.
Proof.
  intros E. pose proof (push_law e (inner d)) as Hp. rewrite E in Hp. destruct Hp as (? & He & Hc).
  unfold capacity_left, sq_len in *. cbn. rewrite He, Hc, length_app. cbn. split_and!; [lia|done|lia].
Qed.

Lemma push_full d e x :
  sq_push_entry e (inner d) = Err x → capacity_left d = 0.
Proof.
  intros E. pose proof (push_law e (inner d)) as Hp. rewrite E in Hp. unfold capacity_left. lia.
Qed.

#[global] Instance iour_CompleteIo : CompleteIo Op W (Driver R) Fd := {|
  ci_attach fd d w := (attach fd d, w);
  ci_try_cancel := try_cancel;
  ci_try_push_dyn := try_push_dyn;
  ci_push_queue := push_queue;
  ci_capacity_left := capacity_left;
  ci_submit := submit |}.

#[global] Instance iour_spec : CompleteIoSpec Op W (Driver R) Fd.
Proof.
  refine (@Build_CompleteIoSpec Op W (Driver R) Fd _ (λ d, sqe_user_data <$> sq_entries (inner d))
    (λ _, True) _ _ _ _); cbn; [|..|done|done].
  - intros o d w r d' w' _ Hu. unfold try_push_dyn.
    destruct (create_entry_op (op o) w) as [[[body op'] w1]| |]; simpl_outcome; try done.
    destruct (sq_push_entry _ (inner d)) as [r1|x] eqn:E; intros; simplify_eq; (split; [done|]).
    + apply push_capacity in E as (? & He & ?). cbn. rewrite He, fmap_app. cbn.
      by rewrite as_u64_id.
    + apply push_full in E. by split_and!.
  - intros q d w q' d' w' _ Hu. unfold push_queue. set (n := Nat.min _ _). case_bool_decide as Hn.
    + intros; simplify_eq. rewrite Hn. cbn. rewrite app_nil_r, Nat.sub_0_r. done.
    + destruct (create_entries (take n q) w) as [[es w1]| |] eqn:E; simpl_outcome; try done.
      apply create_entries_user_data in E as [Hes Hl]; [|by apply Forall_take].
      pose proof (push_multiple_law es (inner d)) as Hp.
      destruct (sq_push_multiple es (inner d)) as [r1|x]; [|done]. intros; simplify_eq.
      destruct Hp as (_ & He & Hc). rewrite length_take in Hl. split; [done|]. split; [done|]. cbn.
      rewrite He, fmap_app, Hes. split; [done|]. unfold capacity_left, sq_len. cbn.
      rewrite He, Hc, length_app. lia.
Defined.

(** C20 Pushing a queue of operations never overflows the ring: as many as fit are entered, in order,
    each with its own user data, the rest stay in the queue in order, and the call cannot panic
    for lack of room. *)
Theorem push_queue_fits q d w es w' :
  Forall (λ o, is_usize (user_data o)) q →
  let n := Nat.min (capacity_left d) (length q) in
  create_entries (take n q) w = Done (es, w') →
  ∃ d', push_queue q d w = Done (drop n q, d', w') ∧
    sq_entries (inner d') = sq_entries (inner d) ++ es ∧
    sqe_user_data <$> es = user_data <$> take n q ∧ capacity_left d' = capacity_left d - n.
Proof.
  intros Hu n E. unfold push_queue. fold n.
  pose proof (create_entries_user_data _ _ _ _ (Forall_take _ n _ Hu) E) as [Hes Hl].
  assert (n = Nat.min (capacity_left d) (length q)) as Hdef by done. clearbody n.
  rewrite length_take in Hl. case_bool_decide as Hn.
  - subst n. rewrite Hn in E, Hes |- *. rewrite take_0 in E, Hes |- *. cbn in E. simplify_eq.
    exists d. rewrite drop_0, app_nil_r, Nat.sub_0_r. done.
  - rewrite E. simpl_outcome. pose proof (push_multiple_law es (inner d)) as Hp.
    pose proof (uring_bound (inner d)).
    destruct (sq_push_multiple es (inner d)) as [r1|x].
    + destruct Hp as (_ & He & Hc). eexists. split; [done|]. split_and!; [done|done|].
      unfold capacity_left, sq_len. cbn. rewrite He, Hc, length_app. lia.
    + exfalso. unfold capacity_left in Hdef. lia.
Qed.

(** ** Completions *)

(** What a completion of a user's operation reports. *)
Definition reported (c : cqe) : option (io_result Z) :=
  if bool_decide (cqe_user_data c = FILES_UPDATE_KEY) then None
  else if bool_decide (cqe_result c = - ETIME)%Z then Some (Ok 0%Z)
  else if bool_decide (cqe_result c = - ENOENT ∨ cqe_result c = - EALREADY)%Z then None
  else if bool_decide (0 ≤ cqe_result c)%Z then Some (Ok (cqe_result c))
  else Some (Err (Os (- cqe_result c))).

Lemma complete_entry_spec c d :
  cqe_wf c → (complete_entry c d).1 = Entry_new (cqe_user_data c) <$> reported c.
Proof.
  intros [Hu Hr]. unfold complete_entry, reported. case_bool_decide; [done|]. rewrite as_u64_id by done.
  case_bool_decide; [done|].
  destruct (decide (cqe_result c = - ENOENT)%Z) as [He|He].
  { rewrite (bool_decide_eq_true_2 (_ = - ENOENT)%Z), (bool_decide_eq_true_2 (_ ∨ _)) by tauto. done. }
  destruct (decide (cqe_result c = - EALREADY)%Z) as [Ha|Ha].
  { rewrite (bool_decide_eq_true_2 (_ = - EALREADY)%Z), orb_true_r by done.
    rewrite (bool_decide_eq_true_2 (_ ∨ _)) by tauto. done. }
  rewrite !(bool_decide_eq_false_2 (_ = _)), (bool_decide_eq_false_2 (_ ∨ _)) by tauto. cbn.
  unfold create_entry. rewrite as_u64_id by done. repeat case_bool_decide; try lia; [done|].
  rewrite as_u64_id; [done|]. unfold is_usize, usize_MAX, is_i32 in *. lia.
Qed.

Lemma complete_all_spec cs : ∀ d,
  Forall cqe_wf cs →
  (complete_all cs d).1 = omap (λ c, Entry_new (cqe_user_data c) <$> reported c) cs ∧
  inner (complete_all cs d).2 = inner d ∧
  length (files_update_fds (complete_all cs d).2) = length (files_update_fds d) ∧
  (if bool_decide (Exists (λ c, cqe_user_data c = FILES_UPDATE_KEY) cs)
   then files_update_state (complete_all cs d).2 = NoUpdateInProgress ∧
        Forall (λ f, f = SKIP_FILE) (files_update_fds (complete_all cs d).2)
   else files_update_state (complete_all cs d).2 = files_update_state d ∧
        files_update_fds (complete_all cs d).2 = files_update_fds d).
Proof.
  induction cs as [|c cs IH]; intros d Hwf; [done|]. apply Forall_cons in Hwf as [Hc Hwf].
  pose proof (complete_entry_spec c d Hc) as He. cbn.
  assert (∃ d1, (complete_entry c d).2 = d1 ∧ inner d1 = inner d ∧
    length (files_update_fds d1) = length (files_update_fds d) ∧
    if bool_decide (cqe_user_data c = FILES_UPDATE_KEY)
    then files_update_state d1 = NoUpdateInProgress ∧ Forall (λ f, f = SKIP_FILE) (files_update_fds d1)
    else d1 = d) as (d1 & Hd1 & Hin & Hlen & Hst).
  { eexists. split; [done|]. unfold complete_entry.
    destruct (decide (cqe_user_data c = FILES_UPDATE_KEY)) as [Hk|Hk].
    1: rewrite !(bool_decide_eq_true_2 (_ = FILES_UPDATE_KEY)) by done; cbn.
    2: rewrite !(bool_decide_eq_false_2 (_ = FILES_UPDATE_KEY)) by done.
    - split; [done|]. rewrite length_fmap. split; [done|]. split; [done|]. by apply Forall_fmap, Forall_true.
    - by repeat case_match. }
  destruct (complete_entry c d) as [e d2]. cbn in *. subst d2.
  destruct (IH d1 Hwf) as (H1 & H2 & H3 & H4). destruct (complete_all cs d1) as [es d3]. cbn in *.
  split_and!; [|congruence|congruence|].
  - subst e es. by destruct (reported c).
  - destruct (decide (Exists (λ c, cqe_user_data c = FILES_UPDATE_KEY) cs)) as [Hex|Hex].
    + rewrite bool_decide_eq_true_2 in H4 by done. rewrite bool_decide_eq_true_2 by by right. done.
    + rewrite bool_decide_eq_false_2 in H4 by done. destruct H4 as [-> ->]. revert Hst.
      destruct (decide (cqe_user_data c = FILES_UPDATE_KEY)) as [Hk|Hk].
      * rewrite !bool_decide_eq_true_2; [done|by left|done].
      * rewrite !bool_decide_eq_false_2; [by intros ->|by intros [?|?]%Exists_cons|done].
Qed.

(** How a submit enters the kernel: it waits for one completion, for a time, or not at all. *)
Definition enter_for (timeout : option Z) : enter :=
  match timeout with
  | None => SubmitAndWait 1
  | Some 0%Z => SubmitOnly
  | Some t => SubmitWithArgs 1 (timespec t)
  end.

(** C19 Every submit enters the kernel once, with the queue the driver has and the wait its timeout asks
    for, drains the completion queue it then finds, once, and reports all of it: one entry per
    completion, in the order of the queue and under the operation's own user data, with the kernel's
    result (a negative result as the operating system's error, an expired timer as 0); only the
    driver's own file update and the results ENOENT and EALREADY are not reported.  An error of
    entering is returned unless it is one of the three that only say that nothing completed. *)
Theorem submit_reports_completions t d w res r1 w1 cs r2 w2 :
  uring_enter (enter_for t) (files_update_fds d) (sq_sync (inner d)) w = (res, r1, w1) →
  cq_drain r1 w1 = (cs, r2, w2) →
  ∃ d', submit t d w =
      Done (omap (λ c, Entry_new (cqe_user_data c) <$> reported c) cs,
            match res with
            | Ok _ => Ok tt
            | Err e => if bool_decide (raw_os_error e ∈ [Some ETIME; Some EBUSY; Some EAGAIN]) then Ok tt else Err e
            end, d', w2) ∧
    inner d' = r2 ∧ suffix (sq_entries (inner d')) (sq_entries (inner d)) ∧
    (if bool_decide (Exists (λ c, cqe_user_data c = FILES_UPDATE_KEY) cs)
     then files_update_state d' = NoUpdateInProgress ∧ Forall (λ f, f = SKIP_FILE) (files_update_fds d')
     else files_update_fds d' = files_update_fds d ∧
          files_update_state d' = match files_update_state d with Pushed => Submitted | st => st end).
Proof.
  intros Ee Ec. unfold submit, submit_impl, complete_entries.
  set (d1 := match files_update_state _ with Pushed => _ | _ => _ end).
  assert (inner d1 = sq_sync (inner d) ∧ files_update_fds d1 = files_update_fds d ∧
    files_update_state d1 = match files_update_state d with Pushed => Submitted | st => st end) as (Hin & Hfds & Hst)
    by (unfold d1; cbn; destruct (files_update_state d) eqn:E; cbn; by rewrite ?E).
  rewrite Hin, Hfds.
  set (how := match t with None => _ | Some _ => _ end).
  assert (how = enter_for t) as -> by (unfold how, enter_for; destruct t as [[|z|z]|]; [done|by rewrite bool_decide_eq_false_2..|done]).
  rewrite Ee. pose proof (enter_law _ _ _ _ _ _ _ Ee) as [Hsuf _]. pose proof (drain_law _ _ _ _ _ Ec) as (Hcs & Hd & _).
  pose proof (complete_all_spec cs (set_inner r2 (set_inner r1 d1)) Hcs) as (H1 & H2 & _ & H4).
  destruct (complete_all cs _) as [es d'] eqn:Ea. cbn in H1, H2, H4. subst es. exists d'. split.
  - destruct res as [n|e]; [cbn; by rewrite Ec, Ea|].
    assert (bool_decide (raw_os_error e = Some ETIME) || bool_decide (raw_os_error e = Some EBUSY)
      || bool_decide (raw_os_error e = Some EAGAIN) = bool_decide (raw_os_error e ∈ [Some ETIME; Some EBUSY; Some EAGAIN])) as ->.
    { apply eq_true_iff_eq. rewrite !orb_true_iff, !bool_decide_eq_true. rewrite !elem_of_cons, elem_of_nil. tauto. }
    destruct (bool_decide (raw_os_error e ∈ _)); cbn; by rewrite Ec, Ea.
  - split; [done|]. split; [rewrite H2, Hd; by destruct (sync_law (inner d)) as [<- _]|].
    case_bool_decide; [done|]. destruct H4 as [H4 H5]. split; congruence.
Qed.

(** ** Fixed files *)

(** Several registrations, one after the other. *)
Fixpoint register_all (regs : list (Z * Z)) d w : outcome (list (io_result unit) * Driver R * W) :=
  match regs with
  | [] => Done ([], d, w)
  | (id, fd) :: regs =>
      '(r, d, w) ← register_fd_impl fd id d w;
      '(rs, d, w) ← register_all regs d w;
      Done (r :: rs, d, w)
  end.

(** The table after the registrations. *)
Definition updated (fds : list Z) (regs : list (Z * Z)) : list Z :=
  foldl (λ t '(id, fd), <[Z.to_nat id := fd]> t) fds regs.

Lemma updated_length regs : ∀ fds, length (updated fds regs) = length fds.
Proof.
  unfold updated. induction regs as [|[id fd] regs IH]; intros fds; cbn; [done|].
  by rewrite IH, length_insert.
Qed.

(** A slot of the table after registrations: its last registration, or what was there. *)
Lemma updated_lookup regs fds i :
  i < length fds → Forall (λ '(id, _), 0 ≤ id)%Z regs →
  updated fds regs !! i =
    match last (filter (λ '(id, _), id = Z.of_nat i) regs) with
    | Some (_, fd) => Some fd
    | None => fds !! i
    end.
Proof.
  intros Hi. unfold updated. induction regs as [|[id fd] regs IH] using rev_ind; [done|].
  intros [Hall Hid]%Forall_app. apply Forall_inv in Hid. cbn in Hid.
  rewrite foldl_app, filter_app. cbn [foldl]. specialize (IH Hall).
  destruct (decide (id = Z.of_nat i)) as [->|Hne].
  - rewrite filter_cons_True, filter_nil, last_snoc by done. rewrite Nat2Z.id.
    apply list_lookup_insert_eq. change (i < length (updated fds regs)). by rewrite updated_length.
  - rewrite filter_cons_False, filter_nil, app_nil_r by done.
    rewrite list_lookup_insert_ne by lia. exact IH.
Qed.

Lemma register_pushed regs : ∀ d w,
  files_update_state d = Pushed → sq_len (inner d) < sq_capacity (inner d) →
  0 < length (files_update_fds d) →
  Forall (λ '(id, _), 0 ≤ id < Z.of_nat (length (files_update_fds d)))%Z regs →
  register_all regs d w =
    Done ((λ _, Ok tt) <$> regs, set_files (updated (files_update_fds d) regs) Pushed d, w).
Proof.
  induction regs as [|[id fd] regs IH]; intros d w Hst Hsq Hlen Hids; cbn.
  { unfold updated. cbn. destruct d; cbn in *. by subst. }
  apply Forall_cons in Hids as [Hid Hids].
  unfold register_fd_impl, rust_assert.
  rewrite (bool_decide_eq_true_2 (_ < _)), (bool_decide_eq_true_2 (_ < _)%Z) by lia. simpl_outcome.
  rewrite bool_decide_eq_false_2 by lia. rewrite Hst. cbn.
  rewrite IH; cbn; rewrite ?length_insert; try done.
Qed.

Lemma register_first id fd d w :
  files_update_state d = NoUpdateInProgress → sq_len (inner d) < sq_capacity (inner d) →
  (0 ≤ id < Z.of_nat (length (files_update_fds d)))%Z →
  (Z.of_nat (length (files_update_fds d)) ≤ u32_MAX)%Z →
  ∃ r, register_fd_impl fd id d w =
      Done (Ok tt, mkDriver r (squeue_buffer d) (<[Z.to_nat id := fd]> (files_update_fds d)) Pushed, w) ∧
    sq_entries r = sq_entries (inner d) ++
      [mkSqe (SqFilesUpdate (Z.of_nat (length (files_update_fds d)))) FILES_UPDATE_KEY] ∧
    sq_capacity r = sq_capacity (inner d).
Proof.
  intros Hst Hsq Hid Hmax. unfold register_fd_impl, rust_assert.
  rewrite (bool_decide_eq_true_2 (_ < _)), (bool_decide_eq_true_2 (_ < _)%Z) by lia. simpl_outcome.
  rewrite bool_decide_eq_false_2 by lia. rewrite Hst. cbn.
  rewrite length_insert, bool_decide_eq_true_2 by done. cbn.
  pose proof (push_law (mkSqe (SqFilesUpdate (Z.of_nat (length (files_update_fds d)))) FILES_UPDATE_KEY)
    (inner d)) as Hp.
  destruct (sq_push_entry _ (inner d)) as [r|]; [|lia]. exists r. split_and!; [done|apply Hp..].
Qed.

(** Fixed files registered between two submits travel in one asynchronous update: when no update
    is in flight and the ring has room for two more entries, any number of registrations succeeds
    without a system call and pushes a single entry that covers the whole table under the reserved
    key; in the table the kernel is shown on the next submit, each slot holds the descriptor it was
    last given and all others are skipped. *)
Theorem registrations_accumulate id fd regs d w :
  files_update_state d = NoUpdateInProgress → S (sq_len (inner d)) < sq_capacity (inner d) →
  Forall (λ f, f = SKIP_FILE) (files_update_fds d) →
  (Z.of_nat (length (files_update_fds d)) ≤ u32_MAX)%Z →
  Forall (λ '(i, _), 0 ≤ i < Z.of_nat (length (files_update_fds d)))%Z ((id, fd) :: regs) →
  ∃ d', register_all ((id, fd) :: regs) d w = Done ((λ _, Ok tt) <$> ((id, fd) :: regs), d', w) ∧
    sq_entries (inner d') = sq_entries (inner d) ++
      [mkSqe (SqFilesUpdate (Z.of_nat (length (files_update_fds d)))) FILES_UPDATE_KEY] ∧
    let table := updated (replicate (length (files_update_fds d)) SKIP_FILE) ((id, fd) :: regs) in
    files_update_fds d' = table ∧ files_update_state d' = Pushed ∧
    (∀ i, i < length (files_update_fds d) →
       table !! i = match last (filter (λ '(j, _), j = Z.of_nat i) ((id, fd) :: regs)) with
                    | Some (_, f) => Some f
                    | None => Some SKIP_FILE
                    end) ∧
    ∀ t, submit_impl t d' w = let how := match t with
           | None => SubmitAndWait 1
           | Some x => if bool_decide (x = 0)%Z then SubmitOnly else SubmitWithArgs 1 (timespec x)
           end in
      match uring_enter how table (inner d') w with
      | (Ok _, r, w') => (Ok tt, set_inner r d', w')
      | (Err e, r, w') =>
          (if bool_decide (raw_os_error e = Some ETIME) || bool_decide (raw_os_error e = Some EBUSY)
              || bool_decide (raw_os_error e = Some EAGAIN) then Ok tt else Err e, set_inner r d', w')
      end.
Proof.
  intros Hst Hsq Hskip Hmax Hids. apply Forall_cons in Hids as [Hid Hids].
  destruct (register_first id fd d w Hst ltac:(lia) Hid Hmax) as (r & E & Hr & Hc).
  cbn [register_all]. rewrite E. simpl_outcome.
  rewrite register_pushed; cbn; rewrite ?length_insert; try done; [|unfold sq_len in *|lia].
  2: { rewrite Hr, Hc, length_app. cbn. lia. }
  eexists. split; [done|]. cbn. split; [done|].
  assert (files_update_fds d = replicate (length (files_update_fds d)) SKIP_FILE) as Hrep.
  { symmetry. apply replicate_as_Forall. split; [done|]. eapply Forall_impl; [exact Hskip|done]. }
  split; [by rewrite <- Hrep|]. split; [done|]. split.
  { intros i Hi.
    pose proof (updated_lookup ((id, fd) :: regs) (replicate (length (files_update_fds d)) SKIP_FILE) i)
      as Hlk. rewrite length_replicate, lookup_replicate_2 in Hlk by done. apply Hlk; [done|].
    - apply Forall_cons. split; [lia|]. eapply Forall_impl; [exact Hids|]. intros [? ?]. lia. }
  unfold updated. cbn. rewrite <- Hrep.
  intros t. unfold submit_impl. cbn. destruct (uring_enter _ _ r w) as [[[n|e] r'] w']; [done|].
  by destruct (_ || _).
Qed.

End iour_spec.
