(* ===== verification/IourRuntime.v ===== *)
(** * The runtime on the io_uring driver

    The runtime hands references to leaked boxes to the driver.  With that the
    driver meets what the runtime relies on, for any ring that leaves the
    boxes allocated; and on a ring whose kernel completes what it is given
    ([RingServes]) it serves the runtime, so that programs end.  Two things
    that a kernel may do the code does not take: a failed wait ([EINTR])
    panics, and a completion with [-ENOENT] or [-EALREADY] is dropped.  They
    are the faults that the theorem names. *)

From S2P Require Import Prelude Driver Buf UnixOps Iour IourOps IourSpec.
From S2P Require Import Runtime RuntimeSpec Executor ExecutorLive KqueueRuntime.
From stdpp Require Import base numbers list gmap.

(** ** Operations behind references *)

Section references.
Context {Op W R : Type} `{!OpCode Op W, !IoUring R (World Op W), !IoUringLaws R (World Op W)}.

#[global] Instance ref_OpCode : OpCode Z (World Op W) := {|
  create_entry_op p w := deref p w (λ o,
    '(body, o, s) ← create_entry_op o (sys w); Done (body, p, mkWorld (<[p := o]> (boxes w)) s)) |}.

Lemma ref_create_entry_dom (p : Z) (w : World Op W) body p' w' :
  create_entry_op p w = Done (body, p', w') → dom (boxes w') = dom (boxes w).
Proof.
  cbn. unfold deref. destruct (boxes w !! p) as [o|] eqn:Hp; [|done].
  destruct (create_entry_op o (sys w)) as [[[b o1] s]| |]; simpl_outcome; try done.
  intros; simplify_eq. cbn. by rewrite dom_insert_lookup_L.
Qed.

Lemma ref_create_entries_dom (ops : list (OpObject Z)) : ∀ (w : World Op W) es w',
  create_entries ops w = Done (es, w') → dom (boxes w') = dom (boxes w).
Proof.
  induction ops as [|o ops IH]; intros w es w' E; [by cbn in E; simplify_eq|].
  cbn [create_entries] in E. destruct (create_entry_op (op o) w) as [[[b p] w1]| |] eqn:E1; try done.
  apply ref_create_entry_dom in E1. simpl_outcome.
  destruct (create_entries ops w1) as [[es1 w2]| |] eqn:E2; simpl_outcome; try done.
  simplify_eq. apply IH in E2. congruence.
Qed.

(** The kernel writes to the buffers of operations; it neither allocates nor frees boxes. *)
Class RingKeepsBoxes : Prop := {
  enter_keeps_boxes how mem (r : R) (w : World Op W) : dom (boxes (uring_enter how mem r w).2) = dom (boxes w);
  drain_keeps_boxes (r : R) (w : World Op W) : dom (boxes (cq_drain r w).2) = dom (boxes w);
}.
Context `{!RingKeepsBoxes}.

#[global] Instance iour_BoxesKept :
  @BoxesKept Op W (Driver R) Fd iour_CompleteIo iour_spec.
Proof.
  split; cbn -[create_entry_op].
  - intros t d w es r d' w'. unfold submit, submit_impl, complete_entries.
    set (how := match t with None => _ | Some _ => _ end). set (d1 := match files_update_state _ with Pushed => _ | _ => _ end).
    pose proof (enter_keeps_boxes how (files_update_fds d1) (inner d1) w) as H1.
    destruct (uring_enter how _ _ w) as [[res r1] w1]. cbn in H1.
    pose proof (drain_keeps_boxes r1 w1) as H2. destruct (cq_drain r1 w1) as [[cs r2] w2] eqn:Ec. cbn in H2.
    destruct res as [n|e]; [|destruct (_ || _ || _)]; cbn; rewrite Ec; destruct (complete_all _ _); intros; simplify_eq; congruence.
  - intros o d w r d' w'. unfold try_push_dyn.
    destruct (create_entry_op (op o) w) as [[[b p] w1]| |] eqn:E; simpl_outcome; try done.
    apply ref_create_entry_dom in E. case_match; intros; simplify_eq; done.
  - intros q d w q' d' w'. unfold push_queue. case_bool_decide; [by intros; simplify_eq|].
    destruct (create_entries _ w) as [[es w1]| |] eqn:E; simpl_outcome; try done.
    apply ref_create_entries_dom in E. case_match; intros; simplify_eq; done.
  - intros fd d w r d' w' [= <- <- <-]. done.
Qed.

(** ** A ring that serves *)

(** An entry of an operation; the others are those the driver makes for itself. *)
Definition user_entry (body : sqe_body) : Prop :=
  match body with SqAsyncCancel _ | SqFilesUpdate _ => False | _ => True end.

Context (kind : io_error → ErrorKind).

(** The errors of a wait that the driver passes on. *)
Definition fatal (res : io_result Z) : Prop :=
  match res with
  | Ok _ => False
  | Err e => raw_os_error e ≠ Some ETIME ∧ raw_os_error e ≠ Some EBUSY ∧ raw_os_error e ≠ Some EAGAIN
  end.

#[local] Instance fatal_dec res : Decision (fatal res).
Proof. destruct res; apply _. Defined.

(** [ring_out r] are the user data of what was pushed and has not been reaped, [ring_rank r] bounds the
    waits until something can be.  A push succeeds while there is room.  Entering the kernel to wait
    for a completion may fail, though not with a timeout, since none is given; otherwise the kernel may
    be busy, and what it completes was pushed before. *)
Class RingServes (ring_ok : R → Prop) (ring_out : R → gset Z) (ring_rank : R → nat) : Prop := {
  ring_push e r : ring_ok r → user_entry (sqe_op e) → is_usize (sqe_user_data e) → sqe_user_data e ∉ ring_out r →
    size (ring_out r) < sq_capacity r →
    ∃ r', sq_push_entry e r = Ok r' ∧ ring_ok r' ∧ ring_out r' = {[sqe_user_data e]} ∪ ring_out r;
  ring_wait mem r (w : World Op W) res r1 w1 cs r2 w2 : ring_ok r → ring_out r ≠ ∅ →
    uring_enter (SubmitAndWait 1) mem (sq_sync r) w = (res, r1, w1) → cq_drain r1 w1 = (cs, r2, w2) →
    if decide (fatal res) then match res with Ok _ => True | Err e => kind e ≠ TimedOut end
    else Forall (λ c, cqe_user_data c ∈ ring_out r) cs ∧
      ring_ok r2 ∧ ring_out r2 = ring_out r ∖ list_to_set (cqe_user_data <$> cs) ∧
      (cs = [] → ring_rank r2 < ring_rank r);
}.
Context (ring_ok : R → Prop) (ring_out : R → gset Z) (ring_rank : R → nat) `{!RingServes ring_ok ring_out ring_rank}.

(** What the next wait of the driver gives. *)
Definition waits (d : Driver R) (w : World Op W) (res : io_result Z) (cs : list cqe) : Prop :=
  ∃ r1 w1 r2 w2, uring_enter (SubmitAndWait 1) (files_update_fds d) (sq_sync (inner d)) w = (res, r1, w1) ∧
    cq_drain r1 w1 = (cs, r2, w2).

(** ** The two faults *)

(** The wait fails with an error the driver passes on. *)
Definition wait_fails (d : Driver R) (w : World Op W) : Prop :=
  ring_ok (inner d) ∧ ∃ res cs, waits d w res cs ∧ fatal res.

(** An operation completes with one of the two codes the driver takes for answers to cancellations. *)
Definition drops_completion (d : Driver R) (w : World Op W) : Prop :=
  ring_ok (inner d) ∧ ∃ res cs c, waits d w res cs ∧ c ∈ cs ∧ cqe_user_data c ∈ ring_out (inner d) ∧
    (cqe_result c = (- ENOENT)%Z ∨ cqe_result c = (- EALREADY)%Z).

Definition uring_fault (d : Driver R) (w : World Op W) : Prop :=
  wait_fails d w ∧ turn_panics (D := Driver R) (Fd := Fd) kind [] d w ∨ drops_completion d w.

(** An operation whose entry can be built. *)
Definition startable (o : Op) : Prop := ∀ s : W, ∃ body o' s', create_entry_op o s = Done (body, o', s') ∧ user_entry body.

(** No file registration is under way. *)
Definition no_update (d : Driver R) (w : World Op W) : Prop := ring_ok (inner d) ∧ FILES_UPDATE_KEY ∉ ring_out (inner d).

(** Completions of user operations become one entry each. *)
Lemma complete_all_keys cs : ∀ d : Driver R,
  Forall (λ c, cqe_wf c ∧ cqe_user_data c ≠ FILES_UPDATE_KEY ∧ cqe_result c ≠ (- ENOENT)%Z ∧ cqe_result c ≠ (- EALREADY)%Z) cs →
  ∃ es, complete_all cs d = (es, d) ∧ entry_user_data <$> es = cqe_user_data <$> cs.
Proof.
  induction cs as [|c cs IH]; intros d; [by exists []|].
  intros [([Hu _] & Hk & H1 & H2) Hcs]%Forall_cons. destruct (IH d Hcs) as (es & E & Hes).
  assert (∃ e, complete_entry c d = (Some e, d) ∧ entry_user_data e = cqe_user_data c) as (e & Ee & He).
  { unfold complete_entry. rewrite bool_decide_eq_false_2 by done. case_bool_decide; [eexists; split; [done|cbn; by apply as_u64_id]|].
    rewrite !bool_decide_eq_false_2 by done. cbn. eexists. split; [done|]. cbn. by apply as_u64_id. }
  exists (e :: es). cbn [complete_all]. rewrite Ee, E. cbn. by rewrite He, Hes.
Qed.

(** A turn of the driver, in terms of the wait and what it drains. *)
Lemma uring_turn (d : Driver R) (w : World Op W) res r1 w1 cs r2 w2 :
  uring_enter (SubmitAndWait 1) (files_update_fds d) (sq_sync (inner d)) w = (res, r1, w1) → cq_drain r1 w1 = (cs, r2, w2) →
  (∀ e, res = Err e → fatal res → kind e ≠ TimedOut → turn_panics (D := Driver R) (Fd := Fd) kind [] d w) ∧
  ∃ d1, sq_capacity (inner (set_inner r2 d1)) = sq_capacity (inner d) ∧
    (¬ fatal res → let '(es, d2) := complete_all cs (set_inner r2 d1) in turn kind [] d w = Some (es, [], d2, w2)).
Proof.
  intros Ee Ec. unfold turn_panics, turn. cbn. unfold push_queue. rewrite bool_decide_eq_true_2 by by rewrite Nat.min_0_r.
  cbn. unfold submit, submit_impl, complete_entries. set (d0 := match files_update_state _ with Pushed => _ | _ => _ end).
  assert (inner d0 = sq_sync (inner d) ∧ files_update_fds d0 = files_update_fds d) as [-> ->]
    by (unfold d0; cbn; by destruct (files_update_state d)).
  rewrite (bool_decide_eq_false_2 (0 < 0)) by lia. rewrite Ee. split.
  - intros e -> (H1 & H2 & H3) Hk. rewrite !bool_decide_eq_false_2 by done. cbn. rewrite Ec. by destruct (complete_all _ _).
  - exists (set_inner r1 d0). split.
    { cbn. pose proof (enter_law _ _ _ _ _ _ _ Ee) as [_ Hcap1]. pose proof (drain_law _ _ _ _ _ Ec) as (_ & _ & Hcap2).
      destruct (sync_law (inner d)). congruence. }
    intros Hf. destruct res as [n|e]; [cbn; rewrite Ec; by destruct (complete_all _ _)|].
    assert (bool_decide (raw_os_error e = Some ETIME) || bool_decide (raw_os_error e = Some EBUSY)
      || bool_decide (raw_os_error e = Some EAGAIN) = true) as ->.
    { unfold fatal in Hf. rewrite !orb_true_iff, !bool_decide_eq_true. destruct (decide (raw_os_error e = Some ETIME)); [tauto|].
      destruct (decide (raw_os_error e = Some EBUSY)); [tauto|]. destruct (decide (raw_os_error e = Some EAGAIN)); tauto. }
    cbn. rewrite Ec. by destruct (complete_all _ _).
Qed.

#[global] Instance iour_serves :
  DriverServes (D := Driver R) (Fd := Fd) kind Nat.lt uring_fault startable no_update (λ d, ring_out (inner d))
    (λ d, sq_capacity (inner d)) (λ d _, ring_rank (inner d)).
Proof.
  split.
  - apply lt_wf.
  - intros o d w x _ [Hrk Hok] Hu Hmax Hout Hx Hst Hroom. destruct (Hst (sys w)) as (body & x' & s' & Ex & Hb).
    cbn -[create_entry_op]. unfold try_push_dyn. cbn [create_entry_op ref_OpCode]. unfold deref. cbn. rewrite lookup_insert_eq, Ex. cbn.
    set (e := mkSqe body (as_u64 (user_data o))). assert (sqe_user_data e = user_data o) as He by by apply as_u64_id.
    destruct (ring_push e (inner d) Hrk Hb) as (r' & Er & Hrk' & Hr'); [by rewrite He|by rewrite He|done|]. rewrite Er. eexists _, _. split; [done|]. cbn.
    rewrite He in Hr'. unfold no_update. cbn. rewrite Hr'. split_and!; [done| |done|].
    + change FILES_UPDATE_KEY with usize_MAX in *. set_solver.
    + pose proof (push_law e (inner d)) as Hl. rewrite Er in Hl. apply Hl.
  - intros d w _ [Hrk Hok] Hne.
    destruct (uring_enter (SubmitAndWait 1) (files_update_fds d) (sq_sync (inner d)) w) as [[res r1] w1] eqn:Ee.
    destruct (cq_drain r1 w1) as [[cs r2] w2] eqn:Ec.
    destruct (uring_turn d w res r1 w1 cs r2 w2 Ee Ec) as [Hpanic (d1 & Hcap & Et)].
    assert (waits d w res cs) as Hw by by do 4 eexists.
    pose proof (ring_wait _ _ _ _ _ _ _ _ _ Hrk Hne Ee Ec) as Hwait. destruct (decide (fatal res)) as [Hf|Hf].
    { left. left. split; [by split; [|do 2 eexists]|]. destruct res as [|e]; [done|]. by apply (Hpanic e). }
    destruct Hwait as (Hcs & Hrk' & Hout & Hrank). rewrite Forall_forall in Hcs.
    destruct (decide (Exists (λ c, cqe_result c = - ENOENT ∨ cqe_result c = - EALREADY)%Z cs)) as [Hx|Hx].
    { left. right. apply Exists_exists in Hx as (c & Hc & Hx). split; [done|]. exists res, cs, c. split_and!; [done|done|by apply Hcs|done]. }
    right. rewrite <- Forall_Exists_neg in Hx. rewrite Forall_forall in Hx. pose proof (drain_law _ _ _ _ _ Ec) as (Hwf & _ & _).
    destruct (complete_all_keys cs (set_inner r2 d1)) as (es & Ea & Hes).
    { apply Forall_forall. intros c Hc. rewrite Forall_forall in Hwf. specialize (Hx c Hc).
      split_and!; [by apply Hwf| |tauto|tauto]. intros Heq. specialize (Hcs c Hc). by rewrite Heq in Hcs. }
    exists es, (set_inner r2 d1), w2. rewrite Ea in Et.
    assert (entry_keys es = list_to_set (cqe_user_data <$> cs)) as Hkeys by (unfold entry_keys; by rewrite Hes).
    split_and!; [by apply Et|split; cbn; [done|set_solver]|cbn; by rewrite Hkeys|done|].
    intros Hdis. cbn. apply Hrank. destruct cs as [|c cs]; [done|]. exfalso.
    assert (cqe_user_data c ∈ ring_out (inner d)) by (apply Hcs; left). rewrite Hkeys in Hdis. set_solver.
  - intros fd d w r d' w' _ Hok [= <- <- <-]. done.
Qed.

(** ** Programs end *)

Context {S A : Type} `{!AsyncTask, !Slab S, !SlabLaws S, !SlabRoom (S := S), !BoxAlloc Op W, !BoxAllocLaws Op W}.

(** C4 The whole stack on Linux: on a ring whose kernel completes what it is given, however late and in
    whatever order, every program that submits operations, at most as many at a time as the ring has
    room for, and awaits each of them ends under [block_on]: executor, futures, slab, driver and
    ring together lose no wake-up and leave no operation behind.  It does not end so only if, at a
    state that the program comes to, the wait for the kernel fails with an error other than the
    three the driver takes, and then [block_on] panics; or an operation completes with [-ENOENT] or
    [-EALREADY], whose completion the driver drops. *)
Theorem uring_block_on_ends (p : async Op Fd A) (d : Driver R) (w : World Op W) :
  (∀ t, ¬ task_completed t) → ring_ok (inner d) → ring_out (inner d) = ∅ → (Z.of_nat (sq_capacity (inner d)) ≤ usize_MAX)%Z →
  awaits_all startable (sq_capacity (inner d)) p ∅ 0 →
  ∃ N, ∀ fuel, N ≤ fuel →
    let x := task_block_on (S := S) run_block block_result kind fuel 0 None (Ok d) w (mkBlock (At p) ∅ 0 None) in
    (∃ a rt w' u, x = Some (Done (a, rt, w', u)) ∧ runnables rt = [] ∧ unqueued_cancels rt = [] ∧
       (∀ k, slab_get k (op_runtime rt) = None) ∧ dom (boxes w') = dom (boxes w)) ∨
    ∃ d' w', comes_to kind fresh_keys p 0 ∅ [] d w [] d' w' ∧ (x = Some Panic ∧ wait_fails d' w' ∨ drops_completion d' w').
Proof.
  intros Hlive Hok Hout Hcap Hp.
  destruct (block_on_ends kind Nat.lt uring_fault startable no_update (λ d, ring_out (inner d)) (λ d, sq_capacity (inner d))
    (λ d _, ring_rank (inner d)) Hlive p d w) as [N HN]; [done|split; [done|set_solver]|done..|].
  exists N. intros fuel Hf. destruct (HN fuel Hf) as [He|(d' & w' & Hd & Hfault & Hx)]; [by left|right].
  exists d', w'. split; [done|]. destruct Hfault as [[Hwf Hpan]|Hdr]; [left; split; [by apply Hx|done]|by right].
Qed.
End references.
