(* ===== verification/IourSim.v ===== *)
(** * The io_uring driver on a concrete ring

    A ring whose kernel executes everything that is submitted when it is
    entered, unless it is busy, with results that are given in advance: it
    shows that the laws of [IoUring] can hold, and runs the driver and the
    runtime on whole scenarios. *)

From S2P Require Import Prelude Driver Buf UnixOps Iour IourOps IourSpec.
From S2P Require Import Runtime RuntimeSpec Executor ExecutorLive KqueueRuntime IourRuntime.
From stdpp Require Import base numbers list gmap.

(** ** The ring *)

Record Ring := mkRing {
  ring_sq : list sqe; ring_cap : nat; ring_cq : list cqe; ring_files : list Z;
  ring_results : list Z; ring_busy : nat; ring_ok : length ring_sq ≤ ring_cap }.

Definition empty_ring (cap : nat) (files results : list Z) (busy : nat) : Ring :=
  mkRing [] cap [] files results busy (Nat.le_0_l cap).

Definition ring_push (es : list sqe) (r : Ring) : result Ring unit :=
  match decide (length (ring_sq r ++ es) ≤ ring_cap r) with
  | left H => Ok (mkRing (ring_sq r ++ es) (ring_cap r) (ring_cq r) (ring_files r) (ring_results r)
                    (ring_busy r) H)
  | right _ => Err tt
  end.

(** Applying a file update: slots given as [SKIP_FILE] are kept. *)
Definition apply_update (mem files : list Z) : list Z :=
  zip_with (λ f m, if bool_decide (m = SKIP_FILE) then f else m) files mem.

Fixpoint ring_exec (mem : list Z) (es : list sqe) (files results : list Z) : list cqe * list Z * list Z :=
  match es with
  | [] => ([], files, results)
  | e :: es =>
      let '(res, files, results) :=
        match sqe_op e with
        | SqFilesUpdate n => (n, apply_update mem files, results)
        | SqAsyncCancel _ => (- ENOENT, files, results)%Z
        | _ => (match results with res :: _ => res | [] => 0%Z end, files, tail results)
        end in
      let '(cs, files, results) := ring_exec mem es files results in
      (mkCqe (sqe_user_data e) res :: cs, files, results)
  end.

Definition ring_enter (mem : list Z) (r : Ring) : io_result Z * Ring :=
  match ring_busy r with
  | S n => (Err (Os EBUSY),
            mkRing (ring_sq r) (ring_cap r) (ring_cq r) (ring_files r) (ring_results r) n (ring_ok r))
  | 0 => let '(cs, files, results) := ring_exec mem (ring_sq r) (ring_files r) (ring_results r) in
         (Ok (Z.of_nat (length (ring_sq r))),
          mkRing [] (ring_cap r) (ring_cq r ++ cs) files results 0 (Nat.le_0_l _))
  end.

Definition ring_set_files (files : list Z) (r : Ring) : Ring :=
  mkRing (ring_sq r) (ring_cap r) (ring_cq r) files (ring_results r) (ring_busy r) (ring_ok r).

#[global] Instance Ring_IoUring {W} : IoUring Ring W := {|
  uring_new n w := (Ok (empty_ring (Z.to_nat n) [] [] 0), w);
  probe_socket_supported r w := (Ok true, w);
  register_files_sparse n r w := (Ok tt, ring_set_files (replicate (Z.to_nat n) (-1)%Z) r, w);
  register_files fds r w := (Ok tt, ring_set_files fds r, w);
  register_files_update id fds r w :=
    (Ok tt, ring_set_files (list_inserts (Z.to_nat id) fds (ring_files r)) r, w);
  sq_entries := ring_sq;
  sq_capacity := ring_cap;
  sq_sync r := r;
  sq_push_entry e r := ring_push [e] r;
  sq_push_multiple := ring_push;
  uring_enter how mem r w := let '(n, r) := ring_enter mem r in (n, r, w);
  cq_drain r w :=
    ((λ c, mkCqe (as_u64 (cqe_user_data c)) (as_i32 (cqe_result c))) <$> ring_cq r,
     mkRing (ring_sq r) (ring_cap r) [] (ring_files r) (ring_results r) (ring_busy r) (ring_ok r), w) |}.

#[global] Instance Ring_Laws {W} : IoUringLaws Ring W.
Proof.
  split; cbn.
  - intros r. exact (ring_ok r).
  - done.
  - intros e r. unfold ring_push, sq_len. cbn. pose proof (ring_ok r) as Hok.
    destruct (decide _) as [H|H]; cbn; rewrite length_app in H; cbn in H; [split_and!; [lia|done..]|].
    unfold sq_len in *. cbn. lia.
  - intros es r. unfold ring_push, sq_len. cbn. destruct (decide _) as [H|H]; cbn; rewrite length_app in H;
      [by split_and!|lia].
  - intros how mem r w n r' w'. unfold ring_enter. destruct (ring_busy r); cbn; [|by intros [= <- <- <-]].
    destruct (ring_exec _ _ _ _) as [[cs fs] rs]. intros [= <- <- <-]. cbn. split; [apply suffix_nil|done].
  - intros r w cs r' w' [= <- <- <-]. split; [|done]. apply Forall_fmap, Forall_true. intros c.
    split; cbn; auto with compio.
  - by intros id fds r w n r' w' [= <- <- <-].
Qed.

(** ** Scenarios *)

Notation RingOp := (AnyOp Vec_u8 (VectoredBufWrapper Vec_u8)).

Definition ring_driver (cap : nat) (files results : list Z) (busy : nat) : Driver Ring :=
  mkDriver (empty_ring cap (replicate (length files) (-1)%Z) results busy) []
    (replicate (length files) SKIP_FILE) NoUpdateInProgress.

Definition close_op (fd : Z) : RingOp := OpClose (Some (from_raw fd)).

(** Closing a file when the queue has no room left, and trying again. *)
Definition close_when_full : outcome (RingOp * outcome (result unit (OpObject RingOp))) :=
  let d : Driver Ring := ring_driver 0 [] [] 0 in
  '(r, d, w) ← try_push_dyn (OpObject_new (close_op 9) 1) d tt;
  match r with
  | Ok _ => Panic
  | Err o => Done (op o, '(r, _, _) ← try_push_dyn o d w; Done r)
  end.

(** Closing an [Option] when the submission queue is full loses the descriptor: the push is
    refused and hands the operation back, but building the entry has already taken the descriptor
    out of it, so that the file stays open and pushing the operation again panics. *)
Theorem close_lost_when_full : close_when_full = Done (OpClose None, Panic).
Proof. vm_compute. reflexivity. Qed.

Definition connect_op (fd : Z) : RingOp :=
  OpConnect (Connect_new Fd_into (from_raw fd) (mkSockAddr 64 [] 110)).

(** Connecting to a path that does not exist: the kernel completes the operation with ENOENT. *)
Definition connect_enoent : outcome (list Entry * list sqe * list cqe) :=
  '(_, d, w) ← try_push_dyn (OpObject_new (connect_op 4) 1) (ring_driver 8 [] [(- ENOENT)%Z] 0) tt;
  '(es, _, d, _) ← submit None d w;
  Done (es, ring_sq (inner d), ring_cq (inner d)).

(** An operation of the user that fails with ENOENT, such as connecting to a Unix socket whose path
    does not exist, is taken for the answer to a cancellation: it leaves both queues and no entry
    is ever emitted for it, so that whoever waits for it waits forever. *)
Theorem own_enoent_never_reported : connect_enoent = Done ([], [], []).
Proof. vm_compute. reflexivity. Qed.

(** Descriptor 10 is registered in slot 0; the submit that follows finds the kernel busy; then
    descriptor 20 is registered in the same slot, and the queue is submitted. *)
Definition register_twice : outcome (list Z * list Z) :=
  '(_, d, w) ← register_fd 10 0 (ring_driver 8 [0%Z] [] 1) tt;
  '(_, _, d, w) ← submit None d w;
  '(_, d, w) ← register_fd 20 0 d w;
  let before := ring_files (inner d) in
  '(_, _, d, w) ← submit None d w;
  Done (before, ring_files (inner d)).

(** A registration can be undone by an older one: when the submit that carries an asynchronous
    update is turned away by a busy kernel, the next registration of the same slot is made by a
    system call, and the update that is still queued then puts the older descriptor back. *)
Theorem stale_update_overrides : register_twice = Done ([20%Z], [10%Z]).
Proof. vm_compute. reflexivity. Qed.

(** ** The properties of the driver on this ring *)

Lemma push_queue_fits_witness :
  let q := [OpObject_new (connect_op 4) 1%Z; OpObject_new (connect_op 5) 2%Z] in
  ∃ es d', push_queue q (ring_driver 1 [] [] 0) tt = Done (drop 1 q, d', tt) ∧
    sq_entries (W := unit) (inner d') = es ∧ sqe_user_data <$> es = [1%Z].
Proof.
  intros q. destruct (create_entries (take 1 q) tt) as [[es w]| |] eqn:E; [|vm_compute in E; discriminate..].
  destruct (push_queue_fits q (ring_driver 1 [] [] 0) tt es w) as (d' & H1 & H2 & H3 & _).
  - repeat constructor; cbn; unfold usize_MAX; lia.
  - exact E.
  - destruct w. exists es, d'. split; [exact H1|]. split; [exact H2|exact H3].
Defined.

(** Three connects, of which one fails and one completes with the code of a cancellation. *)
Definition three_connects : Driver Ring :=
  let e i := mkSqe (SqConnect (TFd 4) 64 110) i in
  mkDriver (mkRing [e 1; e 2; e 3]%Z 4 [] [] [0; (- 111); (- ENOENT)]%Z 0 (Nat.le_succ_diag_r 3)) [] [] NoUpdateInProgress.

Lemma submit_reports_completions_witness :
  ∃ d', submit (W := unit) None three_connects tt = Done ([Entry_new 1 (Ok 0%Z); Entry_new 2 (Err (Os 111))], Ok tt, d', tt) ∧
    files_update_state d' = NoUpdateInProgress.
Proof.
  edestruct (submit_reports_completions (R := Ring) (W := unit) None three_connects tt) as (d' & E & _ & _ & Hst).
  - vm_compute. reflexivity.
  - vm_compute. reflexivity.
  - exists d'. split; [exact E|exact (proj2 Hst)].
Defined.

Lemma registrations_accumulate_witness :
  ∃ d', register_all (W := unit) [(0, 10); (2, 12); (0, 11)]%Z (ring_driver 8 [0; 0; 0]%Z [] 0) tt =
      Done ([Ok tt; Ok tt; Ok tt], d', tt) ∧
    files_update_fds d' = [11; SKIP_FILE; 12]%Z.
Proof.
  destruct (registrations_accumulate (W := unit) 0 10 [(2, 12); (0, 11)]%Z (ring_driver 8 [0; 0; 0]%Z [] 0) tt)
    as (d' & H1 & _ & H2 & _).
  - reflexivity.
  - vm_compute. lia.
  - repeat constructor.
  - vm_compute. discriminate.
  - repeat constructor; vm_compute; discriminate.
  - exists d'. split; [exact H1|exact H2].
Defined.

(** ** The runtime on this driver *)

#[global] Instance Ring_keeps_boxes {Op W} : RingKeepsBoxes (Op := Op) (W := W) (R := Ring).
Proof. split; [|done]. intros how mem r w. cbn. by destruct (ring_enter mem r). Qed.

Notation ring_runtime := (Runtime (list (option RegisteredOp)) (Driver Ring)).
Notation ring_world := (World RingOp unit).

Definition ring_kind (e : io_error) : ErrorKind := error_kind (λ _, OtherKind) e.

(** A connect that takes the only place of the submission queue. *)
Definition full_rt : ring_runtime * ring_world :=
  match rt_submit 1 (connect_op 4) (mkRuntime (ring_driver 1 [] [] 0) [] [] [] slab_empty) (mkWorld ∅ tt) with
  | Done (_, rt, w) => (rt, w)
  | _ => (mkRuntime (ring_driver 1 [] [] 0) [] [] [] slab_empty, mkWorld ∅ tt)
  end.

Lemma full_rt_wf : rt_wf full_rt.1 full_rt.2.
Proof.
  unfold full_rt. set (rt := mkRuntime _ [] [] [] slab_empty).
  assert (rt_wf (S := list (option RegisteredOp)) rt (mkWorld (∅ : gmap Z RingOp) tt)) as H0.
  { by apply rt_wf_init. }
  destruct (rt_submit 1 _ rt _) as [[[key rt'] w']| |] eqn:E; [|exact H0..].
  apply rt_submit_spec in E; [|apply _|exact H0]. cbn in *. tauto.
Qed.

Lemma queued_cancel_leaks_slot_witness :
  ∃ rt' w' op', rt_poll ring_kind (OpFuture_drop (Op := RingOp) (W := unit) (Fd := Fd) (OpFuture_new (Key_new 0)) full_rt.1) full_rt.2 =
      Done (rt', w') ∧
    slab_get 0%Z (op_runtime rt') = Some op' ∧ reg_op op' = Some 1%Z.
Proof.
  destruct (rt_poll ring_kind (OpFuture_drop (Op := RingOp) (W := unit) (Fd := Fd) (OpFuture_new (Key_new 0)) full_rt.1) full_rt.2)
    as [[rt' w']| |] eqn:E; [|vm_compute in E; discriminate..].
  destruct (queued_cancel_leaks_slot ring_kind 0 (RegisteredOp_new (Some 1%Z)) full_rt.1 full_rt.2 rt' w'
    (rt_driver full_rt.1) full_rt_wf ltac:(vm_compute; reflexivity) ltac:(reflexivity)
    ltac:(vm_compute; reflexivity) E) as (op' & H1 & H2 & _).
  exists rt', w', op'. split; [reflexivity|]. split; [exact H1|exact H2].
Defined.

(** ** This ring serves *)

Definition ring_outstanding (r : Ring) : gset Z := list_to_set (sqe_user_data <$> ring_sq r).

(** Nothing is left to reap, what is queued are operations with distinct user data, and the results are
    not errors. *)
Record ring_good (r : Ring) : Prop := {
  good_cq : ring_cq r = [];
  good_nodup : NoDup (sqe_user_data <$> ring_sq r);
  good_sq : Forall (λ e, user_entry (sqe_op e) ∧ is_usize (sqe_user_data e)) (ring_sq r);
  good_results : Forall (λ z, 0 ≤ z < 2 ^ 31)%Z (ring_results r);
}.

Lemma ring_exec_good mem es : ∀ files results cs files' results',
  Forall (λ e, user_entry (sqe_op e) ∧ is_usize (sqe_user_data e)) es → Forall (λ z, 0 ≤ z < 2 ^ 31)%Z results →
  ring_exec mem es files results = (cs, files', results') →
  cqe_user_data <$> cs = sqe_user_data <$> es ∧ Forall (λ c, is_usize (cqe_user_data c) ∧ 0 ≤ cqe_result c < 2 ^ 31)%Z cs ∧
  Forall (λ z, 0 ≤ z < 2 ^ 31)%Z results'.
Proof.
  induction es as [|e es IH]; intros files results cs files' results' Hes Hrs; cbn; [by intros [= <- <- <-]|].
  apply Forall_cons in Hes as [[Hu Hus] Hes].
  assert (∃ z, (match sqe_op e with
    | SqFilesUpdate n => (n, apply_update mem files, results)
    | SqAsyncCancel _ => (- ENOENT, files, results)%Z
    | _ => (match results with res :: _ => res | [] => 0%Z end, files, tail results)
    end) = (z, files, tail results) ∧ (0 ≤ z < 2 ^ 31)%Z) as (z & -> & Hz).
  { destruct (sqe_op e); try done; (eexists; split; [reflexivity|]); destruct Hrs; (lia || done). }
  destruct (ring_exec mem es files (tail results)) as [[cs1 fs1] rs1] eqn:E. intros [= <- <- <-].
  apply IH in E as (Hcs & Hgood & Hrs'); [|done|by destruct Hrs]. cbn. rewrite Hcs. by split_and!; [|constructor|].
Qed.

#[global] Instance Ring_serves {Op W} kind : RingServes (Op := Op) (W := W) kind ring_good ring_outstanding ring_busy.
Proof.
  split.
  - intros e r Hg Hu Hus Hout Hroom. cbn. unfold ring_push.
    assert (length (ring_sq r) < ring_cap r) as Hlen.
    { unfold ring_outstanding in Hroom. rewrite size_list_to_set, length_fmap in Hroom by apply Hg. exact Hroom. }
    destruct (decide _) as [H|H]; [|destruct H; rewrite length_app; cbn; lia]. eexists. split; [done|]. split.
    + split; cbn; try apply Hg.
      * rewrite fmap_app. apply NoDup_app. split; [apply Hg|]. split; [|apply NoDup_singleton].
        intros u Hin Hu'%list_elem_of_singleton. cbn in Hu'. subst u. apply Hout. by apply elem_of_list_to_set.
      * apply Forall_app. split; [apply Hg|]. constructor; [by split|constructor].
    + unfold ring_outstanding. cbn. rewrite fmap_app. cbn. set_solver.
  - intros mem r w res r1 w1 cs r2 w2 Hg Hout. cbn. unfold ring_enter. destruct (ring_busy r) as [|n] eqn:Hb.
    + destruct (ring_exec mem _ _ _) as [[cs0 fs] rs] eqn:E. intros [= <- <- <-] [= <- <- <-].
      apply ring_exec_good in E as (Hud & Hcs & Hrs); [|apply Hg|apply Hg]. cbn. rewrite (good_cq _ Hg). cbn.
      assert (Forall (λ c, cqe_user_data c = as_u64 (cqe_user_data c) ∧ cqe_result c = as_i32 (cqe_result c)) cs0) as Hid.
      { eapply Forall_impl; [exact Hcs|]. cbn. intros c [Hc1 Hc2]. split; [by rewrite as_u64_id|].
        rewrite as_i32_id; [done|unfold is_i32; lia]. }
      assert ((λ c, mkCqe (as_u64 (cqe_user_data c)) (as_i32 (cqe_result c))) <$> cs0 = cs0) as Hmap.
      { clear -Hid. induction Hid as [|c cs [H1 H2] _ IH]; cbn; [done|]. rewrite IH, <- H1, <- H2. by destruct c. }
      rewrite Hmap. split; [|split; [|split]].
      * apply Forall_forall. intros c Hc. unfold ring_outstanding. rewrite <- Hud. apply elem_of_list_to_set, list_elem_of_fmap. by exists c.
      * split; cbn; [done|constructor|constructor|done].
      * unfold ring_outstanding. rewrite Hud. cbn. set_solver.
      * intros ->. exfalso. apply Hout. unfold ring_outstanding. by rewrite <- Hud.
    + intros [= <- <- <-] [= <- <- <-]. cbn. rewrite (good_cq _ Hg). cbn. split; [constructor|].
      split; [split; cbn; try apply Hg; done|]. split; [unfold ring_outstanding; cbn; set_solver|]. intros _. lia.
Qed.

(** This kernel neither fails nor completes an operation with the codes of a cancellation. *)
Lemma ring_never_fails {Op W} d (w : World Op W) : ¬ wait_fails (Op := Op) (W := W) ring_good d w.
Proof.
  intros (_ & res & cs & (r1 & w1 & r2 & w2 & E & _) & Hf). revert E. cbn. unfold ring_enter. cbn.
  destruct (ring_busy _); [destruct (ring_exec _ _ _ _) as [[? ?] ?]|]; intros [= <- <- <-]; [done|]. by destruct Hf as (_ & ? & _).
Qed.

Lemma ring_never_drops {Op W} d (w : World Op W) : ¬ drops_completion (Op := Op) (W := W) ring_good ring_outstanding d w.
Proof.
  intros (Hg & res & cs & c & (r1 & w1 & r2 & w2 & E & Ec) & Hc & _ & Hx). revert E Ec. cbn. unfold ring_enter. cbn.
  destruct (ring_busy _).
  - destruct (ring_exec _ _ _ _) as [[cs0 fs] rs] eqn:Ex. intros [= <- <- <-] [= <- <- <-]. cbn in Hc.
    apply ring_exec_good in Ex as (_ & Hcs & _); [|apply Hg|apply Hg]. rewrite (good_cq _ Hg) in Hc. cbn in Hc.
    apply list_elem_of_fmap in Hc as (c0 & -> & Hc0). rewrite Forall_forall in Hcs. destruct (Hcs c0 Hc0) as [_ ?]. cbn in Hx.
    rewrite as_i32_id in Hx by (unfold is_i32; lia). unfold ENOENT, EALREADY in Hx. lia.
  - intros [= <- <- <-] [= <- <- <-]. cbn in Hc. rewrite (good_cq _ Hg) in Hc. by apply elem_of_nil in Hc.
Qed.

(** Two connects in flight on a ring that is busy twice, awaited in the other order. *)
Definition connect_both : async RingOp Fd (io_result Z * io_result Z) :=
  Spawn (connect_op 4) (λ t1, Spawn (connect_op 5) (λ t2,
    AwaitTask t2 (λ r2 _, AwaitTask t1 (λ r1 _, Return (r1, r2))))).

Lemma connect_startable fd : startable (W := unit) (connect_op fd).
Proof. intros s. eexists _, _, _. by split. Qed.

Lemma uring_block_on_ends_witness :
  ∃ fuel a rt w u, task_block_on (S := list (option RegisteredOp)) run_block (block_result (R := io_result Z * io_result Z))
      ring_kind fuel 0 None (Ok (ring_driver 2 [] [0; 0]%Z 2)) (mkWorld ∅ tt : ring_world) (mkBlock (At connect_both) ∅ 0 None) =
      Some (Done (a, rt, w, u)) ∧ dom (boxes w) = ∅.
Proof.
  destruct (uring_block_on_ends (Op := RingOp) (W := unit) (R := Ring) ring_kind ring_good ring_outstanding ring_busy
    (S := list (option RegisteredOp)) connect_both (ring_driver 2 [] [0; 0]%Z 2) (mkWorld ∅ tt)) as [N HN].
  - exact queue_tasks_live.
  - split; cbn; [reflexivity|constructor|constructor|repeat constructor; lia].
  - reflexivity.
  - vm_compute. discriminate.
  - split; [apply connect_startable|]. split; [vm_compute; lia|]. split; [apply connect_startable|]. split; [vm_compute; lia|].
    split; [vm_compute; tauto|]. intros r o. split; [vm_compute; tauto|]. intros r' o'. vm_compute. reflexivity.
  - destruct (HN N (le_n N)) as [(a & rt & w & u & E & _ & _ & _ & Hd)|(d' & w' & _ & Hf)].
    + exists N, a, rt, w, u. split; [exact E|exact Hd].
    + exfalso. destruct Hf as [[_ Hf]|Hf]; [exact (ring_never_fails _ _ Hf)|exact (ring_never_drops _ _ Hf)].
Defined.
