(* ===== verification/Iocp.v ===== *)
(** * The IOCP driver

    [src/driver/iocp/mod.rs].  A submitted operation is started ([operate]);
    it completes at once, becomes a timer, or is left to the kernel, which
    posts a packet to the completion port that refers to the operation's
    [OVERLAPPED].  [IocpOs] is what the driver asks of the system: the
    completion port, the memory behind an [OVERLAPPED] pointer, the clock and
    the translation of status codes. *)

From S2P Require Import Prelude BinaryHeap Driver TimerWheel.
From stdpp Require Import base numbers sorting sets list.

(** ** Windows types and constants *)

Definition STATUS_SUCCESS : Z := 0.
Definition STATUS_PENDING : Z := 259.
Definition ERROR_HANDLE_EOF : Z := 38.
Definition ERROR_NO_DATA : Z := 232.
Definition ERROR_IO_INCOMPLETE : Z := 996.
Definition FACILITY_NTWIN32 : Z := 7.
Definition ERROR_SEVERITY_ERROR : Z := 3221225472.
Definition INFINITE : Z := u32_MAX.
Definition INVALID_HANDLE_VALUE : Z := -1.
Definition FILE_SKIP_COMPLETION_PORT_ON_SUCCESS : Z := 1.
Definition FILE_SKIP_SET_EVENT_ON_HANDLE : Z := 2.

(** The fields of [OVERLAPPED] the crate uses: the status, a [usize], and the two halves of the file
    offset. *)
Record OVERLAPPED := mkOVERLAPPED { Internal : Z; Offset : Z; OffsetHigh : Z }.
Definition zeroed_OVERLAPPED : OVERLAPPED := mkOVERLAPPED 0 0 0.
Definition set_Internal (s : Z) (o : OVERLAPPED) : OVERLAPPED := mkOVERLAPPED s (Offset o) (OffsetHigh o).
Record OVERLAPPED_ENTRY := mkOVERLAPPED_ENTRY { lpOverlapped : Z; dwNumberOfBytesTransferred : Z }.

(** [src/src/driver/iocp/mod.rs:416-421] *)
Record Overlapped := mkOverlapped { base : OVERLAPPED; overlapped_user_data : Z }.

(** [src/src/driver/iocp/mod.rs:423-430] *)
Definition Overlapped_new (user_data : Z) : Overlapped := mkOverlapped zeroed_OVERLAPPED user_data.

(** [src/src/driver/iocp/mod.rs:106-128] *)
Record Fd := from_raw { raw_fd : Z }.

(** [src/src/driver/iocp/mod.rs:141-142] *)
Definition INVALID_FD : Fd := from_raw INVALID_HANDLE_VALUE.

(** [src/src/driver/iocp/mod.rs:147-164] [overlapped] is what the reference it returns refers to *)
Class OpCode (Op W : Type) := {
  operate : Op → Z → W → outcome (Poll (io_result Z) * Op * W);
  overlapped : Op → W → outcome OVERLAPPED;
  timer_delay : Op → W → outcome Z;
}.

#[global] Hint Mode OpCode ! ! : typeclass_instances.

(** [GetQueuedCompletionStatusEx] takes the port, the number of packets there is room for and the
    timeout in milliseconds; it returns the packets it removed with its result.  The system calls
    wrapped in [syscall!(BOOL, ..)] return the error of [GetLastError]. *)
Class IocpOs (W : Type) := {
  create_port : Z → Z → W → io_result Z * W;
  set_notification_modes : Z → Z → W → io_result unit * W;
  get_queued : Z → Z → Z → W → io_result unit * list OVERLAPPED_ENTRY * W;
  post_queued : Z → Z → Z → W → io_result unit * W;
  read_overlapped : Z → W → outcome Overlapped;
  nt_status_to_dos_error : Z → Z;
  instant_now : W → Z * W;
  instant_add : Z → Z → outcome Z;
}.

(** ** Status codes *)

(** [src/src/driver/iocp/mod.rs:276-282] [x] is an [i32] *)
Definition ntstatus_from_win32 (x : Z) : Z :=
  if bool_decide (x ≤ 0)%Z then x
  else Z.lor (Z.lor (Z.land x 65535) (as_i32 (Z.shiftl FACILITY_NTWIN32 16))) (as_i32 ERROR_SEVERITY_ERROR).

(** [src/src/driver/iocp/mod.rs:284-285] *)
Definition TIMER_PENDING : Z := usize_MAX - 2.

(** ** The driver *)

Section driver.
Context {Op W : Type} `{!OpCode Op W, !IocpOs W} (decode : Z → ErrorKind).

(** [src/src/driver/iocp/mod.rs:168-178] with the capacity of the two vectors *)
Record Driver := mkDriver {
  port : Z;
  squeue : list (OpObject Op);
  squeue_capacity : nat;
  squeue_drained_till : nat;
  iocp_entries : list OVERLAPPED_ENTRY;
  timers : TimerWheel;
}.

Definition set_squeue (q : list (OpObject Op)) (d : Driver) : Driver :=
  mkDriver (port d) q (squeue_capacity d) (squeue_drained_till d) (iocp_entries d) (timers d).
Definition set_drained (n : nat) (d : Driver) : Driver :=
  mkDriver (port d) (squeue d) (squeue_capacity d) n (iocp_entries d) (timers d).
Definition set_entries (es : list OVERLAPPED_ENTRY) (d : Driver) : Driver :=
  mkDriver (port d) (squeue d) (squeue_capacity d) (squeue_drained_till d) es (timers d).
Definition set_timers (tw : TimerWheel) (d : Driver) : Driver :=
  mkDriver (port d) (squeue d) (squeue_capacity d) (squeue_drained_till d) (iocp_entries d) tw.

(** [src/src/driver/iocp/mod.rs:186-202] *)
Definition with_ (entries files_to_register : nat) (w : W) : io_result Driver * W :=
  match create_port INVALID_HANDLE_VALUE 0 w with
  | (Err e, w) => (Err e, w)
  | (Ok port, w) => (Ok (mkDriver port [] entries entries [] (with_capacity 16)), w)
  end.

(** [src/src/driver/iocp/mod.rs:181-184] with [DEFAULT_CAPACITY], line 166 *)
Definition new (w : W) : io_result Driver * W := with_ 1024 0 w.

(** [src/src/driver/iocp/mod.rs:410-414] *)
Definition Driver_as_raw_fd (d : Driver) : Z := port d.

(** [src/src/driver/iocp/mod.rs:204-230] [timeout] in nanoseconds *)
Definition poll_impl (timeout : option Z) (d : Driver) (w : W) : io_result unit * Driver * W :=
  let timeout := match timeout with
                 | Some timeout => as_u32 (timeout / 1000000)
                 | None => INFINITE
                 end in
  let '(res, received, w) := get_queued (port d) (Z.of_nat (length (iocp_entries d))) timeout w in
  let d := set_entries received d in
  match res with
  | Err err => if bool_decide (error_kind decode err = TimedOut) then (Ok tt, d, w) else (Err err, d, w)
  | Ok _ => (Ok tt, d, w)
  end.

(** [src/src/driver/iocp/mod.rs:232-249] *)
Definition create_entry (iocp_entry : OVERLAPPED_ENTRY) (w : W) : outcome Entry :=
  let transferred := dwNumberOfBytesTransferred iocp_entry in
  ov ← read_overlapped (lpOverlapped iocp_entry) w;
  let status := as_i32 (Internal (base ov)) in
  let res :=
    if bool_decide (status = STATUS_SUCCESS ∨ status = STATUS_PENDING) then Ok transferred
    else
      let error := nt_status_to_dos_error status in
      if bool_decide (error = ERROR_IO_INCOMPLETE ∨ error = ERROR_HANDLE_EOF ∨ error = ERROR_NO_DATA)
      then Ok 0%Z
      else Err (Os (as_i32 error)) in
  Done (Entry_new (overlapped_user_data ov) res).

(** [src/src/driver/iocp/mod.rs:252-274] [set_internal] writes the status into the [OVERLAPPED] at
    the address *)
Definition post_driver_raw (set_internal : Z → Z → W → W) (handle : Z) (result : io_result Z) (ov : Z) (w : W) :
    io_result unit * W :=
  let w := match result with
           | Err e => set_internal ov (as_u64 (ntstatus_from_win32 (default 0%Z (raw_os_error e)))) w
           | Ok _ => w
           end in
  post_queued handle (as_u32 (match result with Ok n => n | Err _ => 0%Z end)) ov w.

(** [src/src/driver/iocp/mod.rs:288-300] *)
Definition attach (fd : Z) (d : Driver) (w : W) : io_result Fd * Driver * W :=
  match create_port fd (port d) w with
  | (Err e, w) => (Err e, d, w)
  | (Ok _, w) =>
      let flags := Z.lor FILE_SKIP_COMPLETION_PORT_ON_SUCCESS FILE_SKIP_SET_EVENT_ON_HANDLE in
      match set_notification_modes fd flags w with
      | (Err e, w) => (Err e, d, w)
      | (Ok _, w) => (Ok (from_raw fd), d, w)
      end
  end.

(** [src/src/driver/iocp/mod.rs:302-305] *)
Definition register_fd (fd id : Z) (d : Driver) (w : W) : io_result Fd * Driver * W := attach fd d w.
(** [src/src/driver/iocp/mod.rs:307-310] *)
Definition unregister_fd (fixed_fd : Fd) (d : Driver) : io_result unit * Driver := (Ok tt, d).

(** [src/src/driver/iocp/mod.rs:312-323] *)
Definition try_cancel (u : Z) (d : Driver) : result unit unit * Driver :=
  (Ok tt, set_squeue (remove_first u (squeue d)) d).

(** [src/src/driver/iocp/mod.rs:357-360] *)
Definition capacity_left (d : Driver) : nat := squeue_drained_till d - length (squeue d).

(** [src/src/driver/iocp/mod.rs:325-336] *)
Definition try_push {O} (up : O → Op) (o : Operation O) (d : Driver) : result unit (Operation O) * Driver :=
  if bool_decide (0 < capacity_left d)
  then (Ok tt, set_squeue (squeue d ++ [OpObject_from_Operation up o]) d)
  else (Err o, d).

(** [src/src/driver/iocp/mod.rs:338-346] *)
Definition try_push_dyn (o : OpObject Op) (d : Driver) : result unit (OpObject Op) * Driver :=
  if bool_decide (0 < capacity_left d) then (Ok tt, set_squeue (squeue d ++ [o]) d) else (Err o, d).

(** [src/src/driver/iocp/mod.rs:348-355] *)
Definition push_queue (ops_queue : list (OpObject Op)) (d : Driver) : list (OpObject Op) * Driver :=
  let till := Nat.min (capacity_left d) (length ops_queue) in
  (drop till ops_queue, set_squeue (squeue d ++ take till ops_queue) d).

(** [src/src/driver/iocp/mod.rs:367-390] the iterator over the drained operations *)
Fixpoint operate_drained (idx : nat) (ops : list (OpObject Op)) (d : Driver) (w : W) :
    outcome (list Entry * Driver * W) :=
  match ops with
  | [] => Done ([], d, w)
  | operation :: ops =>
      let user_data := user_data operation in
      '(result, op', w) ← operate (op operation) user_data w;
      match result with
      | Ready result =>
          if bool_decide (result = Ok TIMER_PENDING) then
            delay ← timer_delay op' w;
            let '(now, w) := instant_now w in
            tw ← TimerWheel.insert (instant_add (W := W)) user_data delay now (timers d);
            operate_drained (S idx) ops (set_timers tw d) w
          else
            '(es, d, w) ← operate_drained (S idx) ops (set_drained (idx + 1) d) w;
            Done (Entry_new user_data result :: es, d, w)
      | Pending => operate_drained (S idx) ops d w
      end
  end.

(** [src/src/driver/iocp/mod.rs:400-404] the entries of the packets, in order *)
Fixpoint create_entries (es : list OVERLAPPED_ENTRY) (w : W) : outcome (list Entry) :=
  match es with
  | [] => Done []
  | e :: es => entry ← create_entry e w; rest ← create_entries es w; Done (entry :: rest)
  end.

(** [src/src/driver/iocp/mod.rs:362-407] *)
Definition submit (timeout : option Z) (d : Driver) (w : W) : outcome (list Entry * io_result unit * Driver * W) :=
  '(es1, d, w) ← operate_drained 0 (squeue d) (set_squeue [] d) w;
  let d := set_drained (squeue_capacity d) d in
  let '(timeout, w) :=
    match heap_peek (leb := Timer_leb) (timers d) with
    | Some _ => let '(now, w) := instant_now w in
                (till_next_timer_or_timeout timeout now (timers d), w)
    | None => (timeout, w)
    end in
  let '(res, d, w) := poll_impl timeout d w in
  let '(now, w) := instant_now w in
  let '(es2, tw) := expire_timers now (timers d) in
  es3 ← create_entries (iocp_entries d) w;
  Done (es1 ++ es2 ++ es3, res, set_entries [] (set_timers tw d), w).
End driver.
Arguments Driver : clear implicits.
