(* ===== verification/IocpSpec.v ===== *)
(** * Properties of the IOCP driver

    What a submit does with the operations and timers it has, what becomes of
    the packets of the completion port, and how a result that is posted to the
    port by hand arrives. *)

From S2P Require Import Prelude BinaryHeap Driver TimerWheel DriverQueue Iocp.
From stdpp Require Import base numbers sorting sets list.

(** ** Submitting *)

Section submitting.
Context {Op W : Type} `{!OpCode Op W, !IocpOs W} (decode : Z → ErrorKind).
Implicit Types (d : Driver Op) (w : W).

(** Every drained operation has an entry, was started and left to the kernel, or became a timer. *)
Lemma started_spec ops : ∀ idx d w es d' w',
  operate_drained idx ops d w = Done (es, d', w') →
  (squeue d' = squeue d ∧ squeue_capacity d' = squeue_capacity d ∧ iocp_entries d' = iocp_entries d ∧
   port d' = port d) ∧
  (wheel_wf (timers d) → wheel_wf (timers d')) ∧
  ∃ started ts, wheel_timers (timers d') ≡ₚ ts ++ wheel_timers (timers d) ∧
    user_data <$> ops ≡ₚ (entry_user_data <$> es) ++ started ++ (key <$> ts).
Proof.
  induction ops as [|o ops IH]; intros idx d w es d' w' E; cbn in E.
  { simplify_eq. split; [done|]. split; [done|]. by exists [], []. }
  destruct (operate (op o) _ w) as [[[res op'] w1]| |]; simpl_outcome; try done.
  destruct res as [res|].
  - case_bool_decide.
    + destruct (timer_delay op' _) as [delay| |]; simpl_outcome; try done.
      destruct (instant_now w1) as [now w2]. destruct (TimerWheel.insert _ _ _ _ _) as [tw| |] eqn:Ei; simpl_outcome; try done.
      destruct (insert_Done _ _ _ _ _ _ Ei) as (Hi & dl & _ & Hti). apply IH in E as (Hf & Hwf & st & ts & Ht & Hperm).
      split; [done|]. split.
      { intros. apply Hwf. cbn. by apply Hi. }
      exists st, (ts ++ [mkTimer (user_data o) dl]). split.
      { cbn in Ht. by rewrite Ht, Hti, <- app_assoc. }
      rewrite fmap_app. cbn. rewrite Hperm, !app_assoc. by rewrite Permutation_cons_append.
    + destruct (operate_drained _ _ _ _) as [[[es1 d1] w2]| |] eqn:E1; simpl_outcome; try done.
      simplify_eq. apply IH in E1 as (Hf & Hwf & st & ts & Ht & Hperm).
      split; [done|]. split; [done|]. exists st, ts. split; [done|]. cbn. by rewrite Hperm.
  - apply IH in E as (Hf & Hwf & st & ts & Ht & Hperm). split; [done|]. split; [done|].
    exists (user_data o :: st), ts. split; [done|]. cbn. rewrite Hperm. by rewrite Permutation_middle.
Qed.

(** [poll_impl] only replaces the packets. *)
Lemma poll_impl_spec t d w r d' w' :
  poll_impl decode t d w = (r, d', w') →
  squeue d' = squeue d ∧ squeue_capacity d' = squeue_capacity d ∧
  squeue_drained_till d' = squeue_drained_till d ∧ timers d' = timers d ∧
  ∃ ms w1, iocp_entries d' = (get_queued (port d) (Z.of_nat (length (iocp_entries d))) ms w1).1.2.
Proof.
  unfold poll_impl. intros E.
  set (ms := match t with Some _ => _ | None => _ end) in E.
  assert (iocp_entries d' = (get_queued (port d) (Z.of_nat (length (iocp_entries d))) ms w).1.2 ∧
    squeue d' = squeue d ∧ squeue_capacity d' = squeue_capacity d ∧
    squeue_drained_till d' = squeue_drained_till d ∧ timers d' = timers d) as (? & ? & ? & ? & ?).
  { destruct (get_queued _ _ ms w) as [[[[]|e] es] w1]; [by simplify_eq|].
    case_bool_decide; by simplify_eq. }
  split_and!; eauto.
Qed.

(** What a submit does: [es1] are the entries of operations that completed at once, [es2] those of
    timers, [es3] those of packets, [started] the operations left to the kernel. *)
Lemma submit_parts t d w es r d' w' :
  wheel_wf (timers d) → submit decode t d w = Done (es, r, d', w') →
  wheel_wf (timers d') ∧ squeue d' = [] ∧ squeue_capacity d' = squeue_capacity d ∧
  squeue_drained_till d' = squeue_capacity d ∧ iocp_entries d' = [] ∧
  ∃ es1 es2 es3 started packets ms w1, es = es1 ++ es2 ++ es3 ∧
    packets = (get_queued (port d) (Z.of_nat (length (iocp_entries d))) ms w1).1.2 ∧
    create_entries packets w' = Done es3 ∧
    (user_data <$> squeue d) ++ (key <$> wheel_timers (timers d)) ≡ₚ
      (entry_user_data <$> es1 ++ es2) ++ started ++ (key <$> wheel_timers (timers d')).
Proof.
  intros Hwf. unfold submit.
  destruct (operate_drained _ _ _ w) as [[[es1 d1] w1]| |] eqn:E1; simpl_outcome; try done.
  apply started_spec in E1 as ((Hsq & Hcap & Hie & Hport) & Hwf1 & st & ts & Ht & Hk). cbn in *.
  specialize (Hwf1 Hwf).
  destruct (match heap_peek _ with Some _ => _ | None => _ end) as [t1 w2].
  destruct (poll_impl decode t1 _ w2) as [[r1 d2] w3] eqn:E2.
  apply poll_impl_spec in E2 as (Hsq2 & Hcap2 & Hdr2 & Ht2 & ms & w4 & Hie2). cbn in *.
  destruct (instant_now w3) as [now w5]. destruct (expire_timers now (timers d2)) as [es2 tw] eqn:Eex.
  destruct (create_entries (iocp_entries d2) w5) as [es3| |] eqn:E3; simpl_outcome; try done.
  intros E. simplify_eq. rewrite Ht2 in Eex. apply expire_timers_keys in Eex as [Hwf' Hkt]; [|done]. cbn.
  split_and!; try congruence; try done. exists es1, es2, es3, st, (iocp_entries d2), ms, w4.
  split_and!; try done; [by rewrite Hie2, Hie, Hport|].
  assert ((key <$> ts) ++ (key <$> wheel_timers (timers d)) ≡ₚ
    (entry_user_data <$> es2) ++ (key <$> wheel_timers tw)) as Hk2 by (rewrite <- Hkt, Ht; by rewrite fmap_app).
  rewrite Hk, fmap_app, <- !app_assoc. apply Permutation_app_head. rewrite Hk2. apply Permutation_app_swap_app.
Qed.

(** What trying the operations gives, each under its user data. *)
Fixpoint tried (ops : list (OpObject Op)) w : list (Z * Poll (io_result Z)) :=
  match ops with
  | [] => []
  | o :: ops =>
      match operate (op o) (user_data o) w with
      | Done (res, _, w) =>
          (user_data o, res) :: tried ops (if bool_decide (res = Ready (Ok TIMER_PENDING)) then (instant_now w).2 else w)
      | _ => []
      end
  end.

(** An operation that is answered at once has an entry with its result, one that asks for a timer has
    a timer, and the others are left to the kernel. *)
Definition answered (x : Z * Poll (io_result Z)) : option Entry :=
  match x.2 with Ready res => if bool_decide (res = Ok TIMER_PENDING) then None else Some (Entry_new x.1 res) | Pending => None end.
Definition sets_timer (x : Z * Poll (io_result Z)) : option Z :=
  match x.2 with Ready res => if bool_decide (res = Ok TIMER_PENDING) then Some x.1 else None | Pending => None end.

Lemma drained_tried ops : ∀ idx d w es d' w',
  operate_drained idx ops d w = Done (es, d', w') →
  (tried ops w).*1 = user_data <$> ops ∧ es = omap answered (tried ops w) ∧
  ∃ ts, wheel_timers (timers d') ≡ₚ ts ++ wheel_timers (timers d) ∧ key <$> ts ≡ₚ omap sets_timer (tried ops w).
Proof.
  induction ops as [|o ops IH]; intros idx d w es d' w' E; cbn in E |- *.
  { simplify_eq. split_and!; try done. by exists []. }
  destruct (operate (op o) _ w) as [[[res op'] w1]| |]; simpl_outcome; try done. destruct res as [res|].
  - case_bool_decide as Hres.
    + rewrite (bool_decide_eq_true_2 (Ready res = _)) by by rewrite Hres. destruct (timer_delay op' _) as [delay| |]; simpl_outcome; try done.
      destruct (instant_now w1) as [now w2]. destruct (TimerWheel.insert _ _ _ _ _) as [tw| |] eqn:Ei; simpl_outcome; try done.
      destruct (insert_Done _ _ _ _ _ _ Ei) as (_ & dl & _ & Hti). apply IH in E as (H1 & H2 & ts & Ht & Hk). cbn.
      rewrite bool_decide_eq_true_2 by done. split_and!; [by rewrite H1|done|]. exists (ts ++ [mkTimer (user_data o) dl]). split.
      { cbn in Ht. by rewrite Ht, Hti, <- app_assoc. }
      rewrite fmap_app, Hk. symmetry. apply Permutation_cons_append.
    + rewrite (bool_decide_eq_false_2 (Ready res = _)) by congruence.
      destruct (operate_drained _ _ _ _) as [[[es1 d1] w2]| |] eqn:E1; simpl_outcome; try done. simplify_eq.
      apply IH in E1 as (H1 & -> & ts & Ht & Hk). cbn. rewrite bool_decide_eq_false_2 by done.
      split_and!; [by rewrite H1|done|by exists ts].
  - rewrite bool_decide_eq_false_2 by done. apply IH in E as (H1 & -> & ts & Ht & Hk). cbn. split_and!; [by rewrite H1|done|by exists ts].
Qed.

(** The wait a driver asks the port for: until the next timer, and no longer than it is told. *)
Definition wait_for (t : option Z) d w : option Z * W :=
  match heap_peek (leb := Timer_leb) (timers d) with
  | Some _ => let '(now, w) := instant_now w in (till_next_timer_or_timeout t now (timers d), w)
  | None => (t, w)
  end.
Definition millis (t : option Z) : Z := match t with Some t => as_u32 (t / 1000000) | None => INFINITE end.

(** C21 A [submit] of the IOCP driver that returns has tried every operation that was queued, once and in
    order.  The ones that were answered at once, with success or with an error, have their entry with
    that result; those that asked for a timer have one; the others are what the kernel was left with.
    Every timer, old or new, is in the wheel or has its entry, with the result 0; all other entries are
    those of the packets the port returned, in their order, to one call after the operations were
    tried, with the wait the timers allow.  The queue is empty with its full capacity available, and
    no packet is left behind. *)
Theorem iocp_submit_accounts t d w es r d' w' :
  wheel_wf (timers d) → submit decode t d w = Done (es, r, d', w') →
  wheel_wf (timers d') ∧ squeue d' = [] ∧ capacity_left d' = squeue_capacity d ∧ iocp_entries d' = [] ∧
  let tr := tried (squeue d) w in
  tr.*1 = user_data <$> squeue d ∧
  ∃ d1 w1 es2 es3, operate_drained 0 (squeue d) (set_squeue [] d) w = Done (omap answered tr, d1, w1) ∧
    es = omap answered tr ++ es2 ++ es3 ∧
    create_entries (get_queued (port d) (Z.of_nat (length (iocp_entries d))) (millis (wait_for t d1 w1).1) (wait_for t d1 w1).2).1.2 w' = Done es3 ∧
    Forall (λ e, entry_result e = Ok 0%Z) es2 ∧
    omap sets_timer tr ++ (key <$> wheel_timers (timers d)) ≡ₚ (entry_user_data <$> es2) ++ (key <$> wheel_timers (timers d')).
Proof.
  rename w into w0. intros Hwf E. pose proof (submit_parts _ _ _ _ _ _ _ Hwf E) as (? & Hsq & Hcap & Hdr & ? & _).
  split_and!; try done; [unfold capacity_left; rewrite Hsq, Hdr; cbn; lia|]. revert E. unfold submit.
  destruct (operate_drained _ _ _ w0) as [[[es1 d1] w1]| |] eqn:E1; simpl_outcome; try done.
  pose proof (started_spec _ _ _ _ _ _ _ E1) as ((_ & _ & Hie & Hport) & Hwf1 & _). specialize (Hwf1 Hwf).
  apply drained_tried in E1 as (H1 & -> & ts & Ht & Hk). cbn in Hie, Hport, Ht.
  cbn [timers set_drained]. destruct (wait_for t d1 w1) as [t1 w2] eqn:Et. unfold wait_for in Et. rewrite Et. fold (wait_for t d1 w1) in Et.
  unfold poll_impl. cbn. fold (millis t1). rewrite Hie, Hport.
  destruct (get_queued _ _ _ w2) as [[res pk] w3] eqn:Eq.
  intros E. assert (∃ r1, (let '(now, w) := instant_now w3 in let '(es2, tw) := expire_timers now (timers d1) in
    es3 ← create_entries pk w; Done (omap answered (tried (squeue d) w0) ++ es2 ++ es3, r1,
      set_entries [] (set_timers tw (set_entries pk (set_drained (squeue_capacity d1) d1))), w)) = Done (es, r, d', w')) as [r1 E'].
  { revert E. destruct res as [[]|e]; [|case_bool_decide]; intros E; eexists; exact E. }
  clear E. destruct (instant_now w3) as [now w4]. destruct (expire_timers now (timers d1)) as [es2 tw] eqn:Ex.
  destruct (create_entries pk w4) as [es3| |] eqn:E3; simpl_outcome; try done. simplify_eq.
  split; [done|]. exists d1, w1, es2, es3. rewrite Et. cbn. rewrite Eq. split_and!; try done.
  - apply expire_loop_spec in Ex as (_ & us & -> & _); [|done..]. by apply Forall_fmap, Forall_true.
  - apply expire_timers_keys in Ex as [_ Hkx]; [|done]. by rewrite <- Hkx, Ht, fmap_app, Hk.
Qed.

(** C40 The driver offers the port the number of packets it holds already instead of the room it has,
    and every submit leaves it none: if the system returns no more packets than it is offered room
    for, every entry a submit emits is that of an operation that was in the queue or of a timer, so
    an operation that was left to the kernel is never reported. *)
Theorem iocp_never_dequeues t d w es r d' w' :
  (∀ p n ms w, (0 ≤ n)%Z → (Z.of_nat (length (get_queued p n ms w).1.2) ≤ n)%Z) →
  wheel_wf (timers d) → iocp_entries d = [] → submit decode t d w = Done (es, r, d', w') →
  iocp_entries d' = [] ∧
  ∃ started, (user_data <$> squeue d) ++ (key <$> wheel_timers (timers d)) ≡ₚ
    (entry_user_data <$> es) ++ started ++ (key <$> wheel_timers (timers d')).
Proof.
  intros Hroom Hwf Hie E. apply submit_parts in E
    as (? & _ & _ & _ & ? & es1 & es2 & es3 & st & pk & ms & w1 & -> & Hpk & Hes & ?); [|done].
  assert (pk = []) as ->.
  { specialize (Hroom (port d) (Z.of_nat (length (iocp_entries d))) ms w1 ltac:(lia)). rewrite <- Hpk, Hie in Hroom.
    apply length_zero_iff_nil. cbn in Hroom. lia. }
  cbn in Hes. injection Hes as <-. rewrite app_nil_r. split; [done|]. by exists st.
Qed.

(** A submit without a timeout and without timers asks the port to wait for as long as it takes, also
    when it has entries of operations that completed at once to report. *)
Theorem submit_waits_when_done d w es1 d1 w1 es r d' w' :
  operate_drained 0 (squeue d) (set_squeue [] d) w = Done (es1, d1, w1) → wheel_timers (timers d1) = [] →
  submit decode None d w = Done (es, r, d', w') →
  w' = (instant_now (get_queued (port d) (Z.of_nat (length (iocp_entries d))) INFINITE w1).2).2.
Proof.
  intros E1 Ht. unfold submit. rewrite E1. cbn [outcome_bind mbind].
  destruct (heap_peek (timers (set_drained _ d1))) as [t|] eqn:Hp.
  { apply peek_timer in Hp. cbn in Hp. rewrite Ht in Hp. by apply elem_of_nil in Hp. }
  apply started_spec in E1 as ((_ & _ & Hie & Hport) & _). cbn in Hie, Hport.
  unfold poll_impl. cbn. rewrite Hie, Hport. destruct (get_queued _ _ INFINITE w1) as [[res pk] w2]. cbn.
  destruct res as [[]|e]; [|case_bool_decide]; destruct (instant_now w2) as [now w3]; destruct (expire_timers now _) as [es2 tw];
    destruct (create_entries _ w3); simpl_outcome; intros; by simplify_eq.
Qed.

(** ** The driver meets the submission contract *)

#[global] Instance iocp_CompleteIo : CompleteIo Op W (Driver Op) Fd := {|
  ci_attach := attach;
  ci_try_cancel := try_cancel;
  ci_try_push_dyn o d w := Done (try_push_dyn o d, w);
  ci_push_queue q d w := Done (push_queue q d, w);
  ci_capacity_left := capacity_left;
  ci_submit := submit decode |}.

(** A refused operation is given back as it was. *)
Lemma iocp_keeps_refused : keeps_refused (Op := Op) (W := W) (D := Driver Op) (Fd := Fd).
Proof. intros o d w o' d' w'. cbn. unfold try_push_dyn. case_bool_decide; [done|]. by intros [= <- <- <-]. Qed.

Definition driver_wf d : Prop :=
  length (squeue d) ≤ squeue_drained_till d ∧ squeue_drained_till d ≤ squeue_capacity d ∧
  wheel_wf (timers d).

#[global] Instance iocp_spec : CompleteIoSpec Op W (Driver Op) Fd.
Proof.
  refine (@Build_CompleteIoSpec Op W (Driver Op) Fd _ (λ d, user_data <$> squeue d) driver_wf _ _ _ _);
    cbn; unfold driver_wf, capacity_left.
  - intros o d w r d' w' (Hl & Hc & Hwf) _. unfold try_push_dyn, capacity_left. intros E. simplify_eq.
    case_bool_decide; simplify_eq; cbn; rewrite ?length_app, ?fmap_app; cbn; split_and!; auto; lia.
  - intros q d w q' d' w' (Hl & Hc & Hwf) _. unfold push_queue, capacity_left. intros E. simplify_eq. cbn.
    rewrite length_app, length_take, fmap_app. split_and!; auto; lia.
  - intros u d r d' (Hl & Hc & Hwf) E. unfold try_cancel in E. simplify_eq. cbn.
    pose proof (length_remove_first u (squeue d)). split_and!; auto; lia.
  - intros t d w es r d' w' (Hl & Hc & Hwf) E.
    apply submit_parts in E as (? & -> & -> & -> & _); [|done]. cbn. split_and!; auto; lia.
Defined.
End submitting.

(** ** Posting results by hand *)

Lemma ntstatus_facility x :
  (0 < x < 65536)%Z → Z.shiftr (ntstatus_from_win32 x) 16 = (-16377)%Z ∧ Z.land (ntstatus_from_win32 x) 65535 = x.
Proof.
  intros Hx. unfold ntstatus_from_win32. rewrite bool_decide_eq_false_2 by lia.
  assert (Z.land x 65535 = x) as Hl.
  { change 65535%Z with (Z.ones 16). rewrite Z.land_ones by lia. apply Z.mod_small. lia. }
  rewrite Hl. split.
  - rewrite !Z.shiftr_lor. rewrite (Z.shiftr_div_pow2 x) by lia. rewrite Z.div_small by lia. reflexivity.
  - rewrite !Z.land_lor_distr_l, Hl. change (Z.lor (Z.lor x 0) 0 = x). by rewrite !Z.lor_0_r.
Qed.

Lemma ntstatus_range x : (0 < x < 65536)%Z → (- 2 ^ 31 ≤ ntstatus_from_win32 x < 0)%Z.
Proof.
  intros [H _]%ntstatus_facility. rewrite Z.shiftr_div_pow2 in H by lia.
  change (2 ^ 16)%Z with 65536%Z in H. Z.to_euclidean_division_equations; lia.
Qed.

Lemma as_i32_as_u64 z : is_i32 z → as_i32 (as_u64 z) = z.
Proof.
  unfold is_i32, as_i32, as_u64. change (2 ^ 31)%Z with 2147483648%Z. change (2 ^ 32)%Z with 4294967296%Z.
  change (2 ^ 64)%Z with 18446744073709551616%Z. intros. Z.to_euclidean_division_equations; lia.
Qed.

Section posting.
Context {W : Type} `{!IocpOs W} (set_internal : Z → Z → W → W) (packets : Z → W → list OVERLAPPED_ENTRY).

(** Writing the status field changes nothing else; posting adds a packet with the count and the
    address that were given to the port, or fails, and does not touch the [OVERLAPPED]; a status of
    the facility NTWIN32 translates to its low half. *)
Class PostLaws : Prop := {
  internal_keeps_packets ov s h w : packets h (set_internal ov s w) = packets h w;
  post_adds_packet h n ov w : packets h (post_queued h n ov w).2 =
    packets h w ++ match (post_queued h n ov w).1 with Ok _ => [mkOVERLAPPED_ENTRY ov n] | Err _ => [] end;
  internal_written ov s w o :
    read_overlapped ov w = Done o →
    read_overlapped ov (set_internal ov s w) = Done (mkOverlapped (set_Internal s (base o)) (overlapped_user_data o));
  post_keeps_overlapped h n ov w : read_overlapped ov (post_queued h n ov w).2 = read_overlapped ov w;
  ntwin32_status s : Z.shiftr s 16 = (-16377)%Z → nt_status_to_dos_error s = Z.land s 65535;
}.
Context `{!PostLaws}.

(** The results that arrive as they were posted, and what the others become. *)
Definition arrives_as (result : io_result Z) : io_result Z :=
  match result with
  | Ok n => Ok (as_u32 n)
  | Err (Os x) =>
      if bool_decide (x = ERROR_IO_INCOMPLETE ∨ x = ERROR_HANDLE_EOF ∨ x = ERROR_NO_DATA) then Ok 0%Z
      else Err (Os x)
  | Err (Custom _) => Ok 0%Z
  end.

End posting.

(** ** A concrete completion port

    The state is one [OVERLAPPED] in memory, the packets in the port and the time; operations are
    reduced to what starting them does. *)

Record PortState := mkPortState { ps_overlapped : Overlapped; ps_packets : list OVERLAPPED_ENTRY; ps_now : Z }.

(** The address of the [OVERLAPPED]. *)
Definition ps_ptr : Z := 64.

#[global] Instance PortState_IocpOs : IocpOs PortState := {|
  create_port h p w := (Ok 5%Z, w);
  set_notification_modes h f w := (Ok tt, w);
  get_queued p n ms w :=
    let k := Z.to_nat n in
    ((Ok tt, take k (ps_packets w)), mkPortState (ps_overlapped w) (drop k (ps_packets w)) (ps_now w));
  post_queued h n ov w :=
    (Ok tt, mkPortState (ps_overlapped w) (ps_packets w ++ [mkOVERLAPPED_ENTRY ov n]) (ps_now w));
  read_overlapped ov w := if bool_decide (ov = ps_ptr) then Done (ps_overlapped w) else Undef;
  nt_status_to_dos_error s := if bool_decide (Z.shiftr s 16 = -16377)%Z then Z.land s 65535 else 317%Z;
  instant_now w := (ps_now w, mkPortState (ps_overlapped w) (ps_packets w) (ps_now w + 1));
  instant_add := add_nanos |}.

Definition PortState_set_internal (ov s : Z) (w : PortState) : PortState :=
  mkPortState (mkOverlapped (set_Internal s (base (ps_overlapped w))) (overlapped_user_data (ps_overlapped w)))
    (ps_packets w) (ps_now w).

#[global] Instance PortState_laws : PostLaws PortState_set_internal (λ _, ps_packets).
Proof.
  split; cbn; [done..| | |].
  - intros ov s w o. case_bool_decide; [|done]. by intros [= <-].
  - done.
  - intros s Hs. by rewrite bool_decide_eq_true_2.
Qed.

Inductive PortOp := Immediate (n : Z) | Delayed (delay : Z) | Started.

(** The kernel completes a started operation at once and posts its packet. *)
#[global] Instance PortOp_OpCode : OpCode PortOp PortState := {|
  operate o u w :=
    match o with
    | Immediate n => Done (Ready (Ok n), o, w)
    | Delayed _ => Done (Ready (Ok TIMER_PENDING), o, w)
    | Started => Done (Pending, o,
        mkPortState (Overlapped_new u) (ps_packets w ++ [mkOVERLAPPED_ENTRY ps_ptr 7]) (ps_now w))
    end;
  overlapped o w := match o with Started => Done zeroed_OVERLAPPED | _ => Panic end;
  timer_delay o w := match o with Delayed d => Done d | _ => Panic end |}.

Definition port_driver : Driver PortOp :=
  mkDriver 5 [mkOpObject (Immediate 3) 10; mkOpObject Started 11; mkOpObject (Delayed 0) 12] 4 4 [] (with_capacity 16).
Definition port_start : PortState := mkPortState (Overlapped_new usize_MAX) [] 100.

Lemma port_submit : ∃ d' w', submit (λ _, OtherKind) None port_driver port_start =
  Done ([Entry_new 10 (Ok 3%Z); Entry_new 12 (Ok 0%Z)], Ok tt, d', w').
Proof. eexists _, _. vm_compute. reflexivity. Defined.

Lemma port_driver_wheel : wheel_wf (timers port_driver).
Proof. apply heap_empty_wf. Qed.

Lemma iocp_submit_accounts_witness :
  ∃ d' es2 es3, [Entry_new 10 (Ok 3%Z); Entry_new 12 (Ok 0%Z)] = [Entry_new 10 (Ok 3%Z)] ++ es2 ++ es3 ∧
    [12%Z] ≡ₚ (entry_user_data <$> es2) ++ (key <$> wheel_timers (timers (d' : Driver PortOp))).
Proof.
  destruct port_submit as (d' & w' & E).
  destruct (iocp_submit_accounts _ _ _ _ _ _ _ _ port_driver_wheel E) as (_ & _ & _ & _ & _ & d1 & w1 & es2 & es3 & _ & H1 & _ & _ & H2).
  exists d', es2, es3. split; [exact H1|exact H2].
Defined.

Lemma iocp_never_dequeues_witness :
  ∃ d' started, [10; 11; 12]%Z ≡ₚ [10; 12]%Z ++ started ++ (key <$> wheel_timers (timers (d' : Driver PortOp))).
Proof.
  destruct port_submit as (d' & w' & E).
  destruct (λ H, iocp_never_dequeues _ _ _ _ _ _ _ _ H port_driver_wheel (eq_refl : iocp_entries port_driver = []) E)
    as (_ & st & H).
  - intros p n ms w Hn. cbn. rewrite length_take. lia.
  - exists d', st. exact H.
Defined.


(** One operation that completes at once. *)
Lemma submit_waits_when_done_witness :
  ∃ es d' w', submit (λ _, OtherKind) None (mkDriver 5 [mkOpObject (Immediate 3) 10] 4 4 [] (with_capacity 16)) port_start =
    Done (es, Ok tt, d', w') ∧ es ≠ [] ∧ w' = (instant_now (get_queued 5 0 INFINITE port_start).2).2.
Proof.
  eexists _, _, _. split; [vm_compute; reflexivity|]. split; [done|].
  refine (submit_waits_when_done (λ _, OtherKind) (mkDriver 5 [mkOpObject (Immediate 3) 10] 4 4 [] (with_capacity 16)) port_start
    _ _ _ _ (Ok tt) _ _ _ _ _); vm_compute; reflexivity.
Defined.
