(* ===== verification/IocpOps.v ===== *)
(** * The operations of the IOCP driver

    [src/driver/iocp/op.rs]: what each operation asks of Windows when it is
    started and how the answer is classified.  [Win32] is the interface to the
    system: a call returns its value, the code [GetLastError] then has, the
    number of bytes it reports and what it wrote before it returned.  The
    statics that cache extension functions are part of the state. *)

From S2P Require Import Prelude Driver TimerWheel Buf UnixOps Iocp.
From stdpp Require Import base numbers list.

(** ** System calls *)

Definition ERROR_PIPE_CONNECTED : Z := 535.
Definition ERROR_IO_PENDING : Z := 997.
Definition WSAENOTSOCK : Z := 10038.
Definition SOCKET_ERROR : Z := -1.
Definition INVALID_SOCKET : Z := usize_MAX.
Definition SO_UPDATE_ACCEPT_CONTEXT : Z := 28683.
Definition SO_UPDATE_CONNECT_CONTEXT : Z := 28688.
Definition SO_ERROR : Z := 4103.

Inductive wsa_guid := WSAID_ACCEPTEX | WSAID_CONNECTEX | WSAID_GETACCEPTEXSOCKADDRS.

(** Calls with the [Overlapped] they are given; lengths are [u32]. *)
Inductive win_req :=
| ReadFile (fd ptr len : Z) (ov : Overlapped)
| WriteFile (fd ptr len : Z) (data : list byte) (ov : Overlapped)
| WSAIoctl (fd : Z) (guid : wsa_guid)
| ConnectEx (fn fd addr addr_len : Z) (ov : Overlapped)
| AcceptEx (fn fd accept_fd storage remote_len : Z) (ov : Overlapped)
| GetAcceptExSockaddrs (fn storage remote_len : Z)
| Setsockopt (fd name : Z) (value : option Z)
| Getsockopt (fd name : Z)
| FlushFileBuffers (fd : Z)
| WSARecv (fd : Z) (slices : list io_slice) (count : Z) (ov : Overlapped)
| WSASend (fd : Z) (slices : list io_slice) (count : Z) (ov : Overlapped)
| WSARecvFrom (fd : Z) (slices : list io_slice) (count addr_len : Z) (ov : Overlapped)
| WSASendTo (fd : Z) (slices : list io_slice) (count addr addr_len : Z) (ov : Overlapped)
| SysConnectNamedPipe (fd : Z) (ov : Overlapped)
| SocketNew (domain ty : Z) (protocol : option Z)
| CloseHandle (fd : Z)
| Closesocket (fd : Z).

(** [out_data] goes to the data buffers, [out_addr] and [out_addr_len] to the address, [out_int] is an
    option value, a new socket or the offset of the remote address, [out_fn] an extension function. *)
Record winret := mkWinret {
  rv : Z; last_error : Z; transferred : Z; out_data : list byte; out_addr : list byte;
  out_addr_len : Z; out_int : Z; out_fn : option Z }.

(** The three statics of the file are cells of type [OnceLock]. *)
Class Win32 (W : Type) := {
  win32 : win_req → W → winret * W;
  once_get : wsa_guid → W → option (option Z);
  once_set : wsa_guid → option Z → W → W;
}.

(** [src/src/lib.rs:91-101] the macro syscall!: [failed] is the comparison of the result *)
Definition syscall (failed : Z → bool) (res last_os_error : Z) : io_result Z :=
  if failed res then Err (Os last_os_error) else Ok res.
(** [src/src/lib.rs:102-104] *)
Definition syscall_BOOL (res last_os_error : Z) : io_result Z := syscall (λ res, bool_decide (res = 0)%Z) res last_os_error.
(** [src/src/lib.rs:105-107] *)
Definition syscall_SOCKET (res last_os_error : Z) : io_result Z := syscall (λ res, bool_decide (res ≠ 0)%Z) res last_os_error.
(** [src/src/lib.rs:108-111] *)
Definition syscall_HANDLE (res last_os_error : Z) : io_result Z :=
  syscall (λ res, bool_decide (res = INVALID_HANDLE_VALUE)) res last_os_error.

(** ** Results *)

(** [src/src/driver/iocp/op.rs:44-55] [error] is [GetLastError()] *)
Definition winapi_result (error transferred : Z) : outcome (Poll (io_result Z)) :=
  _ ← rust_assert (bool_decide (error ≠ 0)%Z);
  Done (if bool_decide (error = ERROR_IO_PENDING) then Pending
        else if bool_decide (error = ERROR_IO_INCOMPLETE ∨ error = ERROR_HANDLE_EOF ∨
                             error = ERROR_PIPE_CONNECTED ∨ error = ERROR_NO_DATA)
        then Ready (Ok transferred)
        else Ready (Err (Os error))).

(** [src/src/driver/iocp/op.rs:57-64] *)
Definition win32_result (r : winret) (transferred : Z) : outcome (Poll (io_result Z)) :=
  if bool_decide (rv r = 0)%Z then winapi_result (last_error r) transferred else Done (Ready (Ok transferred)).

(** [src/src/driver/iocp/op.rs:70-77] *)
Definition win32_pending_result (r : winret) : outcome (Poll (io_result Z)) :=
  if bool_decide (rv r = 0)%Z then winapi_result (last_error r) 0 else Done Pending.

(** [src/src/driver/iocp/op.rs:79-86] *)
Definition winsock_result (r : winret) (transferred : Z) : outcome (Poll (io_result Z)) :=
  if bool_decide (rv r ≠ 0)%Z then winapi_result (last_error r) transferred else Done Pending.

Definition set_user_data (u : Z) (o : Overlapped) : Overlapped := mkOverlapped (base o) u.

(** The offset of a positional operation, in two halves. *)
Definition set_offset (offset : Z) (o : Overlapped) : Overlapped :=
  mkOverlapped (mkOVERLAPPED (Internal (base o)) (as_u32 (Z.land offset 4294967295)) (as_u32 (Z.shiftr offset 32)))
    (overlapped_user_data o).

Section operations.
Context {W : Type} `{!Win32 W}.
Notation started Op := (outcome (Poll (io_result Z) * Op * W)).

(** [src/src/driver/iocp/op.rs:88-106] *)
Definition get_wsa_fn (handle : Fd) (fguid : wsa_guid) (w : W) : io_result (option Z) * W :=
  let '(r, w) := win32 (WSAIoctl (raw_fd handle) fguid) w in
  (result_map (λ _, out_fn r) (syscall_SOCKET (rv r) (last_error r)), w).

(** [OnceLock::get_or_try_init] with [get_wsa_fn], and [ok_or_else]. *)
Definition extension_fn (fd : Fd) (guid : wsa_guid) (w : W) : io_result Z * W :=
  let '(f, w) :=
    match once_get guid w with
    | Some f => (Ok f, w)
    | None => match get_wsa_fn fd guid w with
              | (Ok f, w) => (Ok f, once_set guid f w)
              | (Err e, w) => (Err e, w)
              end
    end in
  (match f with
   | Err e => Err e
   | Ok None => Err (Custom Unsupported)
   | Ok (Some f) => Ok f
   end, w).

(** *** Reading and writing *)

Section buffers.
Context {T : Type} `{!IoBuf T, !IoBufMut T}.

(** [src/src/driver/iocp/op.rs:108-114] *)
Record Read := mkRead { read_fd : Fd; read_buffer : T; read_overlapped : Overlapped }.
(** [src/src/driver/iocp/op.rs:116-126] *)
Definition Read_new (fd : Fd) (buffer : T) : Read := mkRead fd buffer (Overlapped_new usize_MAX).
(** [src/src/driver/iocp/op.rs:128-134] *)
Definition Read_into_inner (self : Read) : T := read_buffer self.
(** [src/src/driver/iocp/op.rs:136-151] *)
Definition Read_operate (self : Read) (user_data : Z) (w : W) : started Read :=
  let ov := set_user_data user_data (read_overlapped self) in
  '(ptr, len) ← as_uninit_slice (read_buffer self);
  let '(r, w) := win32 (ReadFile (raw_fd (read_fd self)) ptr (as_u32 (Z.of_nat len)) ov) w in
  b ← poke_uninit (out_data r) (read_buffer self);
  res ← win32_pending_result r;
  Done (res, mkRead (read_fd self) b ov, w).
(** [src/src/driver/iocp/op.rs:153-155] *)
Definition Read_overlapped_ref (self : Read) : outcome OVERLAPPED := Done (base (read_overlapped self)).

(** [src/src/driver/iocp/op.rs:158-165] *)
Record ReadAt := mkReadAt {
  read_at_fd : Fd; read_at_offset : Z; read_at_buffer : T; read_at_overlapped : Overlapped }.
(** [src/src/driver/iocp/op.rs:167-178] *)
Definition ReadAt_new (fd : Fd) (offset : Z) (buffer : T) : ReadAt :=
  mkReadAt fd offset buffer (Overlapped_new usize_MAX).
(** [src/src/driver/iocp/op.rs:180-186] *)
Definition ReadAt_into_inner (self : ReadAt) : T := read_at_buffer self.
(** [src/src/driver/iocp/op.rs:188-208] *)
Definition ReadAt_operate (self : ReadAt) (user_data : Z) (w : W) : started ReadAt :=
  let ov := set_offset (read_at_offset self) (set_user_data user_data (read_at_overlapped self)) in
  '(ptr, len) ← as_uninit_slice (read_at_buffer self);
  let '(r, w) := win32 (ReadFile (raw_fd (read_at_fd self)) ptr (as_u32 (Z.of_nat len)) ov) w in
  b ← poke_uninit (out_data r) (read_at_buffer self);
  res ← win32_pending_result r;
  Done (res, mkReadAt (read_at_fd self) (read_at_offset self) b ov, w).
(** [src/src/driver/iocp/op.rs:210-212] *)
Definition ReadAt_overlapped_ref (self : ReadAt) : outcome OVERLAPPED := Done (base (read_at_overlapped self)).

(** [src/src/driver/iocp/op.rs:215-221] *)
Record Write := mkWrite { write_fd : Fd; write_buffer : T; write_overlapped : Overlapped }.
(** [src/src/driver/iocp/op.rs:223-233] *)
Definition Write_new (fd : Fd) (buffer : T) : Write := mkWrite fd buffer (Overlapped_new usize_MAX).
(** [src/src/driver/iocp/op.rs:235-241] *)
Definition Write_into_inner (self : Write) : T := write_buffer self.
(** [src/src/driver/iocp/op.rs:243-256] *)
Definition Write_operate (self : Write) (user_data : Z) (w : W) : started Write :=
  let ov := set_user_data user_data (write_overlapped self) in
  data ← as_slice (write_buffer self);
  ptr ← as_buf_ptr (write_buffer self);
  let '(r, w) := win32 (WriteFile (raw_fd (write_fd self)) ptr (as_u32 (Z.of_nat (length data))) data ov) w in
  res ← win32_pending_result r;
  Done (res, mkWrite (write_fd self) (write_buffer self) ov, w).
(** [src/src/driver/iocp/op.rs:258-260] *)
Definition Write_overlapped_ref (self : Write) : outcome OVERLAPPED := Done (base (write_overlapped self)).

(** [src/src/driver/iocp/op.rs:263-270] *)
Record WriteAt := mkWriteAt {
  write_at_fd : Fd; write_at_offset : Z; write_at_buffer : T; write_at_overlapped : Overlapped }.
(** [src/src/driver/iocp/op.rs:272-283] *)
Definition WriteAt_new (fd : Fd) (offset : Z) (buffer : T) : WriteAt :=
  mkWriteAt fd offset buffer (Overlapped_new usize_MAX).
(** [src/src/driver/iocp/op.rs:285-291] *)
Definition WriteAt_into_inner (self : WriteAt) : T := write_at_buffer self.
(** [src/src/driver/iocp/op.rs:293-311] *)
Definition WriteAt_operate (self : WriteAt) (user_data : Z) (w : W) : started WriteAt :=
  let ov := set_offset (write_at_offset self) (set_user_data user_data (write_at_overlapped self)) in
  data ← as_slice (write_at_buffer self);
  ptr ← as_buf_ptr (write_at_buffer self);
  let '(r, w) := win32 (WriteFile (raw_fd (write_at_fd self)) ptr (as_u32 (Z.of_nat (length data))) data ov) w in
  res ← win32_pending_result r;
  Done (res, mkWriteAt (write_at_fd self) (write_at_offset self) (write_at_buffer self) ov, w).
(** [src/src/driver/iocp/op.rs:313-315] *)
Definition WriteAt_overlapped_ref (self : WriteAt) : outcome OVERLAPPED := Done (base (write_at_overlapped self)).
End buffers.
Arguments Read : clear implicits.
Arguments ReadAt : clear implicits.
Arguments Write : clear implicits.
Arguments WriteAt : clear implicits.

(** *** Connecting and accepting *)

(** [src/src/driver/iocp/op.rs:320-325] *)
Record Connect := mkConnect { connect_fd : Fd; connect_addr : SockAddr; connect_overlapped : Overlapped }.
(** [src/src/driver/iocp/op.rs:328-335] *)
Definition Connect_new (fd : Fd) (addr : SockAddr) : Connect := mkConnect fd addr (Overlapped_new usize_MAX).
(** [src/src/driver/iocp/op.rs:346-359] *)
Definition Connect_update_context (self : Connect) (w : W) : io_result unit * W :=
  let '(r, w) := win32 (Setsockopt (raw_fd (connect_fd self)) SO_UPDATE_CONNECT_CONTEXT None) w in
  (result_map (λ _, tt) (syscall_SOCKET (rv r) (last_error r)), w).
(** [src/src/driver/iocp/op.rs:337-344] *)
Definition on_connect (self : Connect) (result : io_result Z) (w : W) : io_result unit * W :=
  match result with
  | Err e => (Err e, w)
  | Ok _ => Connect_update_context self w
  end.
(** [src/src/driver/iocp/op.rs:362-382] *)
Definition Connect_operate (self : Connect) (user_data : Z) (w : W) : started Connect :=
  let self := mkConnect (connect_fd self) (connect_addr self) (set_user_data user_data (connect_overlapped self)) in
  match extension_fn (connect_fd self) WSAID_CONNECTEX w with
  | (Err e, w) => Done (Ready (Err e), self, w)
  | (Ok fn, w) =>
      let '(r, w) := win32 (ConnectEx fn (raw_fd (connect_fd self)) (sa_ptr (connect_addr self))
                              (sa_len (connect_addr self)) (connect_overlapped self)) w in
      res ← win32_result r (transferred r);
      Done (res, self, w)
  end.
(** [src/src/driver/iocp/op.rs:384-386] *)
Definition Connect_overlapped_ref (self : Connect) : outcome OVERLAPPED := Done (base (connect_overlapped self)).

(** [src/src/driver/iocp/op.rs:389-394] *)
Record Sync := mkSync { sync_fd : Fd; datasync : bool }.
(** [src/src/driver/iocp/op.rs:396-409] *)
Definition Sync_new (fd : Fd) (datasync : bool) : Sync := mkSync fd datasync.
(** [src/src/driver/iocp/op.rs:411-415] *)
Definition Sync_operate (self : Sync) (user_data : Z) (w : W) : started Sync :=
  let '(r, w) := win32 (FlushFileBuffers (raw_fd (sync_fd self))) w in
  res ← win32_result r 0; Done (res, self, w).
(** [src/src/driver/iocp/op.rs:417-419] *)
Definition Sync_overlapped_ref (self : Sync) : outcome OVERLAPPED := Panic.

(** [src/src/driver/iocp/op.rs:436-440] *)
Record AcceptSocketOpts := mkAcceptSocketOpts { opt_domain : Z; opt_ty : Z; opt_protocol : option Z }.
(** [src/src/driver/iocp/op.rs:425-434] *)
Record Accept := mkAccept {
  accept_listener : Fd; accept_fd : Z; accept_sock_opts : option AcceptSocketOpts; accept_addr : SockAddr;
  accept_overlapped : Overlapped }.

(** A zeroed address at [ptr], as long as its storage. *)
Definition zeroed_sockaddr (ptr : Z) : SockAddr := mkSockAddr ptr zeroed_storage size_of_sockaddr_storage.

(** [src/src/driver/iocp/op.rs:445-465] *)
Definition Accept_with_socket_opts (ptr : Z) (fd : Fd) (domain ty : Z) (protocol : option Z) : Accept :=
  mkAccept fd INVALID_SOCKET (Some (mkAcceptSocketOpts domain ty protocol)) (zeroed_sockaddr ptr)
    (Overlapped_new usize_MAX).
(** [src/src/driver/iocp/op.rs:467-483] *)
Definition Accept_init_with_socket_opts (self : Accept) (fd : Fd) (domain ty : Z) (protocol : option Z) : Accept :=
  mkAccept fd INVALID_SOCKET (Some (mkAcceptSocketOpts domain ty protocol)) (accept_addr self)
    (Overlapped_new usize_MAX).
(** [src/src/driver/iocp/op.rs:485-499] *)
Definition Accept_new (ptr : Z) (fd : Fd) (accept_fd : Z) : Accept :=
  mkAccept fd accept_fd None (zeroed_sockaddr ptr) (Overlapped_new usize_MAX).

(** [src/src/driver/iocp/op.rs:513-526] *)
Definition Accept_update_context (self : Accept) (w : W) : io_result unit * W :=
  let '(r, w) := win32 (Setsockopt (accept_fd self) SO_UPDATE_ACCEPT_CONTEXT
                          (Some (raw_fd (accept_listener self)))) w in
  (result_map (λ _, tt) (syscall_SOCKET (rv r) (last_error r)), w).

(** [src/src/driver/iocp/op.rs:528-562] the remote address lies in the storage, [out_int] bytes from its
    start, and is moved to the start *)
Definition as_sockaddr (self : Accept) (w : W) : io_result SockAddr * Accept * W :=
  match extension_fn (accept_listener self) WSAID_GETACCEPTEXSOCKADDRS w with
  | (Err e, w) => (Err e, self, w)
  | (Ok fn, w) =>
      let '(r, w) := win32 (GetAcceptExSockaddrs fn (sa_ptr (accept_addr self)) size_of_sockaddr_storage) w in
      let storage := sa_storage (accept_addr self) in
      let n := Z.to_nat (out_addr_len r) in
      let storage :=
        if bool_decide (out_int r ≠ 0)%Z
        then take n (drop (Z.to_nat (out_int r)) storage) ++ drop n storage
        else storage in
      let addr := mkSockAddr (sa_ptr (accept_addr self)) storage (out_addr_len r) in
      (Ok addr,
       mkAccept (accept_listener self) (accept_fd self) (accept_sock_opts self) addr (accept_overlapped self), w)
  end.

(** Dropping a socket closes it. *)
Definition drop_socket (fd : Z) (w : W) : W := (win32 (Closesocket fd) w).2.

(** [src/src/driver/iocp/op.rs:501-511] *)
Definition on_accept (self : Accept) (result : io_result Z) (w : W) : io_result (Z * SockAddr) * Accept * W :=
  match result with
  | Err e => (Err e, self, w)
  | Ok _ =>
      let accept_sock := accept_fd self in
      match Accept_update_context self w with
      | (Err e, w) => (Err e, self, drop_socket accept_sock w)
      | (Ok _, w) =>
          match as_sockaddr self w with
          | (Err e, self, w) => (Err e, self, drop_socket accept_sock w)
          | (Ok addr, self, w) => (Ok (accept_sock, addr), self, w)
          end
      end
  end.

(** [src/src/driver/iocp/op.rs:567-575] the socket that will be the accepted one *)
Definition accept_socket (self : Accept) (w : W) : io_result Z * W :=
  if bool_decide (accept_fd self = INVALID_SOCKET) then
    match accept_sock_opts self with
    | Some opts =>
        let '(r, w) := win32 (SocketNew (opt_domain opts) (opt_ty opts) (opt_protocol opts)) w in
        (if bool_decide (rv r ≠ 0)%Z then Err (Os (last_error r)) else Ok (out_int r), w)
    | None => (Ok (accept_fd self), w)
    end
  else (Ok (accept_fd self), w).

(** [src/src/driver/iocp/op.rs:565-595] *)
Definition Accept_operate (self : Accept) (user_data : Z) (w : W) : started Accept :=
  match accept_socket self w with
  | (Err err, w) => Done (Ready (Err err), self, w)
  | (Ok fd, w) =>
      let self := mkAccept (accept_listener self) fd (accept_sock_opts self) (accept_addr self)
                    (set_user_data user_data (accept_overlapped self)) in
      match extension_fn (accept_listener self) WSAID_ACCEPTEX w with
      | (Err e, w) => Done (Ready (Err e), self, w)
      | (Ok fn, w) =>
          let '(r, w) := win32 (AcceptEx fn (raw_fd (accept_listener self)) fd (sa_ptr (accept_addr self))
                                  size_of_sockaddr_storage (accept_overlapped self)) w in
          let addr := mkSockAddr (sa_ptr (accept_addr self))
                        (out_addr r ++ drop (length (out_addr r)) (sa_storage (accept_addr self)))
                        (sa_len (accept_addr self)) in
          res ← win32_result r (transferred r);
          Done (res, mkAccept (accept_listener self) fd (accept_sock_opts self) addr (accept_overlapped self), w)
      end
  end.
(** [src/src/driver/iocp/op.rs:597-599] *)
Definition Accept_overlapped_ref (self : Accept) : outcome OVERLAPPED := Done (base (accept_overlapped self)).

(** *** Receiving and sending *)

Section vectored.
Context {V : Type}.

(** [src/src/driver/iocp/op.rs:635-641] *)
Record RecvVectoredImpl := mkRecvVectored { rv_fd : Fd; rv_buffer : V; rv_overlapped : Overlapped }.
(** [src/src/driver/iocp/op.rs:643-654] *)
Definition RecvVectored_new (fd : Fd) (buffer : V) : RecvVectoredImpl :=
  mkRecvVectored fd buffer (Overlapped_new usize_MAX).
(** [src/src/driver/iocp/op.rs:656-662] *)
Definition RecvVectored_into_inner (self : RecvVectoredImpl) : V := rv_buffer self.
(** [src/src/driver/iocp/op.rs:664-682] *)
Definition RecvVectored_operate `{!AsIoSlicesMut V} (self : RecvVectoredImpl) (user_data : Z) (w : W) :
    started RecvVectoredImpl :=
  let ov := set_user_data user_data (rv_overlapped self) in
  let slices := as_io_slices_mut (rv_buffer self) in
  let '(r, w) := win32 (WSARecv (raw_fd (rv_fd self)) slices (as_u32 (Z.of_nat (length slices))) ov) w in
  res ← winsock_result r (transferred r);
  Done (res, mkRecvVectored (rv_fd self) (io_slices_poke (out_data r) (rv_buffer self)) ov, w).
(** [src/src/driver/iocp/op.rs:684-686] *)
Definition RecvVectored_overlapped_ref (self : RecvVectoredImpl) : outcome OVERLAPPED := Done (base (rv_overlapped self)).

(** [src/src/driver/iocp/op.rs:722-728] *)
Record SendVectoredImpl := mkSendVectored { sv_fd : Fd; sv_buffer : V; sv_overlapped : Overlapped }.
(** [src/src/driver/iocp/op.rs:730-740] *)
Definition SendVectored_new (fd : Fd) (buffer : V) : SendVectoredImpl :=
  mkSendVectored fd buffer (Overlapped_new usize_MAX).
(** [src/src/driver/iocp/op.rs:742-748] *)
Definition SendVectored_into_inner (self : SendVectoredImpl) : V := sv_buffer self.
(** [src/src/driver/iocp/op.rs:750-766] *)
Definition SendVectored_operate `{!AsIoSlices V} (self : SendVectoredImpl) (user_data : Z) (w : W) :
    started SendVectoredImpl :=
  let ov := set_user_data user_data (sv_overlapped self) in
  let slices := as_io_slices (sv_buffer self) in
  let '(r, w) := win32 (WSASend (raw_fd (sv_fd self)) slices (as_u32 (Z.of_nat (length slices))) ov) w in
  res ← winsock_result r (transferred r);
  Done (res, mkSendVectored (sv_fd self) (sv_buffer self) ov, w).
(** [src/src/driver/iocp/op.rs:768-770] *)
Definition SendVectored_overlapped_ref (self : SendVectoredImpl) : outcome OVERLAPPED := Done (base (sv_overlapped self)).

(** [src/src/driver/iocp/op.rs:807-815] *)
Record RecvMsgImpl := mkRecvMsg {
  rm_fd : Fd; rm_buffer : V; rm_addr : list byte; rm_addr_len : Z; rm_overlapped : Overlapped }.
(** [src/src/driver/iocp/op.rs:817-829] *)
Definition RecvMsg_new (fd : Fd) (buffer : V) : RecvMsgImpl :=
  mkRecvMsg fd buffer zeroed_storage size_of_sockaddr_storage (Overlapped_new usize_MAX).
(** [src/src/driver/iocp/op.rs:831-839] [ptr] is where the address is moved to *)
Definition RecvMsg_into_inner (ptr : Z) (self : RecvMsgImpl) : V * SockAddr :=
  (rm_buffer self, mkSockAddr ptr (rm_addr self) (rm_addr_len self)).
(** [src/src/driver/iocp/op.rs:841-861] *)
Definition RecvMsg_operate `{!AsIoSlicesMut V} (self : RecvMsgImpl) (user_data : Z) (w : W) : started RecvMsgImpl :=
  let ov := set_user_data user_data (rm_overlapped self) in
  let slices := as_io_slices_mut (rm_buffer self) in
  let '(r, w) := win32 (WSARecvFrom (raw_fd (rm_fd self)) slices (as_u32 (Z.of_nat (length slices)))
                          (rm_addr_len self) ov) w in
  res ← winsock_result r (transferred r);
  Done (res, mkRecvMsg (rm_fd self) (io_slices_poke (out_data r) (rm_buffer self))
               (out_addr r ++ drop (length (out_addr r)) (rm_addr self)) (out_addr_len r) ov, w).
(** [src/src/driver/iocp/op.rs:863-865] *)
Definition RecvMsg_overlapped_ref (self : RecvMsgImpl) : outcome OVERLAPPED := Done (base (rm_overlapped self)).

(** [src/src/driver/iocp/op.rs:901-908] *)
Record SendMsgImpl := mkSendMsg { sm_fd : Fd; sm_buffer : V; sm_addr : SockAddr; sm_overlapped : Overlapped }.
(** [src/src/driver/iocp/op.rs:910-921] *)
Definition SendMsg_new (fd : Fd) (buffer : V) (addr : SockAddr) : SendMsgImpl :=
  mkSendMsg fd buffer addr (Overlapped_new usize_MAX).
(** [src/src/driver/iocp/op.rs:923-929] *)
Definition SendMsg_into_inner (self : SendMsgImpl) : V := sm_buffer self.
(** [src/src/driver/iocp/op.rs:931-949] *)
Definition SendMsg_operate `{!AsIoSlices V} (self : SendMsgImpl) (user_data : Z) (w : W) : started SendMsgImpl :=
  let ov := set_user_data user_data (sm_overlapped self) in
  let slices := as_io_slices (sm_buffer self) in
  let '(r, w) := win32 (WSASendTo (raw_fd (sm_fd self)) slices (as_u32 (Z.of_nat (length slices)))
                          (sa_ptr (sm_addr self)) (sa_len (sm_addr self)) ov) w in
  res ← winsock_result r (transferred r);
  Done (res, mkSendMsg (sm_fd self) (sm_buffer self) (sm_addr self) ov, w).
(** [src/src/driver/iocp/op.rs:951-953] *)
Definition SendMsg_overlapped_ref (self : SendMsgImpl) : outcome OVERLAPPED := Done (base (sm_overlapped self)).
End vectored.
Arguments RecvVectoredImpl : clear implicits.
Arguments SendVectoredImpl : clear implicits.
Arguments RecvMsgImpl : clear implicits.
Arguments SendMsgImpl : clear implicits.

Section single.
Context {T : Type} `{!IoBuf T, !IoBufMut T}.

(** [src/src/driver/iocp/op.rs:602-605] *)
Record Recv := mkRecv { recv_inner : RecvVectoredImpl (BufWrapperMut T) }.
(** [src/src/driver/iocp/op.rs:607-615] *)
Definition Recv_new (fd : Fd) (buffer : T) : outcome Recv :=
  b ← BufWrapperMut_from buffer; Done (mkRecv (RecvVectored_new fd b)).
(** [src/src/driver/iocp/op.rs:617-623] *)
Definition Recv_into_inner (self : Recv) : T :=
  BufWrapperMut_into_inner (RecvVectored_into_inner (recv_inner self)).
(** [src/src/driver/iocp/op.rs:625-628] *)
Definition Recv_operate (self : Recv) (user_data : Z) (w : W) : started Recv :=
  '(res, inner, w) ← RecvVectored_operate (recv_inner self) user_data w; Done (res, mkRecv inner, w).
(** [src/src/driver/iocp/op.rs:630-632] *)
Definition Recv_overlapped_ref (self : Recv) : outcome OVERLAPPED := RecvVectored_overlapped_ref (recv_inner self).

(** [src/src/driver/iocp/op.rs:689-692] *)
Record Send := mkSend { send_inner : SendVectoredImpl (BufWrapper T) }.
(** [src/src/driver/iocp/op.rs:694-702] *)
Definition Send_new (fd : Fd) (buffer : T) : outcome Send :=
  b ← BufWrapper_from buffer; Done (mkSend (SendVectored_new fd b)).
(** [src/src/driver/iocp/op.rs:704-710] *)
Definition Send_into_inner (self : Send) : T := BufWrapper_into_inner (SendVectored_into_inner (send_inner self)).
(** [src/src/driver/iocp/op.rs:712-715] *)
Definition Send_operate (self : Send) (user_data : Z) (w : W) : started Send :=
  '(res, inner, w) ← SendVectored_operate (send_inner self) user_data w; Done (res, mkSend inner, w).
(** [src/src/driver/iocp/op.rs:717-719] *)
Definition Send_overlapped_ref (self : Send) : outcome OVERLAPPED := SendVectored_overlapped_ref (send_inner self).

(** [src/src/driver/iocp/op.rs:773-776] *)
Record RecvFrom := mkRecvFrom { recv_from_inner : RecvMsgImpl (BufWrapperMut T) }.
(** [src/src/driver/iocp/op.rs:778-786] *)
Definition RecvFrom_new (fd : Fd) (buffer : T) : outcome RecvFrom :=
  b ← BufWrapperMut_from buffer; Done (mkRecvFrom (RecvMsg_new fd b)).
(** [src/src/driver/iocp/op.rs:788-795] *)
Definition RecvFrom_into_inner (ptr : Z) (self : RecvFrom) : T * SockAddr :=
  let '(bufwrapper, sockaddr) := RecvMsg_into_inner ptr (recv_from_inner self) in
  (BufWrapperMut_into_inner bufwrapper, sockaddr).
(** [src/src/driver/iocp/op.rs:797-800] *)
Definition RecvFrom_operate (self : RecvFrom) (user_data : Z) (w : W) : started RecvFrom :=
  '(res, inner, w) ← RecvMsg_operate (recv_from_inner self) user_data w; Done (res, mkRecvFrom inner, w).
(** [src/src/driver/iocp/op.rs:802-804] *)
Definition RecvFrom_overlapped_ref (self : RecvFrom) : outcome OVERLAPPED := RecvMsg_overlapped_ref (recv_from_inner self).

(** [src/src/driver/iocp/op.rs:868-871] *)
Record SendTo := mkSendTo { send_to_inner : SendMsgImpl (BufWrapper T) }.
(** [src/src/driver/iocp/op.rs:873-881] *)
Definition SendTo_new (fd : Fd) (buffer : T) (addr : SockAddr) : outcome SendTo :=
  b ← BufWrapper_from buffer; Done (mkSendTo (SendMsg_new fd b addr)).
(** [src/src/driver/iocp/op.rs:883-889] *)
Definition SendTo_into_inner (self : SendTo) : T := BufWrapper_into_inner (SendMsg_into_inner (send_to_inner self)).
(** [src/src/driver/iocp/op.rs:891-894] *)
Definition SendTo_operate (self : SendTo) (user_data : Z) (w : W) : started SendTo :=
  '(res, inner, w) ← SendMsg_operate (send_to_inner self) user_data w; Done (res, mkSendTo inner, w).
(** [src/src/driver/iocp/op.rs:896-898] *)
Definition SendTo_overlapped_ref (self : SendTo) : outcome OVERLAPPED := SendMsg_overlapped_ref (send_to_inner self).
End single.
Arguments Recv : clear implicits.
Arguments Send : clear implicits.
Arguments RecvFrom : clear implicits.
Arguments SendTo : clear implicits.

(** *** Pipes, timers, closing *)

(** [src/src/driver/iocp/op.rs:956-960] *)
Record ConnectNamedPipe := mkConnectNamedPipe { cnp_fd : Fd; cnp_overlapped : Overlapped }.
(** [src/src/driver/iocp/op.rs:962-970] *)
Definition ConnectNamedPipe_new (fd : Fd) : ConnectNamedPipe := mkConnectNamedPipe fd (Overlapped_new usize_MAX).
(** [src/src/driver/iocp/op.rs:972-980] *)
Definition ConnectNamedPipe_operate (self : ConnectNamedPipe) (user_data : Z) (w : W) : started ConnectNamedPipe :=
  let ov := set_user_data user_data (cnp_overlapped self) in
  let '(r, w) := win32 (SysConnectNamedPipe (raw_fd (cnp_fd self)) ov) w in
  res ← win32_result r 0;
  Done (res, mkConnectNamedPipe (cnp_fd self) ov, w).
(** [src/src/driver/iocp/op.rs:982-984] *)
Definition ConnectNamedPipe_overlapped_ref (self : ConnectNamedPipe) : outcome OVERLAPPED := Done (base (cnp_overlapped self)).

(** [src/src/driver/iocp/op.rs:987-991] *)
Definition Timeout_operate (self : Timeout) (user_data : Z) (w : W) : started Timeout :=
  Done (Ready (Ok TIMER_PENDING), self, w).
(** [src/src/driver/iocp/op.rs:993-995] *)
Definition Timeout_overlapped_ref (self : Timeout) : outcome OVERLAPPED := Panic.
(** [src/src/driver/iocp/op.rs:997-1000] *)
Definition Timeout_timer_delay (self : Timeout) : outcome Z := Done (delay self).

(** [src/src/driver/iocp/op.rs:1003-1023] the option value is the socket's pending error *)
Definition get_sockopt_error (fd : Z) (w : W) : result unit Z * winret * W :=
  let '(r, w) := win32 (Getsockopt fd SO_ERROR) w in
  (if bool_decide (rv r ≠ 0)%Z then Err (rv r)
   else if bool_decide (out_int r = 0)%Z then Ok tt else Err (out_int r), r, w).

(** [src/src/driver/iocp/op.rs:1025-1048] *)
Definition close_raw_fd (fd : Z) (w : W) : io_result Z * W :=
  let '(res, r, w) := get_sockopt_error fd w in
  match res with
  | Err e =>
      if bool_decide (e = WSAENOTSOCK) then
        let '(r, w) := win32 (CloseHandle fd) w in
        (if bool_decide (rv r = 0)%Z then Err (Os (last_error r)) else Ok 0%Z, w)
      else (Err (Os (last_error r)), w)
  | Ok _ =>
      let '(r, w) := win32 (Closesocket fd) w in
      (if bool_decide (rv r ≠ 0)%Z then Err (Os (last_error r)) else Ok 0%Z, w)
  end.

(** [src/src/driver/iocp/op.rs:1055-1059] *)
Definition Fd_operate (self : Fd) (user_data : Z) (w : W) : started Fd :=
  let '(r, w) := close_raw_fd (raw_fd self) w in Done (Ready r, self, w).
(** [src/src/driver/iocp/op.rs:1061-1063] *)
Definition Fd_overlapped_ref (self : Fd) : outcome OVERLAPPED := Panic.

(** [src/src/driver/iocp/op.rs:1073-1086] the descriptor inside the option *)
Definition Option_operate (self : option Z) (user_data : Z) (w : W) : started (option Z) :=
  match self with
  | Some fd => let '(r, w) := close_raw_fd fd w in Done (Ready r, None, w)
  | None => Done (Ready (Err (Custom InvalidInput)), None, w)
  end.
(** [src/src/driver/iocp/op.rs:1088-1090] *)
Definition Option_overlapped_ref (self : option Z) : outcome OVERLAPPED := Panic.
End operations.
Arguments Read : clear implicits.
Arguments ReadAt : clear implicits.
Arguments Write : clear implicits.
Arguments WriteAt : clear implicits.
Arguments RecvVectoredImpl : clear implicits.
Arguments SendVectoredImpl : clear implicits.
Arguments RecvMsgImpl : clear implicits.
Arguments SendMsgImpl : clear implicits.
Arguments Recv : clear implicits.
Arguments Send : clear implicits.
Arguments RecvFrom : clear implicits.
Arguments SendTo : clear implicits.

(** ** Properties *)

Section properties.
Context {W : Type} `{!Win32 W}.

Lemma offset_halves offset o :
  is_usize offset →
  let b := base (set_offset offset o) in
  (Offset b + 2 ^ 32 * OffsetHigh b = offset)%Z ∧ (0 ≤ Offset b < 2 ^ 32)%Z ∧ (0 ≤ OffsetHigh b < 2 ^ 32)%Z.
Proof.
  unfold is_usize, usize_MAX. intros Ho. cbn. change 4294967295%Z with (Z.ones 32).
  rewrite Z.land_ones, Z.shiftr_div_pow2 by lia. unfold as_u32.
  rewrite Z.mod_mod by lia. change (2 ^ 32)%Z with 4294967296%Z in *. change (2 ^ 64)%Z with 18446744073709551616%Z in *.
  Z.to_euclidean_division_equations; lia.
Qed.

(** C33 A file operation of the IOCP driver hands the kernel its descriptor, its user data and, when it
    reads, exactly the uninitialised part of the buffer, when it writes exactly the initialised
    bytes, as long as their length fits 32 bits; the two halves of the [OVERLAPPED] make up the
    offset. *)
Theorem win_file_requests {T} `{!IoBuf T, !IoBufMut T, !IoBufMutSpec T} (b : T) (fd : Fd) offset u w :
  buf_wf b → (Z.of_nat (length (filled b) + spare b) < 2 ^ 32)%Z → is_usize offset →
  ∃ p ov, as_buf_ptr b = Done p ∧ overlapped_user_data ov = u ∧
    (Offset (base ov) + 2 ^ 32 * OffsetHigh (base ov) = offset)%Z ∧
    ReadAt_operate (ReadAt_new fd offset b) u w =
      (let '(r, w) := win32 (ReadFile (raw_fd fd) (p + Z.of_nat (length (filled b))) (Z.of_nat (spare b)) ov) w in
       res ← win32_pending_result r;
       Done (res, mkReadAt fd offset (buf_poke (length (filled b)) (out_data r) b) ov, w)) ∧
    WriteAt_operate (WriteAt_new fd offset b) u w =
      (let '(r, w) := win32 (WriteFile (raw_fd fd) p (Z.of_nat (length (filled b))) (filled b) ov) w in
       res ← win32_pending_result r; Done (res, mkWriteAt fd offset b ov, w)).
Proof.
  intros Hwf Hlen Ho. destruct (spec_ptr b Hwf) as (p & Hp & Hpm). exists p.
  exists (set_offset offset (set_user_data u (Overlapped_new usize_MAX))).
  destruct (offset_halves offset (set_user_data u (Overlapped_new usize_MAX)) Ho) as [Hoff _].
  split; [done|]. split; [done|]. split; [done|].
  assert (∀ n, n ≤ length (filled b) + spare b → as_u32 (Z.of_nat n) = Z.of_nat n) as Hn.
  { intros n Hn. unfold as_u32. apply Z.mod_small. lia. }
  split.
  - unfold ReadAt_operate, ReadAt_new, as_uninit_slice. cbn [read_at_buffer read_at_fd read_at_offset read_at_overlapped].
    rewrite Hpm, (spec_len b Hwf), (spec_capacity b Hwf). cbn -[set_offset win32_pending_result win32].
    unfold usize_sub. rewrite bool_decide_eq_true_2 by lia. cbn -[set_offset win32_pending_result win32].
    replace (length (filled b) + spare b - length (filled b)) with (spare b) by lia. rewrite Hn by lia.
    destruct (win32 _ w) as [r w1]. unfold poke_uninit. by rewrite (spec_len b Hwf).
  - unfold WriteAt_operate, WriteAt_new. cbn [write_at_buffer write_at_fd write_at_offset write_at_overlapped].
    rewrite (as_slice_filled b Hwf), Hp. cbn -[set_offset win32_pending_result win32]. by rewrite Hn by lia.
Qed.

(** Closing a handle that is not a socket fails and leaves it open: [getsockopt] reports such a
    handle by its return value [SOCKET_ERROR], which is compared with the error code
    [WSAENOTSOCK]; nothing but [getsockopt] is called. *)
Theorem close_file_handle_fails fd w r w' :
  win32 (Getsockopt fd SO_ERROR) w = (r, w') → rv r = SOCKET_ERROR →
  close_raw_fd fd w = (Err (Os (last_error r)), w').
Proof.
  intros E Hr. unfold close_raw_fd, get_sockopt_error. rewrite E, Hr. reflexivity.
Qed.
End properties.

(** ** A concrete system

    One file with the bytes [wf_data]; reads succeed at once.  As documented for
    [FILE_SKIP_COMPLETION_PORT_ON_SUCCESS], the packet of an operation that succeeds at once is queued
    only if the mode is not set. *)

Record WinFile := mkWinFile { wf_data : list byte; wf_mode : Z; wf_packets : list OVERLAPPED_ENTRY; wf_open : bool }.

Definition win_ok (n : Z) (data : list byte) : winret := mkWinret 1 0 n data [] 0 0 None.
Definition win_error (code value : Z) : winret := mkWinret value code 0 [] [] 0 0 None.

#[global] Instance WinFile_Win32 : Win32 WinFile := {|
  win32 req w :=
    match req with
    | ReadFile _ _ len _ =>
        let bs := take (Z.to_nat len) (wf_data w) in
        (win_ok (Z.of_nat (length bs)) bs,
         mkWinFile (wf_data w) (wf_mode w)
           (if bool_decide (Z.land (wf_mode w) FILE_SKIP_COMPLETION_PORT_ON_SUCCESS = 0)%Z
            then wf_packets w ++ [mkOVERLAPPED_ENTRY 64 (Z.of_nat (length bs))] else wf_packets w) (wf_open w))
    | Getsockopt _ _ => (win_error WSAENOTSOCK SOCKET_ERROR, w)
    | CloseHandle _ => (win_ok 0 [], mkWinFile (wf_data w) (wf_mode w) (wf_packets w) false)
    | _ => (win_error 50 0, w)
    end;
  once_get g w := None;
  once_set g f w := w |}.

#[global] Instance WinFile_IocpOs : IocpOs WinFile := {|
  create_port h p w := (Ok 5%Z, w);
  set_notification_modes h f w := (Ok tt, mkWinFile (wf_data w) f (wf_packets w) (wf_open w));
  get_queued p n ms w :=
    ((Ok tt, take (Z.to_nat n) (wf_packets w)),
     mkWinFile (wf_data w) (wf_mode w) (drop (Z.to_nat n) (wf_packets w)) (wf_open w));
  post_queued h n ov w := (Ok tt, w);
  Iocp.read_overlapped ov w := Done (Overlapped_new 1);
  nt_status_to_dos_error s := 317%Z;
  instant_now w := (0%Z, w);
  instant_add := add_nanos |}.

#[global] Instance Read_OpCode : OpCode (Read Vec_u8) WinFile := {|
  operate := Read_operate;
  overlapped o w := Read_overlapped_ref o;
  timer_delay o w := Panic |}.

Definition win_file : WinFile := mkWinFile [Byte.x61; Byte.x62] 0 [] true.

(** An attached descriptor asks the system not to queue packets for operations that succeed at
    once, but a read that succeeds at once is taken to be pending: after it was submitted the data
    is in the buffer, no entry was emitted, the driver no longer knows the operation and no packet
    will ever arrive. *)
Theorem immediate_success_lost :
  ∃ fd d1 w1 d2 w2,
    attach 7 (mkDriver 5 [] 4 4 [] (with_capacity 16)) win_file = (Ok fd, d1, w1) ∧
    submit (λ _, OtherKind) (Some 0%Z) (set_squeue [mkOpObject (Read_new fd (vec_of [] 2)) 1] d1) w1 =
      Done ([], Ok tt, d2, w2) ∧
    squeue d2 = [] ∧ wf_packets w2 = [].
Proof.
  do 5 eexists. split; [reflexivity|]. split; [vm_compute; reflexivity|]. split; reflexivity.
Qed.

Lemma win_file_requests_witness :
  ∃ p, as_buf_ptr (vec_of [Byte.x61] 3) = Done p ∧
    ∃ ov, (Offset (base ov) + 2 ^ 32 * OffsetHigh (base ov) = 5000000000)%Z ∧ overlapped_user_data ov = 9%Z.
Proof.
  destruct (win_file_requests (vec_of [Byte.x61] 3) (from_raw 7) 5000000000 9 win_file (vec_of_wf _ _))
    as (p & ov & H1 & H2 & H3 & _).
  - vm_compute. reflexivity.
  - unfold is_usize, usize_MAX. lia.
  - exists p. split; [exact H1|]. exists ov. split; [exact H3|exact H2].
Defined.

Lemma close_file_handle_fails_witness :
  close_raw_fd 7 win_file = (Err (Os WSAENOTSOCK), win_file) ∧ wf_open win_file = true.
Proof.
  split; [|reflexivity].
  refine (close_file_handle_fails 7 win_file (win_error WSAENOTSOCK SOCKET_ERROR) win_file _ _); reflexivity.
Defined.
