(* ===== verification/IocpRuntime.v ===== *)
(** * The IOCP operations behind one type, and the runtime on the IOCP driver

    [dyn OpCode] of [src/driver/iocp]: every operation with its three methods.
    The runtime hands references to leaked boxes to the driver, and with that
    the driver meets what the runtime relies on.  An operation that is left to
    the kernel carries its user data in its [Overlapped], inside its box, so
    that the packet of the port, which has the address of that field, leads
    back to it. *)

From S2P Require Import Prelude BinaryHeap Driver TimerWheel Buf UnixOps Iocp IocpSpec IocpOps.
From S2P Require Import Runtime RuntimeSpec Executor KqueueRuntime.
From stdpp Require Import base numbers sorting list gmap.

(** ** [dyn OpCode]: the operations over one type of buffers *)

Inductive AnyOp (T V : Type) :=
| OpRead (o : Read T) | OpReadAt (o : ReadAt T) | OpWrite (o : Write T) | OpWriteAt (o : WriteAt T)
| OpConnect (o : Connect) | OpSync (o : Sync) | OpAccept (o : Accept) | OpRecv (o : Recv T)
| OpRecvVectored (o : RecvVectoredImpl V) | OpSend (o : Send T) | OpSendVectored (o : SendVectoredImpl V)
| OpRecvFrom (o : RecvFrom T) | OpRecvMsg (o : RecvMsgImpl V) | OpSendTo (o : SendTo T) | OpSendMsg (o : SendMsgImpl V)
| OpConnectNamedPipe (o : ConnectNamedPipe) | OpTimeout (o : Timeout) | OpCloseFd (o : Fd) | OpClose (o : option Z).
Arguments OpRead {T V}. Arguments OpReadAt {T V}. Arguments OpWrite {T V}. Arguments OpWriteAt {T V}.
Arguments OpConnect {T V}. Arguments OpSync {T V}. Arguments OpAccept {T V}. Arguments OpRecv {T V}.
Arguments OpRecvVectored {T V}. Arguments OpSend {T V}. Arguments OpSendVectored {T V}.
Arguments OpRecvFrom {T V}. Arguments OpRecvMsg {T V}. Arguments OpSendTo {T V}. Arguments OpSendMsg {T V}.
Arguments OpConnectNamedPipe {T V}. Arguments OpTimeout {T V}. Arguments OpCloseFd {T V}. Arguments OpClose {T V}.

(** [src/src/driver/iocp/mod.rs:159-163] the method that only timers override *)
Definition default_timer_delay : outcome Z := Panic.

Section any_op.
Context {T V W : Type} `{!IoBuf T, !IoBufMut T, !AsIoSlices V, !AsIoSlicesMut V, !Win32 W}.

Definition started_as {A B} (f : A → B) (m : outcome (Poll (io_result Z) * A * W)) : outcome (Poll (io_result Z) * B * W) :=
  '(res, o, w) ← m; Done (res, f o, w).

Definition any_operate (a : AnyOp T V) (u : Z) (w : W) : outcome (Poll (io_result Z) * AnyOp T V * W) :=
  match a with
  | OpRead o => started_as OpRead (Read_operate o u w)
  | OpReadAt o => started_as OpReadAt (ReadAt_operate o u w)
  | OpWrite o => started_as OpWrite (Write_operate o u w)
  | OpWriteAt o => started_as OpWriteAt (WriteAt_operate o u w)
  | OpConnect o => started_as OpConnect (Connect_operate o u w)
  | OpSync o => started_as OpSync (Sync_operate o u w)
  | OpAccept o => started_as OpAccept (Accept_operate o u w)
  | OpRecv o => started_as OpRecv (Recv_operate o u w)
  | OpRecvVectored o => started_as OpRecvVectored (RecvVectored_operate o u w)
  | OpSend o => started_as OpSend (Send_operate o u w)
  | OpSendVectored o => started_as OpSendVectored (SendVectored_operate o u w)
  | OpRecvFrom o => started_as OpRecvFrom (RecvFrom_operate o u w)
  | OpRecvMsg o => started_as OpRecvMsg (RecvMsg_operate o u w)
  | OpSendTo o => started_as OpSendTo (SendTo_operate o u w)
  | OpSendMsg o => started_as OpSendMsg (SendMsg_operate o u w)
  | OpConnectNamedPipe o => started_as OpConnectNamedPipe (ConnectNamedPipe_operate o u w)
  | OpTimeout o => started_as OpTimeout (Timeout_operate o u w)
  | OpCloseFd o => started_as OpCloseFd (Fd_operate o u w)
  | OpClose o => started_as OpClose (Option_operate o u w)
  end.

Definition any_overlapped (a : AnyOp T V) : outcome OVERLAPPED :=
  match a with
  | OpRead o => Read_overlapped_ref o
  | OpReadAt o => ReadAt_overlapped_ref o
  | OpWrite o => Write_overlapped_ref o
  | OpWriteAt o => WriteAt_overlapped_ref o
  | OpConnect o => Connect_overlapped_ref o
  | OpSync o => Sync_overlapped_ref o
  | OpAccept o => Accept_overlapped_ref o
  | OpRecv o => Recv_overlapped_ref o
  | OpRecvVectored o => RecvVectored_overlapped_ref o
  | OpSend o => Send_overlapped_ref o
  | OpSendVectored o => SendVectored_overlapped_ref o
  | OpRecvFrom o => RecvFrom_overlapped_ref o
  | OpRecvMsg o => RecvMsg_overlapped_ref o
  | OpSendTo o => SendTo_overlapped_ref o
  | OpSendMsg o => SendMsg_overlapped_ref o
  | OpConnectNamedPipe o => ConnectNamedPipe_overlapped_ref o
  | OpTimeout o => Timeout_overlapped_ref o
  | OpCloseFd o => Fd_overlapped_ref o
  | OpClose o => Option_overlapped_ref o
  end.

Definition any_timer_delay (a : AnyOp T V) (w : W) : outcome Z :=
  match a with OpTimeout o => Timeout_timer_delay o | _ => default_timer_delay end.

#[global] Instance AnyOp_OpCode : OpCode (AnyOp T V) W :=
  {| operate := any_operate; overlapped a w := any_overlapped a; timer_delay := any_timer_delay |}.

(** The [Overlapped] that contains what [overlapped] refers to. *)
Definition any_header (a : AnyOp T V) : option Overlapped :=
  match a with
  | OpRead o => Some (IocpOps.read_overlapped o)
  | OpReadAt o => Some (read_at_overlapped o)
  | OpWrite o => Some (write_overlapped o)
  | OpWriteAt o => Some (write_at_overlapped o)
  | OpConnect o => Some (connect_overlapped o)
  | OpAccept o => Some (accept_overlapped o)
  | OpRecv o => Some (rv_overlapped (recv_inner o))
  | OpRecvVectored o => Some (rv_overlapped o)
  | OpSend o => Some (sv_overlapped (send_inner o))
  | OpSendVectored o => Some (sv_overlapped o)
  | OpRecvFrom o => Some (rm_overlapped (recv_from_inner o))
  | OpRecvMsg o => Some (rm_overlapped o)
  | OpSendTo o => Some (sm_overlapped (send_to_inner o))
  | OpSendMsg o => Some (sm_overlapped o)
  | OpConnectNamedPipe o => Some (cnp_overlapped o)
  | OpSync _ | OpTimeout _ | OpCloseFd _ | OpClose _ => None
  end.

(** The operation's type. *)
Definition op_shape (a : AnyOp T V) : nat :=
  match a with
  | OpRead _ => 0 | OpReadAt _ => 1 | OpWrite _ => 2 | OpWriteAt _ => 3 | OpConnect _ => 4 | OpSync _ => 5 | OpAccept _ => 6
  | OpRecv _ => 7 | OpRecvVectored _ => 8 | OpSend _ => 9 | OpSendVectored _ => 10 | OpRecvFrom _ => 11 | OpRecvMsg _ => 12
  | OpSendTo _ => 13 | OpSendMsg _ => 14 | OpConnectNamedPipe _ => 15 | OpTimeout _ => 16 | OpCloseFd _ => 17 | OpClose _ => 18
  end.

(** [overlapped] panics just for the operations without one. *)
Lemma any_overlapped_header a :
  any_overlapped a = match any_header a with Some h => Done (base h) | None => Panic end.
Proof. by destruct a. Qed.

(** An operation that was left to the kernel has its user data in its header. *)
Lemma pending_header a u w a' w' h :
  any_operate a u w = Done (Pending, a', w') → any_header a' = Some h → overlapped_user_data h = u.
Proof.
  destruct a; cbn; unfold started_as, Recv_operate, Send_operate, RecvFrom_operate, SendTo_operate, Read_operate, ReadAt_operate,
    Write_operate, WriteAt_operate, Connect_operate, Sync_operate, Accept_operate, RecvVectored_operate, SendVectored_operate,
    RecvMsg_operate, SendMsg_operate, ConnectNamedPipe_operate, Timeout_operate, Fd_operate, Option_operate; intros E H;
    repeat (simpl_outcome; case_match || case_outcome); simplify_eq; try done; cbn in *; simplify_eq; done.
Qed.
End any_op.

(** ** Operations behind references *)

Section references.
Context {T V W : Type} `{!IoBuf T, !IoBufMut T, !AsIoSlices V, !AsIoSlicesMut V, !Win32 W, !IocpOs W}.
Notation world := (World (AnyOp T V) W).
Implicit Types (w : world) (p u : Z).

#[global] Instance ref_OpCode : OpCode Z world := {|
  operate p u w := deref p w (λ a,
    '(res, a, s) ← operate a u (sys w); Done (res, p, mkWorld (<[p := a]> (boxes w)) s));
  overlapped p w := deref p w (λ a, overlapped a (sys w));
  timer_delay p w := deref p w (λ a, timer_delay a (sys w)) |}.

(** Where the compiler puts the field [overlapped] in each type of operation.  An operation gives the
    kernel the address of that field, and a packet has the address that was given: it refers to the
    operation, in a box at [p], whose field is there. *)
Context (field_offset : nat → Z).
Definition overlapped_addr p (a : AnyOp T V) : Z := p + field_offset (op_shape a).

Definition op_with_overlapped (ptr : Z) w : option (AnyOp T V) :=
  snd <$> head (filter (λ x, is_Some (any_header x.2) ∧ overlapped_addr x.1 x.2 = ptr) (map_to_list (boxes w))).

(** Boxes are apart from each other, and so are the fields in them. *)
Definition fields_apart w : Prop :=
  ∀ p q a b, boxes w !! p = Some a → boxes w !! q = Some b → is_Some (any_header a) → is_Some (any_header b) →
    overlapped_addr p a = overlapped_addr q b → p = q.

Lemma op_with_overlapped_eq p a w :
  fields_apart w → boxes w !! p = Some a → is_Some (any_header a) → op_with_overlapped (overlapped_addr p a) w = Some a.
Proof.
  intros Hap Ha Hh. unfold op_with_overlapped. set (P := λ x : Z * AnyOp T V, _).
  assert ((p, a) ∈ filter P (map_to_list (boxes w))) as Hin by (apply list_elem_of_filter; split; [done|by apply elem_of_map_to_list]).
  destruct (filter _ _) as [|[q b] l] eqn:Ef; [by apply elem_of_nil in Hin|]. cbn.
  assert ((q, b) ∈ filter P (map_to_list (boxes w))) as [[Hhb Hq] Hb%elem_of_map_to_list]%list_elem_of_filter by (rewrite Ef; left).
  assert (q = p) as -> by by eapply Hap. congruence.
Qed.

#[global] Instance World_IocpOs : IocpOs world := {|
  create_port h q w := let '(r, s) := create_port h q (sys w) in (r, mkWorld (boxes w) s);
  set_notification_modes h f w := let '(r, s) := set_notification_modes h f (sys w) in (r, mkWorld (boxes w) s);
  get_queued q n ms w := let '(r, s) := get_queued q n ms (sys w) in (r, mkWorld (boxes w) s);
  post_queued h n ov w := let '(r, s) := post_queued h n ov (sys w) in (r, mkWorld (boxes w) s);
  Iocp.read_overlapped ptr w :=
    match op_with_overlapped ptr w with Some a => match any_header a with Some h => Done h | None => Undef end | None => Undef end;
  nt_status_to_dos_error := nt_status_to_dos_error (W := W);
  instant_now w := let '(now, s) := instant_now (sys w) in (now, mkWorld (boxes w) s);
  instant_add := instant_add (W := W) |}.

Lemma ref_operate_boxes p u w res p' w' :
  operate p u w = Done (res, p', w') → p' = p ∧ ∃ a a' s, boxes w !! p = Some a ∧ any_operate a u (sys w) = Done (res, a', s) ∧
    boxes w' = <[p := a']> (boxes w).
Proof.
  cbn. unfold deref. destruct (boxes w !! p) as [a|] eqn:Hp; [|done].
  destruct (any_operate a u (sys w)) as [[[r a'] s]| |] eqn:E; simpl_outcome; try done. intros [= -> <- <-].
  split; [done|]. exists a, a', s. by split_and!.
Qed.

Lemma drained_boxes (ops : list (OpObject Z)) : ∀ idx d w es d' w',
  operate_drained idx ops d w = Done (es, d', w') → dom (boxes w') = dom (boxes w).
Proof.
  induction ops as [|o ops IH]; intros idx d w es d' w' E; [by cbn in E; simplify_eq|]. cbn [operate_drained] in E.
  destruct (operate (op o) (user_data o) w) as [[[res p] w1]| |] eqn:Eo; cbn [outcome_bind mbind] in E; try done.
  apply ref_operate_boxes in Eo as (-> & a & a' & s & Ha & _ & Hb).
  assert (dom (boxes w1) = dom (boxes w)) as <- by by rewrite Hb, dom_insert_lookup_L.
  destruct res as [res|]; [|by eapply IH]. case_bool_decide.
  - destruct (timer_delay (op o) w1) as [delay| |]; cbn [outcome_bind mbind] in E; try done. cbn in E.
    destruct (instant_now (sys w1)) as [now s2]. destruct (TimerWheel.insert _ _ _ _ _); simpl_outcome; try done. by apply IH in E.
  - destruct (operate_drained _ ops _ w1) as [[[es1 d1] w2]| |] eqn:E1; simpl_outcome; try done. simplify_eq. by eapply IH.
Qed.

(** C36 The packet of an operation leads back to it: when an operation in the box [p] was started for the
    runtime and left to the kernel, then from any later state in which the box holds an operation of
    the same type and the kernel has not changed the user data that follows the [OVERLAPPED], the entry
    of a packet with the address of the operation's [overlapped] field has the user data the operation
    was submitted with.  Its result is the transferred count when the status is success or says that
    the operation is still pending; 0 when it stands for incomplete I/O or for the end of a file or a
    pipe; and otherwise the error of the status. *)
Theorem packet_names_operation p u w p' w1 a1 h1 w2 a2 h2 n :
  operate p u w = Done (Pending, p', w1) → boxes w1 !! p = Some a1 → any_header a1 = Some h1 →
  boxes w2 !! p = Some a2 → op_shape a2 = op_shape a1 → fields_apart w2 → any_header a2 = Some h2 →
  overlapped_user_data h2 = overlapped_user_data h1 →
  ∃ res, create_entry (mkOVERLAPPED_ENTRY (overlapped_addr p a1) n) w2 = Done (Entry_new u res) ∧
    let status := as_i32 (Internal (base h2)) in let error := nt_status_to_dos_error (W := W) status in
    (status ∈ [STATUS_SUCCESS; STATUS_PENDING] → res = Ok n) ∧
    (status ∉ [STATUS_SUCCESS; STATUS_PENDING] → error ∈ [ERROR_IO_INCOMPLETE; ERROR_HANDLE_EOF; ERROR_NO_DATA] → res = Ok 0%Z) ∧
    (status ∉ [STATUS_SUCCESS; STATUS_PENDING] → error ∉ [ERROR_IO_INCOMPLETE; ERROR_HANDLE_EOF; ERROR_NO_DATA] →
       res = Err (Os (as_i32 error))).
Proof.
  intros (-> & b & a' & s & Hb & Eo & Hw1)%ref_operate_boxes Ha1 Hh1 Ha2 Hsh Hap Hh2 Hu. rewrite Hw1, lookup_insert_eq in Ha1. injection Ha1 as <-.
  pose proof (pending_header _ _ _ _ _ _ Eo Hh1) as Hud. unfold create_entry. cbn.
  assert (overlapped_addr p a' = overlapped_addr p a2) as -> by (unfold overlapped_addr; by rewrite Hsh).
  rewrite (op_with_overlapped_eq p a2 w2 Hap Ha2) by eauto. cbn. rewrite Hh2. cbn. eexists. rewrite Hu, Hud. split; [reflexivity|].
  rewrite !elem_of_cons, !elem_of_nil. split_and!.
  - intros H. by rewrite bool_decide_eq_true_2 by tauto.
  - intros H1 He. rewrite bool_decide_eq_false_2 by tauto. by rewrite bool_decide_eq_true_2 by tauto.
  - intros H1 H2. rewrite bool_decide_eq_false_2 by tauto. by rewrite bool_decide_eq_false_2 by tauto.
Qed.

Context (decode : Z → ErrorKind).

#[global] Instance iocp_BoxesKept :
  @BoxesKept (AnyOp T V) W (Driver Z) Fd (@iocp_CompleteIo _ _ _ World_IocpOs decode) (@iocp_spec _ _ _ World_IocpOs decode).
Proof.
  split.
  - intros t d w es r d' w'. cbn. unfold submit.
    destruct (operate_drained _ _ _ w) as [[[es1 d1] w1]| |] eqn:E1; simpl_outcome; try done. apply drained_boxes in E1 as <-.
    match goal with |- context [let '(_, _) := ?m in _] => destruct m as [t1 w2] eqn:Et end.
    assert (boxes w2 = boxes w1) as <-.
    { revert Et. case_match; [|by intros; simplify_eq]. destruct (instant_now (sys w1)). by intros; simplify_eq. }
    unfold poll_impl. cbn. destruct (get_queued _ _ _ (sys w2)) as [[res pk] s3]. cbn.
    destruct res as [[]|e]; [|case_bool_decide]; cbn; destruct (instant_now s3) as [now s4]; destruct (expire_timers now _) as [es2 tw];
      destruct (create_entries _ _); simpl_outcome; intros; by simplify_eq.
  - intros o d w r d' w' E. cbn in E. by simplify_eq.
  - intros q d w q' d' w' E. cbn in E. by simplify_eq.
  - intros fd d w r d' w'. cbn [ci_attach iocp_CompleteIo]. unfold attach. cbn [create_port set_notification_modes World_IocpOs].
    destruct (create_port fd (port d) (sys w)) as [[n|e] s1]; [|by intros; simplify_eq]. cbn [sys boxes].
    destruct (set_notification_modes fd _ s1) as [[[]|e] s2]; by intros; simplify_eq.
Qed.
End references.

(** ** A read that the kernel fails *)

Notation WinOp := (AnyOp Vec_u8 (VectoredBufWrapper Vec_u8)).
Notation win_world := (World WinOp WinFile).

Definition win_read : WinOp := OpRead (Read_new (from_raw 7) (vec_of [] 2)).
Definition win_start : win_world := mkWorld {[1%Z := win_read]} win_file.

(** The state in which the kernel has written [status] into the [OVERLAPPED] of the read. *)
Definition win_status (status : Z) (w : win_world) : win_world :=
  mkWorld (match boxes w !! 1%Z with
           | Some (OpRead o) =>
               let h := IocpOps.read_overlapped o in
               <[1%Z := OpRead (mkRead (read_fd o) (read_buffer o) (mkOverlapped (set_Internal status (base h)) (overlapped_user_data h)))]> (boxes w)
           | _ => boxes w
           end) (sys w).

(** The handle comes first, then the buffer, then the header. *)
Definition win_offset (shape : nat) : Z := 16.

Lemma packet_names_operation_witness :
  ∃ p w1, operate 1%Z 9 win_start = Done (Pending, p, w1) ∧
    create_entry (IocpOs0 := World_IocpOs win_offset) (mkOVERLAPPED_ENTRY 17 0) (win_status (as_u64 (-1073741643)) w1) = Done (Entry_new 9 (Err (Os 317))).
Proof.
  destruct (operate 1%Z 9 win_start) as [[[[|] p] w1]| |] eqn:E; [vm_compute in E; discriminate| |vm_compute in E; discriminate..].
  exists p, w1. split; [reflexivity|].
  set (b := buf_poke 0 [Byte.x61; Byte.x62] (vec_of [] 2)). set (status := as_u64 (-1073741643)).
  set (h := mkOverlapped (set_Internal status zeroed_OVERLAPPED) 9).
  assert (boxes w1 !! 1%Z = Some (OpRead (mkRead (from_raw 7) b (Overlapped_new 9)))) as H1.
  { vm_compute in E. injection E as <- <-. vm_compute. reflexivity. }
  assert (boxes (win_status status w1) !! 1%Z = Some (OpRead (mkRead (from_raw 7) b h))) as H2.
  { unfold win_status. rewrite H1. apply lookup_insert_eq. }
  assert (fields_apart win_offset (win_status status w1)) as Hap.
  { intros p1 p2 a1 a2 _ _ _ _ H. unfold overlapped_addr, win_offset in H. lia. }
  destruct (packet_names_operation win_offset 1 9 win_start p w1 _ _ (win_status status w1) _ h 0 E H1 eq_refl H2 eq_refl Hap eq_refl eq_refl)
    as (res & He & _ & _ & Hres).
  etransitivity; [exact He|]. rewrite Hres; [reflexivity|rewrite !elem_of_cons, elem_of_nil; vm_compute; naive_solver..].
Defined.
