(* ===== verification/File.v ===== *)
(** * Files

    [src/fs/file.rs] and [src/fs/open_options.rs].  The asynchronous methods
    are functions on the state behind the runtime ([await_op]); their loops
    take fuel, and [None] means that the fuel did not suffice.  [ReadSpec] and
    [WriteSpec] say what reading and writing a file promises. *)

From S2P Require Import Prelude Buf UnixOps Attacher.
From stdpp Require Import base numbers list.

(** [src/src/lib.rs:43-58] the macro [buf_try!], for a call that returns a buffer result *)
Definition buf_try {A B R : Type} (r : BufResult A B) (k : A → B → R) (ret : BufResult A B → R) : R :=
  match r with (Ok res, buf) => k res buf | (Err e, buf) => ret (Err e, buf) end.

(** ** Options *)

(** [std::fs::OpenOptions] *)
Record StdOpenOptions := mkStdOpenOptions {
  o_read : bool; o_write : bool; o_truncate : bool; o_create : bool; o_create_new : bool }.

(** [src/src/fs/open_options.rs:41-42] *)
Record OpenOptions := mkOpenOptions { std_options : StdOpenOptions }.

(** [src/src/fs/open_options.rs:45-50] *)
Definition OpenOptions_new : OpenOptions := mkOpenOptions (mkStdOpenOptions false false false false false).
(** [src/src/fs/open_options.rs:52-59] *)
Definition OpenOptions_read (self : OpenOptions) (read : bool) : OpenOptions :=
  let o := std_options self in
  mkOpenOptions (mkStdOpenOptions read (o_write o) (o_truncate o) (o_create o) (o_create_new o)).
(** [src/src/fs/open_options.rs:61-68] *)
Definition OpenOptions_write (self : OpenOptions) (write : bool) : OpenOptions :=
  let o := std_options self in
  mkOpenOptions (mkStdOpenOptions (o_read o) write (o_truncate o) (o_create o) (o_create_new o)).
(** [src/src/fs/open_options.rs:70-79] *)
Definition OpenOptions_truncate (self : OpenOptions) (truncate : bool) : OpenOptions :=
  let o := std_options self in
  mkOpenOptions (mkStdOpenOptions (o_read o) (o_write o) truncate (o_create o) (o_create_new o)).
(** [src/src/fs/open_options.rs:81-88] *)
Definition OpenOptions_create (self : OpenOptions) (create : bool) : OpenOptions :=
  let o := std_options self in
  mkOpenOptions (mkStdOpenOptions (o_read o) (o_write o) (o_truncate o) create (o_create_new o)).
(** [src/src/fs/open_options.rs:90-111] *)
Definition OpenOptions_create_new (self : OpenOptions) (create_new : bool) : OpenOptions :=
  let o := std_options self in
  mkOpenOptions (mkStdOpenOptions (o_read o) (o_write o) (o_truncate o) (o_create o) create_new).

(** ** Files *)

Section file.
Context {F FF W : Type} `{!RuntimeAttach F W} (into : F → FF).

(** [src/src/fs/file.rs:22-27] the raw descriptor of the standard file *)
Record File := mkFile { file_inner : Z; file_attacher : Attacher F }.

(** The macro [impl_raw_fd!] for files. *)

(** [src/src/lib.rs:65-69] *)
Definition File_as_raw_fd (self : File) : Z := file_inner self.
(** [src/src/lib.rs:70-80] *)
Definition File_from_raw_fd (fd : Z) : File := mkFile fd Attacher_new.
(** [src/src/lib.rs:81-87] *)
Definition File_into_raw_fd (self : File) : Z := file_inner self.

Section open.
(** Paths, and [std::fs::OpenOptions::open]; the flags are those of [custom_flags]. *)
Context {P : Type} (std_open : StdOpenOptions → Z → P → W → io_result Z * W).

Definition FILE_FLAG_OVERLAPPED : Z := 0x40000000.

(** [src/src/fs/file.rs:29-40] on Windows *)
Definition windows_file_with_options (path : P) (options : StdOpenOptions) (w : W) : io_result Z * W :=
  std_open options FILE_FLAG_OVERLAPPED path w.

(** [src/src/fs/file.rs:42-48] elsewhere *)
Definition unix_file_with_options (path : P) (options : StdOpenOptions) (w : W) : io_result Z * W :=
  std_open options 0 path w.

Context (windows : bool).
Definition file_with_options (path : P) (options : StdOpenOptions) (w : W) : io_result Z * W :=
  if windows then windows_file_with_options path options w else unix_file_with_options path options w.

(** [src/src/fs/file.rs:51-58] *)
Definition with_options (path : P) (options : OpenOptions) (w : W) : io_result File * W :=
  match file_with_options path (std_options options) w with
  | (Ok inner, w) => (Ok (mkFile inner Attacher_new), w)
  | (Err e, w) => (Err e, w)
  end.

(** [src/src/fs/open_options.rs:113-118] *)
Definition OpenOptions_open (self : OpenOptions) (path : P) (w : W) : io_result File * W :=
  with_options path self w.

(** [src/src/fs/file.rs:60-65] *)
Definition File_open (path : P) (w : W) : io_result File * W :=
  OpenOptions_open (OpenOptions_read OpenOptions_new true) path w.

(** [src/src/fs/file.rs:67-79] *)
Definition File_create (path : P) (w : W) : io_result File * W :=
  OpenOptions_open (OpenOptions_truncate (OpenOptions_write (OpenOptions_create OpenOptions_new true) true) true)
    path w.
End open.

(** [src/src/fs/file.rs:81-84] *)
Definition file_attach (self : File) (w : W) : io_result F * File * W :=
  let '(r, a, w) := Attacher_attach (file_attacher self) (file_inner self) w in
  (r, mkFile (file_inner self) a, w).

(** [src/src/fs/file.rs:86-96] the clone shares the attached descriptor; [dup] duplicates the raw one *)
Definition File_try_clone (dup : Z → W → io_result Z * W) (self : File) (w : W) : io_result File * W :=
  match dup (file_inner self) w with
  | (Ok inner, w) => (Ok (mkFile inner (file_attacher self)), w)
  | (Err e, w) => (Err e, w)
  end.

Section reading.
Context {T : Type} `{!IoBuf T, !IoBufMut T, !Await (ReadAt FF T) W}.

(** [src/src/fs/file.rs:125-140] *)
Definition read_at (self : File) (buffer : T) (pos : Z) (w : W) : outcome (BufResult Z T * File * W) :=
  let '(fd, self, w) := file_attach self w in
  match fd with
  | Err e => Done ((Err e, buffer), self, w)
  | Ok fd =>
      let op := ReadAt_new into fd pos buffer in
      let '(res, op, w) := await_op op w in
      r ← update_buffer_len (BufResult_into_inner ReadAt_into_inner (res, op));
      Done (r, self, w)
  end.

(** [src/src/fs/file.rs:179-187] the result after the loop *)
Definition read_exact_result (need total_read : Z) : io_result Z :=
  if bool_decide (total_read < need)%Z then Err (Custom UnexpectedEof) else Ok total_read.

(** [src/src/fs/file.rs:171-178] *)
Fixpoint read_exact_loop (fuel : nat) (self : File) (buffer : T) (pos need total_read : Z) (w : W) :
    option (outcome (BufResult Z T * File * W)) :=
  if bool_decide (total_read < need)%Z then
    match fuel with
    | 0 => None
    | S fuel =>
        match (p ← usize_add pos total_read; read_at self buffer p w) with
        | Done (r, self, w) =>
            buf_try r
              (λ read buffer,
                 if bool_decide (read = 0)%Z
                 then Some (Done ((read_exact_result need total_read, buffer), self, w))
                 else match usize_add total_read read with
                      | Done total_read => read_exact_loop fuel self buffer pos need total_read w
                      | _ => Some Panic
                      end)
              (λ r, Some (Done (r, self, w)))
        | Panic => Some Panic
        | Undef => Some Undef
        end
    end
  else Some (Done ((read_exact_result need total_read, buffer), self, w)).

(** [src/src/fs/file.rs:162-188] *)
Definition read_exact_at (fuel : nat) (self : File) (buffer : T) (pos : Z) (w : W) :
    option (outcome (BufResult Z T * File * W)) :=
  match as_uninit_slice buffer with
  | Done (_, need) => read_exact_loop fuel self buffer pos (Z.of_nat need) 0 w
  | Panic => Some Panic
  | Undef => Some Undef
  end.
End reading.

Section reading_to_end.
(** [Vec::reserve] *)
Context `{!Await (ReadAt FF Vec_u8) W} (reserve : nat → Vec_u8 → Vec_u8).

(** [src/src/fs/file.rs:209-220] *)
Fixpoint read_to_end_loop (fuel : nat) (self : File) (buffer : Vec_u8) (pos total_read : Z) (w : W) :
    option (outcome (BufResult Z Vec_u8 * File * W)) :=
  match fuel with
  | 0 => None
  | S fuel =>
      match (p ← usize_add pos total_read; read_at self buffer p w) with
      | Done (r, self, w) =>
          buf_try r
            (λ read buffer,
               if bool_decide (read = 0)%Z then Some (Done ((Ok total_read, buffer), self, w))
               else match usize_add total_read read with
                    | Done total_read =>
                        let buffer :=
                          if bool_decide (raw_len (vec_raw buffer) = length (raw_mem (vec_raw buffer)))
                          then reserve 32 buffer else buffer in
                        read_to_end_loop fuel self buffer pos total_read w
                    | _ => Some Panic
                    end)
            (λ r, Some (Done (r, self, w)))
      | Panic => Some Panic
      | Undef => Some Undef
      end
  end.

(** [src/src/fs/file.rs:199-221] *)
Definition read_to_end_at (fuel : nat) (self : File) (buffer : Vec_u8) (pos : Z) (w : W) :
    option (outcome (BufResult Z Vec_u8 * File * W)) :=
  read_to_end_loop fuel self buffer pos 0 w.
End reading_to_end.

Section writing.
Context {T : Type} `{!IoBuf T, !Await (WriteAt FF T) W, !Await (WriteAt FF (Slice T)) W}.

(** [src/src/fs/file.rs:245-253] for any buffer *)
Definition write_at {B} `{!IoBuf B, !Await (WriteAt FF B) W} (self : File) (buffer : B) (pos : Z) (w : W) :
    BufResult Z B * File * W :=
  let '(fd, self, w) := file_attach self w in
  match fd with
  | Err e => ((Err e, buffer), self, w)
  | Ok fd =>
      let op := WriteAt_new into fd pos buffer in
      let '(res, op, w) := await_op op w in
      (BufResult_into_inner WriteAt_into_inner (res, op), self, w)
  end.

(** [src/src/fs/file.rs:273-280] *)
Fixpoint write_all_loop (fuel : nat) (self : File) (buffer : T) (pos buf_len total_written : Z) (w : W) :
    option (outcome (BufResult Z T * File * W)) :=
  if bool_decide (total_written < buf_len)%Z then
    match fuel with
    | 0 => None
    | S fuel =>
        match slice (Included (Z.to_nat total_written)) Unbounded buffer, usize_add pos total_written with
        | Done s, Done p =>
            let '(r, self, w) := write_at self s p w in
            buf_try (BufResult_into_inner Slice_into_inner r)
              (λ written buffer,
                 match usize_add total_written written with
                 | Done total_written => write_all_loop fuel self buffer pos buf_len total_written w
                 | _ => Some Panic
                 end)
              (λ r, Some (Done (r, self, w)))
        | _, _ => Some Panic
        end
    end
  else Some (Done ((Ok total_written, buffer), self, w)).

(** [src/src/fs/file.rs:264-282] *)
Definition write_all_at (fuel : nat) (self : File) (buffer : T) (pos : Z) (w : W) :
    option (outcome (BufResult Z T * File * W)) :=
  match buf_len buffer with
  | Done n => write_all_loop fuel self buffer pos (Z.of_nat n) 0 w
  | Panic => Some Panic
  | Undef => Some Undef
  end.
End writing.

Section syncing.
Context `{!Await (Sync FF) W}.

(** [src/src/fs/file.rs:284-290] *)
Definition sync_impl (self : File) (datasync : bool) (w : W) : io_result unit * File * W :=
  let '(fd, self, w) := file_attach self w in
  match fd with
  | Err e => (Err e, self, w)
  | Ok fd =>
      let '(res, _, w) := await_op (Sync_new into fd datasync) w in
      (result_map (λ _, tt) res, self, w)
  end.

(** [src/src/fs/file.rs:296-299] *)
Definition sync_all (self : File) (w : W) : io_result unit * File * W := sync_impl self false w.
(** [src/src/fs/file.rs:312-315] *)
Definition sync_data (self : File) (w : W) : io_result unit * File * W := sync_impl self true w.
End syncing.
End file.
Arguments File : clear implicits.
