(* ===== verification/FileSpec.v ===== *)
(** * Properties of files

    Reading and writing loops against what one positional read or write of a
    file promises: a read returns a nonempty prefix of what is left from its
    offset unless there is nothing left or no room, a write replaces the bytes
    at its offset by a prefix of the buffer. *)

From S2P Require Import Prelude Buf UnixOps Attacher File.
From stdpp Require Import base numbers list.

#[local] Arguments buf_wf : simpl never.
#[local] Arguments filled : simpl never.
#[local] Arguments spare : simpl never.

(** ** Reading *)

Section reading.
Context {F FF W T : Type} `{!RuntimeAttach F W, !IoBuf T, !IoBufMut T, !IoBufMutSpec T,
  !Await (ReadAt FF T) W} (into : F → FF).
(** The bytes of the file. *)
Context (content : W → list byte).
Implicit Types (b : T) (w : W) (self : File F).

(** What is left of the file from an offset on. *)
Definition from (pos : Z) w : list byte := drop (Z.to_nat pos) (content w).

Class ReadSpec : Prop := {
  attach_keeps_content fd w : content (runtime_attach fd w).2 = content w;
  read_op_spec fd pos b w res op w' :
    buf_wf b → is_usize pos → await_op (ReadAt_new into fd pos b) w = (res, op, w') →
    content w' = content w ∧
    match res with
    | Ok n => ∃ bs, n = Z.of_nat (length bs) ∧ bs `prefix_of` from pos w ∧ length bs ≤ spare b ∧
        (bs = [] → from pos w = [] ∨ spare b = 0) ∧
        ReadAt_into_inner op = buf_poke (length (filled b)) bs b
    | Err _ => ReadAt_into_inner op = b
    end;
}.
Context `{!ReadSpec}.

Lemma file_attach_content self w r self' w' :
  file_attach self w = (r, self', w') → content w' = content w.
Proof.
  unfold file_attach, Attacher_attach. destruct (once _) as [f|].
  - by intros [= <- <- <-].
  - pose proof (attach_keeps_content (file_inner self) w) as Ha.
    destruct (runtime_attach _ w) as [[f|e] w1]; cbn in Ha; by intros [= <- <- <-].
Qed.

Lemma read_at_spec self b pos w :
  buf_wf b → is_usize pos →
  ∃ res b' self' w', read_at into self b pos w = Done ((res, b'), self', w') ∧ content w' = content w ∧
    match res with
    | Ok n => ∃ bs, n = Z.of_nat (length bs) ∧ bs `prefix_of` from pos w ∧ length bs ≤ spare b ∧
        (bs = [] → from pos w = [] ∨ spare b = 0) ∧
        buf_wf b' ∧ filled b' = filled b ++ bs ∧ spare b' = spare b - length bs
    | Err _ => b' = b
    end.
Proof.
  intros Hwf Hpos. unfold read_at. destruct (file_attach self w) as [[fd self1] w1] eqn:Ea.
  apply file_attach_content in Ea. destruct fd as [fd|e]; [|by eexists _, _, _, _].
  destruct (await_op (ReadAt_new into fd pos b) w1) as [[res op] w2] eqn:Eo.
  apply read_op_spec in Eo as [Hc Hr]; [|done..]. unfold update_buffer_len, update_len, BufResult_into_inner. cbn.
  destruct res as [n|e]; simpl_outcome; [|eexists _, _, _, _; split; [done|]; split; [congruence|done]].
  destruct Hr as (bs & -> & Hp & Hl & He & ->). rewrite Nat2Z.id.
  destruct (spec_receive b bs Hwf Hl) as (b' & -> & Hwf' & Hf & Hs & _). simpl_outcome.
  eexists _, _, _, _. split; [done|]. split; [congruence|].
  exists bs. unfold from in *. rewrite Ea in Hp, He. by split_and!.
Qed.

Lemma prefix_app_drop {A} (l l1 l2 : list A) n :
  l1 `prefix_of` drop n l → l2 `prefix_of` drop (n + length l1) l → l1 ++ l2 `prefix_of` drop n l.
Proof.
  intros [k1 H1] H2. rewrite <- drop_drop, H1, drop_app_length in H2. rewrite H1. by apply prefix_app.
Qed.

Lemma from_add pos w (k : nat) : (0 ≤ pos)%Z → from (pos + Z.of_nat k) w = drop k (from pos w).
Proof. intros. unfold from. rewrite drop_drop. f_equal. lia. Qed.

(** A read that failed. *)
Definition read_failed (e : io_error) (b' : T) (self' : File F) (w' : W) : Prop :=
  ∃ self1 b1 p w1, read_at into self1 b1 p w1 = Done ((Err e, b'), self', w').

Lemma read_exact_loop_spec need pos fuel : ∀ self b (total : nat) w,
  buf_wf b → spare b = need - total → total ≤ need → need - total ≤ fuel →
  (0 ≤ pos)%Z → (pos + Z.of_nat need ≤ usize_MAX)%Z →
  ∃ res b' self' w' bs,
    read_exact_loop into fuel self b pos (Z.of_nat need) (Z.of_nat total) w =
      Some (Done ((res, b'), self', w')) ∧
    content w' = content w ∧ buf_wf b' ∧ filled b' = filled b ++ bs ∧
    bs `prefix_of` from (pos + Z.of_nat total) w ∧
    match res with
    | Ok n => n = Z.of_nat need ∧ length bs = need - total
    | Err e => length bs < need - total ∧
        ((e = Custom UnexpectedEof ∧ bs = from (pos + Z.of_nat total) w) ∨ read_failed e b' self' w')
    end.
Proof.
  induction fuel as [|fuel IH]; intros self b total w Hwf Hsp Htot Hfuel Hpos Hmax; cbn [read_exact_loop].
  - rewrite bool_decide_eq_false_2 by lia. eexists _, b, self, w, []. unfold read_exact_result.
    rewrite bool_decide_eq_false_2 by lia. rewrite app_nil_r. split_and!; try done; [apply prefix_nil|..]; cbn; lia.
  - case_bool_decide as Hlt; cycle 1.
    { eexists _, b, self, w, []. unfold read_exact_result. rewrite bool_decide_eq_false_2 by lia.
      rewrite app_nil_r. split_and!; try done; [apply prefix_nil|..]; cbn; lia. }
    unfold usize_add at 1. rewrite bool_decide_eq_true_2 by lia. simpl_outcome.
    destruct (read_at_spec self b (pos + Z.of_nat total) w Hwf ltac:(split; lia)) as (res & b1 & self1 & w1 & Er & Hc & Hr).
    rewrite Er. cbn. destruct res as [n|e]; cbn; cycle 1.
    { subst b1. exists (Err e), b, self1, w1, []. rewrite app_nil_r. split_and!; try done; [apply prefix_nil|cbn; lia|].
      right. by exists self, b, (pos + Z.of_nat total)%Z, w. }
    destruct Hr as (bs & -> & Hp & Hl & He & Hwf1 & Hf1 & Hs1). case_bool_decide as Hz.
    + assert (bs = []) as -> by (apply length_zero_iff_nil; lia).
      destruct (He eq_refl) as [He'|?]; [|lia].
      exists (Err (Custom UnexpectedEof)), b1, self1, w1, []. unfold read_exact_result.
      rewrite bool_decide_eq_true_2 by lia. rewrite He'. split_and!; try done; cbn; [lia|by left].
    + unfold usize_add. rewrite bool_decide_eq_true_2 by lia. rewrite <- Nat2Z.inj_add.
      destruct (IH self1 b1 (total + length bs) w1) as (res & b' & self' & w' & bs' & El & Hc' & Hwf' & Hf' & Hp' & Hm);
        [done|lia|lia|lia|done|done|].
      exists res, b', self', w', (bs ++ bs'). rewrite El. split; [done|]. split; [congruence|]. split; [done|].
      split; [by rewrite Hf', Hf1, app_assoc|].
      rewrite Nat2Z.inj_add, Z.add_assoc in Hp', Hm. unfold from in Hp', Hm. rewrite Hc in Hp', Hm.
      change (bs' `prefix_of` from (pos + Z.of_nat total + Z.of_nat (length bs)) w) in Hp'.
      rewrite from_add in Hp' by lia.
      split; [unfold from in *; apply prefix_app_drop; [done|by rewrite <- drop_drop]|].
      rewrite length_app. destruct res as [n|e]; [destruct Hm; split; [done|lia]|].
      destruct Hm as [Hm [[-> ->]|Hm2]]; (split; [lia|]); [left|by right]. split; [done|].
      change (drop (Z.to_nat (pos + Z.of_nat total + Z.of_nat (length bs))) (content w)) with
        (from (pos + Z.of_nat total + Z.of_nat (length bs)) w).
      rewrite from_add by lia. destruct Hp as [k ->]. by rewrite drop_app_length.
Qed.

(** [read_exact_at] always returns, having asked for at most one read per byte: it succeeds
    exactly when it has filled the buffer with the bytes of the file at the offset; otherwise it has
    appended a proper part of them, and the error is that of the read that failed, or
    [UnexpectedEof] when the file ended, in which case everything that was left has been read. *)
Lemma read_exact_at_ok fuel self b pos w :
  buf_wf b → spare b ≤ fuel → (0 ≤ pos)%Z → (pos + Z.of_nat (spare b) ≤ usize_MAX)%Z →
  ∃ res b' self' w' bs,
    read_exact_at into fuel self b pos w = Some (Done ((res, b'), self', w')) ∧
    content w' = content w ∧ filled b' = filled b ++ bs ∧ bs `prefix_of` from pos w ∧
    match res with
    | Ok n => n = Z.of_nat (spare b) ∧ length bs = spare b
    | Err e => length bs < spare b ∧
        ((e = Custom UnexpectedEof ∧ bs = from pos w) ∨ read_failed e b' self' w')
    end.
Proof.
  intros Hwf Hfuel Hpos Hmax. unfold read_exact_at. destruct (spec_ptr b Hwf) as (p & _ & Hp).
  unfold as_uninit_slice. rewrite Hp, (spec_len b Hwf), (spec_capacity b Hwf). simpl_outcome.
  unfold usize_sub. rewrite bool_decide_eq_true_2 by lia.
  replace (length (filled b) + spare b - length (filled b)) with (spare b) by lia.
  destruct (read_exact_loop_spec (spare b) pos fuel self b 0 w)
    as (res & b' & self' & w' & bs & E & Hc & _ & Hf & Hpre & Hm); [done|lia|lia|lia|done|done|].
  rewrite Z.add_0_r, Nat.sub_0_r in *. cbn. exists res, b', self', w', bs. by split_and!.
Qed.
End reading.

(** ** Reading to the end *)

Section reading_to_end.
Context {F FF W : Type} `{!RuntimeAttach F W, !Await (ReadAt FF Vec_u8) W} (into : F → FF).
Context (content : W → list byte) `{!ReadSpec (T := Vec_u8) into content}.
(** [Vec::reserve]: the contents stay and there is room for at least [n] more bytes. *)
Context (reserve : nat → Vec_u8 → Vec_u8)
  (reserve_spec : ∀ n v, buf_wf v →
     buf_wf (reserve n v) ∧ filled (reserve n v) = filled v ∧ n ≤ spare (reserve n v)).

Lemma vec_full_spare (v : Vec_u8) :
  buf_wf v → bool_decide (raw_len (vec_raw v) = length (raw_mem (vec_raw v))) = bool_decide (spare v = 0).
Proof.
  intros Hwf. unfold spare, buf_wf, Vec_spec, raw_spec in *. cbn in *. apply bool_decide_ext. lia.
Qed.

Lemma read_to_end_loop_spec pos fuel : ∀ self (b : Vec_u8) (total : nat) w,
  buf_wf b → 0 < spare b → length (from content (pos + Z.of_nat total) w) < fuel →
  (0 ≤ pos)%Z →
  (pos + Z.of_nat total + Z.of_nat (length (from content (pos + Z.of_nat total) w)) ≤ usize_MAX)%Z →
  ∃ res b' self' w' bs,
    read_to_end_loop into reserve fuel self b pos (Z.of_nat total) w = Some (Done ((res, b'), self', w')) ∧
    content w' = content w ∧ filled b' = filled b ++ bs ∧ bs `prefix_of` from content (pos + Z.of_nat total) w ∧
    match res with
    | Ok n => n = Z.of_nat (total + length bs) ∧ bs = from content (pos + Z.of_nat total) w
    | Err e => read_failed into e b' self' w'
    end.
Proof.
  induction fuel as [|fuel IH]; intros self b total w Hwf Hsp Hfuel Hpos Hmax; [lia|].
  cbn [read_to_end_loop]. unfold usize_add at 1. rewrite bool_decide_eq_true_2 by lia. simpl_outcome.
  destruct (read_at_spec into content self b (pos + Z.of_nat total) w Hwf ltac:(split; lia)) as (res & b1 & self1 & w1 & Er & Hc & Hr).
  rewrite Er. cbn. destruct res as [n|e]; cbn; cycle 1.
  { subst b1. exists (Err e), b, self1, w1, []. rewrite app_nil_r. split_and!; try done; [apply prefix_nil|].
    by exists self, b, (pos + Z.of_nat total)%Z, w. }
  destruct Hr as (bs & -> & Hp & Hl & He & Hwf1 & Hf1 & Hs1). case_bool_decide as Hz.
  - assert (bs = []) as -> by (apply length_zero_iff_nil; lia).
    destruct (He eq_refl) as [He'|?]; [|lia].
    eexists (Ok _), b1, self1, w1, []. rewrite He'. split_and!; try done. cbn. f_equal. lia.
  - assert (length bs ≤ length (from content (pos + Z.of_nat total) w)) as Hle by by apply prefix_length.
    unfold usize_add. rewrite bool_decide_eq_true_2 by lia. rewrite vec_full_spare by done.
    rewrite <- Nat2Z.inj_add. set (b2 := if bool_decide _ then _ else _).
    assert (buf_wf b2 ∧ filled b2 = filled b1 ∧ 0 < spare b2) as (Hwf2 & Hf2 & Hs2).
    { unfold b2. case_bool_decide; [|split_and!; try done; lia].
      destruct (reserve_spec 32 b1 Hwf1) as (? & ? & ?). split_and!; try done; lia. }
    assert (from content (pos + Z.of_nat (total + length bs)) w1 =
      drop (length bs) (from content (pos + Z.of_nat total) w)) as Hfrom.
    { rewrite Nat2Z.inj_add, Z.add_assoc, from_add by lia. unfold from. by rewrite Hc. }
    destruct (IH self1 b2 (total + length bs) w1) as (res & b' & self' & w' & bs' & El & Hc' & Hf' & Hp' & Hm);
      [done|done|rewrite Hfrom, length_drop; lia|done|rewrite Hfrom, length_drop; lia|].
    exists res, b', self', w', (bs ++ bs'). rewrite El. split; [done|]. split; [congruence|].
    split; [by rewrite Hf', Hf2, Hf1, app_assoc|]. rewrite Hfrom in Hp', Hm.
    destruct Hp as [k Hk]. rewrite Hk, drop_app_length in Hp', Hm. rewrite Hk.
    split; [by apply prefix_app|]. destruct res as [n|e]; [|done].
    destruct Hm as [-> ->]. split; [|done]. rewrite length_app. lia.
Qed.

(** C25 [read_to_end_at] into a vector that has room always returns, after at most one read more than
    there are bytes: unless a read fails it has appended everything from the offset to the end of
    the file, and returns how much that was. *)
Theorem read_to_end_at_spec fuel self (b : Vec_u8) pos w :
  buf_wf b → 0 < spare b → length (from content pos w) < fuel →
  (0 ≤ pos)%Z → (pos + Z.of_nat (length (from content pos w)) ≤ usize_MAX)%Z →
  ∃ res b' self' w' bs,
    read_to_end_at into reserve fuel self b pos w = Some (Done ((res, b'), self', w')) ∧
    content w' = content w ∧ filled b' = filled b ++ bs ∧ bs `prefix_of` from content pos w ∧
    match res with
    | Ok n => n = Z.of_nat (length bs) ∧ bs = from content pos w
    | Err e => read_failed into e b' self' w'
    end.
Proof.
  intros. destruct (read_to_end_loop_spec pos fuel self b 0 w) as (res & b' & self' & w' & bs & E & Hm);
    rewrite ?Z.add_0_r; try done.
  rewrite Z.add_0_r in Hm. by exists res, b', self', w', bs.
Qed.

(** [read_to_end_at] into a vector without room, such as a new one, reads nothing: the only read
    is one of zero bytes, whose result 0 is taken for the end of the file, and [Ok(0)] is returned
    however long the file is. *)
Theorem read_to_end_at_no_room fuel self (b : Vec_u8) pos w :
  buf_wf b → spare b = 0 → 0 < fuel → is_usize pos →
  ∃ res b' self' w', read_to_end_at into reserve fuel self b pos w = Some (Done ((res, b'), self', w')) ∧
    filled b' = filled b ∧ match res with Ok n => n = 0%Z | Err _ => True end.
Proof.
  intros Hwf Hsp Hfuel [Hpos Hmax]. destruct fuel as [|fuel]; [lia|].
  unfold read_to_end_at. cbn [read_to_end_loop]. unfold usize_add at 1. rewrite Z.add_0_r.
  rewrite bool_decide_eq_true_2 by done. simpl_outcome.
  destruct (read_at_spec into content self b pos w Hwf ltac:(split; lia)) as (res & b1 & self1 & w1 & Er & Hc & Hr).
  rewrite Er. cbn. destruct res as [n|e]; cbn; [|subst b1; by eexists _, _, _, _].
  destruct Hr as (bs & -> & _ & Hl & _ & _ & Hf & _). assert (bs = []) as -> by (apply length_zero_iff_nil; lia).
  cbn. rewrite app_nil_r in Hf. by eexists _, _, _, _.
Qed.
End reading_to_end.

(** ** Writing *)

(** The bytes of a file after [bs] is written at [off]; a gap is filled with zeros. *)
Definition file_write (off : nat) (bs c : list byte) : list byte :=
  take off (c ++ replicate (off - length c) Byte.x00) ++ bs ++ drop (off + length bs) c.

Lemma file_write_app off a b c :
  file_write (off + length a) b (file_write off a c) = file_write off (a ++ b) c.
Proof.
  unfold file_write. set (h := take off (c ++ replicate (off - length c) Byte.x00)).
  assert (length h = off) as Hh.
  { unfold h. rewrite length_take, length_app, length_replicate. lia. }
  rewrite !length_app. replace (off + length a - _) with 0 by lia. rewrite app_nil_r.
  rewrite (app_assoc h a), take_app_length', <- !app_assoc by (rewrite length_app; lia). do 3 f_equal.
  rewrite app_assoc, drop_app_ge by (rewrite length_app; lia). rewrite length_app, drop_drop. f_equal. lia.
Qed.

Lemma file_write_nil off c : off ≤ length c → file_write off [] c = c.
Proof.
  intros. unfold file_write. cbn. replace (off - length c) with 0 by lia. cbn.
  by rewrite app_nil_r, Nat.add_0_r, take_drop.
Qed.

Section writing.
Context {F FF W T : Type} `{!RuntimeAttach F W, !IoBuf T, !IoBufMut T, !IoBufMutSpec T,
  !Await (WriteAt FF (Slice T)) W} (into : F → FF) (content : W → list byte).
Implicit Types (b : T) (w : W) (self : File F).

(** A write takes a prefix of the initialised bytes, a nonempty one if there are any. *)
Class WriteSpec : Prop := {
  attach_keeps_file fd w : content (runtime_attach fd w).2 = content w;
  write_op_spec fd pos (s : Slice T) w res op w' :
    buf_wf s → is_usize pos → await_op (WriteAt_new into fd pos s) w = (res, op, w') →
    WriteAt_into_inner op = s ∧
    match res with
    | Ok n => ∃ k, n = Z.of_nat k ∧ k ≤ length (filled s) ∧ (filled s ≠ [] → 0 < k) ∧
        content w' = file_write (Z.to_nat pos) (take k (filled s)) (content w)
    | Err _ => content w' = content w
    end;
}.
Context `{!WriteSpec}.

Lemma write_at_spec self (s : Slice T) pos w res s' self' w' :
  buf_wf s → is_usize pos → write_at into self s pos w = ((res, s'), self', w') →
  s' = s ∧
  match res with
  | Ok n => ∃ k, n = Z.of_nat k ∧ k ≤ length (filled s) ∧ (filled s ≠ [] → 0 < k) ∧
      content w' = file_write (Z.to_nat pos) (take k (filled s)) (content w)
  | Err _ => content w' = content w
  end.
Proof.
  intros Hwf Hpos. unfold write_at. destruct (file_attach self w) as [[fd self1] w1] eqn:Ea.
  assert (content w1 = content w) as Hc.
  { revert Ea. unfold file_attach, Attacher_attach. destruct (once _) as [f|]; [by intros [= <- <- <-]|].
    pose proof (attach_keeps_file (file_inner self) w) as Ha.
    destruct (runtime_attach _ w) as [[f|e] w2]; cbn in Ha; by intros [= <- <- <-]. }
  destruct fd as [fd|e]; [|by intros [= <- <- <- <-]].
  destruct (await_op _ w1) as [[r op] w2] eqn:Eo. apply write_op_spec in Eo as [Hop Hr]; [|done..].
  intros [= <- <- <- <-]. cbn. split; [done|]. rewrite Hc in Hr. done.
Qed.

(** The view that the next write of [write_all_at] passes. *)
Lemma rest_slice b (total : nat) :
  buf_wf b → total < length (filled b) → (Z.of_nat (length (filled b)) ≤ usize_MAX)%Z →
  ∃ s, slice (Included total) Unbounded b = Done s ∧ buf_wf s ∧ filled s = drop total (filled b) ∧
    Slice_into_inner s = b.
Proof.
  intros Hwf Hlt Hmax. exists (mkSlice b total (length (filled b) + spare b)).
  rewrite slice_unfold; [|done|cbn; lia|done]. cbn. rewrite !bool_decide_eq_true_2 by lia. split; [done|].
  split; [unfold buf_wf, Slice_spec, slice_wf; cbn; split_and!; auto with lia|].
  split; [|done]. unfold filled at 1, Slice_spec, slice_filled. cbn. rewrite take_ge by lia. done.
Qed.

Lemma write_all_loop_spec pos fuel : ∀ self b (total : nat) w,
  buf_wf b → total ≤ length (filled b) → length (filled b) - total ≤ fuel → (0 ≤ pos)%Z →
  (pos + Z.of_nat (length (filled b)) ≤ usize_MAX)%Z →
  ∃ res self' w' k,
    write_all_loop into fuel self b pos (Z.of_nat (length (filled b))) (Z.of_nat total) w =
      Some (Done ((res, b), self', w')) ∧ k ≤ length (filled b) - total ∧
    (0 < k → content w' =
       file_write (Z.to_nat pos + total) (take k (drop total (filled b))) (content w)) ∧
    (k = 0 → content w' = content w) ∧
    match res with
    | Ok n => n = Z.of_nat (length (filled b)) ∧ k = length (filled b) - total
    | Err _ => k < length (filled b) - total
    end.
Proof.
  induction fuel as [|fuel IH]; intros self b total w Hwf Htot Hfuel Hpos Hmax; cbn [write_all_loop].
  { rewrite bool_decide_eq_false_2 by lia. eexists _, self, w, 0. split; [done|]. split_and!; try done; try lia. }
  case_bool_decide as Hlt; cycle 1.
  { eexists _, self, w, 0. split; [done|]. split_and!; try done; try lia. }
  rewrite Nat2Z.id. destruct (rest_slice b total Hwf) as (s & -> & Hs & Hf & Hin); [lia|lia|].
  unfold usize_add at 1. rewrite bool_decide_eq_true_2 by lia.
  destruct (write_at into self s (pos + Z.of_nat total) w) as [[[res s'] self1] w1] eqn:Ew.
  apply write_at_spec in Ew as [-> Hr]; [|done|split; lia]. unfold BufResult_into_inner. cbn. rewrite Hin.
  destruct res as [n|e]; cbn; cycle 1.
  { exists (Err e), self1, w1, 0. split; [done|]. split_and!; try done; try lia. }
  destruct Hr as (k & -> & Hk & Hpr & Hc). rewrite Hf in *. rewrite length_drop in Hk.
  assert (0 < k) as Hk0. { apply Hpr. intros E%(f_equal length). rewrite length_drop in E. cbn in E. lia. }
  unfold usize_add. rewrite bool_decide_eq_true_2 by lia. rewrite <- Nat2Z.inj_add.
  destruct (IH self1 b (total + k) w1) as (res & self' & w' & k' & El & Hk' & Hw & Hw0 & Hm);
    [done|lia|lia|done|done|].
  rewrite El. exists res, self', w', (k + k'). split; [done|]. split; [lia|].
  replace (Z.to_nat (pos + Z.of_nat total)) with (Z.to_nat pos + total) in Hc by lia.
  split_and!; [intros _|lia|destruct res; lia].
  assert (take (k + k') (drop total (filled b)) =
    take k (drop total (filled b)) ++ take k' (drop (total + k) (filled b))) as ->.
  { rewrite <- drop_drop, take_take_drop. done. }
  destruct (decide (k' = 0)) as [->|Hne].
  - rewrite (Hw0 eq_refl), Hc. by rewrite take_0, app_nil_r.
  - rewrite Hw, Hc by lia. rewrite <- file_write_app. rewrite length_take, length_drop. f_equal. lia.
Qed.

(** C38 [write_all_at], when every write makes progress, always returns after at most one write per
    byte and gives the buffer back: unless a write fails the file then holds the whole contents of
    the buffer at the offset and is otherwise unchanged; on an error a proper prefix was written. *)
Theorem write_all_at_spec fuel self b pos w :
  buf_wf b → length (filled b) ≤ fuel → (0 ≤ pos)%Z →
  (pos + Z.of_nat (length (filled b)) ≤ usize_MAX)%Z →
  ∃ res self' w' k, write_all_at into fuel self b pos w = Some (Done ((res, b), self', w')) ∧
    (0 < k → content w' = file_write (Z.to_nat pos) (take k (filled b)) (content w)) ∧
    (k = 0 → content w' = content w) ∧
    match res with
    | Ok n => n = Z.of_nat (length (filled b)) ∧ k = length (filled b)
    | Err _ => k < length (filled b)
    end.
Proof.
  intros Hwf Hfuel Hpos Hmax. unfold write_all_at. rewrite (spec_len b Hwf).
  destruct (write_all_loop_spec pos fuel self b 0 w) as (res & self' & w' & k & E & _ & H1 & H2 & H3);
    [done|lia|lia|done|done|].
  rewrite Nat.add_0_r, drop_0, Nat.sub_0_r in *. exists res, self', w', k. by split_and!.
Qed.
End writing.

(** ** A concrete file

    The state is the contents; a read or a write moves at most two bytes. *)

Record Disk := mkDisk { disk : list byte }.

#[global] Instance Disk_attach : RuntimeAttach Z Disk := {| runtime_attach fd w := (Ok fd, w) |}.

#[global] Instance Disk_read : Await (ReadAt Z Vec_u8) Disk := {|
  await_op o w :=
    let b := read_at_buffer _ o in
    let bs := take (Nat.min 2 (spare b)) (drop (Z.to_nat (read_at_offset _ o)) (disk w)) in
    (Ok (Z.of_nat (length bs)),
     mkReadAt Vec_u8 (read_at_fd _ o) (read_at_offset _ o) (buf_poke (length (filled b)) bs b), w) |}.

#[global] Instance Disk_write : Await (WriteAt Z (Slice Vec_u8)) Disk := {|
  await_op o w :=
    let bs := take 2 (filled (write_at_buffer _ o)) in
    (Ok (Z.of_nat (length bs)), o, mkDisk (file_write (Z.to_nat (write_at_offset _ o)) bs (disk w))) |}.

#[global] Instance Disk_ReadSpec : ReadSpec (T := Vec_u8) id disk.
Proof.
  split; [done|]. intros fd pos b w res op w' Hwf _ E. cbn [await_op Disk_read ReadAt_new read_at_buffer read_at_offset] in E.
  injection E as <- <- <-. split; [done|].
  eexists. split; [done|]. split_and!; [|rewrite length_take; repeat case_match; lia| |done].
  - unfold from. cbn. eexists. by rewrite take_drop.
  - unfold from. cbn. destruct (drop (Z.to_nat pos) (disk w)) as [|x l]; [by left|].
    intros E. right. destruct (spare b) as [|n]; [done|]. cbn in E. by destruct n.
Qed.

#[global] Instance Disk_WriteSpec : WriteSpec (T := Vec_u8) id disk.
Proof.
  split; [done|]. intros fd pos s w res op w' Hwf _ [= <- <- <-]. split; [done|].
  exists (length (take 2 (filled s))). cbn. rewrite length_take. split_and!; [done|lia| |].
  - intros Hne. destruct (filled s); [done|cbn; lia].
  - f_equal. destruct (decide (2 ≤ length (filled s))); [by rewrite Nat.min_l|].
    rewrite Nat.min_r, !take_ge by lia. done.
Qed.

Definition abc : list byte := [Byte.x61; Byte.x62; Byte.x63].

(** A reserve that allocates exactly what is asked for. *)
Definition exact_reserve (n : nat) (v : Vec_u8) : Vec_u8 :=
  mkVec (mkRawBuf (raw_ptr (vec_raw v)) (raw_mem (vec_raw v) ++ replicate n Byte.x00) (raw_len (vec_raw v))).

Lemma exact_reserve_spec n v :
  buf_wf v → buf_wf (exact_reserve n v) ∧ filled (exact_reserve n v) = filled v ∧ n ≤ spare (exact_reserve n v).
Proof.
  unfold buf_wf, filled, spare, Vec_spec, raw_spec. cbn. intros H.
  rewrite length_app, length_replicate, take_app_le by lia. split_and!; [lia|done|lia].
Qed.

(** A disk with three bytes. *)
Lemma read_exact_at_abc :
  ∃ res b' self' w' bs, read_exact_at id 8 (mkFile 3 Attacher_new) (vec_of [] 3) 0 (mkDisk abc) =
      Some (Done ((res, b'), self', w')) ∧ filled b' = bs ∧ bs `prefix_of` abc.
Proof.
  destruct (read_exact_at_ok id disk 8 (mkFile 3 Attacher_new) (vec_of [] 3) 0 (mkDisk abc) (vec_of_wf _ _)
    ltac:(vm_compute; lia) ltac:(lia) ltac:(vm_compute; discriminate)) as (res & b' & self' & w' & bs & H1 & _ & H2 & H3 & _).
  exists res, b', self', w', bs. split; [exact H1|]. split; [exact H2|exact H3].
Qed.

Lemma read_to_end_at_spec_witness :
  ∃ res b' self' w' bs,
    read_to_end_at id exact_reserve 8 (mkFile 3 Attacher_new) (vec_of [] 1) 0 (mkDisk abc) =
      Some (Done ((res, b'), self', w')) ∧ filled b' = bs ∧ bs `prefix_of` abc.
Proof.
  destruct (read_to_end_at_spec id disk exact_reserve exact_reserve_spec 8 (mkFile 3 Attacher_new)
    (vec_of [] 1) 0 (mkDisk abc) (vec_of_wf _ _) ltac:(vm_compute; lia) ltac:(vm_compute; lia) ltac:(lia)
    ltac:(vm_compute; discriminate)) as (res & b' & self' & w' & bs & H1 & _ & H2 & H3 & _).
  exists res, b', self', w', bs. split; [exact H1|]. split; [exact H2|exact H3].
Defined.

Lemma read_to_end_at_no_room_witness :
  ∃ res b' self' w', read_to_end_at id exact_reserve 8 (mkFile 3 Attacher_new) (vec_of [] 0) 0 (mkDisk abc) =
      Some (Done ((res, b'), self', w')) ∧ filled b' = [].
Proof.
  destruct (read_to_end_at_no_room id disk exact_reserve 8 (mkFile 3 Attacher_new) (vec_of [] 0) 0 (mkDisk abc)
    (vec_of_wf _ _) ltac:(reflexivity) ltac:(lia) ltac:(split; vm_compute; discriminate))
    as (res & b' & self' & w' & H1 & H2 & _).
  exists res, b', self', w'. split; [exact H1|exact H2].
Defined.

Lemma write_all_at_spec_witness :
  ∃ res self' w' k, write_all_at id 8 (mkFile 3 Attacher_new) (vec_of abc 0) 1 (mkDisk abc) =
      Some (Done ((res, vec_of abc 0), self', w')) ∧
    (0 < k → disk w' = file_write 1 (take k abc) abc).
Proof.
  destruct (write_all_at_spec id disk 8 (mkFile 3 Attacher_new) (vec_of abc 0) 1 (mkDisk abc) (vec_of_wf _ _)
    ltac:(vm_compute; lia) ltac:(lia) ltac:(vm_compute; discriminate)) as (res & self' & w' & k & H1 & H2 & _).
  exists res, self', w', k. split; [exact H1|exact H2].
Defined.

(** A device on which every write succeeds with zero bytes. *)
Record FullDisk := mkFullDisk {}.
#[global] Instance FullDisk_attach : RuntimeAttach Z FullDisk := {| runtime_attach fd w := (Ok fd, w) |}.
#[global] Instance FullDisk_write : Await (WriteAt Z (Slice Vec_u8)) FullDisk :=
  {| await_op o w := (Ok 0%Z, o, w) |}.

(** [write_all_at] does not notice that a device accepts no more bytes: when writes return 0 it
    asks for the same write again forever, however much fuel it is given. *)
Theorem write_all_at_hangs fuel a :
  write_all_at id fuel (mkFile 3 a) (vec_of abc 0) 0 mkFullDisk = None.
Proof.
  unfold write_all_at. replace (buf_len (vec_of abc 0)) with (Done 3) by reflexivity.
  revert a. induction fuel as [|fuel IH]; intros a; [done|]. cbn [write_all_loop].
  unfold write_at, file_attach, Attacher_attach. cbn. destruct a as [[fd|]]; cbn; apply IH.
Qed.
