(* ===== verification/FileAsync.v ===== *)
(** * Files on the executor

    The asynchronous methods of [src/fs/file.rs] as programs that the executor
    runs, next to the direct reading of them in [File.v], which they agree
    with.  An operation is a [dyn OpCode] for the runtime; [OpAs] is the type a
    key stands for, to which the box of an operation is cast back. *)

From S2P Require Import Prelude Driver Buf UnixOps Attacher File FileSpec Runtime Executor AsyncFn.
From stdpp Require Import base numbers list gmap.

Class OpAs (O Op : Type) := { op_into : O → Op; op_as : Op → option O }.

(** Awaiting an operation of type [O]. *)
Definition Await_as {O Op W} `{!OpAs O Op, !Await Op W} : Await O W := {|
  await_op o s := let '(r, x, s) := await_op (op_into o) s in (r, default o (op_as x), s) |}.

(** An operation that is awaited comes back with its type. *)
Class KeepsType (O Op W : Type) `{!OpAs O Op, !Await Op W} : Prop :=
  keeps_type (o : O) (s : W) r x s' : await_op (op_into o : Op) s = (r, x, s') → is_Some (op_as (O := O) x).

(** The state goes where the direct reading has it. *)
Definition with_state {A F W} (x : option (outcome (A * F)) * W) : option (outcome (A * F * W)) :=
  match x.1 with
  | Some (Done (a, f)) => Some (Done (a, f, x.2))
  | Some Panic => Some Panic
  | Some Undef => Some Undef
  | None => None
  end.

Lemma with_state_Done {A F W} (x : option (outcome (A * F)) * W) a f s :
  with_state x = Some (Done (a, f, s)) → x = (Some (Done (a, f)), s).
Proof. destruct x as [[[[a' f']| |]|] s']; cbn; [by intros [= -> -> ->]|done..]. Qed.

Section programs.
Context {Op F FF : Type} (into : F → FF).

(** [src/src/fs/file.rs:81-84] with [Attacher::attach] *)
Definition file_attach_prog {R} (self : File F) (k : io_result F → File F → prog Op F R) : prog Op F R :=
  match once (file_attacher self) with
  | Some fd => k (Ok fd) (mkFile (file_inner self) (file_attacher self))
  | None => Attach (file_inner self) (λ r,
      k r (mkFile (file_inner self) (match r with Ok fd => mkAttacher (Some fd) | Err _ => file_attacher self end)))
  end.

Section reading.
Context {T : Type} `{!IoBuf T, !IoBufMut T, !OpAs (ReadAt FF T) Op}.

(** [src/src/fs/file.rs:125-140] *)
Definition read_at_prog (self : File F) (buffer : T) (pos : Z) : prog Op F (outcome (BufResult Z T * File F)) :=
  file_attach_prog self (λ fd self,
    match fd with
    | Err e => Ret (Done ((Err e, buffer), self))
    | Ok fd => Submit (op_into (ReadAt_new into fd pos buffer)) (λ res x,
        Ret (match op_as x with
             | Some op => r ← update_buffer_len (BufResult_into_inner ReadAt_into_inner (res, op)); Done (r, self)
             | None => Undef
             end))
    end).

(** [src/src/fs/file.rs:171-187] *)
Fixpoint read_exact_loop_prog (fuel : nat) (self : File F) (buffer : T) (pos need total_read : Z) :
    prog Op F (option (outcome (BufResult Z T * File F))) :=
  if bool_decide (total_read < need)%Z then
    match fuel, usize_add pos total_read with
    | 0, _ => Ret None
    | S fuel, Done p => pbind (read_at_prog self buffer p) (λ x,
        match x with
        | Done (r, self) =>
            buf_try r
              (λ read buffer,
                 if bool_decide (read = 0)%Z
                 then Ret (Some (Done ((read_exact_result need total_read, buffer), self)))
                 else match usize_add total_read read with
                      | Done total_read => read_exact_loop_prog fuel self buffer pos need total_read
                      | _ => Ret (Some Panic)
                      end)
              (λ r, Ret (Some (Done (r, self))))
        | Panic => Ret (Some Panic)
        | Undef => Ret (Some Undef)
        end)
    | S _, _ => Ret (Some Panic)
    end
  else Ret (Some (Done ((read_exact_result need total_read, buffer), self))).

(** [src/src/fs/file.rs:162-188] *)
Definition read_exact_at_prog (fuel : nat) (self : File F) (buffer : T) (pos : Z) :
    prog Op F (option (outcome (BufResult Z T * File F))) :=
  match as_uninit_slice buffer with
  | Done (_, need) => read_exact_loop_prog fuel self buffer pos (Z.of_nat need) 0
  | Panic => Ret (Some Panic)
  | Undef => Ret (Some Undef)
  end.
End reading.

Section writing.
Context {T : Type} `{!IoBuf T, !OpAs (WriteAt FF (Slice T)) Op}.

(** [src/src/fs/file.rs:245-253] *)
Definition write_at_prog (self : File F) (buffer : Slice T) (pos : Z) : prog Op F (outcome (BufResult Z (Slice T) * File F)) :=
  file_attach_prog self (λ fd self,
    match fd with
    | Err e => Ret (Done ((Err e, buffer), self))
    | Ok fd => Submit (op_into (WriteAt_new into fd pos buffer)) (λ res x,
        Ret (match op_as x with
             | Some op => Done (BufResult_into_inner WriteAt_into_inner (res, op), self)
             | None => Undef
             end))
    end).

(** [src/src/fs/file.rs:273-281] *)
Fixpoint write_all_loop_prog (fuel : nat) (self : File F) (buffer : T) (pos buf_len total_written : Z) :
    prog Op F (option (outcome (BufResult Z T * File F))) :=
  if bool_decide (total_written < buf_len)%Z then
    match fuel, slice (Included (Z.to_nat total_written)) Unbounded buffer, usize_add pos total_written with
    | 0, _, _ => Ret None
    | S fuel, Done s, Done p => pbind (write_at_prog self s p) (λ x,
        match x with
        | Done (r, self) =>
            buf_try (BufResult_into_inner Slice_into_inner r)
              (λ written buffer,
                 match usize_add total_written written with
                 | Done total_written => write_all_loop_prog fuel self buffer pos buf_len total_written
                 | _ => Ret (Some Panic)
                 end)
              (λ r, Ret (Some (Done (r, self))))
        | Panic => Ret (Some Panic)
        | Undef => Ret (Some Undef)
        end)
    | S _, _, _ => Ret (Some Panic)
    end
  else Ret (Some (Done ((Ok total_written, buffer), self))).

(** [src/src/fs/file.rs:264-282] *)
Definition write_all_at_prog (fuel : nat) (self : File F) (buffer : T) (pos : Z) :
    prog Op F (option (outcome (BufResult Z T * File F))) :=
  match buf_len buffer with
  | Done n => write_all_loop_prog fuel self buffer pos (Z.of_nat n) 0
  | Panic => Ret (Some Panic)
  | Undef => Ret (Some Undef)
  end.
End writing.

(** ** They agree with the direct reading *)

Section agree.
Context {W : Type} `{!Await Op W, !RuntimeAttach F W}.
#[local] Existing Instance Await_as.

Lemma exec_file_attach {R} self (k : io_result F → File F → prog Op F R) (s : W) :
  exec (file_attach_prog self k) s = let '(r, self, s) := file_attach self s in exec (k r self) s.
Proof.
  unfold file_attach_prog, file_attach, Attacher_attach. destruct (once (file_attacher self)); [done|]. cbn.
  by destruct (runtime_attach (file_inner self) s) as [[fd|e] s'].
Qed.

Lemma submits_file_attach {R} op_ok self (k : io_result F → File F → prog Op F R) (s : W) :
  submits op_ok (file_attach_prog self k) s ↔ let '(r, self, s) := file_attach self s in submits op_ok (k r self) s.
Proof.
  unfold file_attach_prog, file_attach, Attacher_attach. destruct (once (file_attacher self)); [done|]. cbn.
  by destruct (runtime_attach (file_inner self) s) as [[fd|e] s'].
Qed.

Section reads.
Context {T : Type} `{!IoBuf T, !IoBufMut T, !OpAs (ReadAt FF T) Op, !KeepsType (ReadAt FF T) Op W}.

Lemma exec_read_at self (b : T) pos (s : W) :
  read_at into self b pos s = let '(x, s) := exec (read_at_prog self b pos) s in '(r, self) ← x; Done (r, self, s).
Proof.
  unfold read_at, read_at_prog. rewrite exec_file_attach. destruct (file_attach self s) as [[[fd|e] self1] s1]; [|done]. cbn.
  destruct (await_op (op_into (ReadAt_new into fd pos b)) s1) as [[r x] s2] eqn:E. apply keeps_type in E as [o Ho]. rewrite Ho. cbn.
  by destruct (update_buffer_len _).
Qed.

Lemma exec_read_exact_loop fuel pos need : ∀ self (b : T) total (s : W),
  read_exact_loop into fuel self b pos need total s = with_state (exec (read_exact_loop_prog fuel self b pos need total) s).
Proof.
  induction fuel as [|fuel IH]; intros self b total s; cbn [read_exact_loop read_exact_loop_prog]; case_bool_decide; [done..| |done].
  destruct (usize_add pos total) as [p| |] eqn:Ep; [|done|unfold usize_add in Ep; by case_match]. cbn [mbind outcome_bind].
  rewrite exec_read_at, exec_pbind. destruct (exec (read_at_prog self b p) s) as [[[[res b'] self']| |] s']; [|done..]. cbn.
  destruct res as [n|e]; cbn; [|done]. case_bool_decide; [done|].
  destruct (usize_add total n) eqn:Et; [apply IH|done|done].
Qed.

Lemma exec_read_exact_at fuel self (b : T) pos (s : W) :
  read_exact_at into fuel self b pos s = with_state (exec (read_exact_at_prog fuel self b pos) s).
Proof.
  unfold read_exact_at, read_exact_at_prog. destruct (as_uninit_slice b) as [[? need]| |]; [|done..]. apply exec_read_exact_loop.
Qed.

(** The operations submitted are reads into well-formed buffers. *)
Context `{!IoBufMutSpec T} (content : W → list byte) `{!ReadSpec (T := T) into content} (op_ok : Op → W → Prop)
  (read_ok : ∀ fd pos (b : T) s, buf_wf b → is_usize pos → op_ok (op_into (ReadAt_new into fd pos b)) s).

Lemma submits_read_at self (b : T) pos (s : W) : buf_wf b → is_usize pos → submits op_ok (read_at_prog self b pos) s.
Proof.
  intros Hb Hp. unfold read_at_prog. rewrite submits_file_attach. destruct (file_attach self s) as [[[fd|e] self1] s1]; [|done]. cbn.
  split; [by apply read_ok|]. by destruct (await_op _ s1) as [[? ?] ?].
Qed.

Lemma submits_read_exact_loop fuel pos need : ∀ self (b : T) (total : nat) (s : W),
  buf_wf b → spare b = need - total → total ≤ need → (0 ≤ pos)%Z → (pos + Z.of_nat need ≤ usize_MAX)%Z →
  submits op_ok (read_exact_loop_prog fuel self b pos (Z.of_nat need) (Z.of_nat total)) s.
Proof.
  induction fuel as [|fuel IH]; intros self b total s Hwf Hsp Ht Hpos Hmax; cbn [read_exact_loop_prog]; case_bool_decide; [done..| |done].
  unfold usize_add at 1. rewrite bool_decide_eq_true_2 by lia.
  assert (is_usize (pos + Z.of_nat total)) as Hu by (split; lia). rewrite submits_pbind. split; [by apply submits_read_at|].
  destruct (read_at_spec into content self b _ s Hwf Hu) as (res & b' & self' & s' & E & _ & Hr). rewrite exec_read_at in E.
  destruct (exec (read_at_prog self b (pos + Z.of_nat total)) s) as [x s1]. destruct x as [[? ?]| |]; [|done..]. cbn in E. injection E as -> -> ->.
  destruct res as [n|e]; cbn; [|done]. destruct Hr as (bs & -> & _ & Hl & _ & Hwf' & _ & Hs'). case_bool_decide; [done|].
  unfold usize_add. rewrite bool_decide_eq_true_2 by lia. rewrite <- Nat2Z.inj_add. apply IH; [done|lia|lia|done|done].
Qed.

Lemma submits_read_exact_at fuel self (b : T) pos (s : W) :
  buf_wf b → (0 ≤ pos)%Z → (pos + Z.of_nat (spare b) ≤ usize_MAX)%Z → submits op_ok (read_exact_at_prog fuel self b pos) s.
Proof.
  intros Hwf Hpos Hmax. unfold read_exact_at_prog. destruct (uninit_slice_done b Hwf) as [p ->].
  by apply (submits_read_exact_loop fuel pos (spare b) self b 0); [done|lia|lia|..].
Qed.
End reads.

Section writes.
Context {T : Type} `{!IoBuf T, !OpAs (WriteAt FF (Slice T)) Op, !KeepsType (WriteAt FF (Slice T)) Op W}.

Lemma exec_write_at self (b : Slice T) pos (s : W) :
  exec (write_at_prog self b pos) s = let '(r, self, s) := write_at into self b pos s in (Done (r, self), s).
Proof.
  unfold write_at, write_at_prog. rewrite exec_file_attach. destruct (file_attach self s) as [[[fd|e] self1] s1]; [|done]. cbn.
  destruct (await_op (op_into (WriteAt_new into fd pos b)) s1) as [[r x] s2] eqn:E. apply keeps_type in E as [o Ho]. by rewrite Ho.
Qed.

Lemma exec_write_all_loop fuel pos len : ∀ self (b : T) total (s : W),
  write_all_loop into fuel self b pos len total s = with_state (exec (write_all_loop_prog fuel self b pos len total) s).
Proof.
  induction fuel as [|fuel IH]; intros self b total s; cbn [write_all_loop write_all_loop_prog]; case_bool_decide; [done..| |done].
  destruct (slice _ _ b) as [sl| |]; [|done..]. destruct (usize_add pos total) as [p| |]; [|done..].
  rewrite exec_pbind, exec_write_at. destruct (write_at into self sl p s) as [[[res b'] self'] s']. cbn.
  destruct res as [n|e]; cbn; [|done]. destruct (usize_add total n) eqn:Et; [apply IH|done|done].
Qed.

Lemma exec_write_all_at fuel self (b : T) pos (s : W) :
  write_all_at into fuel self b pos s = with_state (exec (write_all_at_prog fuel self b pos) s).
Proof.
  unfold write_all_at, write_all_at_prog. destruct (buf_len b) as [n| |]; [|done..]. apply exec_write_all_loop.
Qed.

(** The operations submitted are writes of views. *)
Context `{!IoBufMut T, !IoBufMutSpec T} (content : W → list byte) `{!WriteSpec (T := T) into content} (op_ok : Op → W → Prop)
  (write_ok : ∀ fd pos (b : Slice T) s, buf_wf b → is_usize pos → op_ok (op_into (WriteAt_new into fd pos b)) s).

Lemma submits_write_at self (b : Slice T) pos (s : W) : buf_wf b → is_usize pos → submits op_ok (write_at_prog self b pos) s.
Proof.
  intros Hb Hp. unfold write_at_prog. rewrite submits_file_attach. destruct (file_attach self s) as [[[fd|e] self1] s1]; [|done]. cbn.
  split; [by apply write_ok|]. by destruct (await_op _ s1) as [[? ?] ?].
Qed.

Lemma submits_write_all_loop fuel pos : ∀ self (b : T) (total : nat) (s : W),
  buf_wf b → total ≤ length (filled b) → (0 ≤ pos)%Z → (pos + Z.of_nat (length (filled b)) ≤ usize_MAX)%Z →
  submits op_ok (write_all_loop_prog fuel self b pos (Z.of_nat (length (filled b))) (Z.of_nat total)) s.
Proof.
  induction fuel as [|fuel IH]; intros self b total s Hwf Ht Hpos Hmax; cbn [write_all_loop_prog]; case_bool_decide; [done..| |done].
  rewrite Nat2Z.id. destruct (rest_slice b total Hwf) as (sl & -> & Hsl & Hf & Hin); [lia|lia|].
  unfold usize_add at 1. rewrite bool_decide_eq_true_2 by lia.
  assert (is_usize (pos + Z.of_nat total)) as Hu by (split; lia). rewrite submits_pbind. split; [by apply submits_write_at|].
  rewrite exec_write_at. destruct (write_at into self sl (pos + Z.of_nat total) s) as [[[res b'] self'] s'] eqn:E.
  apply (write_at_spec into content) in E as [-> Hr]; [|done..]. cbn. rewrite Hin. destruct res as [n|e]; cbn; [|done].
  destruct Hr as (k & -> & Hk & _). rewrite Hf, length_drop in Hk. unfold usize_add. rewrite bool_decide_eq_true_2 by lia.
  rewrite <- Nat2Z.inj_add. apply IH; [done|lia|done|done].
Qed.

Lemma submits_write_all_at fuel self (b : T) pos (s : W) :
  buf_wf b → (0 ≤ pos)%Z → (pos + Z.of_nat (length (filled b)) ≤ usize_MAX)%Z → submits op_ok (write_all_at_prog fuel self b pos) s.
Proof.
  intros Hwf Hpos Hmax. unfold write_all_at_prog. rewrite (spec_len b Hwf). by apply (submits_write_all_loop fuel pos self b 0); [done|lia|..].
Qed.
End writes.
End agree.
End programs.
