(* ===== verification/KqueueFile.v ===== *)
(** * Files on kqueue, from the method to the system call

    The kqueue driver with one operation that is answered at its first try
    does what [Await] says with the operation's own [operate]
    ([kqueue_awaits]).  For [pread] and [pwrite] on a regular file that is what
    [FileSpec] asks of [Await], so that the methods of a file, run by the
    executor on the runtime, the driver and its operations, move exactly the
    bytes they report between the file and the buffer. *)

From S2P Require Import Prelude BinaryHeap Driver TimerWheel Buf UnixOps Kqueue KqueueOps.
From S2P Require Import Attacher Runtime RuntimeSpec Executor ExecutorLive KqueueRuntime File FileSpec AsyncFn FileAsync.
From stdpp Require Import base numbers sorting list gmap.

(** ** One operation at a time *)

Section one.
Context {Op W : Type} `{!OpCode Op W, !KqueueOs W, !BoxAlloc Op W, !BoxAllocLaws Op W} (kind : io_error → ErrorKind).
Notation driver := (Driver Z).

(** The operation is tried once; the driver looks at the clock for its timers. *)
#[local] Instance kqueue_Await : Await Op W := {|
  await_op o s :=
    match operate o s with
    | Done (Some res, o, s) => (res, o, (instant_now s).2)
    | _ => (Err (Custom OtherKind), o, s)
    end |}.
#[local] Instance kqueue_RuntimeAttach : RuntimeAttach Fd W := {| runtime_attach fd s := (Ok (from_raw fd), s) |}.

Definition answered (o : Op) (s : W) : Prop := ∃ res o' s', operate o s = Done (Some res, o', s') ∧ res ≠ Ok TIMER_PENDING.

Definition at_rest (d : driver) (s : W) : Prop :=
  driver_wf d ∧ squeue d = [] ∧ io_pending d = [] ∧ wheel_timers (timers d) = [] ∧ 0 < squeue_drained_till d.

(** The turn that answers the operation. *)
Lemma answer_turn (d : driver) (w : World Op W) key ptr o res o' s' :
  at_rest d (sys w) → boxes w !! ptr = None → operate o (sys w) = Done (Some res, o', s') → res ≠ Ok TIMER_PENDING →
  ∃ d', at_rest d' (instant_now s').2 ∧
    turn kind [] (set_squeue [mkOpObject ptr key] d) (mkWorld (<[ptr := o]> (boxes w)) (sys w)) =
      Some ([Entry_new key res], [], d', mkWorld (<[ptr := o']> (boxes w)) (instant_now s').2).
Proof.
  intros (Hwf & Hsq & Hp & Ht & Hdr) Hptr Eo Hres. destruct d as [kq q cap dr pend chg ecap rdy comp rds wrs tw]. cbn in *. subst q pend.
  unfold turn, ci_push_queue, ci_submit, kqueue_CompleteIo, push_queue. cbn. rewrite Nat.min_0_r. cbn.
  unfold submit, operate_squeue. cbn. unfold deref. cbn. rewrite lookup_insert_eq, Eo. cbn. rewrite (bool_decide_eq_false_2 (res = _)) by done. cbn.
  destruct (instant_now s') as [now s2]. cbn. unfold expire_timers. rewrite Ht. cbn. rewrite insert_insert_eq.
  eexists. split; [|reflexivity]. destruct Hwf as (? & ? & ?). cbn in *. unfold at_rest, driver_wf. cbn. split_and!; try done; lia.
Qed.

#[global] Instance kqueue_awaits : DriverAwaits (D := driver) (Fd := Fd) kind at_rest answered.
Proof.
  split.
  - intros d s Hr. apply Hr.
  - intros fd d w r d' w' Hr [= <- <- <-]. done.
  - intros o d w key t r o' s' Hr (res & o1 & s1 & Eo & Hres) _ _ Ea. cbn in Ea. rewrite Eo in Ea. injection Ea as <- <- <-.
    pose proof (box_addr_fresh w) as Hptr.
    destruct (answer_turn d w key (box_addr w) o res o1 s1 Hr Hptr Eo Hres) as (d' & Hr' & Et).
    exists (set_squeue [OpObject_new (box_addr w) key] d), (mkWorld (<[box_addr w := o]> (boxes w)) (sys w)). split.
    { cbn. unfold try_push_dyn, capacity_left. destruct Hr as (_ & Hsq & _ & _ & Hdr). rewrite Hsq. cbn.
      by rewrite bool_decide_eq_true_2 by lia. }
    eapply awaits_turn; [by rewrite lookup_singleton_eq|exact Et|].
    destruct (settle_one t key (box_addr w) res (mkWorld (<[box_addr w := o1]> (boxes w)) (instant_now s1).2) o1) as [-> ->];
      [by cbn; rewrite lookup_insert_eq|].
    eapply awaits_ended; [by rewrite lookup_singleton_eq|]. split_and!; try done. cbn. by rewrite delete_insert_id.
Qed.
End one.

(** ** Regular files *)

Section files.
Context {W : Type} `{!Posix W, !KqueueOs W} (content : W → list byte).

(** What [pread] and [pwrite] promise of a regular file: they return at once, with an error, or after
    moving some of the bytes that were asked for, and there is no negative offset. *)
Class RegularFile : Prop := {
  file_now s : content (instant_now s).2 = content s;
  file_pread fd ptr n off s r s' : posix (SysPread fd ptr n off) s = (r, s') →
    content s' = content s ∧ (rv r < 2 ^ 63)%Z ∧
    if bool_decide (rv r < 0)%Z then out_data r = [] ∧ errno r ≠ EAGAIN ∧ errno r ≠ EINPROGRESS
    else (0 ≤ off)%Z ∧ rv r = Z.of_nat (length (out_data r)) ∧ length (out_data r) ≤ n ∧
      out_data r `prefix_of` drop (Z.to_nat off) (content s) ∧
      (out_data r = [] → drop (Z.to_nat off) (content s) = [] ∨ n = 0);
  file_pwrite fd ptr data off s r s' : posix (SysPwrite fd ptr data off) s = (r, s') →
    (rv r < 2 ^ 63)%Z ∧
    if bool_decide (rv r < 0)%Z then content s' = content s ∧ errno r ≠ EAGAIN ∧ errno r ≠ EINPROGRESS
    else (0 ≤ off)%Z ∧ ∃ k, rv r = Z.of_nat k ∧ k ≤ length data ∧ (data ≠ [] → 0 < k) ∧
      content s' = file_write (Z.to_nat off) (take k data) (content s);
}.
Context `{!RegularFile}.

Lemma as_i64_offset p : is_usize p → (0 ≤ as_i64 p)%Z → as_i64 p = p.
Proof.
  unfold is_usize, usize_MAX, as_i64. change (2 ^ 63)%Z with 9223372036854775808%Z. change (2 ^ 64)%Z with 18446744073709551616%Z.
  intros Hp Hpos. Z.to_euclidean_division_equations; lia.
Qed.

Lemma small_not_pending n : (n < 2 ^ 63)%Z → (Ok n : io_result Z) ≠ Ok TIMER_PENDING.
Proof. intros Hn [= Heq]. rewrite Heq in Hn. vm_compute in Hn. discriminate. Qed.

Section buffers.
Context {T V : Type} `{!IoBuf T, !IoBufMut T, !IoBufMutSpec T, !AsIoSlices V, !AsIoSlicesMut V}.
Notation op := (AnyOp T V).

#[global] Instance ReadAt_OpAs : OpAs (ReadAt Fd T) op :=
  {| op_into := OpReadAt; op_as x := match x with OpReadAt o => Some o | _ => None end |}.
#[global] Instance WriteAt_OpAs : OpAs (WriteAt Fd T) op :=
  {| op_into := OpWriteAt; op_as x := match x with OpWriteAt o => Some o | _ => None end |}.

(** A read is answered at its first try with the bytes of the file. *)
Lemma read_answer fd pos (b : T) (s : W) : buf_wf b → is_usize pos →
  ∃ res b' s', any_operate (V := V) (OpReadAt (ReadAt_new Fd_into fd pos b)) s =
      Done (Some res, OpReadAt (ReadAt_new Fd_into fd pos b'), s') ∧
    res ≠ Ok TIMER_PENDING ∧ content s' = content s ∧
    match res with
    | Ok n => ∃ bs, n = Z.of_nat (length bs) ∧ bs `prefix_of` from content pos s ∧ length bs ≤ spare b ∧
        (bs = [] → from content pos s = [] ∨ spare b = 0) ∧ b' = buf_poke (length (filled b)) bs b
    | Err _ => b' = b
    end.
Proof.
  intros Hwf Hpos. cbn. unfold ReadAt_operate. cbn [read_at_buffer read_at_fd read_at_offset ReadAt_new].
  destruct (uninit_slice_done b Hwf) as [ptr ->]. unfold poke_uninit. rewrite (spec_len b Hwf). cbn. unfold KqueueOps.syscall.
  destruct (posix _ s) as [r s'] eqn:E. apply file_pread in E as (Hc & Hmax & Hr). cbn. case_bool_decide.
  - destruct Hr as (Hd & H1 & H2). rewrite maybe_block_os, bool_decide_eq_false_2 by tauto. cbn.
    eexists _, _, _. split; [reflexivity|]. rewrite Hd, spec_poke_nil. done.
  - destruct Hr as (Hoff & Hrv & Hl & Hp & He). rewrite as_i64_offset in Hp, He by done. cbn.
    eexists _, _, _. split; [reflexivity|]. split; [by apply small_not_pending|]. split; [done|]. exists (out_data r). by split_and!.
Qed.

(** A write is answered at its first try and changes the file by what it reports. *)
Lemma write_answer fd pos (b : T) (s : W) : buf_wf b → is_usize pos →
  ∃ res s', any_operate (V := V) (OpWriteAt (WriteAt_new Fd_into fd pos b)) s =
      Done (Some res, OpWriteAt (WriteAt_new Fd_into fd pos b), s') ∧
    res ≠ Ok TIMER_PENDING ∧
    match res with
    | Ok n => ∃ k, n = Z.of_nat k ∧ k ≤ length (filled b) ∧ (filled b ≠ [] → 0 < k) ∧
        content s' = file_write (Z.to_nat pos) (take k (filled b)) (content s)
    | Err _ => content s' = content s
    end.
Proof.
  intros Hwf Hpos. cbn. unfold WriteAt_operate. cbn [write_at_buffer write_at_fd write_at_offset WriteAt_new].
  destruct (spec_ptr b Hwf) as (ptr & -> & _). rewrite (as_slice_filled b Hwf). cbn. unfold KqueueOps.syscall.
  destruct (posix _ s) as [r s'] eqn:E. apply file_pwrite in E as (Hmax & Hr). cbn. case_bool_decide.
  - destruct Hr as (Hc & H1 & H2). rewrite maybe_block_os, bool_decide_eq_false_2 by tauto. cbn. by eexists _, _.
  - destruct Hr as (Hoff & k & Hrv & Hk & Hk0 & Hc). rewrite as_i64_offset in Hc by done. cbn.
    eexists _, _. split; [reflexivity|]. split; [by apply small_not_pending|]. by exists k.
Qed.

#[local] Existing Instances kqueue_Await kqueue_RuntimeAttach Await_as.

Lemma read_answered fd pos (b : T) (s : W) : buf_wf b → is_usize pos →
  answered (op_into (ReadAt_new Fd_into fd pos b) : op) s.
Proof. intros Hwf Hpos. destruct (read_answer fd pos b s Hwf Hpos) as (res & b' & s' & E & Hr & _). by eexists _, _, _. Qed.

Lemma write_answered fd pos (b : T) (s : W) : buf_wf b → is_usize pos →
  answered (op_into (WriteAt_new Fd_into fd pos b) : op) s.
Proof. intros Hwf Hpos. destruct (write_answer fd pos b s Hwf Hpos) as (res & s' & E & Hr & _). by eexists _, _, _. Qed.

#[local] Instance ReadAt_KeepsType : KeepsType (ReadAt Fd T) op W.
Proof.
  intros o s r x s'. cbn. unfold lift_poll.
  destruct (ReadAt_operate o s) as [[[[res|] o1] s1]| |]; simpl_outcome; intros; simplify_eq; by eexists.
Qed.
#[local] Instance WriteAt_KeepsType : KeepsType (WriteAt Fd T) op W.
Proof.
  intros o s r x s'. cbn. unfold lift_poll.
  destruct (WriteAt_operate o s) as [[[[res|] o1] s1]| |]; simpl_outcome; intros; simplify_eq; by eexists.
Qed.

#[local] Instance kqueue_ReadSpec : ReadSpec (F := Fd) (T := T) Fd_into content.
Proof.
  split; [done|]. intros fd pos b s res o s' Hwf Hpos. cbn [await_op Await_as kqueue_Await op_into ReadAt_OpAs operate AnyOp_OpCode].
  destruct (read_answer fd pos b s Hwf Hpos) as (res1 & b' & s1 & -> & _ & Hc & Hr). cbn. intros [= <- <- <-].
  rewrite file_now. split; [done|]. by destruct res1.
Qed.

Lemma kqueue_file_attach self (s : W) : ∃ fd self', file_attach self s = (Ok fd, self', s).
Proof. unfold file_attach, Attacher_attach. destruct (once (file_attacher self)); cbn; by eexists _, _. Qed.

(** The errors of a read are those of the system. *)
Lemma read_failed_kind e (b' : T) self' (s' : W) : read_failed Fd_into e b' self' s' → e ≠ Custom UnexpectedEof.
Proof.
  intros (self1 & b1 & pos & s1 & E) ->. revert E. unfold read_at. destruct (kqueue_file_attach self1 s1) as (fd & self2 & ->). cbn.
  unfold ReadAt_operate. destruct (as_uninit_slice _) as [[ptr n]| |]; cbn; [|done..].
  destruct (KqueueOps.syscall _ s1) as [[res r] s2] eqn:Es. destruct (poke_uninit _ _) as [b2| |]; cbn; [|done..].
  destruct (maybe_block res) as [res'|] eqn:Hm; cbn; [|done]. apply maybe_block_keeps in Hm as ->.
  unfold KqueueOps.syscall in Es. destruct (posix _ s1) as [r1 s3]. injection Es as <- _ _. case_bool_decide; cbn; [done|].
  by destruct (set_buf_init _ _).
Qed.
End buffers.

(** ** The whole stack *)

Section stack.
Context {T V S : Type} `{!IoBuf T, !IoBufMut T, !IoBufMutSpec T, !AsIoSlices V, !AsIoSlicesMut V,
  !AsyncTask, !Slab S, !SlabLaws S, !SlabRoom (S := S), !BoxAlloc (AnyOp T V) W, !BoxAllocLaws (AnyOp T V) W}
  (kind : io_error → ErrorKind).
#[local] Existing Instances kqueue_Await kqueue_RuntimeAttach Await_as ReadAt_KeepsType kqueue_ReadSpec.

(** C6 [read_exact_at] from the method of the file to the system call: run by [block_on], with the runtime,
    the kqueue driver and its read operation below it, it returns for every regular file; it succeeds
    exactly when it has filled the buffer with the bytes of the file at the offset, and reports the end of the
    file after it has read all there was; the file does not change, and no task, slot or box is
    left. *)
Theorem kqueue_read_exact n self (b : T) pos (d : Driver Z) (w : World (AnyOp T V) W) :
  (∀ t, ¬ task_completed t) → at_rest d (sys w) → buf_wf b → spare b ≤ n → (0 ≤ pos)%Z → (pos + Z.of_nat (spare b) ≤ usize_MAX)%Z →
  ∃ N, ∀ fuel, N ≤ fuel → ∃ res b' self' rt w' u bs,
    task_block_on (S := S) run_block block_result kind fuel 0 None (Ok d) w
      (mkBlock (At (async_of (read_exact_at_prog Fd_into n self b pos))) ∅ 0 None) = Some (Done (Some (Done ((res, b'), self')), rt, w', u)) ∧
    filled b' = filled b ++ bs ∧ bs `prefix_of` from content pos (sys w) ∧
    match res with
    | Ok m => m = Z.of_nat (spare b) ∧ length bs = spare b
    | Err e => length bs < spare b ∧ (e = Custom UnexpectedEof → bs = from content pos (sys w))
    end ∧
    content (sys w') = content (sys w) ∧ boxes w' = boxes w ∧ runnables rt = [] ∧ ∀ k, slab_get k (op_runtime rt) = None.
Proof.
  intros Hlive Hrest Hwf Hn Hpos Hmax.
  destruct (read_exact_at_ok Fd_into content n self b pos (sys w) Hwf Hn Hpos Hmax) as (res & b' & self' & s' & bs & E & Hc & Hf & Hp & Hm).
  rewrite exec_read_exact_at in E by apply ReadAt_KeepsType. apply with_state_Done in E.
  destruct (block_on_exec' (S := S) kind at_rest answered (read_exact_at_prog Fd_into n self b pos) d w Hlive Hrest) as [N HN].
  { apply (submits_read_exact_at Fd_into content); [apply read_answered|done..]. }
  exists N. intros fuel Hfuel. destruct (HN fuel Hfuel) as (rt & w' & u & Eb & Hs & Hb & Hr & _ & Hk). rewrite E in Eb, Hs. cbn in Eb, Hs.
  exists res, b', self', rt, w', u, bs. split; [exact Eb|]. split_and!; try done; [|by rewrite Hs].
  destruct res as [m|e]; [done|]. destruct Hm as [Hl He]. split; [done|]. intros ->. destruct He as [[_ ?]|Hfail]; [done|].
  by apply read_failed_kind in Hfail.
Qed.
End stack.

Section stack_write.
Context {T V S : Type} `{!IoBuf T, !IoBufMut T, !IoBufMutSpec T, !AsIoSlices V, !AsIoSlicesMut V,
  !AsyncTask, !Slab S, !SlabLaws S, !SlabRoom (S := S), !BoxAlloc (AnyOp (Slice T) V) W, !BoxAllocLaws (AnyOp (Slice T) V) W}
  (kind : io_error → ErrorKind).
#[local] Existing Instances kqueue_Await kqueue_RuntimeAttach Await_as WriteAt_KeepsType.

#[local] Instance kqueue_WriteSpec : WriteSpec (F := Fd) (T := T) Fd_into content (Await0 := Await_as (Op := AnyOp (Slice T) V)).
Proof.
  split; [done|]. intros fd pos b s res o s' Hwf Hpos. cbn [await_op Await_as kqueue_Await op_into WriteAt_OpAs operate AnyOp_OpCode].
  destruct (write_answer (V := V) fd pos b s Hwf Hpos) as (res1 & s1 & -> & _ & Hr). cbn. intros [= <- <- <-].
  split; [done|]. destruct res1; by rewrite file_now.
Qed.

(** C7 [write_all_at] from the method of the file to the system call: run by [block_on], with the runtime,
    the kqueue driver and its write operation below it, it returns for every regular file and gives the
    buffer back; on success the file holds the contents of the buffer at the offset and is otherwise
    unchanged, on an error a proper prefix of them was written; no task, slot or box is left. *)
Theorem kqueue_write_all n self (b : T) pos (d : Driver Z) (w : World (AnyOp (Slice T) V) W) :
  (∀ t, ¬ task_completed t) → at_rest d (sys w) → buf_wf b → length (filled b) ≤ n → (0 ≤ pos)%Z →
  (pos + Z.of_nat (length (filled b)) ≤ usize_MAX)%Z →
  ∃ N, ∀ fuel, N ≤ fuel → ∃ res self' rt w' u k,
    task_block_on (S := S) run_block block_result kind fuel 0 None (Ok d) w
      (mkBlock (At (async_of (write_all_at_prog Fd_into n self b pos))) ∅ 0 None) = Some (Done (Some (Done ((res, b), self')), rt, w', u)) ∧
    (0 < k → content (sys w') = file_write (Z.to_nat pos) (take k (filled b)) (content (sys w))) ∧
    (k = 0 → content (sys w') = content (sys w)) ∧
    match res with
    | Ok m => m = Z.of_nat (length (filled b)) ∧ k = length (filled b)
    | Err _ => k < length (filled b)
    end ∧
    boxes w' = boxes w ∧ runnables rt = [] ∧ ∀ k, slab_get k (op_runtime rt) = None.
Proof.
  intros Hlive Hrest Hwf Hn Hpos Hmax.
  destruct (write_all_at_spec Fd_into content n self b pos (sys w) Hwf Hn Hpos Hmax) as (res & self' & s' & k & E & H1 & H2 & Hm).
  rewrite exec_write_all_at in E by apply WriteAt_KeepsType. apply with_state_Done in E.
  destruct (block_on_exec' (S := S) kind at_rest answered (write_all_at_prog Fd_into n self b pos) d w Hlive Hrest) as [N HN].
  { apply (submits_write_all_at Fd_into content); [apply write_answered|done..]. }
  exists N. intros fuel Hfuel. destruct (HN fuel Hfuel) as (rt & w' & u & Eb & Hs & Hb & Hr & _ & Hk). rewrite E in Eb, Hs. cbn in Eb, Hs.
  exists res, self', rt, w', u, k. rewrite Hs. split; [exact Eb|]. by split_and!.
Qed.
End stack_write.
End files.

(** ** A disk *)

(** One file, and a clock; a system call moves at most two bytes. *)
Record DiskSim := mkDiskSim { ds_content : list byte; ds_clock : Z }.

Definition ds_error (code : Z) : sysret := mkSysret (-1) code [] [] 0 0.

#[global] Instance DiskSim_Posix : Posix DiskSim := {|
  posix req s :=
    match req with
    | SysPread _ _ n off =>
        if bool_decide (0 ≤ off)%Z then
          let bs := take (Nat.min 2 n) (drop (Z.to_nat off) (ds_content s)) in
          (mkSysret (Z.of_nat (length bs)) 0 bs [] 0 0, s)
        else (ds_error 22, s)
    | SysPwrite _ _ data off =>
        if bool_decide (0 ≤ off)%Z then
          let bs := take 2 data in
          (mkSysret (Z.of_nat (length bs)) 0 [] [] 0 0, mkDiskSim (file_write (Z.to_nat off) bs (ds_content s)) (ds_clock s))
        else (ds_error 22, s)
    | _ => (ds_error 78, s)
    end |}.

#[global] Instance DiskSim_KqueueOs : KqueueOs DiskSim := {|
  kevent kq evs cap t s := (Ok [], mkDiskSim (ds_content s) (ds_clock s + t));
  instant_now s := (ds_clock s, mkDiskSim (ds_content s) (ds_clock s + 1));
  instant_add := add_nanos |}.

#[global] Instance DiskSim_file : RegularFile ds_content.
Proof.
  split; [done|..]; cbn [posix DiskSim_Posix].
  - intros fd ptr n off s r s'. case_bool_decide as Hoff; intros [= <- <-]; cbn [rv out_data errno ds_error ds_content]; [|by split_and!].
    set (k := match n with 0 => 0 | _ => _ end). assert (k ≤ 2 ∧ k ≤ n ∧ (k = 0 → n = 0)) as (Hk2 & Hkn & Hk0).
    { unfold k. destruct n as [|[|n]]; lia. }
    rewrite length_take. split; [done|]. split; [lia|]. rewrite bool_decide_eq_false_2 by lia. split_and!; try done; [lia| |].
    + eexists. symmetry. apply take_drop.
    + destruct (drop (Z.to_nat off) (ds_content s)) as [|x l]; [by left|]. intros E. right. apply Hk0. by destruct k.
  - intros fd ptr data off s r s'. case_bool_decide as Hoff; intros [= <- <-]; cbn [rv out_data errno ds_error ds_content]; [|by split_and!].
    rewrite length_take. split; [lia|]. rewrite bool_decide_eq_false_2 by lia. split; [done|]. exists (length (take 2 data)).
    rewrite length_take. split_and!; [done|lia| |].
    + intros Hne. destruct data; [done|cbn; lia].
    + f_equal. destruct (decide (2 ≤ length data)); [by rewrite Nat.min_l|]. rewrite Nat.min_r, !take_ge by lia. done.
Qed.

Notation DiskOp B := (AnyOp B (VectoredBufWrapper Vec_u8)).

Lemma ref_driver_rests s : at_rest (W := DiskSim) ref_driver s.
Proof. split; [apply ref_driver_wf|]. split_and!; try done. cbn. lia. Qed.

Lemma kqueue_read_exact_witness :
  ∃ fuel res b' self' rt w' u, task_block_on (S := list (option RegisteredOp)) run_block block_result kind_of fuel 0 None (Ok ref_driver)
      (mkWorld ∅ (mkDiskSim abc 0) : World (DiskOp Vec_u8) DiskSim)
      (mkBlock (At (async_of (read_exact_at_prog Fd_into 8 (mkFile 3 Attacher_new) (vec_of [] 3) 0))) ∅ 0 None) =
      Some (Done (Some (Done ((res, b'), self')), rt, w', u)) ∧ filled b' `prefix_of` abc.
Proof.
  destruct (kqueue_read_exact ds_content (S := list (option RegisteredOp)) kind_of 8 (mkFile 3 Attacher_new) (vec_of [] 3) 0 ref_driver
    (mkWorld ∅ (mkDiskSim abc 0) : World (DiskOp Vec_u8) DiskSim) queue_tasks_live (ref_driver_rests _) (vec_of_wf _ _)
    ltac:(vm_compute; lia) ltac:(lia) ltac:(vm_compute; discriminate)) as [N HN].
  destruct (HN N (le_n N)) as (res & b' & self' & rt & w' & u & bs & E & Hf & Hp & _).
  exists N, res, b', self', rt, w', u. split; [exact E|]. rewrite Hf. exact Hp.
Defined.

Lemma kqueue_write_all_witness :
  ∃ fuel res self' rt w' u k, task_block_on (S := list (option RegisteredOp)) run_block block_result kind_of fuel 0 None (Ok ref_driver)
      (mkWorld ∅ (mkDiskSim abc 0) : World (DiskOp (Slice Vec_u8)) DiskSim)
      (mkBlock (At (async_of (write_all_at_prog Fd_into 8 (mkFile 3 Attacher_new) (vec_of abc 0) 1))) ∅ 0 None) =
      Some (Done (Some (Done ((res, vec_of abc 0), self')), rt, w', u)) ∧
    (0 < k → ds_content (sys w') = file_write 1 (take k abc) abc).
Proof.
  destruct (kqueue_write_all ds_content (S := list (option RegisteredOp)) kind_of 8 (mkFile 3 Attacher_new) (vec_of abc 0) 1 ref_driver
    (mkWorld ∅ (mkDiskSim abc 0) : World (DiskOp (Slice Vec_u8)) DiskSim) queue_tasks_live (ref_driver_rests _) (vec_of_wf _ _)
    ltac:(vm_compute; lia) ltac:(lia) ltac:(vm_compute; discriminate)) as [N HN].
  destruct (HN N (le_n N)) as (res & self' & rt & w' & u & k & E & Hk & _).
  exists N, res, self', rt, w', u, k. split; [exact E|exact Hk].
Defined.

(** A read and then a write of what was read, one after the other. *)
Definition copy_byte : prog (DiskOp Vec_u8) Fd (io_result Z) :=
  Submit (OpReadAt (ReadAt_new Fd_into (from_raw 3) 0 (vec_of [] 1))) (λ _ _,
    Submit (OpWriteAt (WriteAt_new Fd_into (from_raw 3) 2 (vec_of [Byte.x61] 0))) (λ r _, Ret r)).

Lemma block_on_exec_witness :
  ∃ fuel rt w' u, task_block_on (S := list (option RegisteredOp)) run_block block_result kind_of fuel 0 None (Ok ref_driver)
      (mkWorld ∅ (mkDiskSim abc 0) : World (DiskOp Vec_u8) DiskSim) (mkBlock (At (async_of copy_byte)) ∅ 0 None) =
      Some (Done (Ok 1%Z, rt, w', u)) ∧ ds_content (sys w') = [Byte.x61; Byte.x62; Byte.x61].
Proof.
  destruct (block_on_exec (S := list (option RegisteredOp)) (Await0 := kqueue_Await) (RuntimeAttach0 := kqueue_RuntimeAttach) kind_of
    at_rest answered copy_byte ref_driver (mkWorld ∅ (mkDiskSim abc 0)) queue_tasks_live (ref_driver_rests _)) as [N HN].
  { split; [by eexists _, _, _|]. split; [by eexists _, _, _|done]. }
  destruct (HN N (le_n N)) as (rt & w' & u & E & Hs & _). exists N, rt, w', u. split; [exact E|]. rewrite Hs. reflexivity.
Defined.

(** The same run, computed. *)
Example read_abc :
  ∃ rt w' u, task_block_on (S := list (option RegisteredOp)) run_block block_result kind_of 20 0 None (Ok ref_driver)
      (mkWorld ∅ (mkDiskSim abc 0) : World (DiskOp Vec_u8) DiskSim)
      (mkBlock (At (async_of (read_exact_at_prog Fd_into 8 (mkFile 3 Attacher_new) (vec_of [] 3) 0))) ∅ 0 None) =
      Some (Done (Some (Done ((Ok 3%Z, vec_of abc 0), mkFile 3 (mkAttacher (Some (from_raw 3))))), rt, w', u)).
Proof. do 3 eexists. vm_compute. reflexivity. Qed.
