(* ===== verification/NamedPipe.v ===== *)
(** * Named pipes

    [src/named_pipe.rs]: the options with which a server creates and a client
    opens a pipe, what they ask of Windows, what [info] makes of the answer,
    and the two ends, which wrap a file.  [PipeApi] is the part of the Windows
    interface the file calls; a call returns its value, and [GetLastError]
    reads the error code from the state. *)

From S2P Require Import Prelude Driver Buf Attacher UnixOps Iocp IocpOps File.
From stdpp Require Import base numbers list.

(** ** Constants of windows-sys *)

Definition GENERIC_READ : Z := 0x80000000.
Definition GENERIC_WRITE : Z := 0x40000000.
Definition FILE_FLAG_FIRST_PIPE_INSTANCE : Z := 0x80000.
Definition OPEN_EXISTING : Z := 3.
Definition PIPE_ACCESS_INBOUND : Z := 1.
Definition PIPE_ACCESS_OUTBOUND : Z := 2.
Definition SECURITY_IDENTIFICATION : Z := 0x10000.
Definition SECURITY_SQOS_PRESENT : Z := 0x100000.
Definition WRITE_DAC : Z := 0x40000.
Definition WRITE_OWNER : Z := 0x80000.
Definition ACCESS_SYSTEM_SECURITY : Z := 0x1000000.
Definition PIPE_ACCEPT_REMOTE_CLIENTS : Z := 0.
Definition PIPE_REJECT_REMOTE_CLIENTS : Z := 8.
Definition PIPE_READMODE_BYTE : Z := 0.
Definition PIPE_READMODE_MESSAGE : Z := 2.
Definition PIPE_TYPE_BYTE : Z := 0.
Definition PIPE_TYPE_MESSAGE : Z := 4.
Definition PIPE_SERVER_END : Z := 1.
Definition PIPE_UNLIMITED_INSTANCES : Z := 255.

(** ** The Windows interface *)

(** The arguments of [CreateNamedPipeW] and of [CreateFileW]. *)
Record pipe_args := mkPipeArgs {
  pa_name : list Z; pa_open_mode : Z; pa_pipe_mode : Z; pa_max_instances : Z;
  pa_out_buffer_size : Z; pa_in_buffer_size : Z; pa_default_timeout : Z; pa_attrs : Z }.
Record file_args := mkFileArgs {
  fa_name : list Z; fa_access : Z; fa_share_mode : Z; fa_attrs : Z; fa_disposition : Z;
  fa_flags : Z; fa_template : Z }.

(** What [GetNamedPipeInfo] stores through its pointers. *)
Record pipe_outs := mkPipeOuts {
  po_flags : Z; po_out_buffer_size : Z; po_in_buffer_size : Z; po_max_instances : Z }.

Class PipeApi (W : Type) := {
  CreateNamedPipeW : pipe_args → W → Z * W;
  CreateFileW : file_args → W → Z * W;
  SetNamedPipeHandleState : Z → Z → W → Z * W;
  GetNamedPipeInfo : Z → W → Z * pipe_outs * W;
  DisconnectNamedPipe : Z → W → Z * W;
  (** dropping an [OwnedHandle], and duplicating the handle of a [std::fs::File] *)
  close_handle : Z → W → W;
  duplicate_handle : Z → W → io_result Z * W;
  GetLastError : W → Z;
}.

(** ** Data *)

(** [src/src/named_pipe.rs:1208-1227] *)
Inductive PipeMode := Byte | Message.
(** [src/src/named_pipe.rs:1230-1244] *)
Inductive PipeEnd := Client | Server.

#[global] Instance PipeMode_eq_dec : EqDecision PipeMode.
Proof. solve_decision. Defined.
#[global] Instance PipeEnd_eq_dec : EqDecision PipeEnd.
Proof. solve_decision. Defined.

(** [src/src/named_pipe.rs:1249-1261] *)
Record PipeInfo := mkPipeInfo {
  info_mode : PipeMode; info_end : PipeEnd; info_max_instances : Z;
  info_out_buffer_size : Z; info_in_buffer_size : Z }.

(** [src/src/named_pipe.rs:355-372] *)
Record ServerOptions := mkServerOptions {
  so_access_inbound : bool; so_access_outbound : bool; so_first_pipe_instance : bool;
  so_write_dac : bool; so_write_owner : bool; so_access_system_security : bool;
  so_pipe_mode : PipeMode; so_reject_remote_clients : bool;
  so_max_instances : Z; so_out_buffer_size : Z; so_in_buffer_size : Z; so_default_timeout : Z }.

(** [src/src/named_pipe.rs:988-994] *)
Record ClientOptions := mkClientOptions {
  co_generic_read : bool; co_generic_write : bool; co_security_qos_flags : Z; co_pipe_mode : PipeMode }.

(** [src/src/named_pipe.rs:100-103] *)
Record NamedPipeServer := mkServer { server_handle : File Fd }.
(** [src/src/named_pipe.rs:280-283] *)
Record NamedPipeClient := mkClient { client_handle : File Fd }.

(** ** Options of a server *)

(** [src/src/named_pipe.rs:386-401] *)
Definition ServerOptions_new : ServerOptions :=
  mkServerOptions true true false false false false Byte true PIPE_UNLIMITED_INSTANCES 65536 65536 0.
(** [src/src/named_pipe.rs:978-982] *)
Definition ServerOptions_default : ServerOptions := ServerOptions_new.

(** [src/src/named_pipe.rs:412-415] *)
Definition ServerOptions_pipe_mode (pipe_mode : PipeMode) (self : ServerOptions) : ServerOptions :=
  mkServerOptions (so_access_inbound self) (so_access_outbound self) (so_first_pipe_instance self)
    (so_write_dac self) (so_write_owner self) (so_access_system_security self) pipe_mode
    (so_reject_remote_clients self) (so_max_instances self) (so_out_buffer_size self)
    (so_in_buffer_size self) (so_default_timeout self).
(** [src/src/named_pipe.rs:508-511] *)
Definition access_inbound (allowed : bool) (self : ServerOptions) : ServerOptions :=
  mkServerOptions allowed (so_access_outbound self) (so_first_pipe_instance self)
    (so_write_dac self) (so_write_owner self) (so_access_system_security self) (so_pipe_mode self)
    (so_reject_remote_clients self) (so_max_instances self) (so_out_buffer_size self)
    (so_in_buffer_size self) (so_default_timeout self).
(** [src/src/named_pipe.rs:605-608] *)
Definition access_outbound (allowed : bool) (self : ServerOptions) : ServerOptions :=
  mkServerOptions (so_access_inbound self) allowed (so_first_pipe_instance self)
    (so_write_dac self) (so_write_owner self) (so_access_system_security self) (so_pipe_mode self)
    (so_reject_remote_clients self) (so_max_instances self) (so_out_buffer_size self)
    (so_in_buffer_size self) (so_default_timeout self).
(** [src/src/named_pipe.rs:676-679] *)
Definition first_pipe_instance (first : bool) (self : ServerOptions) : ServerOptions :=
  mkServerOptions (so_access_inbound self) (so_access_outbound self) first
    (so_write_dac self) (so_write_owner self) (so_access_system_security self) (so_pipe_mode self)
    (so_reject_remote_clients self) (so_max_instances self) (so_out_buffer_size self)
    (so_in_buffer_size self) (so_default_timeout self).
(** [src/src/named_pipe.rs:758-761] *)
Definition write_dac (requested : bool) (self : ServerOptions) : ServerOptions :=
  mkServerOptions (so_access_inbound self) (so_access_outbound self) (so_first_pipe_instance self)
    requested (so_write_owner self) (so_access_system_security self) (so_pipe_mode self)
    (so_reject_remote_clients self) (so_max_instances self) (so_out_buffer_size self)
    (so_in_buffer_size self) (so_default_timeout self).
(** [src/src/named_pipe.rs:768-771] *)
Definition write_owner (requested : bool) (self : ServerOptions) : ServerOptions :=
  mkServerOptions (so_access_inbound self) (so_access_outbound self) (so_first_pipe_instance self)
    (so_write_dac self) requested (so_access_system_security self) (so_pipe_mode self)
    (so_reject_remote_clients self) (so_max_instances self) (so_out_buffer_size self)
    (so_in_buffer_size self) (so_default_timeout self).
(** [src/src/named_pipe.rs:778-781] *)
Definition access_system_security (requested : bool) (self : ServerOptions) : ServerOptions :=
  mkServerOptions (so_access_inbound self) (so_access_outbound self) (so_first_pipe_instance self)
    (so_write_dac self) (so_write_owner self) requested (so_pipe_mode self)
    (so_reject_remote_clients self) (so_max_instances self) (so_out_buffer_size self)
    (so_in_buffer_size self) (so_default_timeout self).
(** [src/src/named_pipe.rs:789-792] *)
Definition reject_remote_clients (reject : bool) (self : ServerOptions) : ServerOptions :=
  mkServerOptions (so_access_inbound self) (so_access_outbound self) (so_first_pipe_instance self)
    (so_write_dac self) (so_write_owner self) (so_access_system_security self) (so_pipe_mode self)
    reject (so_max_instances self) (so_out_buffer_size self)
    (so_in_buffer_size self) (so_default_timeout self).
(** [src/src/named_pipe.rs:849-854] [instances] is a [usize] *)
Definition max_instances (instances : Z) (self : ServerOptions) : outcome ServerOptions :=
  _ ← rust_assert (bool_decide (instances < 255)%Z);
  Done (mkServerOptions (so_access_inbound self) (so_access_outbound self) (so_first_pipe_instance self)
    (so_write_dac self) (so_write_owner self) (so_access_system_security self) (so_pipe_mode self)
    (so_reject_remote_clients self) (as_u32 instances) (so_out_buffer_size self)
    (so_in_buffer_size self) (so_default_timeout self)).
(** [src/src/named_pipe.rs:861-864] *)
Definition out_buffer_size (buffer : Z) (self : ServerOptions) : ServerOptions :=
  mkServerOptions (so_access_inbound self) (so_access_outbound self) (so_first_pipe_instance self)
    (so_write_dac self) (so_write_owner self) (so_access_system_security self) (so_pipe_mode self)
    (so_reject_remote_clients self) (so_max_instances self) buffer
    (so_in_buffer_size self) (so_default_timeout self).
(** [src/src/named_pipe.rs:871-874] *)
Definition in_buffer_size (buffer : Z) (self : ServerOptions) : ServerOptions :=
  mkServerOptions (so_access_inbound self) (so_access_outbound self) (so_first_pipe_instance self)
    (so_write_dac self) (so_write_owner self) (so_access_system_security self) (so_pipe_mode self)
    (so_reject_remote_clients self) (so_max_instances self) (so_out_buffer_size self)
    buffer (so_default_timeout self).

(** [if set { mode |= flag; }] *)
Definition or_if (set : bool) (flag mode : Z) : Z := if set then Z.lor mode flag else mode.

(** [src/src/named_pipe.rs:922-934] the local [pipe_mode] *)
Definition server_pipe_mode (self : ServerOptions) : Z :=
  let mode :=
    match so_pipe_mode self with
    | Message => Z.lor PIPE_TYPE_MESSAGE PIPE_READMODE_MESSAGE
    | Byte => Z.lor PIPE_TYPE_BYTE PIPE_READMODE_BYTE
    end in
  if so_reject_remote_clients self then Z.lor mode PIPE_REJECT_REMOTE_CLIENTS
  else Z.lor mode PIPE_ACCEPT_REMOTE_CLIENTS.

(** [src/src/named_pipe.rs:935-956] the local [open_mode] *)
Definition server_open_mode (self : ServerOptions) : Z :=
  let mode := FILE_FLAG_OVERLAPPED in
  let mode := or_if (so_access_inbound self) PIPE_ACCESS_INBOUND mode in
  let mode := or_if (so_access_outbound self) PIPE_ACCESS_OUTBOUND mode in
  let mode := or_if (so_first_pipe_instance self) FILE_FLAG_FIRST_PIPE_INSTANCE mode in
  let mode := or_if (so_write_dac self) WRITE_DAC mode in
  let mode := or_if (so_write_owner self) WRITE_OWNER mode in
  or_if (so_access_system_security self) ACCESS_SYSTEM_SECURITY mode.

(** ** Options of a client *)

(** [src/src/named_pipe.rs:1010-1017] *)
Definition ClientOptions_new : ClientOptions :=
  mkClientOptions true true (Z.lor SECURITY_IDENTIFICATION SECURITY_SQOS_PRESENT) Byte.
(** [src/src/named_pipe.rs:1199-1203] *)
Definition ClientOptions_default : ClientOptions := ClientOptions_new.
(** [src/src/named_pipe.rs:1026-1029] *)
Definition ClientOptions_read (allowed : bool) (self : ClientOptions) : ClientOptions :=
  mkClientOptions allowed (co_generic_write self) (co_security_qos_flags self) (co_pipe_mode self).
(** [src/src/named_pipe.rs:1038-1041] *)
Definition ClientOptions_write (allowed : bool) (self : ClientOptions) : ClientOptions :=
  mkClientOptions (co_generic_read self) allowed (co_security_qos_flags self) (co_pipe_mode self).
(** [src/src/named_pipe.rs:1064-1068] *)
Definition security_qos_flags (flags : Z) (self : ClientOptions) : ClientOptions :=
  mkClientOptions (co_generic_read self) (co_generic_write self) (Z.lor flags SECURITY_SQOS_PRESENT)
    (co_pipe_mode self).
(** [src/src/named_pipe.rs:1074-1077] *)
Definition ClientOptions_pipe_mode (pipe_mode : PipeMode) (self : ClientOptions) : ClientOptions :=
  mkClientOptions (co_generic_read self) (co_generic_write self) (co_security_qos_flags self) pipe_mode.
(** [src/src/named_pipe.rs:1194-1196] *)
Definition get_flags (self : ClientOptions) : Z := Z.lor (co_security_qos_flags self) FILE_FLAG_OVERLAPPED.
(** [src/src/named_pipe.rs:1153-1162] the local [desired_access] *)
Definition client_desired_access (self : ClientOptions) : Z :=
  or_if (co_generic_write self) GENERIC_WRITE (or_if (co_generic_read self) GENERIC_READ 0).

(** ** Creating, opening and asking *)

Section api.
Context {W : Type} `{!PipeApi W}.
(** [OsStr], and [U16CString::from_os_str] of widestring, which fails on a string with a NUL in it. *)
Context {OsStr : Type} (from_os_str : OsStr → option (list Z)).

(** [src/src/named_pipe.rs:106-108] *)
Definition NamedPipeServer_from_handle (handle : Z) : io_result NamedPipeServer :=
  Ok (mkServer (File_from_raw_fd handle)).
(** [src/src/named_pipe.rs:286-288] *)
Definition NamedPipeClient_from_handle (handle : Z) : io_result NamedPipeClient :=
  Ok (mkClient (File_from_raw_fd handle)).

(** The call of [CreateNamedPipeW] for these options. *)
Definition server_args (self : ServerOptions) (name : list Z) (attrs : Z) : pipe_args :=
  mkPipeArgs name (server_open_mode self) (server_pipe_mode self) (so_max_instances self)
    (so_out_buffer_size self) (so_in_buffer_size self) (so_default_timeout self) attrs.

(** [src/src/named_pipe.rs:914-975] *)
Definition create_with_security_attributes_raw (self : ServerOptions) (addr : OsStr) (attrs : Z) (w : W) :
    io_result NamedPipeServer * W :=
  match from_os_str addr with
  | None => (Err (Custom InvalidData), w)
  | Some addr =>
      let '(h, w) := CreateNamedPipeW (server_args self addr attrs) w in
      match syscall_HANDLE h (GetLastError w) with
      | Err e => (Err e, w)
      | Ok h => (NamedPipeServer_from_handle h, w)
      end
  end.

(** [src/src/named_pipe.rs:893-897] *)
Definition create (self : ServerOptions) (addr : OsStr) (w : W) : io_result NamedPipeServer * W :=
  create_with_security_attributes_raw self addr 0 w.

(** The call of [CreateFileW] for these options. *)
Definition client_args (self : ClientOptions) (name : list Z) (attrs : Z) : file_args :=
  mkFileArgs name (client_desired_access self) 0 attrs OPEN_EXISTING (get_flags self) 0.

(** [src/src/named_pipe.rs:1145-1192] a handle that is not put into the result is dropped *)
Definition open_with_security_attributes_raw (self : ClientOptions) (addr : OsStr) (attrs : Z) (w : W) :
    io_result NamedPipeClient * W :=
  match from_os_str addr with
  | None => (Err (Custom InvalidData), w)
  | Some addr =>
      let '(h, w) := CreateFileW (client_args self addr attrs) w in
      match syscall_HANDLE h (GetLastError w) with
      | Err e => (Err e, w)
      | Ok h =>
          match co_pipe_mode self with
          | Message =>
              let '(res, w) := SetNamedPipeHandleState h PIPE_READMODE_MESSAGE w in
              match syscall_BOOL res (GetLastError w) with
              | Err e => (Err e, close_handle h w)
              | Ok _ => (NamedPipeClient_from_handle h, w)
              end
          | Byte => (NamedPipeClient_from_handle h, w)
          end
      end
  end.

(** [src/src/named_pipe.rs:1124-1128] *)
Definition open (self : ClientOptions) (addr : OsStr) (w : W) : io_result NamedPipeClient * W :=
  open_with_security_attributes_raw self addr 0 w.

(** [src/src/named_pipe.rs:1264-1299] *)
Definition named_pipe_info (handle : Z) (w : W) : io_result PipeInfo * W :=
  let '(res, outs, w) := GetNamedPipeInfo handle w in
  match syscall_BOOL res (GetLastError w) with
  | Err e => (Err e, w)
  | Ok _ =>
      (Ok (mkPipeInfo
             (if bool_decide (Z.land (po_flags outs) PIPE_TYPE_MESSAGE ≠ 0)%Z then Message else Byte)
             (if bool_decide (Z.land (po_flags outs) PIPE_SERVER_END ≠ 0)%Z then Server else Client)
             (po_max_instances outs) (po_out_buffer_size outs) (po_in_buffer_size outs)), w)
  end.

(** ** The two ends *)

(** [src/src/named_pipe.rs:113-117] *)
Definition NamedPipeServer_try_clone (self : NamedPipeServer) (w : W) : io_result NamedPipeServer * W :=
  let '(r, w) := File_try_clone duplicate_handle (server_handle self) w in (result_map mkServer r, w).
(** [src/src/named_pipe.rs:293-297] *)
Definition NamedPipeClient_try_clone (self : NamedPipeClient) (w : W) : io_result NamedPipeClient * W :=
  let '(r, w) := File_try_clone duplicate_handle (client_handle self) w in (result_map mkClient r, w).

(** [src/src/named_pipe.rs:140-143] *)
Definition NamedPipeServer_info (self : NamedPipeServer) (w : W) : io_result PipeInfo * W :=
  named_pipe_info (File_as_raw_fd (server_handle self)) w.
(** [src/src/named_pipe.rs:317-320] *)
Definition NamedPipeClient_info (self : NamedPipeClient) (w : W) : io_result PipeInfo * W :=
  named_pipe_info (File_as_raw_fd (client_handle self)) w.

(** [src/src/named_pipe.rs:209-212] *)
Definition disconnect (self : NamedPipeServer) (w : W) : io_result unit * W :=
  let '(res, w) := DisconnectNamedPipe (File_as_raw_fd (server_handle self)) w in
  (result_map (λ _, tt) (syscall_BOOL res (GetLastError w)), w).
End api.

Section io.
Context {W : Type} `{!RuntimeAttach Fd W}.

(** [src/src/named_pipe.rs:175-181] *)
Definition server_connect `{!Await ConnectNamedPipe W} (self : NamedPipeServer) (w : W) :
    io_result unit * NamedPipeServer * W :=
  let '(fd, handle, w) := file_attach (server_handle self) w in
  match fd with
  | Err e => (Err e, mkServer handle, w)
  | Ok fd =>
      let '(res, _, w) := await_op (ConnectNamedPipe_new fd) w in
      (result_map (λ _, tt) res, mkServer handle, w)
  end.

(** Files submit the driver's own [ReadAt] and [WriteAt]: here those of IOCP. *)
#[export] Instance iocp_read_at {T} `{!Await (ReadAt T) W} : Await (UnixOps.ReadAt Fd T) W := {|
  await_op o w :=
    let '(res, op, w) := await_op (ReadAt_new (UnixOps.read_at_fd T o) (UnixOps.read_at_offset T o)
                                     (UnixOps.read_at_buffer T o)) w in
    (res, UnixOps.mkReadAt T (UnixOps.read_at_fd T o) (UnixOps.read_at_offset T o) (ReadAt_into_inner op), w) |}.
#[export] Instance iocp_write_at {T} `{!Await (WriteAt T) W} : Await (UnixOps.WriteAt Fd T) W := {|
  await_op o w :=
    let '(res, op, w) := await_op (WriteAt_new (UnixOps.write_at_fd T o) (UnixOps.write_at_offset T o)
                                     (UnixOps.write_at_buffer T o)) w in
    (res, UnixOps.mkWriteAt T (UnixOps.write_at_fd T o) (UnixOps.write_at_offset T o) (WriteAt_into_inner op), w) |}.

Section buffers.
Context {T : Type} `{!IoBuf T, !IoBufMut T, !Await (ReadAt T) W, !Await (WriteAt T) W,
  !Await (WriteAt (Slice T)) W}.

(** The server with the file that an operation left. *)
Definition with_server {A} (r : outcome (A * File Fd * W)) : outcome (A * NamedPipeServer * W) :=
  '(a, handle, w) ← r; Done (a, mkServer handle, w).
Definition with_client {A} (r : outcome (A * File Fd * W)) : outcome (A * NamedPipeClient * W) :=
  '(a, handle, w) ← r; Done (a, mkClient handle, w).

(** [src/src/named_pipe.rs:216-219] *)
Definition server_read (self : NamedPipeServer) (buffer : T) (w : W) : outcome (BufResult Z T * NamedPipeServer * W) :=
  with_server (read_at id (server_handle self) buffer 0 w).
(** [src/src/named_pipe.rs:222-225] *)
Definition server_read_exact (fuel : nat) (self : NamedPipeServer) (buffer : T) (w : W) :
    option (outcome (BufResult Z T * NamedPipeServer * W)) :=
  with_server <$> read_exact_at id fuel (server_handle self) buffer 0 w.
(** [src/src/named_pipe.rs:228-231] *)
Definition server_write (self : NamedPipeServer) (buffer : T) (w : W) : BufResult Z T * NamedPipeServer * W :=
  let '(r, handle, w) := write_at id (server_handle self) buffer 0 w in (r, mkServer handle, w).
(** [src/src/named_pipe.rs:234-237] *)
Definition server_write_all (fuel : nat) (self : NamedPipeServer) (buffer : T) (w : W) :
    option (outcome (BufResult Z T * NamedPipeServer * W)) :=
  with_server <$> write_all_at id fuel (server_handle self) buffer 0 w.

(** [src/src/named_pipe.rs:324-327] *)
Definition client_read (self : NamedPipeClient) (buffer : T) (w : W) : outcome (BufResult Z T * NamedPipeClient * W) :=
  with_client (read_at id (client_handle self) buffer 0 w).
(** [src/src/named_pipe.rs:330-333] *)
Definition client_read_exact (fuel : nat) (self : NamedPipeClient) (buffer : T) (w : W) :
    option (outcome (BufResult Z T * NamedPipeClient * W)) :=
  with_client <$> read_exact_at id fuel (client_handle self) buffer 0 w.
(** [src/src/named_pipe.rs:336-339] *)
Definition client_write (self : NamedPipeClient) (buffer : T) (w : W) : BufResult Z T * NamedPipeClient * W :=
  let '(r, handle, w) := write_at id (client_handle self) buffer 0 w in (r, mkClient handle, w).
(** [src/src/named_pipe.rs:342-345] *)
Definition client_write_all (fuel : nat) (self : NamedPipeClient) (buffer : T) (w : W) :
    option (outcome (BufResult Z T * NamedPipeClient * W)) :=
  with_client <$> write_all_at id fuel (client_handle self) buffer 0 w.
End buffers.
End io.
