(* ===== verification/NamedPipeSpec.v ===== *)
(** * Properties of named pipes

    Which bits and numbers the options become, that no path leaks a handle,
    and that the mode and the end of a pipe are read back from Windows as they
    were asked for. *)

From S2P Require Import Prelude Driver Buf Attacher UnixOps Iocp IocpOps File FileSpec NamedPipe.
From stdpp Require Import base numbers list gmap.

#[local] Arguments buf_wf : simpl never.
#[local] Arguments filled : simpl never.
#[local] Arguments spare : simpl never.

(** ** Options built by their methods *)

Definition is_u32 (z : Z) : Prop := (0 ≤ z ≤ u32_MAX)%Z.

(** Every value of [ServerOptions] that a program can build. *)
Inductive server_built : ServerOptions → Prop :=
| sb_new : server_built ServerOptions_new
| sb_pipe_mode m o : server_built o → server_built (ServerOptions_pipe_mode m o)
| sb_inbound b o : server_built o → server_built (access_inbound b o)
| sb_outbound b o : server_built o → server_built (access_outbound b o)
| sb_first b o : server_built o → server_built (first_pipe_instance b o)
| sb_dac b o : server_built o → server_built (write_dac b o)
| sb_owner b o : server_built o → server_built (write_owner b o)
| sb_security b o : server_built o → server_built (access_system_security b o)
| sb_remote b o : server_built o → server_built (reject_remote_clients b o)
| sb_instances n o o' : server_built o → is_usize n → max_instances n o = Done o' → server_built o'
| sb_out n o : server_built o → is_u32 n → server_built (out_buffer_size n o)
| sb_in n o : server_built o → is_u32 n → server_built (in_buffer_size n o).

Lemma max_instances_spec n o :
  is_usize n →
  max_instances n o =
    if bool_decide (n < 255)%Z then
      Done (mkServerOptions (so_access_inbound o) (so_access_outbound o) (so_first_pipe_instance o)
        (so_write_dac o) (so_write_owner o) (so_access_system_security o) (so_pipe_mode o)
        (so_reject_remote_clients o) n (so_out_buffer_size o) (so_in_buffer_size o) (so_default_timeout o))
    else Panic.
Proof.
  intros [? ?]. unfold max_instances, rust_assert. case_bool_decide; [|done]. cbn.
  unfold as_u32. by rewrite Z.mod_small by (change (2 ^ 32)%Z with 4294967296%Z; lia).
Qed.

(** The documented bits of [dwOpenMode] and [dwPipeMode], numbered from the lowest. *)
Definition open_mode_bit (o : ServerOptions) (i : Z) : bool :=
  (bool_decide (i = 0)%Z && so_access_inbound o) || (bool_decide (i = 1)%Z && so_access_outbound o) ||
  (bool_decide (i = 18)%Z && so_write_dac o) ||
  (bool_decide (i = 19)%Z && (so_first_pipe_instance o || so_write_owner o)) ||
  (bool_decide (i = 24)%Z && so_access_system_security o) || bool_decide (i = 30)%Z.
Definition pipe_mode_bit (o : ServerOptions) (i : Z) : bool :=
  (bool_decide (i = 1 ∨ i = 2)%Z && bool_decide (so_pipe_mode o = Message)) ||
  (bool_decide (i = 3)%Z && so_reject_remote_clients o).

Lemma testbit_or_if b k m i : (0 ≤ k)%Z → Z.testbit (or_if b (2 ^ k) m) i = Z.testbit m i || (bool_decide (i = k) && b).
Proof.
  intros Hk. unfold or_if. destruct b; rewrite ?andb_false_r, ?orb_false_r, ?andb_true_r; [|done].
  rewrite Z.lor_spec, Z.pow2_bits_eqb by done. f_equal.
  destruct (Z.eqb_spec k i); case_bool_decide; done || lia.
Qed.

Lemma testbit_pow2 k i : (0 ≤ k)%Z → Z.testbit (2 ^ k) i = bool_decide (i = k).
Proof.
  intros Hk. rewrite Z.pow2_bits_eqb by done. destruct (Z.eqb_spec k i); case_bool_decide; done || lia.
Qed.

Lemma server_open_mode_bits o i : Z.testbit (server_open_mode o) i = open_mode_bit o i.
Proof.
  unfold server_open_mode.
  change PIPE_ACCESS_INBOUND with (2 ^ 0)%Z. change PIPE_ACCESS_OUTBOUND with (2 ^ 1)%Z.
  change FILE_FLAG_FIRST_PIPE_INSTANCE with (2 ^ 19)%Z. change WRITE_DAC with (2 ^ 18)%Z.
  change WRITE_OWNER with (2 ^ 19)%Z. change ACCESS_SYSTEM_SECURITY with (2 ^ 24)%Z.
  change FILE_FLAG_OVERLAPPED with (2 ^ 30)%Z. rewrite !testbit_or_if, testbit_pow2 by lia.
  unfold open_mode_bit. destruct (so_access_inbound o), (so_access_outbound o), (so_first_pipe_instance o),
    (so_write_dac o), (so_write_owner o), (so_access_system_security o);
    repeat case_bool_decide; done || lia.
Qed.

Lemma server_pipe_mode_bits o i : Z.testbit (server_pipe_mode o) i = pipe_mode_bit o i.
Proof.
  assert (server_pipe_mode o = or_if (so_reject_remote_clients o) (2 ^ 3)
    (or_if (bool_decide (so_pipe_mode o = Message)) (2 ^ 2) (or_if (bool_decide (so_pipe_mode o = Message)) (2 ^ 1) 0))) as ->.
  { unfold server_pipe_mode. by destruct (so_pipe_mode o), (so_reject_remote_clients o). }
  rewrite !testbit_or_if, Z.bits_0 by lia. unfold pipe_mode_bit.
  destruct (bool_decide (so_pipe_mode o = Message)), (so_reject_remote_clients o);
    repeat case_bool_decide; done || lia.
Qed.

Lemma is_u32_bits z : (0 ≤ z)%Z → (∀ i, (32 ≤ i)%Z → Z.testbit z i = false) → is_u32 z.
Proof.
  intros Hz Hb. split; [done|]. destruct (decide (z = 0)%Z) as [->|Hne]; [done|].
  destruct (decide (z ≤ u32_MAX)%Z); [done|]. exfalso.
  assert (32 ≤ Z.log2 z)%Z as Hl. { apply Z.log2_le_pow2; unfold u32_MAX in *; lia. }
  pose proof (Z.bit_log2 z ltac:(lia)) as Ht. by rewrite Hb in Ht.
Qed.

Lemma server_built_numbers o :
  server_built o →
  (0 ≤ so_max_instances o ≤ PIPE_UNLIMITED_INSTANCES)%Z ∧ is_u32 (so_out_buffer_size o) ∧
  is_u32 (so_in_buffer_size o) ∧ so_default_timeout o = 0%Z.
Proof.
  assert (is_u32 65536) as H16 by (unfold is_u32, u32_MAX; lia).
  induction 1 as [| | | | | | | | |n o o' _ IH Hn E|n o _ IH Hn|n o _ IH Hn]; try done; [|cbn; intuition..].
  rewrite max_instances_spec in E by done. case_bool_decide; simplify_eq.
  destruct Hn. unfold PIPE_UNLIMITED_INSTANCES in *. cbn. intuition lia.
Qed.

Lemma or_if_nonneg b f m : (0 ≤ f)%Z → (0 ≤ m)%Z → (0 ≤ or_if b f m)%Z.
Proof. intros. unfold or_if. destruct b; [by apply Z.lor_nonneg|done]. Qed.

Lemma server_modes_u32 o : is_u32 (server_open_mode o) ∧ is_u32 (server_pipe_mode o).
Proof.
  split; apply is_u32_bits.
  - unfold server_open_mode. repeat apply or_if_nonneg; done.
  - intros i Hi. rewrite server_open_mode_bits. unfold open_mode_bit.
    rewrite !bool_decide_eq_false_2 by lia. done.
  - unfold server_pipe_mode. by destruct (so_pipe_mode o), (so_reject_remote_clients o).
  - intros i Hi. rewrite server_pipe_mode_bits. unfold pipe_mode_bit.
    by rewrite (bool_decide_eq_false_2 (i = 1 ∨ i = 2)%Z), (bool_decide_eq_false_2 (i = 3)%Z) by lia.
Qed.

(** C29 Whatever options a program builds, the modes and the buffer sizes given to [CreateNamedPipeW]
    fit 32 bits, the timeout is the default one, and the modes have exactly the bits that the options
    stand for, always with the one for overlapped operation.  The number of instances is 255, the
    constant for unlimited, or from 0 to 254: [max_instances] accepts just the numbers below 255 and
    panics on the others.  It accepts 0, which its documentation excludes. *)
Theorem server_options_bounds o name attrs :
  server_built o →
  let a := server_args o name attrs in
  (∀ i, Z.testbit (pa_open_mode a) i = open_mode_bit o i) ∧
  (∀ i, Z.testbit (pa_pipe_mode a) i = pipe_mode_bit o i) ∧
  is_u32 (pa_open_mode a) ∧ is_u32 (pa_pipe_mode a) ∧
  (0 ≤ pa_max_instances a ≤ 254 ∨ pa_max_instances a = PIPE_UNLIMITED_INSTANCES)%Z ∧
  is_u32 (pa_out_buffer_size a) ∧ is_u32 (pa_in_buffer_size a) ∧ pa_default_timeout a = 0%Z ∧
  (∀ n, is_usize n → if bool_decide (n < 255)%Z
     then ∃ o', max_instances n o = Done o' ∧ pa_max_instances (server_args o' name attrs) = n
     else max_instances n o = Panic).
Proof.
  intros Hb a. destruct (server_built_numbers o Hb) as (? & ? & ? & ?).
  destruct (server_modes_u32 o). subst a. cbn.
  split_and!; [apply server_open_mode_bits|apply server_pipe_mode_bits|try tauto..].
  - unfold PIPE_UNLIMITED_INSTANCES in *. lia.
  - intros n Hn. rewrite max_instances_spec by done. case_bool_decide; [by eexists|done].
Qed.

(** No instances at all are asked for. *)
Lemma server_options_bounds_witness :
  is_u32 (pa_open_mode (server_args (access_inbound false (write_dac true ServerOptions_new)) [0%Z] 0)) ∧
  open_mode_bit (access_inbound false (write_dac true ServerOptions_new)) 0 = false ∧
  ∃ o', max_instances 0 (access_inbound false (write_dac true ServerOptions_new)) = Done o' ∧
    pa_max_instances (server_args o' [0%Z] 0) = 0%Z.
Proof.
  destruct (server_options_bounds (access_inbound false (write_dac true ServerOptions_new)) [0%Z] 0%Z) as (_ & _ & H & _ & _ & _ & _ & _ & Hm);
    [repeat constructor|]. split; [exact H|]. split; [reflexivity|]. apply (Hm 0%Z). split; [done|vm_compute; discriminate].
Defined.

(** [first_pipe_instance] and [write_owner] are one bit of [dwOpenMode], so that asking for either
    asks for both. *)
Lemma first_instance_is_write_owner o :
  server_open_mode (first_pipe_instance true (write_owner false o)) =
  server_open_mode (first_pipe_instance false (write_owner true o)).
Proof.
  apply Z.bits_inj. intros i. rewrite !server_open_mode_bits. unfold open_mode_bit. cbn. done.
Qed.

(** ** Handles *)

(** What Windows keeps of an end of a pipe: which end it is, its type, and the number of instances and
    the buffer sizes, which are the system's choice: it may take those that were asked for as advice. *)
Record pipe_object := mkPipeObject {
  obj_end : PipeEnd; obj_type : PipeMode; obj_max_instances : Z; obj_out_size : Z; obj_in_size : Z }.

(** The type that the bit [PIPE_TYPE_MESSAGE] of [dwPipeMode] asks for, and the documented flags of an
    object. *)
Definition asked_type (a : pipe_args) : PipeMode := if Z.testbit (pa_pipe_mode a) 2 then Message else Byte.
Definition object_flags (o : pipe_object) : Z :=
  Z.lor (match obj_end o with Server => 1 | Client => 0 end) (match obj_type o with Message => 4 | Byte => 0 end).

Class PipeSpec (W : Type) `{!PipeApi W} := {
  objects : W → gmap Z pipe_object;
  create_spec a w h w' : CreateNamedPipeW a w = (h, w') →
    (h = INVALID_HANDLE_VALUE ∧ objects w' = objects w) ∨
    (h ≠ INVALID_HANDLE_VALUE ∧ objects w !! h = None ∧
     ∃ o, obj_end o = Server ∧ obj_type o = asked_type a ∧ objects w' = <[h := o]> (objects w));
  open_spec a w h w' : CreateFileW a w = (h, w') →
    (h = INVALID_HANDLE_VALUE ∧ objects w' = objects w) ∨
    (h ≠ INVALID_HANDLE_VALUE ∧ objects w !! h = None ∧
     ∃ o, obj_end o = Client ∧ objects w' = <[h := o]> (objects w));
  set_state_spec h m w : objects (SetNamedPipeHandleState h m w).2 = objects w;
  info_spec h w r outs w' o : GetNamedPipeInfo h w = (r, outs, w') → r ≠ 0%Z → objects w !! h = Some o →
    po_flags outs = object_flags o;
  close_spec h w : objects (close_handle h w) = delete h (objects w);
}.

Section handles.
Context {W : Type} `{!PipeApi W, !PipeSpec W} {OsStr : Type} (from_os_str : OsStr → option (list Z)).
Implicit Types (w : W) (addr : OsStr).

(** A result that owns one new handle, or none. *)
Definition owns_new {A} (handle : A → File Fd) (r : io_result A) w w' : Prop :=
  match r with
  | Ok a => ∃ o, objects w !! File_as_raw_fd (handle a) = None ∧
      objects w' = <[File_as_raw_fd (handle a) := o]> (objects w) ∧ once (file_attacher (handle a)) = None
  | Err _ => objects w' = objects w
  end.

Lemma create_object self addr attrs w s w' :
  create_with_security_attributes_raw from_os_str self addr attrs w = (Ok s, w') →
  ∃ name, from_os_str addr = Some name ∧ objects w !! file_inner (server_handle s) = None ∧
    once (file_attacher (server_handle s)) = None ∧
    ∃ o, obj_end o = Server ∧ obj_type o = asked_type (server_args self name attrs) ∧
      objects w' = <[file_inner (server_handle s) := o]> (objects w).
Proof.
  unfold create_with_security_attributes_raw. destruct (from_os_str addr) as [name|]; [|done].
  destruct (CreateNamedPipeW _ w) as [h w1] eqn:Ec. apply create_spec in Ec.
  unfold syscall_HANDLE, syscall. case_bool_decide; [done|]. intros [= <- <-].
  destruct Ec as [[? _]|(_ & Hn & Ho)]; [done|]. by exists name.
Qed.

(** C27 Creating and opening a pipe leaks no handle and gives none away: a call that succeeds has
    opened exactly one, which the returned end owns and which is not attached yet; a call that
    fails, for a name with a NUL, in the system or when the client's read mode cannot be set,
    leaves the open handles as they were. *)
Theorem pipe_handles_owned addr attrs w :
  (∀ o, let '(r, w') := create_with_security_attributes_raw from_os_str o addr attrs w in
        owns_new server_handle r w w') ∧
  (∀ o, let '(r, w') := open_with_security_attributes_raw from_os_str o addr attrs w in
        owns_new client_handle r w w').
Proof.
  split; intros o.
  - destruct (create_with_security_attributes_raw _ _ _ _ w) as [[s|e] w'] eqn:E; cbn.
    + apply create_object in E as (name & _ & ? & ? & o1 & _ & _ & ?). by exists o1.
    + revert E. unfold create_with_security_attributes_raw. destruct (from_os_str addr); [|by intros [= <- <-]].
      destruct (CreateNamedPipeW _ w) as [h w1] eqn:Ec. apply create_spec in Ec.
      unfold syscall_HANDLE, syscall. case_bool_decide; [|done]. intros [= <- <-]. naive_solver.
  - unfold open_with_security_attributes_raw. destruct (from_os_str addr); [|done].
    destruct (CreateFileW _ w) as [h w1] eqn:Ec. apply open_spec in Ec.
    unfold syscall_HANDLE, syscall at 1. case_bool_decide; [cbn; naive_solver|].
    destruct Ec as [[? _]|(_ & Hn & obj & _ & Ho)]; [done|].
    assert (owns_new client_handle (NamedPipeClient_from_handle h) w w1) by (by exists obj).
    destruct (co_pipe_mode o); [done|].
    pose proof (set_state_spec h PIPE_READMODE_MESSAGE w1) as Hs.
    destruct (SetNamedPipeHandleState h PIPE_READMODE_MESSAGE w1) as [res w2]. cbn in Hs.
    unfold syscall_BOOL, syscall. case_bool_decide; cbn.
    + by rewrite close_spec, Hs, Ho, delete_insert_id.
    + exists obj. cbn. split_and!; [done|congruence|done].
Qed.

(** C28 What [info] reports of a server: the end is the server's and the mode is the one of the options
    it was created with, as long as the system keeps the pipe; and the number of instances and the
    two buffer sizes are those the system answers with, each in its place. *)
Theorem server_info_roundtrip self addr attrs w s w1 w2 r outs w3 :
  create_with_security_attributes_raw from_os_str self addr attrs w = (Ok s, w1) →
  objects w2 !! file_inner (server_handle s) = objects w1 !! file_inner (server_handle s) →
  GetNamedPipeInfo (file_inner (server_handle s)) w2 = (r, outs, w3) → r ≠ 0%Z →
  NamedPipeServer_info s w2 =
    (Ok (mkPipeInfo (so_pipe_mode self) Server (po_max_instances outs) (po_out_buffer_size outs) (po_in_buffer_size outs)), w3).
Proof.
  intros (name & _ & _ & _ & o & He & Ht & Ho)%create_object Hw Ei Hr. rewrite Ho, lookup_insert_eq in Hw.
  unfold NamedPipeServer_info, named_pipe_info, File_as_raw_fd. rewrite Ei. unfold syscall_BOOL, syscall.
  rewrite bool_decide_eq_false_2 by done. rewrite (info_spec _ _ _ _ _ _ Ei Hr Hw). unfold object_flags. rewrite He, Ht.
  unfold asked_type, server_args. cbn [pa_pipe_mode]. rewrite server_pipe_mode_bits. by destruct self as [? ? ? ? ? ? [] []].
Qed.
End handles.

(** ** A concrete system

    Handles are numbered; setting the read mode fails when [wp_state] is zero; buffers have whole
    pages. *)

Record WinPipes := mkWinPipes {
  wp_next : Z; wp_objects : gmap Z pipe_object; wp_state : Z }.

(** Handle values are small and positive. *)
Definition wp_fresh (w : WinPipes) : option Z :=
  if bool_decide (wp_next w < 1000)%Z then
    if bool_decide (wp_objects w !! Z.abs (wp_next w) = None) then Some (Z.abs (wp_next w)) else None
  else None.
Definition wp_add (o : pipe_object) (w : WinPipes) : Z * WinPipes :=
  match wp_fresh w with
  | Some h => (h, mkWinPipes (wp_next w + 1) (<[h := o]> (wp_objects w)) (wp_state w))
  | None => (INVALID_HANDLE_VALUE, w)
  end.

#[global] Instance WinPipes_api : PipeApi WinPipes := {|
  CreateNamedPipeW a := wp_add (mkPipeObject Server (asked_type a) (pa_max_instances a)
    (Z.max 4096 (pa_out_buffer_size a)) (Z.max 4096 (pa_in_buffer_size a)));
  CreateFileW a := wp_add (mkPipeObject Client Byte 255 0 0);
  SetNamedPipeHandleState h m w := (wp_state w, w);
  GetNamedPipeInfo h w :=
    match wp_objects w !! h with
    | Some o => (1%Z, mkPipeOuts (object_flags o) (obj_out_size o) (obj_in_size o) (obj_max_instances o), w)
    | None => (0%Z, mkPipeOuts 0 0 0 0, w)
    end;
  DisconnectNamedPipe h w := (1%Z, w);
  close_handle h w := mkWinPipes (wp_next w) (delete h (wp_objects w)) (wp_state w);
  duplicate_handle h w := (Err (Os 5), w);
  GetLastError w := 5%Z |}.

Lemma wp_add_spec o w h w' :
  wp_add o w = (h, w') →
  (h = INVALID_HANDLE_VALUE ∧ wp_objects w' = wp_objects w) ∨
  (h ≠ INVALID_HANDLE_VALUE ∧ wp_objects w !! h = None ∧ wp_objects w' = <[h := o]> (wp_objects w)).
Proof.
  unfold wp_add, wp_fresh. repeat case_bool_decide; intros [= <- <-]; [right|by left..].
  split_and!; try done. unfold INVALID_HANDLE_VALUE. lia.
Qed.

#[global] Instance WinPipes_spec : PipeSpec WinPipes.
Proof.
  refine {| objects := wp_objects |}.
  - intros a w h w' E. apply wp_add_spec in E as [?|(? & ? & Ho)]; [by left|right].
    split; [done|]. split; [done|]. by refine (ex_intro _ _ (conj _ (conj _ Ho))).
  - intros a w h w' E. apply wp_add_spec in E as [?|(? & ? & ?)]; [by left|right].
    split_and!; try done. by exists (mkPipeObject Client Byte 255 0 0).
  - done.
  - intros h w r outs w' o E Hr Ho. revert E. cbn. rewrite Ho. by intros [= <- <- <-].
  - done.
Defined.

Definition no_pipes (state : Z) : WinPipes := mkWinPipes 4 ∅ state.
Definition pipe_name (s : list Z) : option (list Z) := if bool_decide (0 ∈ s)%Z then None else Some (s ++ [0])%Z.

Lemma pipe_handles_owned_witness :
  owns_new client_handle (open pipe_name (ClientOptions_pipe_mode Message ClientOptions_new) [97%Z] (no_pipes 0)).1
    (no_pipes 0) (open pipe_name (ClientOptions_pipe_mode Message ClientOptions_new) [97%Z] (no_pipes 0)).2 ∧
  objects (open pipe_name (ClientOptions_pipe_mode Message ClientOptions_new) [97%Z] (no_pipes 0)).2 = ∅.
Proof.
  split; [|reflexivity].
  refine (proj2 (pipe_handles_owned pipe_name [97%Z] 0%Z (no_pipes 0))
            (ClientOptions_pipe_mode Message ClientOptions_new)).
Defined.

(** A message pipe with an output buffer of one byte, which the system makes a page. *)
Definition small_out : ServerOptions := out_buffer_size 1 (ServerOptions_pipe_mode Message ServerOptions_new).

Lemma server_info_roundtrip_witness :
  ∃ s w1 w3,
    create pipe_name small_out [97%Z] (no_pipes 1) = (Ok s, w1) ∧
    NamedPipeServer_info s w1 = (Ok (mkPipeInfo Message Server 255 4096 65536), w3).
Proof.
  destruct (create pipe_name small_out [97%Z] (no_pipes 1)) as [[s|e] w1] eqn:E; [|vm_compute in E; discriminate].
  destruct (GetNamedPipeInfo (file_inner (server_handle s)) w1) as [[r outs] w3] eqn:Ei.
  pose proof (server_info_roundtrip pipe_name small_out [97%Z] 0%Z (no_pipes 1) s w1 w1 r outs w3 E eq_refl Ei) as H.
  exists s, w1, w3. split; [reflexivity|]. vm_compute in E. injection E as <- <-. vm_compute in Ei. injection Ei as <- <- <-.
  exact (H ltac:(discriminate)).
Defined.
