(* ===== verification/Net.v ===== *)
(** * Sockets

    [src/net/mod.rs] and [src/net/socket.rs]: resolving addresses and trying
    them one after the other, and the socket that all socket types wrap.
    [Socket2] is the socket2 crate; [await_op] is a submitted operation; the
    loops take fuel. *)

From S2P Require Import Prelude Buf UnixOps Attacher File.
From stdpp Require Import base numbers list.

(** ** Addresses *)

(** [src/src/net/mod.rs:28-34] the iterator as the list of what it yields; resolving may ask the system *)
Class ToSockAddrs (X W : Type) := { to_sock_addrs : X → W → io_result (list SockAddr) * W }.

Section to_sock_addrs.
Context {W : Type}.

(** [std::net::ToSocketAddrs], and [SockAddr::from]. *)
Context {X SocketAddr : Type} (to_socket_addrs : X → W → io_result (list SocketAddr) * W)
  (SockAddr_from : SocketAddr → SockAddr).

(** [src/src/net/mod.rs:36-49] the macro [itsafisa!], for a type that resolves to socket addresses *)
Definition itsafisa : ToSockAddrs X W := {|
  to_sock_addrs self w :=
    let '(r, w) := to_socket_addrs self w in (result_map (map SockAddr_from) r, w) |}.

(** [src/src/net/mod.rs:61-67] a host name and a port *)
Definition host_port_ToSockAddrs : ToSockAddrs X W := {|
  to_sock_addrs self w :=
    let '(r, w) := to_socket_addrs self w in (result_map (map SockAddr_from) r, w) |}.

(** [src/src/net/mod.rs:69-75] *)
Instance SockAddr_ToSockAddrs : ToSockAddrs SockAddr W := {| to_sock_addrs self w := (Ok [self], w) |}.

(** [src/src/net/mod.rs:77-83] *)
Instance slice_ToSockAddrs : ToSockAddrs (list SockAddr) W := {| to_sock_addrs self w := (Ok self, w) |}.

(** [src/src/net/mod.rs:85-91] a reference resolves to what it refers to *)
Definition ref_ToSockAddrs {T} `{!ToSockAddrs T W} : ToSockAddrs T W := {|
  to_sock_addrs self w := to_sock_addrs self w |}.
End to_sock_addrs.
#[export] Existing Instance SockAddr_ToSockAddrs.
#[export] Existing Instance slice_ToSockAddrs.

(** Resolving does not touch a further component of the state. *)
#[export] Instance ToSockAddrs_beside {X S W} `{!ToSockAddrs X W} : ToSockAddrs X (S * W) := {|
  to_sock_addrs self '(s, w) := let '(r, w) := to_sock_addrs self w in (r, (s, w)) |}.

(** ** Trying addresses *)

Section each_addr.
Context {X T W : Type} `{!ToSockAddrs X W}.

Definition no_addresses : io_error := Custom InvalidInput.

(** [src/src/net/mod.rs:99-104] the loop over the addresses *)
Fixpoint each_addr_loop {A} (f : A → W → io_result T * W) (addrs : list A) (last_err : option io_error) (w : W) :
    io_result T * W :=
  match addrs with
  | [] => (Err (default no_addresses last_err), w)
  | addr :: addrs =>
      match f addr w with
      | (Ok l, w) => (Ok l, w)
      | (Err e, w) => each_addr_loop f addrs (Some e) w
      end
  end.

(** [src/src/net/mod.rs:93-111] *)
Definition each_addr (addr : X) (f : SockAddr → W → io_result T * W) (w : W) : io_result T * W :=
  match to_sock_addrs addr w with
  | (Err e, w) => (Err e, w)
  | (Ok addrs, w) => each_addr_loop f addrs None w
  end.

(** [src/src/net/mod.rs:113-132] the same with a future that is awaited *)
Definition each_addr_async (addr : X) (f : SockAddr → W → io_result T * W) (w : W) : io_result T * W :=
  match to_sock_addrs addr w with
  | (Err e, w) => (Err e, w)
  | (Ok addrs, w) => each_addr_loop f addrs None w
  end.

Section buf.
Context {B : Type}.

(** [src/src/net/mod.rs:144-150] *)
Fixpoint each_addr_buf_loop {A} (f : A → B → W → BufResult T B * W) (addrs : list A) (last_err : option io_error)
    (buffer : B) (w : W) : BufResult T B * W :=
  match addrs with
  | [] => ((Err (default no_addresses last_err), buffer), w)
  | addr :: addrs =>
      let '((res, buffer), w) := f addr buffer w in
      match res with
      | Ok l => ((Ok l, buffer), w)
      | Err e => each_addr_buf_loop f addrs (Some e) buffer w
      end
  end.

(** [src/src/net/mod.rs:134-163] *)
Definition each_addr_async_buf (addr : X) (buffer : B) (f : SockAddr → B → W → BufResult T B * W)
    (w : W) : BufResult T B * W :=
  match to_sock_addrs addr w with
  | (Ok addrs, w) => each_addr_buf_loop f addrs None buffer w
  | (Err e, w) => ((Err e, buffer), w)
  end.
End buf.
End each_addr.

(** ** The socket2 crate *)

Inductive SockType := STREAM | DGRAM.
Inductive Protocol := TCP | UDP.

Class Socket2 (W : Type) := {
  AF_UNIX : Z;
  addr_domain : SockAddr → Z;
  s2_new : Z → SockType → option Protocol → W → io_result Z * W;
  s2_set_nonblocking : Z → W → io_result unit * W;
  s2_bind : Z → SockAddr → W → io_result unit * W;
  s2_listen : Z → Z → W → io_result unit * W;
  s2_shutdown : Z → Z → W → io_result unit * W;
  s2_connect : Z → SockAddr → W → io_result unit * W;
  s2_try_clone : Z → W → io_result Z * W;
  s2_peer_addr : Z → W → io_result SockAddr * W;
  s2_local_addr : Z → W → io_result SockAddr * W;
  s2_type : Z → W → io_result Z * W;
  s2_protocol : Z → W → io_result (option Z) * W;
  (** dropping a socket closes it *)
  s2_drop : Z → W → W;
}.

(** ** Sockets *)

Section socket.
Context {F FF W : Type} `{!RuntimeAttach F W, !Socket2 W} (into : F → FF).
(** [cfg(all(unix, not(target_os = "linux")))] *)
Context (nonblocking_target : bool).

(** [src/src/net/socket.rs:19-23] *)
Record Socket := mkSocket { socket_raw : Z; socket_attacher : Attacher F }.

(** [src/src/net/socket.rs:26-32] *)
Definition from_socket2 (socket : Z) : Socket := mkSocket socket Attacher_new.

(** [src/src/net/socket.rs:34-37] *)
Definition socket_attach (self : Socket) (w : W) : io_result F * Socket * W :=
  let '(r, a, w) := Attacher_attach (socket_attacher self) (socket_raw self) w in
  (r, mkSocket (socket_raw self) a, w).

(** [src/src/net/socket.rs:39-45] *)
Definition Socket_try_clone (self : Socket) (w : W) : io_result Socket * W :=
  match s2_try_clone (socket_raw self) w with
  | (Ok s, w) => (Ok (mkSocket s (socket_attacher self)), w)
  | (Err e, w) => (Err e, w)
  end.

(** [src/src/net/socket.rs:47-49] *)
Definition Socket_peer_addr (self : Socket) (w : W) : io_result SockAddr * W := s2_peer_addr (socket_raw self) w.
(** [src/src/net/socket.rs:51-53] *)
Definition Socket_local_addr (self : Socket) (w : W) : io_result SockAddr * W := s2_local_addr (socket_raw self) w.

(** A fallible call on a socket that is returned when it succeeds, and dropped when it does not. *)
Definition or_drop (socket : Socket) (r : io_result unit * W) : io_result Socket * W :=
  match r with
  | (Err e, w) => (Err e, s2_drop (socket_raw socket) w)
  | (Ok _, w) => (Ok socket, w)
  end.

(** [src/src/net/socket.rs:55-65] *)
Definition Socket_new (domain : Z) (ty : SockType) (protocol : option Protocol) (w : W) : io_result Socket * W :=
  match s2_new domain ty protocol w with
  | (Err e, w) => (Err e, w)
  | (Ok socket, w) =>
      if nonblocking_target then or_drop (from_socket2 socket) (s2_set_nonblocking socket w)
      else (Ok (from_socket2 socket), w)
  end.

(** [src/src/net/socket.rs:67-71] *)
Definition Socket_bind (addr : SockAddr) (ty : SockType) (protocol : option Protocol) (w : W) :
    io_result Socket * W :=
  match Socket_new (addr_domain addr) ty protocol w with
  | (Err e, w) => (Err e, w)
  | (Ok socket, w) => or_drop socket (s2_bind (socket_raw socket) addr w)
  end.

(** [src/src/net/socket.rs:73-75] *)
Definition Socket_listen (self : Socket) (backlog : Z) (w : W) : io_result unit * W :=
  s2_listen (socket_raw self) backlog w.
(** [src/src/net/socket.rs:77-79] *)
Definition Socket_shutdown (self : Socket) (how : Z) (w : W) : io_result unit * W :=
  s2_shutdown (socket_raw self) how w.
(** [src/src/net/socket.rs:81-83] *)
Definition Socket_connect (self : Socket) (addr : SockAddr) (w : W) : io_result unit * W :=
  s2_connect (socket_raw self) addr w.

Section connecting.
(** The driver's [Connect] and [Accept]. *)
Context {Conn Acc : Type} `{!Await Conn W, !Await Acc W}.
Context (Connect_new : F → SockAddr → Conn) (on_connect : Conn → io_result Z → W → io_result unit * W).
Context (on_accept : Acc → io_result Z → W → io_result (Z * SockAddr) * Acc * W).

(** [src/src/net/socket.rs:85-91] *)
Definition connect_async (self : Socket) (addr : SockAddr) (w : W) : io_result unit * Socket * W :=
  let '(fd, self, w) := socket_attach self w in
  match fd with
  | Err e => (Err e, self, w)
  | Ok fd =>
      let '(res, op, w) := await_op (Connect_new fd addr) w in
      let '(r, w) := on_connect op res w in (r, self, w)
  end.

(** [src/src/net/socket.rs:93-111] with the operation of the platform, which [accept_op] builds *)
Definition accept (accept_op : F → Socket → W → io_result Acc * W) (self : Socket) (w : W) :
    io_result (Socket * SockAddr) * Socket * W :=
  let '(fd, self, w) := socket_attach self w in
  match fd with
  | Err e => (Err e, self, w)
  | Ok fd =>
      match accept_op fd self w with
      | (Err e, w) => (Err e, self, w)
      | (Ok op, w) =>
          let '(res, op, w) := await_op op w in
          let '(r, _, w) := on_accept op res w in
          (result_map (λ '(accept_sock, addr), (from_socket2 accept_sock, addr)) r, self, w)
      end
  end.
End connecting.

(** One operation on a buffer: attach, submit and wait, take the buffer out again. *)
Definition buffered {O B I} `{!Await O W} (new : F → B → O) (into_inner : O → I) (back : B → I)
    (self : Socket) (buffer : B) (w : W) : BufResult Z I * Socket * W :=
  let '(fd, self, w) := socket_attach self w in
  match fd with
  | Err e => ((Err e, back buffer), self, w)
  | Ok fd => let '(res, op, w) := await_op (new fd buffer) w in
             (BufResult_into_inner into_inner (res, op), self, w)
  end.

(** [src/src/net/socket.rs:113-122] *)
Definition recv {T} `{!IoBuf T, !IoBufMut T, !Await (Recv FF T) W} (self : Socket) (buffer : T) (w : W) :
    outcome (BufResult Z T * Socket * W) :=
  let '(fd, self, w) := socket_attach self w in
  match fd with
  | Err e => Done ((Err e, buffer), self, w)
  | Ok fd =>
      let '(res, op, w) := await_op (Recv_new into fd buffer) w in
      r ← update_buffer_len (BufResult_into_inner Recv_into_inner (res, op));
      Done (r, self, w)
  end.

(** [src/src/net/socket.rs:129-132] *)
Fixpoint recv_exact_loop {T} `{!IoBuf T, !IoBufMut T, !Await (Recv FF T) W} (fuel : nat) (self : Socket)
    (buffer : T) (need total_read : Z) (w : W) : option (outcome (BufResult Z T * Socket * W)) :=
  if bool_decide (total_read < need)%Z then
    match fuel with
    | 0 => None
    | S fuel =>
        match recv self buffer w with
        | Done (r, self, w) =>
            buf_try r
              (λ read buffer,
                 match usize_add total_read read with
                 | Done total_read => recv_exact_loop fuel self buffer need total_read w
                 | _ => Some Panic
                 end)
              (λ r, Some (Done (r, self, w)))
        | Panic => Some Panic
        | Undef => Some Undef
        end
    end
  else Some (Done ((read_exact_result need total_read, buffer), self, w)).

(** [src/src/net/socket.rs:124-142] *)
Definition recv_exact {T} `{!IoBuf T, !IoBufMut T, !Await (Recv FF T) W} (fuel : nat) (self : Socket) (buffer : T)
    (w : W) : option (outcome (BufResult Z T * Socket * W)) :=
  match as_uninit_slice buffer with
  | Done (_, need) => recv_exact_loop fuel self buffer (Z.of_nat need) 0 w
  | Panic => Some Panic
  | Undef => Some Undef
  end.

(** [src/src/net/socket.rs:144-156] *)
Definition recv_vectored {T} `{!IoBuf T, !IoBufMut T, !Await (RecvVectoredImpl FF (VectoredBufWrapper T)) W}
    (self : Socket) (buffer : VectoredBufWrapper T) (w : W) :
    outcome (BufResult Z (VectoredBufWrapper T) * Socket * W) :=
  let '(r, self, w) := buffered (RecvVectored_new into) RecvVectored_into_inner id self buffer w in
  r ← impl_update_buffer_len Vectored_set_init r; Done (r, self, w).

(** [src/src/net/socket.rs:158-166] *)
Definition send {T} `{!IoBuf T, !Await (Send FF T) W} (self : Socket) (buffer : T) (w : W) :
    BufResult Z T * Socket * W :=
  buffered (Send_new into) Send_into_inner id self buffer w.

(** [src/src/net/socket.rs:173-177] *)
Fixpoint send_all_loop {T} `{!IoBuf T, !Await (Send FF (Slice T)) W} (fuel : nat) (self : Socket) (buffer : T)
    (buf_len total_written : Z) (w : W) : option (outcome (BufResult Z T * Socket * W)) :=
  if bool_decide (total_written < buf_len)%Z then
    match fuel with
    | 0 => None
    | S fuel =>
        match slice (Included (Z.to_nat total_written)) Unbounded buffer with
        | Done s =>
            let '(r, self, w) := send self s w in
            buf_try (BufResult_into_inner Slice_into_inner r)
              (λ written buffer,
                 match usize_add total_written written with
                 | Done total_written => send_all_loop fuel self buffer buf_len total_written w
                 | _ => Some Panic
                 end)
              (λ r, Some (Done (r, self, w)))
        | _ => Some Panic
        end
    end
  else Some (Done ((Ok total_written, buffer), self, w)).

(** [src/src/net/socket.rs:168-179] *)
Definition send_all {T} `{!IoBuf T, !Await (Send FF (Slice T)) W} (fuel : nat) (self : Socket) (buffer : T) (w : W) :
    option (outcome (BufResult Z T * Socket * W)) :=
  match buf_len buffer with
  | Done n => send_all_loop fuel self buffer (Z.of_nat n) 0 w
  | Panic => Some Panic
  | Undef => Some Undef
  end.

(** [src/src/net/socket.rs:181-192] *)
Definition send_vectored {T} `{!IoBuf T, !Await (SendVectoredImpl FF (VectoredBufWrapper T)) W} (self : Socket)
    (buffer : VectoredBufWrapper T) (w : W) : BufResult Z (VectoredBufWrapper T) * Socket * W :=
  buffered (SendVectored_new into) SendVectored_into_inner id self buffer w.

Section datagrams.
(** The driver's [RecvFrom] and [SendTo]. *)
Context {T RF ST : Type} `{!IoBuf T, !IoBufMut T, !Await RF W, !Await ST W}.
Context (RecvFrom_new : F → T → RF) (RecvFrom_into_inner : RF → T * SockAddr)
  (SendTo_new : F → SockAddr → T → ST) (SendTo_into_inner : ST → T).

(** [src/src/net/socket.rs:194-207] *)
Definition recv_from (self : Socket) (buffer : T) (w : W) : outcome (BufResult (Z * SockAddr) T * Socket * W) :=
  let '(fd, self, w) := socket_attach self w in
  match fd with
  | Err e => Done ((Err e, buffer), self, w)
  | Ok fd =>
      let '(res, op, w) := await_op (RecvFrom_new fd buffer) w in
      r ← update_buffer_len_addr (map_addr (BufResult_into_inner RecvFrom_into_inner (res, op)));
      Done (r, self, w)
  end.

(** [src/src/net/socket.rs:224-236] *)
Definition send_to (self : Socket) (buffer : T) (addr : SockAddr) (w : W) : BufResult Z T * Socket * W :=
  buffered (λ fd buffer, SendTo_new fd addr buffer) SendTo_into_inner id self buffer w.

(** [src/src/net/socket.rs:209-222] *)
Definition recv_from_vectored `{!Await (RecvMsgImpl FF (VectoredBufWrapper T)) W} (ptr : Z) (self : Socket)
    (buffer : VectoredBufWrapper T) (w : W) :
    outcome (BufResult (Z * SockAddr) (VectoredBufWrapper T) * Socket * W) :=
  let '(fd, self, w) := socket_attach self w in
  match fd with
  | Err e => Done ((Err e, buffer), self, w)
  | Ok fd =>
      let '(res, op, w) := await_op (RecvMsg_new into ptr fd buffer) w in
      r ← impl_update_buffer_len_addr Vectored_set_init (map_addr (BufResult_into_inner RecvMsg_into_inner (res, op)));
      Done (r, self, w)
  end.

(** [src/src/net/socket.rs:238-250] *)
Definition send_to_vectored `{!Await (SendMsgImpl FF (VectoredBufWrapper T)) W} (self : Socket)
    (buffer : VectoredBufWrapper T) (addr : SockAddr) (w : W) : BufResult Z (VectoredBufWrapper T) * Socket * W :=
  buffered (λ fd buffer, SendMsg_new into fd buffer addr) SendMsg_into_inner id self buffer w.
End datagrams.

End socket.
Arguments Socket : clear implicits.
