(* ===== verification/NetSpec.v ===== *)
(** * Properties of sockets

    Which address an operation on several addresses ends with, and the loops
    that receive or send a whole buffer, against what one receive or send on a
    stream promises: a receive takes a nonempty prefix of the bytes that have
    arrived, a send appends a nonempty prefix of the buffer. *)

From S2P Require Import Prelude Buf UnixOps Attacher File FileSpec Net.
From stdpp Require Import base numbers list.

#[local] Arguments buf_wf : simpl never.
#[local] Arguments filled : simpl never.
#[local] Arguments spare : simpl never.

(** ** Addresses *)

Section addresses.
Context {A T B W : Type}.

(** A sequence of attempts that all fail, with their errors. *)
Inductive failed (f : A → B → W → BufResult T B * W) : list A → B * W → list io_error → B * W → Prop :=
| failed_nil s : failed f [] s [] s
| failed_cons a l b w e b' w' es s :
    f a b w = ((Err e, b'), w') → failed f l (b', w') es s → failed f (a :: l) (b, w) (e :: es) s.

(** Attempts that stop at the first success, or have all failed. *)
Definition first_success (f : A → B → W → BufResult T B * W) (addrs : list A) (last_err : option io_error)
    (s : B * W) (r : BufResult T B * W) : Prop :=
  (∃ pre a post es b1 w1 v, addrs = pre ++ a :: post ∧ failed f pre s es (b1, w1) ∧
     f a b1 w1 = ((Ok v, r.1.2), r.2) ∧ r.1.1 = Ok v) ∨
  (∃ es, failed f addrs s es (r.1.2, r.2) ∧
     r.1.1 = Err (default (default no_addresses last_err) (last es))).

Lemma each_addr_buf_loop_spec f addrs : ∀ last_err b w,
  first_success f addrs last_err (b, w) (each_addr_buf_loop f addrs last_err b w).
Proof.
  induction addrs as [|a addrs IH]; intros last_err b w; cbn.
  { right. exists []. split; [constructor|done]. }
  destruct (f a b w) as [[[v|e] b1] w1] eqn:Ef; cbn.
  { left. exists [], a, addrs, [], b, w, v. by split_and!; [|constructor|..]. }
  destruct (IH (Some e) b1 w1) as [(pre & a' & post & es & b2 & w2 & v & -> & Hf & Ha & Hr)|(es & Hf & Hr)].
  - left. exists (a :: pre), a', post, (e :: es), b2, w2, v. by split_and!; [|econstructor|..].
  - right. exists (e :: es). split; [by econstructor|]. rewrite Hr, last_cons. by destruct (last es).
Qed.

(** The variants without a buffer are those with the buffer [()]. *)
Lemma each_addr_loop_buf (f : A → W → io_result T * W) addrs : ∀ last_err w,
  each_addr_loop f addrs last_err w =
  let '((r, _), w) := each_addr_buf_loop (λ a _ w, let '(r, w) := f a w in ((r, tt), w)) addrs last_err tt w in
  (r, w).
Proof.
  induction addrs as [|a addrs IH]; intros last_err w; cbn; [done|].
  destruct (f a w) as [[v|e] w1]; [done|]. apply IH.
Qed.

End addresses.

(** An operation on what an address resolves to tries the addresses in order, each with the buffer
    and state the previous attempt left, and stops at the first success, whose result it returns;
    when all fail it returns the last error, and [InvalidInput] when there is no address.  When the
    address does not resolve, that error is returned with the buffer as it was. *)
Theorem each_addr_first_success {X T B W : Type} `{!ToSockAddrs X W} (addr : X)
    (f : SockAddr → B → W → BufResult T B * W) buffer w :
  match to_sock_addrs addr w with
  | (Ok addrs, w1) => first_success f addrs None (buffer, w1) (each_addr_async_buf addr buffer f w)
  | (Err e, w1) => each_addr_async_buf addr buffer f w = ((Err e, buffer), w1)
  end.
Proof.
  unfold each_addr_async_buf. destruct (to_sock_addrs addr w) as [[addrs|e] w1]; [|done].
  apply each_addr_buf_loop_spec.
Qed.

Lemma each_addr_spec {X T W} `{!ToSockAddrs X W} (f : SockAddr → W → io_result T * W) (addr : X) addrs w w1 :
  to_sock_addrs addr w = (Ok addrs, w1) →
  let g := λ a (_ : unit) w, let '(r, w) := f a w in ((r, tt), w) in
  first_success g addrs None (tt, w1) (let '(r, w) := each_addr addr f w in ((r, tt), w)).
Proof.
  intros Hr g. unfold each_addr. rewrite Hr, each_addr_loop_buf. fold g.
  pose proof (each_addr_buf_loop_spec g addrs None tt w1) as Hs.
  by destruct (each_addr_buf_loop g addrs None tt w1) as [[r []] w'].
Qed.

(** ** Receiving *)

Section receiving.
Context {F FF W T : Type} `{!RuntimeAttach F W, !IoBuf T, !IoBufMut T, !IoBufMutSpec T,
  !Await (Recv FF T) W} (into : F → FF).
(** The bytes that have arrived and were not received. *)
Context (incoming : W → list byte).
Implicit Types (b : T) (w : W) (self : Socket F).

Class RecvSpec : Prop := {
  attach_keeps_incoming fd w : incoming (runtime_attach fd w).2 = incoming w;
  recv_op_spec fd b w res op w' :
    buf_wf b → await_op (Recv_new into fd b) w = (res, op, w') →
    match res with
    | Ok n => ∃ bs, n = Z.of_nat (length bs) ∧ incoming w = bs ++ incoming w' ∧ length bs ≤ spare b ∧
        (bs = [] → incoming w = [] ∨ spare b = 0) ∧
        Recv_into_inner op = buf_poke (length (filled b)) bs b
    | Err _ => Recv_into_inner op = b ∧ incoming w' = incoming w
    end;
}.
Context `{!RecvSpec}.

Lemma socket_attach_incoming self w r self' w' :
  socket_attach self w = (r, self', w') → incoming w' = incoming w.
Proof.
  unfold socket_attach, Attacher_attach. destruct (once _) as [f|]; [by intros [= <- <- <-]|].
  pose proof (attach_keeps_incoming (socket_raw self) w) as Ha.
  destruct (runtime_attach _ w) as [[f|e] w1]; cbn in Ha; by intros [= <- <- <-].
Qed.

Lemma recv_spec self b w :
  buf_wf b →
  ∃ res b' self' w', recv into self b w = Done ((res, b'), self', w') ∧
    match res with
    | Ok n => ∃ bs, n = Z.of_nat (length bs) ∧ incoming w = bs ++ incoming w' ∧ length bs ≤ spare b ∧
        (bs = [] → incoming w = [] ∨ spare b = 0) ∧
        buf_wf b' ∧ filled b' = filled b ++ bs ∧ spare b' = spare b - length bs
    | Err _ => b' = b ∧ incoming w' = incoming w
    end.
Proof.
  intros Hwf. unfold recv. destruct (socket_attach self w) as [[fd self1] w1] eqn:Ea.
  apply socket_attach_incoming in Ea. destruct fd as [fd|e]; [|by eexists _, _, _, _].
  destruct (await_op (Recv_new into fd b) w1) as [[res op] w2] eqn:Eo.
  apply recv_op_spec in Eo as Hr; [|done]. unfold update_buffer_len, update_len, BufResult_into_inner. cbn.
  rewrite Ea in Hr. destruct res as [n|e]; simpl_outcome; [|by eexists _, _, _, _].
  destruct Hr as (bs & -> & Hp & Hl & He & ->). rewrite Nat2Z.id.
  destruct (spec_receive b bs Hwf Hl) as (b' & -> & Hwf' & Hf & Hs & _). simpl_outcome.
  eexists _, _, _, _. split; [done|]. by exists bs.
Qed.

(** A receive that failed. *)
Definition recv_failed (e : io_error) (b' : T) (self' : Socket F) (w' : W) : Prop :=
  ∃ self1 b1 w1, recv into self1 b1 w1 = Done ((Err e, b'), self', w').

Lemma recv_exact_loop_spec need fuel : ∀ self b (total : nat) w,
  buf_wf b → spare b = need - total → total ≤ need → need - total ≤ fuel →
  need - total ≤ length (incoming w) → (Z.of_nat need ≤ usize_MAX)%Z →
  ∃ res b' self' w' bs,
    recv_exact_loop into fuel self b (Z.of_nat need) (Z.of_nat total) w =
      Some (Done ((res, b'), self', w')) ∧
    filled b' = filled b ++ bs ∧ incoming w = bs ++ incoming w' ∧
    match res with
    | Ok n => n = Z.of_nat need ∧ length bs = need - total
    | Err e => length bs < need - total ∧ recv_failed e b' self' w'
    end.
Proof.
  induction fuel as [|fuel IH]; intros self b total w Hwf Hsp Htot Hfuel Hin Hmax; cbn [recv_exact_loop].
  { rewrite bool_decide_eq_false_2 by lia. eexists _, b, self, w, []. unfold read_exact_result.
    rewrite bool_decide_eq_false_2 by lia. rewrite app_nil_r. split_and!; try done; cbn; lia. }
  case_bool_decide as Hlt; cycle 1.
  { eexists _, b, self, w, []. unfold read_exact_result. rewrite bool_decide_eq_false_2 by lia.
    rewrite app_nil_r. split_and!; try done; cbn; lia. }
  destruct (recv_spec self b w Hwf) as (res & b1 & self1 & w1 & Er & Hr).
  rewrite Er. cbn. destruct res as [n|e]; cbn; cycle 1.
  { destruct Hr as [-> Hi]. exists (Err e), b, self1, w1, []. rewrite app_nil_r.
    split_and!; try done; [cbn; lia|]. by exists self, b, w. }
  destruct Hr as (bs & -> & Hp & Hl & He & Hwf1 & Hf1 & Hs1).
  assert (0 < length bs) as Hpos.
  { destruct bs; [|cbn; lia]. destruct (He eq_refl) as [E|E]; [rewrite E in Hin; cbn in Hin|]; lia. }
  unfold usize_add. rewrite bool_decide_eq_true_2 by lia. rewrite <- Nat2Z.inj_add.
  rewrite Hp, length_app in Hin.
  destruct (IH self1 b1 (total + length bs) w1) as (res & b' & self' & w' & bs' & El & Hf' & Hp' & Hm);
    [done|lia|lia|lia|lia|done|].
  exists res, b', self', w', (bs ++ bs'). rewrite El, Hf', Hf1, Hp, Hp', !app_assoc, length_app.
  split_and!; try done. destruct res; destruct Hm; split; done || lia.
Qed.

(** [recv_exact], when at least as many bytes have arrived as the buffer has room for, returns
    after at most one receive per byte: it succeeds exactly when it has filled the buffer with the
    first bytes of the stream, and the rest of the stream is still to be received; otherwise a
    receive failed, and the bytes received before are in the buffer. *)
Theorem recv_exact_spec fuel self b w :
  buf_wf b → spare b ≤ fuel → spare b ≤ length (incoming w) → (Z.of_nat (spare b) ≤ usize_MAX)%Z →
  ∃ res b' self' w' bs,
    recv_exact into fuel self b w = Some (Done ((res, b'), self', w')) ∧
    filled b' = filled b ++ bs ∧ incoming w = bs ++ incoming w' ∧
    match res with
    | Ok n => n = Z.of_nat (spare b) ∧ length bs = spare b
    | Err e => length bs < spare b ∧ recv_failed e b' self' w'
    end.
Proof.
  intros Hwf Hfuel Hin Hmax. unfold recv_exact. destruct (spec_ptr b Hwf) as (p & _ & Hp).
  unfold as_uninit_slice. rewrite Hp, (spec_len b Hwf), (spec_capacity b Hwf). simpl_outcome.
  unfold usize_sub. rewrite bool_decide_eq_true_2 by lia.
  replace (length (filled b) + spare b - length (filled b)) with (spare b) by lia.
  destruct (recv_exact_loop_spec (spare b) fuel self b 0 w)
    as (res & b' & self' & w' & bs & E & Hm); [done|lia|lia|lia|lia|done|].
  rewrite Nat.sub_0_r in Hm. cbn. by exists res, b', self', w', bs.
Qed.
End receiving.

(** ** Sending *)

Section sending.
Context {F FF W T : Type} `{!RuntimeAttach F W, !IoBuf T, !IoBufMut T, !IoBufMutSpec T,
  !Await (Send FF (Slice T)) W} (into : F → FF) (sent : W → list byte).
Implicit Types (b : T) (w : W) (self : Socket F).

Class SendSpec : Prop := {
  attach_keeps_sent fd w : sent (runtime_attach fd w).2 = sent w;
  send_op_spec fd (s : Slice T) w res op w' :
    buf_wf s → await_op (Send_new into fd s) w = (res, op, w') →
    Send_into_inner op = s ∧
    match res with
    | Ok n => ∃ k, n = Z.of_nat k ∧ k ≤ length (filled s) ∧ (filled s ≠ [] → 0 < k) ∧
        sent w' = sent w ++ take k (filled s)
    | Err _ => sent w' = sent w
    end;
}.
Context `{!SendSpec}.

Lemma send_spec self (s : Slice T) w res s' self' w' :
  buf_wf s → send into self s w = ((res, s'), self', w') →
  s' = s ∧
  match res with
  | Ok n => ∃ k, n = Z.of_nat k ∧ k ≤ length (filled s) ∧ (filled s ≠ [] → 0 < k) ∧
      sent w' = sent w ++ take k (filled s)
  | Err _ => sent w' = sent w
  end.
Proof.
  intros Hwf. unfold send, buffered. destruct (socket_attach self w) as [[fd self1] w1] eqn:Ea.
  assert (sent w1 = sent w) as Hc.
  { revert Ea. unfold socket_attach, Attacher_attach. destruct (once _) as [f|]; [by intros [= <- <- <-]|].
    pose proof (attach_keeps_sent (socket_raw self) w) as Ha.
    destruct (runtime_attach _ w) as [[f|e] w2]; cbn in Ha; by intros [= <- <- <-]. }
  destruct fd as [fd|e]; [|by intros [= <- <- <- <-]].
  destruct (await_op _ w1) as [[r op] w2] eqn:Eo. apply send_op_spec in Eo as [Hop Hr]; [|done].
  intros [= <- <- <- <-]. cbn. split; [done|]. rewrite Hc in Hr. done.
Qed.

Lemma send_all_loop_spec fuel : ∀ self b (total : nat) w,
  buf_wf b → total ≤ length (filled b) → length (filled b) - total ≤ fuel →
  (Z.of_nat (length (filled b)) ≤ usize_MAX)%Z →
  ∃ res self' w' k,
    send_all_loop into fuel self b (Z.of_nat (length (filled b))) (Z.of_nat total) w =
      Some (Done ((res, b), self', w')) ∧
    sent w' = sent w ++ take k (drop total (filled b)) ∧
    match res with
    | Ok n => n = Z.of_nat (length (filled b)) ∧ k = length (filled b) - total
    | Err _ => k < length (filled b) - total
    end.
Proof.
  induction fuel as [|fuel IH]; intros self b total w Hwf Htot Hfuel Hmax; cbn [send_all_loop].
  { rewrite bool_decide_eq_false_2 by lia. eexists _, self, w, 0. rewrite take_0, app_nil_r.
    split; [done|]. split_and!; try done; lia. }
  case_bool_decide as Hlt; cycle 1.
  { eexists _, self, w, 0. rewrite take_0, app_nil_r. split; [done|]. split_and!; try done; lia. }
  rewrite Nat2Z.id. destruct (rest_slice b total Hwf) as (s & -> & Hs & Hf & Hin); [lia|lia|].
  destruct (send into self s w) as [[[res s'] self1] w1] eqn:Ew.
  apply send_spec in Ew as [-> Hr]; [|done]. unfold BufResult_into_inner. cbn. rewrite Hin.
  destruct res as [n|e]; cbn; cycle 1.
  { exists (Err e), self1, w1, 0. rewrite take_0, app_nil_r. split_and!; try done; lia. }
  destruct Hr as (k & -> & Hk & Hpr & Hc). rewrite Hf in *. rewrite length_drop in Hk.
  assert (0 < k) as Hk0. { apply Hpr. intros E%(f_equal length). rewrite length_drop in E. cbn in E. lia. }
  unfold usize_add. rewrite bool_decide_eq_true_2 by lia. rewrite <- Nat2Z.inj_add.
  destruct (IH self1 b (total + k) w1) as (res & self' & w' & k' & El & Hw & Hm); [done|lia|lia|done|].
  rewrite El. exists res, self', w', (k + k'). split; [done|].
  rewrite Hw, Hc, <- app_assoc, <- drop_drop, take_take_drop.
  split; [done|]. destruct res; lia.
Qed.

(** C26 [send_all], when every send makes progress, always returns after at most one send per byte and
    gives the buffer back: on success the contents of the buffer have been sent, once and in order;
    on an error a proper prefix of them. *)
Theorem send_all_spec fuel self b w :
  buf_wf b → length (filled b) ≤ fuel → (Z.of_nat (length (filled b)) ≤ usize_MAX)%Z →
  ∃ res self' w' k, send_all into fuel self b w = Some (Done ((res, b), self', w')) ∧
    sent w' = sent w ++ take k (filled b) ∧
    match res with
    | Ok n => n = Z.of_nat (length (filled b)) ∧ k = length (filled b)
    | Err _ => k < length (filled b)
    end.
Proof.
  intros Hwf Hfuel Hmax. unfold send_all. rewrite (spec_len b Hwf).
  destruct (send_all_loop_spec fuel self b 0 w) as (res & self' & w' & k & E & Hm); [done|lia|lia|done|].
  rewrite drop_0, Nat.sub_0_r in Hm. by exists res, self', w', k.
Qed.
End sending.

(** ** A concrete stream

    The state is what has arrived and what was sent; an operation moves at most two bytes. *)

Record Stream := mkStream { st_incoming : list byte; st_sent : list byte }.

#[global] Instance Stream_attach : RuntimeAttach Z Stream := {| runtime_attach fd w := (Ok fd, w) |}.

#[global] Instance Stream_recv : Await (Recv Z Vec_u8) Stream := {|
  await_op o w :=
    let b := recv_buffer _ o in
    let k := Nat.min 2 (spare b) in
    let bs := take k (st_incoming w) in
    (Ok (Z.of_nat (length bs)), mkRecv Vec_u8 (recv_fd _ o) (buf_poke (length (filled b)) bs b),
     mkStream (drop k (st_incoming w)) (st_sent w)) |}.

#[global] Instance Stream_send : Await (Send Z (Slice Vec_u8)) Stream := {|
  await_op o w :=
    let bs := take 2 (filled (send_buffer _ o)) in
    (Ok (Z.of_nat (length bs)), o, mkStream (st_incoming w) (st_sent w ++ bs)) |}.

#[global] Instance Stream_RecvSpec : RecvSpec (T := Vec_u8) id st_incoming.
Proof.
  split; [done|]. intros fd b w res op w' Hwf E. cbn [await_op Stream_recv Recv_new recv_buffer] in E.
  injection E as <- <- <-. eexists. split; [done|]. cbn [st_incoming]. rewrite take_drop.
  split_and!; [done|rewrite length_take; repeat case_match; lia| |done].
  destruct (st_incoming w) as [|x l]; [by left|]. intros E. right.
  destruct (spare b) as [|n]; [done|]. by destruct n.
Qed.

#[global] Instance Stream_SendSpec : SendSpec (T := Vec_u8) id st_sent.
Proof.
  split; [done|]. intros fd s w res op w' Hwf [= <- <- <-]. split; [done|].
  exists (length (take 2 (filled s))). cbn. rewrite length_take. split_and!; [done|lia| |].
  - intros Hne. destruct (filled s); [done|cbn; lia].
  - f_equal. destruct (decide (2 ≤ length (filled s))); [by rewrite Nat.min_l|].
    rewrite Nat.min_r, !take_ge by lia. done.
Qed.

Lemma recv_exact_spec_witness :
  ∃ res b' self' w' bs, recv_exact id 2 (mkSocket 3 Attacher_new) (vec_of [] 2) (mkStream abc []) =
      Some (Done ((res, b'), self', w')) ∧ filled b' = bs ∧ abc = bs ++ st_incoming w'.
Proof.
  destruct (recv_exact_spec id st_incoming 2 (mkSocket 3 Attacher_new) (vec_of [] 2) (mkStream abc [])
    (vec_of_wf _ _) ltac:(vm_compute; lia) ltac:(vm_compute; lia) ltac:(vm_compute; discriminate))
    as (res & b' & self' & w' & bs & H1 & H2 & H3 & _).
  exists res, b', self', w', bs. split; [exact H1|]. split; [exact H2|exact H3].
Defined.

Lemma send_all_spec_witness :
  ∃ res self' w' k, send_all id 3 (mkSocket 3 Attacher_new) (vec_of abc 0) (mkStream [] []) =
      Some (Done ((res, vec_of abc 0), self', w')) ∧ st_sent w' = take k abc.
Proof.
  destruct (send_all_spec id st_sent 3 (mkSocket 3 Attacher_new) (vec_of abc 0) (mkStream [] [])
    (vec_of_wf _ _) ltac:(vm_compute; lia) ltac:(vm_compute; discriminate))
    as (res & self' & w' & k & H1 & H2 & _).
  exists res, self', w', k. split; [exact H1|exact H2].
Defined.

(** [recv_exact] never notices the end of the stream: when the peer has closed the connection
    every receive returns 0 and the loop asks for the next one forever, however much fuel it is
    given, so that its [UnexpectedEof] is never returned. *)
Theorem recv_exact_hangs fuel a n out :
  recv_exact id fuel (mkSocket 3 a) (vec_of [] (S n)) (mkStream [] out) = None.
Proof.
  unfold recv_exact. replace (as_uninit_slice (vec_of [] (S n))) with (Done (4096%Z, S n)).
  2:{ unfold as_uninit_slice. cbn. by rewrite length_replicate. }
  revert a. induction fuel as [|fuel IH]; intros a; [done|].
  assert (∃ a', recv id (mkSocket 3 a) (vec_of [] (S n)) (mkStream [] out) =
    Done ((Ok 0%Z, vec_of [] (S n)), mkSocket 3 a', mkStream [] out)) as [a' E].
  { unfold recv, socket_attach, Attacher_attach. destruct a as [[fd|]]; cbn -[vec_of]; rewrite take_nil; by eexists. }
  cbn [recv_exact_loop]. rewrite E. cbn -[vec_of recv_exact_loop]. apply IH.
Qed.
