(* ===== verification/Sockets.v ===== *)
(** * TCP, UDP and Unix sockets

    [src/net/tcp.rs], [src/net/udp.rs] and [src/net/unix.rs]: the socket types
    over [Socket], with the drivers' operations for Unix and for Windows.  A
    method that uses the runtime returns the socket whose descriptor it may
    have attached. *)

From S2P Require Import Prelude Driver Buf UnixOps Iocp IocpOps Attacher File Net.
From stdpp Require Import base numbers list.

(** ** The operations of the platforms *)

Section unix.
Context {F FF W : Type} `{!RuntimeAttach F W, !Socket2 W} (into : F → FF) (nonblocking_target : bool).

Definition unix_on_connect (op : UnixOps.Connect FF) (res : io_result Z) (w : W) : io_result unit * W :=
  (UnixOps.on_connect op res, w).
(** [src/src/net/socket.rs:85-91] with the operation of Unix *)
Definition unix_connect_async `{!Await (UnixOps.Connect FF) W} (self : Socket F) (addr : SockAddr) (w : W) :
    io_result unit * Socket F * W :=
  connect_async (UnixOps.Connect_new into) unix_on_connect self addr w.

(** [src/src/net/socket.rs:96-97] [ptr] is where the storage for the address lives *)
Definition unix_accept_op (ptr : Z) (fd : F) (self : Socket F) (w : W) : io_result (UnixOps.Accept FF) * W :=
  (Ok (UnixOps.Accept_new into ptr fd), w).
(** [src/src/net/socket.rs:93-111] on Unix *)
Definition unix_accept `{!Await (UnixOps.Accept FF) W} (ptr : Z) (self : Socket F) (w : W) :
    io_result (Socket F * SockAddr) * Socket F * W :=
  accept (UnixOps.on_accept (if nonblocking_target then Some s2_set_nonblocking else None) s2_drop)
    (unix_accept_op ptr) self w.
End unix.

Section windows.
Context {W : Type} `{!RuntimeAttach Fd W, !Socket2 W, !Win32 W}.

(** [src/src/net/socket.rs:85-91] with the operation of IOCP *)
Definition windows_connect_async `{!Await Connect W} (self : Socket Fd) (addr : SockAddr) (w : W) :
    io_result unit * Socket Fd * W :=
  connect_async Connect_new on_connect self addr w.

(** [src/src/net/socket.rs:98-107] *)
Definition windows_accept_op (ptr : Z) (fd : Fd) (self : Socket Fd) (w : W) : io_result Accept * W :=
  match Socket_local_addr self w with
  | (Err e, w) => (Err e, w)
  | (Ok local_addr, w) =>
      match s2_type (socket_raw self) w with
      | (Err e, w) => (Err e, w)
      | (Ok ty, w) =>
          match s2_protocol (socket_raw self) w with
          | (Err e, w) => (Err e, w)
          | (Ok protocol, w) => (Ok (Accept_with_socket_opts ptr fd (addr_domain local_addr) ty protocol), w)
          end
      end
  end.
(** [src/src/net/socket.rs:93-111] on Windows *)
Definition windows_accept `{!Await Accept W} (ptr : Z) (self : Socket Fd) (w : W) :
    io_result (Socket Fd * SockAddr) * Socket Fd * W :=
  accept on_accept (windows_accept_op ptr) self w.
End windows.

(** ** The types *)

Section types.
Context {F FF W : Type} `{!RuntimeAttach F W, !Socket2 W} (into : F → FF) (nonblocking_target : bool).

(** [src/src/net/tcp.rs:48-50] *)
Record TcpListener := mkTcpListener { tcp_listener_inner : Socket F }.
(** [src/src/net/tcp.rs:141-143] *)
Record TcpStream := mkTcpStream { tcp_stream_inner : Socket F }.
(** [src/src/net/udp.rs:98-100] *)
Record UdpSocket := mkUdpSocket { udp_inner : Socket F }.
(** [src/src/net/unix.rs:43-45] *)
Record UnixListener := mkUnixListener { unix_listener_inner : Socket F }.
(** [src/src/net/unix.rs:114-116] *)
Record UnixStream := mkUnixStream { unix_stream_inner : Socket F }.

(** The result of a method of the inner socket, wrapped again. *)
Definition wrap {A S} (mk : Socket F → S) (r : A * Socket F * W) : A * S * W :=
  let '(a, s, w) := r in (a, mk s, w).
Definition wrap_outcome {A S} (mk : Socket F → S) (r : outcome (A * Socket F * W)) : outcome (A * S * W) :=
  r ← r; Done (wrap mk r).
Definition wrap_result {S} (mk : Socket F → S) (r : io_result (Socket F) * W) : io_result S * W :=
  let '(r, w) := r in (result_map mk r, w).
(** An accepted socket, as a stream. *)
Definition wrap_accept {S R} (mk : Socket F → S) (mk_stream : Socket F → R)
    (r : io_result (Socket F * SockAddr) * Socket F * W) : io_result (R * SockAddr) * S * W :=
  let '(r, s, w) := r in (result_map (λ '(socket, addr), (mk_stream socket, addr)) r, mk s, w).

(** Bind and listen. *)
Definition bind_listen (ty : SockType) (protocol : option Protocol) (backlog : Z) (addr : SockAddr) (w : W) :
    io_result (Socket F) * W :=
  match Socket_bind nonblocking_target addr ty protocol w with
  | (Err e, w) => (Err e, w)
  | (Ok socket, w) => or_drop socket (Socket_listen socket backlog w)
  end.

(** *** TCP listeners *)

(** [src/src/net/tcp.rs:60-66] *)
Definition TcpListener_bind `{!ToSockAddrs X W} (addr : X) (w : W) : io_result TcpListener * W :=
  each_addr addr (λ addr w, wrap_result mkTcpListener (bind_listen STREAM (Some TCP) 128 addr w)) w.
(** [src/src/net/tcp.rs:71-75] *)
Definition TcpListener_try_clone (self : TcpListener) (w : W) : io_result TcpListener * W :=
  wrap_result mkTcpListener (Socket_try_clone (tcp_listener_inner self) w).
(** [src/src/net/tcp.rs:82-87] *)
Definition TcpListener_accept (accept : Socket F → W → io_result (Socket F * SockAddr) * Socket F * W)
    (self : TcpListener) (w : W) : io_result (TcpStream * SockAddr) * TcpListener * W :=
  wrap_accept mkTcpListener mkTcpStream (accept (tcp_listener_inner self) w).
(** [src/src/net/tcp.rs:113-115] *)
Definition TcpListener_local_addr (self : TcpListener) (w : W) : io_result SockAddr * W :=
  Socket_local_addr (tcp_listener_inner self) w.

(** *** TCP streams *)

Section connect.
(** [connect_async] of the platform, [cfg!(target_os = "windows")], and the address families. *)
Context (connect_async : Socket F → SockAddr → W → io_result unit * Socket F * W) (windows : bool).
Context (is_ipv4 is_ipv6 : SockAddr → bool) (unspecified_v4 unspecified_v6 : SockAddr).

(** [src/src/net/tcp.rs:152-166] the socket that will connect; on Windows it is bound first *)
Definition connecting_socket (addr : SockAddr) (w : W) : io_result (Socket F) * W :=
  if windows then
    if is_ipv4 addr then Socket_bind nonblocking_target unspecified_v4 STREAM (Some TCP) w
    else if is_ipv6 addr then Socket_bind nonblocking_target unspecified_v6 STREAM (Some TCP) w
    else (Err (Custom AddrNotAvailable), w)
  else Socket_new nonblocking_target (addr_domain addr) STREAM (Some TCP) w.

(** [src/src/net/tcp.rs:147-171] *)
Definition TcpStream_connect `{!ToSockAddrs X W} (addr : X) (w : W) : io_result TcpStream * W :=
  each_addr_async addr (λ addr w,
    match connecting_socket addr w with
    | (Err e, w) => (Err e, w)
    | (Ok socket, w) =>
        let '(r, socket, w) := connect_async socket addr w in
        wrap_result mkTcpStream (or_drop socket (r, w))
    end) w.
End connect.

(** [src/src/net/tcp.rs:176-180] *)
Definition TcpStream_try_clone (self : TcpStream) (w : W) : io_result TcpStream * W :=
  wrap_result mkTcpStream (Socket_try_clone (tcp_stream_inner self) w).
(** [src/src/net/tcp.rs:183-185] *)
Definition TcpStream_peer_addr (self : TcpStream) (w : W) : io_result SockAddr * W :=
  Socket_peer_addr (tcp_stream_inner self) w.
(** [src/src/net/tcp.rs:188-190] *)
Definition TcpStream_local_addr (self : TcpStream) (w : W) : io_result SockAddr * W :=
  Socket_local_addr (tcp_stream_inner self) w.
(** [src/src/net/tcp.rs:197-199] *)
Definition TcpStream_shutdown (self : TcpStream) (how : Z) (w : W) : io_result unit * W :=
  Socket_shutdown (tcp_stream_inner self) how w.
(** [src/src/net/tcp.rs:203-206] *)
Definition TcpStream_recv {T} `{!IoBuf T, !IoBufMut T, !Await (UnixOps.Recv FF T) W} (self : TcpStream) (buffer : T) (w : W) :
    outcome (BufResult Z T * TcpStream * W) :=
  wrap_outcome mkTcpStream (recv into (tcp_stream_inner self) buffer w).
(** [src/src/net/tcp.rs:209-212] *)
Definition TcpStream_recv_exact {T} `{!IoBuf T, !IoBufMut T, !Await (UnixOps.Recv FF T) W} (fuel : nat) (self : TcpStream)
    (buffer : T) (w : W) : option (outcome (BufResult Z T * TcpStream * W)) :=
  wrap_outcome mkTcpStream <$> recv_exact into fuel (tcp_stream_inner self) buffer w.
(** [src/src/net/tcp.rs:216-222] *)
Definition TcpStream_recv_vectored {T} `{!IoBuf T, !IoBufMut T, !Await (UnixOps.RecvVectoredImpl FF (VectoredBufWrapper T)) W}
    (self : TcpStream) (buffer : VectoredBufWrapper T) (w : W) :
    outcome (BufResult Z (VectoredBufWrapper T) * TcpStream * W) :=
  wrap_outcome mkTcpStream (recv_vectored into (tcp_stream_inner self) buffer w).
(** [src/src/net/tcp.rs:226-229] *)
Definition TcpStream_send {T} `{!IoBuf T, !Await (UnixOps.Send FF T) W} (self : TcpStream) (buffer : T) (w : W) :
    BufResult Z T * TcpStream * W :=
  wrap mkTcpStream (send into (tcp_stream_inner self) buffer w).
(** [src/src/net/tcp.rs:232-235] *)
Definition TcpStream_send_all {T} `{!IoBuf T, !Await (UnixOps.Send FF (Slice T)) W} (fuel : nat) (self : TcpStream)
    (buffer : T) (w : W) : option (outcome (BufResult Z T * TcpStream * W)) :=
  wrap_outcome mkTcpStream <$> send_all into fuel (tcp_stream_inner self) buffer w.
(** [src/src/net/tcp.rs:239-245] *)
Definition TcpStream_send_vectored {T} `{!IoBuf T, !Await (UnixOps.SendVectoredImpl FF (VectoredBufWrapper T)) W}
    (self : TcpStream) (buffer : VectoredBufWrapper T) (w : W) :
    BufResult Z (VectoredBufWrapper T) * TcpStream * W :=
  wrap mkTcpStream (send_vectored into (tcp_stream_inner self) buffer w).

(** *** UDP *)

(** [src/src/net/udp.rs:104-110] *)
Definition UdpSocket_bind `{!ToSockAddrs X W} (addr : X) (w : W) : io_result UdpSocket * W :=
  each_addr addr (λ addr w, wrap_result mkUdpSocket (Socket_bind nonblocking_target addr DGRAM (Some UDP) w)) w.
(** [src/src/net/udp.rs:119-121] *)
Definition UdpSocket_connect `{!ToSockAddrs X W} (self : UdpSocket) (addr : X) (w : W) : io_result unit * W :=
  each_addr addr (λ addr w, Socket_connect (udp_inner self) addr w) w.
(** [src/src/net/udp.rs:126-130] *)
Definition UdpSocket_try_clone (self : UdpSocket) (w : W) : io_result UdpSocket * W :=
  wrap_result mkUdpSocket (Socket_try_clone (udp_inner self) w).
(** [src/src/net/udp.rs:155-157] *)
Definition UdpSocket_peer_addr (self : UdpSocket) (w : W) : io_result SockAddr * W :=
  Socket_peer_addr (udp_inner self) w.
(** [src/src/net/udp.rs:175-177] *)
Definition UdpSocket_local_addr (self : UdpSocket) (w : W) : io_result SockAddr * W :=
  Socket_local_addr (udp_inner self) w.
(** [src/src/net/udp.rs:181-184] *)
Definition UdpSocket_recv {T} `{!IoBuf T, !IoBufMut T, !Await (UnixOps.Recv FF T) W} (self : UdpSocket) (buffer : T) (w : W) :
    outcome (BufResult Z T * UdpSocket * W) :=
  wrap_outcome mkUdpSocket (recv into (udp_inner self) buffer w).
(** [src/src/net/udp.rs:188-194] *)
Definition UdpSocket_recv_vectored {T} `{!IoBuf T, !IoBufMut T, !Await (UnixOps.RecvVectoredImpl FF (VectoredBufWrapper T)) W}
    (self : UdpSocket) (buffer : VectoredBufWrapper T) (w : W) :
    outcome (BufResult Z (VectoredBufWrapper T) * UdpSocket * W) :=
  wrap_outcome mkUdpSocket (recv_vectored into (udp_inner self) buffer w).
(** [src/src/net/udp.rs:198-201] *)
Definition UdpSocket_send {T} `{!IoBuf T, !Await (UnixOps.Send FF T) W} (self : UdpSocket) (buffer : T) (w : W) :
    BufResult Z T * UdpSocket * W :=
  wrap mkUdpSocket (send into (udp_inner self) buffer w).
(** [src/src/net/udp.rs:205-211] *)
Definition UdpSocket_send_vectored {T} `{!IoBuf T, !Await (UnixOps.SendVectoredImpl FF (VectoredBufWrapper T)) W}
    (self : UdpSocket) (buffer : VectoredBufWrapper T) (w : W) :
    BufResult Z (VectoredBufWrapper T) * UdpSocket * W :=
  wrap mkUdpSocket (send_vectored into (udp_inner self) buffer w).

Section datagrams.
(** The driver's [RecvFrom] and [SendTo]. *)
Context {T RF ST : Type} `{!IoBuf T, !IoBufMut T, !Await RF W, !Await ST W}.
Context (RecvFrom_new : F → T → RF) (RecvFrom_into_inner : RF → T * SockAddr)
  (SendTo_new : F → SockAddr → T → ST) (SendTo_into_inner : ST → T).

(** [src/src/net/udp.rs:215-221] *)
Definition UdpSocket_recv_from (self : UdpSocket) (buffer : T) (w : W) :
    outcome (BufResult (Z * SockAddr) T * UdpSocket * W) :=
  wrap_outcome mkUdpSocket (recv_from RecvFrom_new RecvFrom_into_inner (udp_inner self) buffer w).
(** [src/src/net/udp.rs:225-231] *)
Definition UdpSocket_recv_from_vectored `{!Await (UnixOps.RecvMsgImpl FF (VectoredBufWrapper T)) W} (ptr : Z)
    (self : UdpSocket) (buffer : VectoredBufWrapper T) (w : W) :
    outcome (BufResult (Z * SockAddr) (VectoredBufWrapper T) * UdpSocket * W) :=
  wrap_outcome mkUdpSocket (recv_from_vectored into ptr (udp_inner self) buffer w).
(** [src/src/net/udp.rs:235-245] the socket that an attempt leaves is used by the next *)
Definition UdpSocket_send_to `{!ToSockAddrs X W} (self : UdpSocket) (buffer : T) (addr : X) (w : W) :
    BufResult Z T * (UdpSocket * W) :=
  each_addr_async_buf addr buffer
    (λ addr buffer '(self, w),
       let '(r, self, w) := wrap mkUdpSocket (send_to SendTo_new SendTo_into_inner (udp_inner self) buffer addr w) in
       (r, (self, w))) (self, w).
(** [src/src/net/udp.rs:249-259] *)
Definition UdpSocket_send_to_vectored `{!Await (UnixOps.SendMsgImpl FF (VectoredBufWrapper T)) W,
    !ToSockAddrs X W} (self : UdpSocket) (buffer : VectoredBufWrapper T) (addr : X) (w : W) :
    BufResult Z (VectoredBufWrapper T) * (UdpSocket * W) :=
  each_addr_async_buf addr buffer
    (λ addr buffer '(self, w),
       let '(r, self, w) := wrap mkUdpSocket (send_to_vectored into (udp_inner self) buffer addr w) in
       (r, (self, w))) (self, w).
End datagrams.

(** *** Unix listeners *)

Section unix_types.
(** Paths, and [SockAddr::unix]. *)
Context {P : Type} (SockAddr_unix : P → io_result SockAddr).

(** [src/src/net/unix.rs:58-64] *)
Definition UnixListener_bind_addr `{!ToSockAddrs X W} (addr : X) (w : W) : io_result UnixListener * W :=
  each_addr addr (λ addr w, wrap_result mkUnixListener (bind_listen STREAM None 1024 addr w)) w.
(** [src/src/net/unix.rs:51-53] *)
Definition UnixListener_bind (path : P) (w : W) : io_result UnixListener * W :=
  match SockAddr_unix path with
  | Err e => (Err e, w)
  | Ok addr => UnixListener_bind_addr addr w
  end.
(** [src/src/net/unix.rs:69-73] *)
Definition UnixListener_try_clone (self : UnixListener) (w : W) : io_result UnixListener * W :=
  wrap_result mkUnixListener (Socket_try_clone (unix_listener_inner self) w).
(** [src/src/net/unix.rs:80-85] *)
Definition UnixListener_accept (accept : Socket F → W → io_result (Socket F * SockAddr) * Socket F * W)
    (self : UnixListener) (w : W) : io_result (UnixStream * SockAddr) * UnixListener * W :=
  wrap_accept mkUnixListener mkUnixStream (accept (unix_listener_inner self) w).
(** [src/src/net/unix.rs:88-90] *)
Definition UnixListener_local_addr (self : UnixListener) (w : W) : io_result SockAddr * W :=
  Socket_local_addr (unix_listener_inner self) w.

(** *** Unix streams *)

(** [src/src/net/unix.rs:129-136] *)
Definition UnixStream_connect_addr `{!ToSockAddrs X W} (addr : X) (w : W) : io_result UnixStream * W :=
  each_addr addr (λ addr w,
    match Socket_new nonblocking_target AF_UNIX STREAM None w with
    | (Err e, w) => (Err e, w)
    | (Ok socket, w) => wrap_result mkUnixStream (or_drop socket (Socket_connect socket addr w))
    end) w.
(** [src/src/net/unix.rs:122-124] *)
Definition UnixStream_connect (path : P) (w : W) : io_result UnixStream * W :=
  match SockAddr_unix path with
  | Err e => (Err e, w)
  | Ok addr => UnixStream_connect_addr addr w
  end.
End unix_types.

(** [src/src/net/unix.rs:141-145] *)
Definition UnixStream_try_clone (self : UnixStream) (w : W) : io_result UnixStream * W :=
  wrap_result mkUnixStream (Socket_try_clone (unix_stream_inner self) w).
(** [src/src/net/unix.rs:148-150] *)
Definition UnixStream_peer_addr (self : UnixStream) (w : W) : io_result SockAddr * W :=
  Socket_peer_addr (unix_stream_inner self) w.
(** [src/src/net/unix.rs:153-155] *)
Definition UnixStream_local_addr (self : UnixStream) (w : W) : io_result SockAddr * W :=
  Socket_local_addr (unix_stream_inner self) w.
(** [src/src/net/unix.rs:162-164] *)
Definition UnixStream_shutdown (self : UnixStream) (how : Z) (w : W) : io_result unit * W :=
  Socket_shutdown (unix_stream_inner self) how w.
(** [src/src/net/unix.rs:168-171] *)
Definition UnixStream_recv {T} `{!IoBuf T, !IoBufMut T, !Await (UnixOps.Recv FF T) W} (self : UnixStream) (buffer : T) (w : W) :
    outcome (BufResult Z T * UnixStream * W) :=
  wrap_outcome mkUnixStream (recv into (unix_stream_inner self) buffer w).
(** [src/src/net/unix.rs:174-177] *)
Definition UnixStream_recv_exact {T} `{!IoBuf T, !IoBufMut T, !Await (UnixOps.Recv FF T) W} (fuel : nat) (self : UnixStream)
    (buffer : T) (w : W) : option (outcome (BufResult Z T * UnixStream * W)) :=
  wrap_outcome mkUnixStream <$> recv_exact into fuel (unix_stream_inner self) buffer w.
(** [src/src/net/unix.rs:181-187] *)
Definition UnixStream_recv_vectored {T} `{!IoBuf T, !IoBufMut T, !Await (UnixOps.RecvVectoredImpl FF (VectoredBufWrapper T)) W}
    (self : UnixStream) (buffer : VectoredBufWrapper T) (w : W) :
    outcome (BufResult Z (VectoredBufWrapper T) * UnixStream * W) :=
  wrap_outcome mkUnixStream (recv_vectored into (unix_stream_inner self) buffer w).
(** [src/src/net/unix.rs:191-194] *)
Definition UnixStream_send {T} `{!IoBuf T, !Await (UnixOps.Send FF T) W} (self : UnixStream) (buffer : T) (w : W) :
    BufResult Z T * UnixStream * W :=
  wrap mkUnixStream (send into (unix_stream_inner self) buffer w).
(** [src/src/net/unix.rs:197-200] *)
Definition UnixStream_send_all {T} `{!IoBuf T, !Await (UnixOps.Send FF (Slice T)) W} (fuel : nat) (self : UnixStream)
    (buffer : T) (w : W) : option (outcome (BufResult Z T * UnixStream * W)) :=
  wrap_outcome mkUnixStream <$> send_all into fuel (unix_stream_inner self) buffer w.
(** [src/src/net/unix.rs:204-210] *)
Definition UnixStream_send_vectored {T} `{!IoBuf T, !Await (UnixOps.SendVectoredImpl FF (VectoredBufWrapper T)) W}
    (self : UnixStream) (buffer : VectoredBufWrapper T) (w : W) :
    BufResult Z (VectoredBufWrapper T) * UnixStream * W :=
  wrap mkUnixStream (send_vectored into (unix_stream_inner self) buffer w).
End types.
Arguments TcpListener : clear implicits.
Arguments TcpStream : clear implicits.
Arguments UdpSocket : clear implicits.
Arguments UnixListener : clear implicits.
Arguments UnixStream : clear implicits.
