(* ===== verification/SocketsSpec.v ===== *)
(** * Properties of TCP, UDP and Unix sockets

    Binding and connecting leak no socket, whatever fails on the way and
    however many addresses are tried; a clone made of a socket or file that was
    in use goes on using the descriptor of the original. *)

From S2P Require Import Prelude Driver Buf UnixOps Iocp IocpOps Attacher File Net NetSpec Sockets.
From stdpp Require Import base numbers list gmap.

(** ** Ownership of sockets *)

(** What the socket2 crate promises about descriptors. *)
Class SocketsSpec (W : Type) `{!Socket2 W} := {
  open_sockets : W → gset Z;
  s2_new_spec d ty p w : match s2_new d ty p w with
    | (Ok s, w') => (s ∉ open_sockets w) ∧ open_sockets w' = {[s]} ∪ open_sockets w
    | (Err _, w') => open_sockets w' = open_sockets w
    end;
  s2_set_nonblocking_spec s w : open_sockets (s2_set_nonblocking s w).2 = open_sockets w;
  s2_bind_spec s a w : open_sockets (s2_bind s a w).2 = open_sockets w;
  s2_listen_spec s n w : open_sockets (s2_listen s n w).2 = open_sockets w;
  s2_connect_spec s a w : open_sockets (s2_connect s a w).2 = open_sockets w;
  s2_try_clone_spec s w : match s2_try_clone s w with
    | (Ok c, w') => (c ∉ open_sockets w) ∧ open_sockets w' = {[c]} ∪ open_sockets w
    | (Err _, w') => open_sockets w' = open_sockets w
    end;
  s2_drop_spec s w : open_sockets (s2_drop s w) = open_sockets w ∖ {[s]};
}.

Section ownership.
Context {F FF W : Type} `{!RuntimeAttach F W, !Socket2 W, !SocketsSpec W} (nonblocking_target : bool).
Implicit Types (w : W) (s : Socket F).

(** From [w] to [w'] exactly the socket of the result was opened, if there is one. *)
Definition owns_socket {A} (inner : A → Socket F) (r : io_result A * W) w : Prop :=
  match r with
  | (Ok a, w') => (socket_raw (inner a) ∉ open_sockets w) ∧
      open_sockets w' = {[socket_raw (inner a)]} ∪ open_sockets w
  | (Err _, w') => open_sockets w' = open_sockets w
  end.

(** A call on a socket that was just opened: when it fails the socket is closed again. *)
Lemma or_drop_owns s w w1 (r : io_result unit * W) :
  socket_raw s ∉ open_sockets w → open_sockets w1 = {[socket_raw s]} ∪ open_sockets w →
  open_sockets r.2 = open_sockets w1 → owns_socket id (or_drop s r) w.
Proof.
  intros Hn Ho Hr. destruct r as [[[]|e] w2]; cbn in *; [split; [done|congruence]|].
  rewrite s2_drop_spec, Hr, Ho. set_solver.
Qed.

Lemma wrap_owns {A} (mk : Socket F → A) inner (r : io_result (Socket F) * W) w :
  (∀ s, inner (mk s) = s) → owns_socket id r w → owns_socket inner (wrap_result mk r) w.
Proof. intros Hi. destruct r as [[s|e] w1]; cbn; [by rewrite Hi|done]. Qed.

Lemma Socket_new_owns d ty p w : owns_socket id (Socket_new (F := F) nonblocking_target d ty p w) w.
Proof.
  unfold Socket_new. pose proof (s2_new_spec d ty p w) as Hs.
  destruct (s2_new d ty p w) as [[s|e] w1]; [|done]. destruct Hs as [Hn Ho].
  destruct nonblocking_target; [|done]. eapply or_drop_owns; [done..|apply s2_set_nonblocking_spec].
Qed.

(** A socket is made, then a call on it fails or not. *)
Lemma then_or_drop_owns (r : io_result (Socket F) * W) (f : Socket F → W → io_result unit * W) w :
  owns_socket id r w → (∀ s w, open_sockets (f s w).2 = open_sockets w) →
  owns_socket id (match r with (Err e, w) => (Err e, w) | (Ok s, w) => or_drop s (f s w) end) w.
Proof. intros Hr Hf. destruct r as [[s|e] w1]; [|done]. destruct Hr. by eapply or_drop_owns. Qed.

Lemma Socket_bind_owns a ty p w : owns_socket id (Socket_bind (F := F) nonblocking_target a ty p w) w.
Proof.
  unfold Socket_bind. apply (then_or_drop_owns _ (λ s w, s2_bind (socket_raw s) a w)); [apply Socket_new_owns|].
  intros. apply s2_bind_spec.
Qed.

Lemma bind_listen_owns ty p n a w : owns_socket id (bind_listen (F := F) nonblocking_target ty p n a w) w.
Proof.
  unfold bind_listen. apply (then_or_drop_owns _ (λ s w, Socket_listen s n w)); [apply Socket_bind_owns|].
  intros. apply s2_listen_spec.
Qed.

(** Trying addresses opens at most the socket of the attempt that succeeds. *)
Lemma each_addr_loop_owns {A B} (inner : A → Socket F) (f : B → W → io_result A * W) addrs : ∀ e w,
  (∀ a w, owns_socket inner (f a w) w) → owns_socket inner (each_addr_loop f addrs e w) w.
Proof.
  induction addrs as [|a addrs IH]; intros e w Hf; cbn; [done|].
  pose proof (Hf a w) as Ha. destruct (f a w) as [[v|e'] w1]; [done|]. cbn in Ha.
  pose proof (IH (Some e') w1 Hf) as Hl. unfold owns_socket in *.
  destruct (each_addr_loop f addrs (Some e') w1) as [[v|e2] w2]; by rewrite Ha in Hl.
Qed.

Context {X : Type} `{!ToSockAddrs X W}.
(** The platform's [Connect] operation.  Resolving opens no socket that it keeps, and neither does
    attaching a descriptor to the driver, waiting for a connection or finishing one. *)
Context {Conn : Type} `{!Await Conn W} (Connect_new : F → SockAddr → Conn)
  (on_connect : Conn → io_result Z → W → io_result unit * W).
Context (resolve_keeps : ∀ (x : X) w, open_sockets (to_sock_addrs x w).2 = open_sockets w)
  (attach_keeps : ∀ fd w, open_sockets (runtime_attach (F := F) fd w).2 = open_sockets w)
  (await_keeps : ∀ (op : Conn) w, open_sockets (await_op op w).2 = open_sockets w)
  (on_connect_keeps : ∀ op res w, open_sockets (on_connect op res w).2 = open_sockets w).
Notation connect_async := (connect_async Connect_new on_connect).

Lemma connect_keeps s a w :
  let '(_, s', w') := connect_async s a w in socket_raw s' = socket_raw s ∧ open_sockets w' = open_sockets w.
Proof.
  assert (let '(_, s', w') := socket_attach s w in socket_raw s' = socket_raw s ∧ open_sockets w' = open_sockets w) as Ha.
  { unfold socket_attach, Attacher_attach. destruct (once (socket_attacher s)); [done|].
    pose proof (attach_keeps (socket_raw s) w) as Hk. by destruct (runtime_attach (socket_raw s) w) as [[fd|e] w1]. }
  unfold Net.connect_async. destruct (socket_attach s w) as [[[fd|e] s1] w1]; [|done]. destruct Ha as [Hs Ho].
  pose proof (await_keeps (Connect_new fd a) w1) as Hw. destruct (await_op (Connect_new fd a) w1) as [[res op] w2].
  pose proof (on_connect_keeps op res w2) as Hc. destruct (on_connect op res w2) as [r w3]. cbn in *. split; congruence.
Qed.

Lemma each_addr_owns {A} (inner : A → Socket F) (f : SockAddr → W → io_result A * W) (x : X) w :
  (∀ a w, owns_socket inner (f a w) w) → owns_socket inner (each_addr x f w) w.
Proof.
  intros Hf. unfold each_addr. pose proof (resolve_keeps x w) as Hr.
  destruct (to_sock_addrs x w) as [[addrs|e] w1]; cbn in Hr; [|done].
  pose proof (each_addr_loop_owns inner f addrs None w1 Hf) as Hl. unfold owns_socket in *.
  destruct (each_addr_loop f addrs None w1) as [[v|e] w2]; by rewrite Hr in Hl.
Qed.

Lemma connecting_socket_owns windows v4 v6 u4 u6 a w :
  owns_socket id (connecting_socket (F := F) nonblocking_target windows v4 v6 u4 u6 a w) w.
Proof.
  unfold connecting_socket. destruct windows; [|apply Socket_new_owns].
  destruct (v4 a); [apply Socket_bind_owns|]. by destruct (v6 a); [apply Socket_bind_owns|].
Qed.

Lemma connect_attempt_owns windows v4 v6 u4 u6 a w :
  owns_socket tcp_stream_inner
    (match connecting_socket nonblocking_target windows v4 v6 u4 u6 a w with
     | (Err e, w) => (Err e, w)
     | (Ok socket, w) =>
         let '(r, socket, w) := connect_async socket a w in wrap_result mkTcpStream (or_drop socket (r, w))
     end) w.
Proof.
  pose proof (connecting_socket_owns windows v4 v6 u4 u6 a w) as Hs.
  destruct (connecting_socket _ _ _ _ _ _ a w) as [[s|e] w1]; [|done]. destruct Hs as [Hn Ho].
  pose proof (connect_keeps s a w1) as Hc. destruct (connect_async s a w1) as [[r s'] w2].
  destruct Hc as [Hraw Hc]. apply wrap_owns; [done|]. by eapply or_drop_owns; rewrite ?Hraw.
Qed.

(** C16 Binding a listener or a datagram socket and connecting a stream leak nothing: whatever fails,
    the call on the socket, a later one or a whole attempt for an address, when the function
    returns exactly one socket is open that was not before, the one it returns, and none if it
    returns an error.  This holds on Unix and for the way Windows binds before it connects. *)
Theorem sockets_not_leaked windows v4 v6 u4 u6 (x : X) w :
  owns_socket tcp_listener_inner (TcpListener_bind nonblocking_target x w) w ∧
  owns_socket unix_listener_inner (UnixListener_bind_addr nonblocking_target x w) w ∧
  owns_socket udp_inner (UdpSocket_bind nonblocking_target x w) w ∧
  owns_socket unix_stream_inner (UnixStream_connect_addr nonblocking_target x w) w ∧
  owns_socket tcp_stream_inner
    (TcpStream_connect nonblocking_target connect_async windows v4 v6 u4 u6 x w) w.
Proof.
  split_and!; apply each_addr_owns; intros a w1.
  - apply wrap_owns; [done|apply bind_listen_owns].
  - apply wrap_owns; [done|apply bind_listen_owns].
  - apply wrap_owns; [done|apply Socket_bind_owns].
  - pose proof (then_or_drop_owns _ (λ s w, Socket_connect s a w) w1
      (Socket_new_owns AF_UNIX STREAM None w1)) as Hc.
    destruct (Socket_new _ _ _ _ w1) as [[s|e] w2]; [apply wrap_owns; [done|apply Hc]|apply Hc];
      intros; apply s2_connect_spec.
  - apply connect_attempt_owns.
Qed.
End ownership.

(** ** Clones *)

Section clones.
Context {F W : Type} `{!RuntimeAttach F W, !Socket2 W, !SocketsSpec W}.
(** The platform's [Connect] operation. *)
Context {Conn : Type} `{!Await Conn W} (Connect_new : F → SockAddr → Conn)
  (on_connect : Conn → io_result Z → W → io_result unit * W).
(** Attaching makes a descriptor of the driver from a raw one. *)
Context (raw : F → Z) (attach_raw : ∀ s w fd w', runtime_attach s w = (Ok fd, w') → raw fd = s).

(** C39 A clone of an open socket that was in use has an open descriptor of its own, but an operation on
    it that starts by attaching it does not use that one: attaching the clone gives the attached
    descriptor of the original, which is closed once the original has been dropped, while the
    clone's own stays open.  So [connect_async] of the clone is given to the driver for the closed
    descriptor. *)
Theorem clone_uses_closed_descriptor (self self' c : Socket F) fd w w1 w2 :
  once (socket_attacher self) = None → socket_raw self ∈ open_sockets w1 →
  socket_attach self w = (Ok fd, self', w1) → Socket_try_clone self' w1 = (Ok c, w2) →
  let w3 := s2_drop (socket_raw self') w2 in
  socket_raw c ≠ socket_raw self ∧ socket_raw c ∈ open_sockets w3 ∧
  socket_attach c w3 = (Ok fd, c, w3) ∧ raw fd = socket_raw self ∧ (raw fd ∉ open_sockets w3) ∧
  ∀ a, connect_async Connect_new on_connect c a w3 =
    let '(res, op, w4) := await_op (Connect_new fd a) w3 in let '(r, w5) := on_connect op res w4 in (r, c, w5).
Proof.
  intros Ho Hin Ha Hc w3. revert Ha. unfold socket_attach, Attacher_attach. rewrite Ho.
  destruct (runtime_attach (socket_raw self) w) as [[fd1|e] w4] eqn:Er; [|done]. intros [= -> <- <-].
  revert Hc. unfold Socket_try_clone. cbn. pose proof (s2_try_clone_spec (socket_raw self) w4) as Hs.
  destruct (s2_try_clone _ _) as [[s|e] w5]; [|done]. destruct Hs as [Hn Hop]. intros [= <- ->]. cbn. apply attach_raw in Er.
  unfold w3. cbn. rewrite s2_drop_spec, Hop, Er. assert (s ≠ socket_raw self) by (intros ->; done).
  split_and!; [done|set_solver|done|done|set_solver|done].
Qed.
End clones.

(** ** A concrete system

    Descriptors are numbered; an address of length 0 cannot be bound or connected to. *)

Record Ports := mkPorts { ports_open : gset Z }.

Definition ports_fresh (w : Ports) : io_result Z * Ports :=
  let s := Z.of_nat (3 + size (ports_open w)) in
  if bool_decide (s ∈ ports_open w) then (Err (Os 24), w)
  else (Ok s, mkPorts ({[s]} ∪ ports_open w)).
Definition ports_address (a : SockAddr) (w : Ports) : io_result unit * Ports :=
  (if bool_decide (sa_len a = 0)%Z then Err (Os 98) else Ok tt, w).

#[global] Instance Ports_socket2 : Socket2 Ports := {|
  AF_UNIX := 1%Z; addr_domain a := 2%Z;
  s2_new d ty p w := ports_fresh w;
  s2_set_nonblocking s w := (Ok tt, w);
  s2_bind s := ports_address;
  s2_listen s n w := (Ok tt, w);
  s2_shutdown s how w := (Ok tt, w);
  s2_connect s := ports_address;
  s2_try_clone s w := ports_fresh w;
  s2_peer_addr s w := (Err (Os 107), w);
  s2_local_addr s w := (Err (Os 107), w);
  s2_type s w := (Ok 1%Z, w);
  s2_protocol s w := (Ok None, w);
  s2_drop s w := mkPorts (ports_open w ∖ {[s]}) |}.

#[global] Instance Ports_spec : SocketsSpec Ports.
Proof.
  refine {| open_sockets := ports_open |}; try done.
  - intros d ty p w. unfold s2_new, Ports_socket2, ports_fresh. by case_bool_decide.
  - intros s w. unfold s2_try_clone, Ports_socket2, ports_fresh. by case_bool_decide.
Defined.

#[global] Instance Ports_attach : RuntimeAttach Z Ports := {| runtime_attach s w := (Ok s, w) |}.

Definition no_ports : Ports := mkPorts ∅.
Definition two_addresses : list SockAddr := [mkSockAddr 4096 [] 0; mkSockAddr 4096 [Byte.x02] 16].

#[global] Instance Ports_connect : Await (UnixOps.Connect Z) Ports := {|
  await_op op w := let '(r, w) := ports_address (UnixOps.connect_addr op) w in (result_map (λ _, 0%Z) r, op, w) |}.
Notation ports_stream x := (TcpStream_connect true (unix_connect_async id) false (λ _, true) (λ _, false) (mkSockAddr 0 [] 0)
  (mkSockAddr 0 [] 0) x no_ports).

(** The first address fails and its socket is closed, the second is connected. *)
Lemma sockets_not_leaked_witness :
  owns_socket tcp_stream_inner (ports_stream two_addresses) no_ports ∧ is_ok (ports_stream two_addresses).1 = true.
Proof.
  split; [|vm_compute; reflexivity].
  refine (proj2 (proj2 (proj2 (proj2 (sockets_not_leaked true (UnixOps.Connect_new id) unix_on_connect _ _ _ _ false
    (λ _, true) (λ _, false) (mkSockAddr 0 [] 0) (mkSockAddr 0 [] 0) two_addresses no_ports))))); intros; reflexivity.
Defined.

Lemma ports_attach_raw s (w : Ports) (fd : Z) w' : runtime_attach s w = (Ok fd, w') → fd = s.
Proof. cbn. by intros [= <- _]. Qed.

Lemma clone_uses_closed_descriptor_witness :
  ∃ fd self' c w1 w2,
    socket_attach (mkSocket 3%Z Attacher_new) (mkPorts {[3%Z]}) = (Ok fd, self', w1) ∧
    Socket_try_clone self' w1 = (Ok c, w2) ∧ socket_raw c = 4%Z ∧
    (fd ∉ open_sockets (s2_drop (socket_raw self') w2)) ∧ 4%Z ∈ open_sockets (s2_drop (socket_raw self') w2).
Proof.
  set (one := mkPorts {[3%Z]}). set (used := mkAttacher (Some 3%Z)).
  assert (Socket_try_clone (mkSocket 3%Z used) one = (Ok (mkSocket 4%Z used), mkPorts {[4%Z; 3%Z]})) as Hc by (vm_compute; reflexivity).
  exists 3%Z, (mkSocket 3%Z used), (mkSocket 4%Z used), one, (mkPorts {[4%Z; 3%Z]}).
  destruct (clone_uses_closed_descriptor (UnixOps.Connect_new id) unix_on_connect (λ s, s) ports_attach_raw (mkSocket 3%Z Attacher_new) _ _ 3%Z one one _
    eq_refl (proj2 (elem_of_singleton (C := gset Z) 3%Z 3%Z) eq_refl) eq_refl Hc) as (_ & Hop & _ & _ & Hcl & _).
  split; [reflexivity|]. split; [exact Hc|]. split; [reflexivity|]. split; [exact Hcl|exact Hop].
Defined.
