(* ===== verification/Time.v ===== *)
(** * Sleeping, timeouts and intervals

    [src/time.rs].  Instants and durations are numbers of nanoseconds.  The
    clock of the boot-time crate is the class [BootTime]: reading it may let
    time pass.  A sleep is a submitted [Timeout] ([Await]). *)

From S2P Require Import Prelude BinaryHeap Driver TimerWheel Attacher.
From stdpp Require Import base numbers sorting list.

#[local] Open Scope Z_scope.

(** [Instant::now], the difference of two instants, an instant and a duration added or subtracted. *)
Class BootTime (W : Type) := {
  instant_now : W → Z * W;
  instant_sub : Z → Z → Z;
  instant_add_duration : Z → Z → outcome Z;
  instant_sub_duration : Z → Z → outcome Z;
}.

(** What the code relies on; [clock] is the time in a state of the system, [instant_MAX] the latest
    instant. *)
Class BootTimeLaws (W : Type) `{!BootTime W} (clock : W → Z) (instant_MAX : Z) : Prop := {
  now_reads_clock w : clock w ≤ (instant_now w).1 ≤ clock (instant_now w).2;
  sub_difference a b : b ≤ a → instant_sub a b = a - b;
  sub_later a b : a < b → instant_sub a b = 0;
  add_in_range a d : 0 ≤ a → 0 ≤ d → a + d ≤ instant_MAX → instant_add_duration a d = Done (a + d);
  sub_in_range a d : 0 ≤ d ≤ a → instant_sub_duration a d = Done (a - d);
}.

Section time.
Context {W : Type} `{!BootTime W, !Await Timeout W}.

(** [src/src/time.rs:31-36] *)
Definition sleep (duration : Z) (w : W) : outcome W :=
  let '(res, _, w) := await_op (Timeout_new duration) w in
  match res with Ok _ => Done w | Err _ => Panic end.

(** [src/src/time.rs:55-57] *)
Definition sleep_until (deadline : Z) (w : W) : outcome W :=
  let '(now, w) := instant_now w in sleep (instant_sub deadline now) w.

(** [src/src/time.rs:60-61] *)
Inductive Elapsed := elapsed.

(** [src/src/time.rs:96-101] *)
Record Interval := mkInterval { first_ticked : bool; start : Z; period : Z }.

(** [src/src/time.rs:104-110] *)
Definition Interval_new (start period : Z) : Interval := mkInterval false start period.

(** [src/src/time.rs:115-129] *)
Definition tick (self : Interval) (w : W) : outcome (Z * Interval * W) :=
  if negb (first_ticked self) then
    w ← sleep_until (start self) w;
    Done (start self, mkInterval true (start self) (period self), w)
  else
    let '(now, w) := instant_now w in
    a ← instant_add_duration now (period self);
    if bool_decide (period self = 0) then Panic
    else
      next ← instant_sub_duration a (as_u64 (instant_sub now (start self) mod period self));
      w ← sleep_until next w;
      Done (next, self, w).

(** [src/src/time.rs:226-229] *)
Definition interval_at (start period : Z) : outcome Interval :=
  if bool_decide (0 < period) then Done (Interval_new start period) else Panic.

(** [src/src/time.rs:195-197] *)
Definition interval (period : Z) (w : W) : outcome (Interval * W) :=
  let '(now, w) := instant_now w in i ← interval_at now period; Done (i, w).
End time.

(** ** Timeouts

    A future is a state that is polled, and dropped when it is not polled to its end.  The macro
    [select!] of the futures crate, here with two futures, is the class [Select]: a poll of it returns
    the result of the branch it has chosen.  In which order it polls is part of the state. *)

Class Select (W : Type) := {
  select_poll {A B F G : Type} : (F → W → Poll A * F * W) → (G → W → Poll B * G * W) →
    F → G → W → Poll (A + B) * F * G * W;
}.

(** A poll of [select!]: it polls the futures in an order that it chooses until one of them is ready,
    whose branch it takes; it is pending when it has polled both and neither was ready. *)
Inductive selects {W A B F G : Type} (pf : F → W → Poll A * F * W) (pg : G → W → Poll B * G * W) (f : F) (g : G) (w : W) :
    Poll (A + B) → F → G → W → Prop :=
| select_first a f' w' : pf f w = (Ready a, f', w') → selects pf pg f g w (Ready (inl a)) f' g w'
| select_first_after g' w1 a f' w' :
    pg g w = (Pending, g', w1) → pf f w1 = (Ready a, f', w') → selects pf pg f g w (Ready (inl a)) f' g' w'
| select_second b g' w' : pg g w = (Ready b, g', w') → selects pf pg f g w (Ready (inr b)) f g' w'
| select_second_after f' w1 b g' w' :
    pf f w = (Pending, f', w1) → pg g w1 = (Ready b, g', w') → selects pf pg f g w (Ready (inr b)) f' g' w'
| select_none f' w1 g' w' :
    pf f w = (Pending, f', w1) → pg g w1 = (Pending, g', w') → selects pf pg f g w Pending f' g' w'
| select_none_second g' w1 f' w' :
    pg g w = (Pending, g', w1) → pf f w1 = (Pending, f', w') → selects pf pg f g w Pending f' g' w'.

Class SelectLaws (W : Type) `{!Select W} : Prop := {
  select_selects {A B F G : Type} (pf : F → W → Poll A * F * W) (pg : G → W → Poll B * G * W) f g w r f' g' w' :
    select_poll pf pg f g w = (r, f', g', w') → selects pf pg f g w r f' g' w';
}.

Section timeout.
Context {W : Type} `{!BootTime W, !Select W}.
Context {A Fut Sl : Type} (poll_future : Fut → W → Poll A * Fut * W) (drop_future : Fut → W → W).
(** The future of [sleep]. *)
Context (sleep_future : Z → Sl) (poll_sleep : Sl → W → Poll unit * Sl * W) (drop_sleep : Sl → W → W).

(** The future of [timeout]: the two futures that [select!] holds. *)
Record TimeoutFuture := mkTimeoutFuture { tf_future : Fut; tf_sleep : Sl }.

(** [src/src/time.rs:76-81] the call, before the first poll *)
Definition timeout (duration : Z) (future : Fut) : TimeoutFuture := mkTimeoutFuture future (sleep_future duration).

(** [src/src/time.rs:77-80] one poll; when a branch is taken the other future is dropped *)
Definition timeout_poll (self : TimeoutFuture) (w : W) : Poll (result A Elapsed) * TimeoutFuture * W :=
  match select_poll poll_future poll_sleep (tf_future self) (tf_sleep self) w with
  | (Ready (inl res), f, s, w) => (Ready (Ok res), mkTimeoutFuture f s, drop_sleep s w)
  | (Ready (inr _), f, s, w) => (Ready (Err elapsed), mkTimeoutFuture f s, drop_future f w)
  | (Pending, f, s, w) => (Pending, mkTimeoutFuture f s, w)
  end.

(** [src/src/time.rs:87-89] *)
Definition timeout_at (deadline : Z) (future : Fut) (w : W) : TimeoutFuture * W :=
  let '(now, w) := instant_now w in (timeout (instant_sub deadline now) future, w).

(** At most [n] polls of a timeout, each after what [pass] did in the meantime. *)
Fixpoint timeout_run (n : nat) (pass : W → W) (self : TimeoutFuture) (w : W) : option (result A Elapsed * W) :=
  match n with
  | O => None
  | S n =>
      match timeout_poll self (pass w) with
      | (Ready r, _, w) => Some (r, w)
      | (Pending, self, w) => timeout_run n pass self w
      end
  end.

(** *** What happens while a timeout runs *)

Inductive event := Passed | FutureWas (p : Poll A) | SleepWas (p : Poll unit).

Definition waited (e : event) : Prop :=
  match e with Passed | FutureWas Pending | SleepWas Pending => True | _ => False end.
Definition of_future (e : event) : bool := match e with FutureWas _ => true | _ => false end.
Definition of_sleep (e : event) : bool := match e with SleepWas _ => true | _ => false end.
Definition polls (which : event → bool) (es : list event) : nat := length (filter (λ e, which e = true) es).

(** The events, in order, with the state of the two futures and of the system before and after. *)
Inductive history (pass : W → W) : Fut → Sl → W → list event → Fut → Sl → W → Prop :=
| history_nil f s w : history pass f s w [] f s w
| history_pass f s w es f' s' w' :
    history pass f s (pass w) es f' s' w' → history pass f s w (Passed :: es) f' s' w'
| history_future f s w p f1 w1 es f' s' w' :
    poll_future f w = (p, f1, w1) → history pass f1 s w1 es f' s' w' → history pass f s w (FutureWas p :: es) f' s' w'
| history_sleep f s w p s1 w1 es f' s' w' :
    poll_sleep s w = (p, s1, w1) → history pass f s1 w1 es f' s' w' → history pass f s w (SleepWas p :: es) f' s' w'.

Lemma history_app pass f s w es f1 s1 w1 es' f' s' w' :
  history pass f s w es f1 s1 w1 → history pass f1 s1 w1 es' f' s' w' → history pass f s w (es ++ es') f' s' w'.
Proof. induction 1; intros; cbn; [done|econstructor; eauto..]. Qed.

Lemma polls_app which es es' : polls which (es ++ es') = (polls which es + polls which es')%nat.
Proof. unfold polls. by rewrite filter_app, length_app. Qed.

(** One poll of [select!] as events: the last one is of the branch that is taken, the others waited. *)
Lemma selects_history pass f s w r f' s' w' :
  selects poll_future poll_sleep f s w r f' s' w' →
  ∃ es, Forall waited es ∧
    match r with
    | Ready (inl a) => history pass f s w (es ++ [FutureWas (Ready a)]) f' s' w'
    | Ready (inr b) => history pass f s w (es ++ [SleepWas (Ready b)]) f' s' w'
    | Pending => history pass f s w es f' s' w' ∧ polls of_future es = 1%nat ∧ polls of_sleep es = 1%nat
    end.
Proof.
  destruct 1.
  - exists []. split; [done|]. by repeat econstructor.
  - exists [SleepWas Pending]. split; [by repeat constructor|]. by repeat econstructor.
  - exists []. split; [done|]. by repeat econstructor.
  - exists [FutureWas Pending]. split; [by repeat constructor|]. by repeat econstructor.
  - exists [FutureWas Pending; SleepWas Pending]. split; [by repeat constructor|]. split; [|done]. by repeat econstructor.
  - exists [SleepWas Pending; FutureWas Pending]. split; [by repeat constructor|]. split; [|done]. by repeat econstructor.
Qed.

(** Time does not run backwards, and a sleep of [d] started not before [t] is ready not before
    [t + d]. *)
Context (clock : W → Z) (sleeping : Z → Z → Sl → Prop).
Class SleepSpec : Prop := {
  future_clock f w : clock w ≤ clock (poll_future f w).2;
  sleep_starts d t : sleeping d t (sleep_future d);
  sleep_poll d t s w r s' w' : sleeping d t s → t ≤ clock w → poll_sleep s w = (r, s', w') →
    clock w ≤ clock w' ∧ match r with Ready _ => t + d ≤ clock w' | Pending => sleeping d t s' end;
}.
Context `{!SleepSpec, !SelectLaws W} (pass : W → W) (pass_clock : ∀ w, clock w ≤ clock (pass w)).

Lemma history_clock t d f s w es f' s' w' :
  history pass f s w es f' s' w' → Forall waited es → sleeping d t s → t ≤ clock w → sleeping d t s' ∧ t ≤ clock w'.
Proof.
  induction 1 as [|f s w es f' s' w' _ IH|f s w p f1 w1 es f' s' w' E _ IH|f s w p s1 w1 es f' s' w' E _ IH]; [done|..];
    intros [Hw Hes]%Forall_cons Hs Ht.
  - apply IH; [done..|]. specialize (pass_clock w). lia.
  - apply IH; [done..|]. pose proof (future_clock f w) as Hc. rewrite E in Hc. cbn in Hc. lia.
  - destruct (sleep_poll d t _ _ _ _ _ Hs Ht E) as [Hc Hr]. destruct p; [done|]. apply IH; [done..|lia].
Qed.

(** How [n] polls of a timeout, created with the futures [f] and [s], can go. *)
Definition timeout_goes (n : nat) (t d : Z) (f : Fut) (s : Sl) (w : W) (r : option (result A Elapsed * W)) : Prop :=
  ∃ es f' s' w', Forall waited es ∧
    match r with
    | Some (Ok a, w'') => history pass f s w (es ++ [FutureWas (Ready a)]) f' s' w' ∧ w'' = drop_sleep s' w'
    | Some (Err _, w'') => history pass f s w (es ++ [SleepWas (Ready tt)]) f' s' w' ∧ w'' = drop_future f' w' ∧ t + d ≤ clock w'
    | None => history pass f s w es f' s' w' ∧ polls of_future es = n ∧ polls of_sleep es = n
    end.

Lemma history_last f s w es e f' s' w' :
  history pass f s w (es ++ [e]) f' s' w' →
  ∃ f1 s1 w1, history pass f s w es f1 s1 w1 ∧ history pass f1 s1 w1 [e] f' s' w'.
Proof.
  revert f s w. induction es as [|e1 es IH]; intros f s w Hh; cbn in Hh; [by do 3 eexists; split; [constructor|]|].
  inversion Hh; subst; (edestruct IH as (? & ? & ? & ? & ?); [eassumption|]); do 3 eexists; (split; [|eassumption]);
    econstructor; eassumption.
Qed.

Lemma timeout_run_goes n t d : ∀ f s w,
  sleeping d t s → t ≤ clock w → timeout_goes n t d f s w (timeout_run n pass (mkTimeoutFuture f s) w).
Proof.
  induction n as [|n IH]; intros f s w Hs Ht; cbn; [exists [], f, s, w; split; [done|]; by repeat constructor|].
  unfold timeout_poll. cbn. destruct (select_poll _ _ f s (pass w)) as [[[r f1] s1] w1] eqn:E.
  apply select_selects, (selects_history pass) in E as (es & Hes & E).
  assert (Forall waited (Passed :: es)) as Hpes by by constructor.
  destruct r as [[a|[]]|].
  - exists (Passed :: es), f1, s1, w1. split; [done|]. split; [by constructor|done].
  - assert (history pass f s w ((Passed :: es) ++ [SleepWas (Ready tt)]) f1 s1 w1) as Hh by by constructor.
    exists (Passed :: es), f1, s1, w1. split; [done|]. split; [done|]. split; [done|].
    apply history_last in Hh as (f2 & s2 & w2 & H1 & H2). destruct (history_clock t d _ _ _ _ _ _ _ H1 Hpes Hs Ht) as [Hs2 Ht2].
    inversion H2 as [| | |? ? ? ? ? ? ? ? ? ? Ep Hn]; subst. inversion Hn; subst. by apply (sleep_poll d t _ _ _ _ _ Hs2 Ht2 Ep).
  - destruct E as (E & H1 & H2). assert (history pass f s w (Passed :: es) f1 s1 w1) as Hh by by constructor.
    destruct (history_clock t d _ _ _ _ _ _ _ Hh Hpes Hs Ht) as [Hs1 Ht1].
    destruct (IH f1 s1 w1 Hs1 Ht1) as (es2 & f2 & s2 & w2 & Hes2 & Hgo).
    exists ((Passed :: es) ++ es2), f2, s2, w2. split; [by apply Forall_app|].
    destruct (timeout_run n pass _ w1) as [[[a|e] w']|].
    + rewrite <- app_assoc. destruct Hgo. split; [by eapply history_app|done].
    + rewrite <- app_assoc. destruct Hgo. split; [by eapply history_app|done].
    + destruct Hgo as (Hgo & H3 & H4). split; [by eapply history_app|]. rewrite !polls_app, H3, H4. change (Passed :: es) with ([Passed] ++ es).
      rewrite !polls_app, H1, H2. done.
Qed.

(** C30 [timeout] returns the result of the future exactly when a poll of the future gave it, before
    which no poll of the future or of the sleep was ready, and then drops the sleep; it returns
    [Elapsed] exactly when a poll of the sleep was ready, before which none was, so that a result of
    the future is never discarded; then it drops the future, and the duration has passed since the
    call.  It goes on waiting only while neither is ready: every one of the polls that did not end it
    has polled both once.  This holds whatever time passes between polls and in whatever order
    [select!] polls. *)
Theorem timeout_spec n duration future w :
  timeout_goes n (clock w) duration future (sleep_future duration) w (timeout_run n pass (timeout duration future) w).
Proof. apply timeout_run_goes; [apply sleep_starts|lia]. Qed.
End timeout.

(** ** Properties *)

Section properties.
Context {W : Type} `{!BootTime W, !Await Timeout W} (clock : W → Z) (instant_MAX : Z)
  `{!BootTimeLaws W clock instant_MAX}.

(** A timeout succeeds, and not before its delay has passed. *)
Class TimeoutSpec : Prop := {
  timeout_succeeds d w res op w' :
    await_op (Timeout_new d) w = (res, op, w') → (∃ n, res = Ok n) ∧ clock w + d ≤ clock w' ∧ clock w ≤ clock w';
}.
Context `{!TimeoutSpec}.

(** A sleep returns, at the deadline or later. *)
Lemma sleep_until_spec deadline w :
  ∃ w', sleep_until deadline w = Done w' ∧ deadline ≤ clock w' ∧ clock w ≤ clock w'.
Proof.
  unfold sleep_until, sleep. pose proof (now_reads_clock w) as Hn.
  destruct (instant_now w) as [now w1]. cbn in Hn.
  destruct (await_op _ w1) as [[res op] w2] eqn:E.
  apply timeout_succeeds in E as ([n ->] & Hd & Hm). exists w2. split; [done|]. split; [|lia].
  destruct (decide (now ≤ deadline)); [rewrite sub_difference in Hd by lia|]; lia.
Qed.

(** The instant the next tick is due, [now] being the time at which it is asked for. *)
Definition next_tick (start period now : Z) : Z := now + period - (now - start) mod period.

Lemma next_tick_spec start period now :
  0 < period → now < next_tick start period now ≤ now + period ∧
  (next_tick start period now - start) mod period = 0.
Proof.
  intros Hp. unfold next_tick. pose proof (Z.mod_pos_bound (now - start) period Hp). split; [lia|].
  replace (now + period - (now - start) mod period - start)
    with ((1 + (now - start) / period) * period) by (pose proof (Z.div_mod (now - start) period); lia).
  apply Z.mod_mul. lia.
Qed.

Lemma tick_unfold self w :
  first_ticked self = true → 0 < period self ≤ 2 ^ 64 → 0 ≤ start self ≤ clock w →
  (instant_now w).1 + period self ≤ instant_MAX →
  ∃ w', tick self w = Done (next_tick (start self) (period self) (instant_now w).1, self, w') ∧
    next_tick (start self) (period self) (instant_now w).1 ≤ clock w' ∧ clock w ≤ clock w'.
Proof.
  intros Hf Hp Hs Hm. unfold tick. rewrite Hf. cbn. pose proof (now_reads_clock w) as Hn.
  destruct (instant_now w) as [now w1]. cbn in *. rewrite add_in_range by lia. simpl_outcome.
  rewrite bool_decide_eq_false_2 by lia. rewrite sub_difference by lia.
  pose proof (Z.mod_pos_bound (now - start self) (period self)).
  unfold as_u64. rewrite (Z.mod_small _ (2 ^ 64)) by lia. rewrite sub_in_range by lia. simpl_outcome.
  fold (next_tick (start self) (period self) now).
  destruct (sleep_until_spec (next_tick (start self) (period self) now) w1) as (w' & -> & H1 & H2).
  simpl_outcome. exists w'. split_and!; [done..|lia].
Qed.

(** A tick after the first returns, and the instant it returns is the next multiple of the period
    from the start: later than the call, at most one period later, and reached when the tick
    completes, provided that the period fits 64 bits of nanoseconds and the clock does not overflow. *)
Theorem tick_next self w :
  first_ticked self = true → 0 < period self ≤ 2 ^ 64 → 0 ≤ start self ≤ clock w →
  (instant_now w).1 + period self ≤ instant_MAX →
  ∃ next w', tick self w = Done (next, self, w') ∧
    (instant_now w).1 < next ≤ (instant_now w).1 + period self ∧
    (next - start self) mod period self = 0 ∧ next ≤ clock w'.
Proof.
  intros Hf Hp Hs Hm. destruct (tick_unfold self w Hf Hp Hs Hm) as (w' & E & Hc & _).
  destruct (next_tick_spec (start self) (period self) (instant_now w).1) as [H1 H2]; [lia|].
  by eexists _, w'.
Qed.

(** Ticks of an interval, with time passing in between; the latest instant first. *)
Inductive ticked (i : Interval) (w : W) : list Z → Interval → W → Prop :=
| ticked_nil : ticked i w [] i w
| ticked_pass l i' w' w'' : ticked i w l i' w' → clock w' ≤ clock w'' → ticked i w l i' w''
| ticked_tick l i' w' t i'' w'' :
    ticked i w l i' w' → (instant_now w').1 + period i' ≤ instant_MAX →
    tick i' w' = Done (t, i'', w'') → ticked i w (t :: l) i'' w''.

(** What holds after some ticks. *)
Definition ticks_ok (s p : Z) (l : list Z) (i : Interval) (w : W) : Prop :=
  i = mkInterval (bool_decide (l ≠ [])) s p ∧ Forall (λ t, t ≤ clock w ∧ s ≤ t ∧ (t - s) mod p = 0) l ∧
  StronglySorted (λ a b, b < a) l ∧ (l = [] ∨ last l = Some s).

Lemma ticks_ok_pass s p l i w w' : ticks_ok s p l i w → clock w ≤ clock w' → ticks_ok s p l i w'.
Proof.
  intros (? & HF & ? & ?) Hc. split_and!; try done. eapply Forall_impl; [done|]. cbn. intros t ?. lia.
Qed.

Lemma ticks_ok_tick s p l i w t i' w' :
  0 < p ≤ 2 ^ 64 → 0 ≤ s → ticks_ok s p l i w → (instant_now w).1 + period i ≤ instant_MAX →
  tick i w = Done (t, i', w') → ticks_ok s p (t :: l) i' w'.
Proof.
  intros Hp Hs (-> & HF & HS & HL) Hm E. destruct l as [|t0 l].
  - cbn in E. destruct (sleep_until_spec s w) as (w1 & Ew & Hd & _). rewrite Ew in E. simpl_outcome.
    injection E as <- <- <-. split_and!; try done.
    + constructor; [|done]. split_and!; [lia|lia|]. by rewrite Z.sub_diag, Z.mod_0_l by lia.
    + repeat constructor.
    + by right.
  - assert (s ≤ clock w) as Hsw by (apply Forall_cons in HF as [? _]; lia).
    rewrite bool_decide_eq_true_2 in * by done.
    destruct (tick_unfold (mkInterval true s p) w) as (w1 & Et & Hc & Hcw); [done..|]. cbn [start period] in Et, Hc.
    rewrite Et in E. injection E as <- <- <-.
    destruct (next_tick_spec s p (instant_now w).1) as [H1 H2]; [lia|].
    pose proof (now_reads_clock w). split_and!.
    + by rewrite bool_decide_eq_true_2.
    + constructor; [split_and!; [lia|lia|done]|]. eapply Forall_impl; [done|]. cbn. intros x ?. lia.
    + constructor; [done|]. eapply Forall_impl; [done|]. cbn. intros x ?. lia.
    + right. by destruct HL as [|HL].
Qed.

(** C31 The ticks of an interval, whatever time passes between them: the first is at the start, each
    is later than the one before, all are whole numbers of periods after the start, and none
    completes before its instant. *)
Theorem interval_ticks s p i w l i' w' :
  0 < p ≤ 2 ^ 64 → 0 ≤ s → interval_at s p = Done i → ticked i w l i' w' →
  StronglySorted (λ a b, b < a) l ∧ Forall (λ t, t ≤ clock w' ∧ (t - s) mod p = 0) l ∧
  (l = [] ∨ last l = Some s).
Proof.
  intros Hp Hs Hi Ht. unfold interval_at in Hi. rewrite bool_decide_eq_true_2 in Hi by lia. injection Hi as <-.
  assert (ticks_ok s p l i' w') as (_ & HF & HS & HL).
  { induction Ht; [|by eapply ticks_ok_pass|by eapply ticks_ok_tick].
    split_and!; [by rewrite bool_decide_eq_false_2 by (intros []; done)|done|constructor|by left]. }
  split_and!; [done| |done]. eapply Forall_impl; [done|]. cbn. tauto.
Qed.
End properties.

(** ** A concrete clock

    The state is the time; reading it takes a nanosecond and a timeout is late by another. *)

#[global] Instance Z_BootTime : BootTime Z := {|
  instant_now w := (w, w + 1);
  instant_sub a b := Z.max 0 (a - b);
  instant_add_duration a d := if bool_decide (a + d ≤ 2 ^ 127) then Done (a + d) else Panic;
  instant_sub_duration a d := if bool_decide (d ≤ a) then Done (a - d) else Panic |}.
#[global] Instance Z_Timeout : Await Timeout Z := {| await_op o w := (Ok 0, o, w + Z.max 0 (delay o) + 1) |}.

#[global] Instance Z_BootTimeLaws : BootTimeLaws Z id (2 ^ 127).
Proof.
  split; unfold instant_now, instant_sub, instant_add_duration, instant_sub_duration, Z_BootTime; cbn [fst snd]; intros;
    unfold id; try lia; by rewrite bool_decide_eq_true_2 by lia.
Qed.

#[global] Instance Z_TimeoutSpec : TimeoutSpec (W := Z) id.
Proof. split. intros d w res op w' [= <- <- <-]. unfold id. cbn. split; [by eexists|]. lia. Qed.

Lemma tick_next_witness : ∃ next w', tick (mkInterval true 100 10) 137 = Done (next, mkInterval true 100 10, w') ∧
  (next - 100) mod 10 = 0.
Proof.
  destruct (tick_next id (2 ^ 127) (mkInterval true 100 10) 137 ltac:(reflexivity) ltac:(cbn; lia)
    ltac:(unfold id; cbn; lia) ltac:(vm_compute; discriminate)) as (next & w' & H1 & _ & H2 & _).
  exists next, w'. split; [exact H1|exact H2].
Defined.

Lemma interval_ticks_witness :
  StronglySorted (λ a b, b < a) [140; 100] ∧ Forall (λ t, t ≤ 142 ∧ (t - 100) mod 10 = 0) [140; 100] ∧
  ([140; 100] = [] ∨ last [140; 100] = Some 100).
Proof.
  refine (interval_ticks id (2 ^ 127) 100 10 (mkInterval false 100 10) 50 [140; 100] (mkInterval true 100 10) 142
    _ _ _ _); [lia|lia|reflexivity|].
  apply (ticked_tick id (2 ^ 127) _ _ [100] (mkInterval true 100 10) 137); [|vm_compute; discriminate|reflexivity].
  apply (ticked_pass id (2 ^ 127) _ _ _ _ 102); [|unfold id; lia].
  apply (ticked_tick id (2 ^ 127) _ _ [] (mkInterval false 100 10) 50); [|vm_compute; discriminate|reflexivity].
  apply ticked_nil.
Defined.

(** A future that is ready at its third poll, and a sleep that notes its deadline when it is first
    polled; the state is the time. *)
Definition third_poll (f : nat) (w : Z) : Poll nat * nat * Z :=
  (if bool_decide (f = 2)%nat then Ready 7%nat else Pending, S f, w).
Definition noted_sleep (s : Z * option Z) (w : Z) : Poll unit * (Z * option Z) * Z :=
  let deadline := default (w + s.1) s.2 in
  (if bool_decide (deadline ≤ w) then Ready tt else Pending, (s.1, Some deadline), w).
Definition noted_sleeping (d t : Z) (s : Z * option Z) : Prop :=
  s.1 = d ∧ match s.2 with Some deadline => t + d ≤ deadline | None => True end.

(** [select!] chooses its order by the parity of the time. *)
#[global] Instance Z_Select : Select Z := {|
  select_poll A B F G pf pg f g w :=
    if Z.even w then
      match pf f w with
      | (Ready a, f, w) => (Ready (inl a), f, g, w)
      | (Pending, f, w) =>
          match pg g w with (Ready b, g, w) => (Ready (inr b), f, g, w) | (Pending, g, w) => (Pending, f, g, w) end
      end
    else
      match pg g w with
      | (Ready b, g, w) => (Ready (inr b), f, g, w)
      | (Pending, g, w) =>
          match pf f w with (Ready a, f, w) => (Ready (inl a), f, g, w) | (Pending, f, w) => (Pending, f, g, w) end
      end |}.

#[global] Instance Z_SelectLaws : SelectLaws Z.
Proof.
  split. intros A B F G pf pg f g w r f' g' w'. cbn. destruct (Z.even w).
  - destruct (pf f w) as [[[a|] f1] w1] eqn:Ef; [intros [= <- <- <- <-]; by econstructor|].
    destruct (pg g w1) as [[[b|] g1] w2] eqn:Eg; intros [= <- <- <- <-]; by econstructor.
  - destruct (pg g w) as [[[b|] g1] w1] eqn:Eg; [intros [= <- <- <- <-]; by econstructor|].
    destruct (pf f w1) as [[[a|] f1] w2] eqn:Ef; intros [= <- <- <- <-]; by econstructor.
Qed.

#[global] Instance third_poll_SleepSpec :
  SleepSpec third_poll (λ d, (d, None)) noted_sleep id noted_sleeping.
Proof.
  split; [done|done|]. intros d t [d' o] w r s' w' [Hd Ho] Ht [= <- <- <-]. unfold id in *. cbn in *. subst d'.
  split; [lia|]. destruct o as [dl|]; cbn; case_bool_decide; try lia; split; cbn; auto; lia.
Qed.

(** With 2 nanoseconds between polls the future is ready first, with 3 the sleep. *)
Notation third_run step := (timeout_run third_poll (λ _ w, w) noted_sleep (λ _ w, w) 3 (Z.add step) (timeout (λ d, (d, None)) 5 0%nat) 100).

Lemma timeout_spec_witness :
  third_run 2 = Some (Ok 7%nat, 106) ∧ third_run 3 = Some (Err elapsed, 109) ∧
  timeout_goes third_poll (λ _ w, w) noted_sleep (λ _ w, w) id (Z.add 3) 3 100 5 0%nat (5, None) 100 (third_run 3).
Proof.
  split; [reflexivity|]. split; [reflexivity|].
  refine (timeout_spec third_poll (λ _ w, w) (λ d, (d, None)) noted_sleep (λ _ w, w) id noted_sleeping (Z.add 3) _ 3 5 0%nat 100).
  intros w. unfold id. lia.
Defined.
