(* ===== verification/KqueueTime.v ===== *)
(** * Sleeping on kqueue, from the method to the timer wheel

    [src/time.rs] [sleep], run by the executor on the runtime, the driver and
    its wheel of timers: a submitted [Timeout] is answered by no system call,
    so that [DriverAwaits] does not describe it; the driver turns until the
    clock, as the kernel shows it, has reached the deadline, unless the
    deadline is no instant or a wait fails. *)

From S2P Require Import Prelude BinaryHeap Driver TimerWheel Time Buf UnixOps Kqueue KqueueOps KqueueSim.
From S2P Require Import Attacher Runtime RuntimeSpec Executor ExecutorLive KqueueRuntime KqueueServe AsyncFn FileAsync KqueueFile.
From stdpp Require Import base numbers sorting list gmap.

(** [src/src/time.rs:31-36] *)
Definition sleep_prog {Op F} `{!OpAs Timeout Op} (duration : Z) : prog Op F (outcome unit) :=
  Submit (op_into (Timeout_new duration)) (λ res _, Ret (match res with Ok _ => Done tt | Err _ => Panic end)).

(** Sleeps, one after the other. *)
Fixpoint sleep_all {Op F} `{!OpAs Timeout Op} (durations : list Z) : prog Op F (outcome unit) :=
  match durations with
  | [] => Ret (Done tt)
  | d :: ds => pbind (sleep_prog d) (λ r, match r with Done _ => sleep_all ds | _ => Ret r end)
  end.

(** The direct reading is [Time.sleep]. *)
Lemma exec_sleep {Op F W} `{!OpAs Timeout Op, !Await Op W, !RuntimeAttach F W} d (s : W) :
  Time.sleep (Await0 := Await_as) d s =
    match exec (sleep_prog (Op := Op) (F := F) d) s with (Done _, s) => Done s | _ => Panic end.
Proof. unfold Time.sleep. cbn. by destruct (await_op _ s) as [[[] ?] ?]. Qed.

(** A wheel with one timer. *)
Lemma expire_one {H} `{!MaxHeap Timer_leb H, !MaxHeapLaws Timer_leb H} now k dl (tw : H) es tw' :
  wheel_wf tw → wheel_timers tw = [mkTimer k dl] → expire_timers now tw = (es, tw') →
  wheel_wf tw' ∧
  (es = [Entry_new k (Ok 0%Z)] ∧ wheel_timers tw' = [] ∧ (dl ≤ now)%Z ∨ es = [] ∧ tw' = tw ∧ (now < dl)%Z).
Proof.
  intros Hwf Ht E. destruct es as [|e es].
  - apply expire_timers_nil in E as [-> Hall]; [|done]. split; [done|]. right. rewrite Ht in Hall.
    apply Forall_cons in Hall as [Hall _]. unfold expired in Hall. cbn in Hall. split_and!; [done|done|lia].
  - apply expire_loop_spec in E as (Hwf' & ts & Hts & Hp & Hex & _); [|done..]. split; [done|]. left. rewrite Ht in Hp.
    destruct ts as [|t ts]; [done|]. apply Permutation_singleton_l in Hp. cbn in Hp. injection Hp as <- Hp. symmetry in Hp.
    apply app_eq_nil in Hp as [-> ->]. apply Forall_cons in Hex as [Hex _]. by injection Hts as -> ->.
Qed.

Section sleep.
Context {W T V : Type} `{!Posix W, !KqueueOs W, !IoBuf T, !IoBufMut T, !AsIoSlices V, !AsIoSlicesMut V}.
Notation Op := (AnyOp T V).
Notation driver := (Driver Z).
Context (idle : W → Prop) (clock : W → Z) (stall : W → nat) (kind : io_error → ErrorKind) `{!IdleKernel kind idle clock stall}.
Notation fault := (kqueue_fault (Op := Op) (W := W) kind).

#[global] Instance Timeout_OpAs : OpAs Timeout Op :=
  {| op_into := OpTimeout; op_as x := match x with OpTimeout o => Some o | _ => None end |}.

(** Nothing is in the driver but a timer. *)
Definition timer_only (k dl : Z) (d : driver) : Prop :=
  driver_wf d ∧ squeue d = [] ∧ io_pending d = [] ∧ wheel_timers (timers d) = [mkTimer k dl] ∧ 0 < squeue_drained_till d.

(** The timer fires and its deadline has passed, or it is waited for. *)
Definition fires_or_waits (k dl : Z) (es : list Entry) (d : driver) (s : W) : Prop :=
  es = [Entry_new k (Ok 0%Z)] ∧ at_rest d s ∧ (dl ≤ clock s)%Z ∨ es = [] ∧ timer_only k dl d ∧ (clock s < dl)%Z.

(** The turn that starts the timer. *)
Lemma timer_starts (d : driver) (w : World Op W) k ptr delay : at_rest d (sys w) → idle (sys w) →
  fault (set_squeue [mkOpObject ptr k] d) (mkWorld (<[ptr := OpTimeout (Timeout_new delay)]> (boxes w)) (sys w)) ∨
  ∃ es d' s' dl, turn kind [] (set_squeue [mkOpObject ptr k] d) (mkWorld (<[ptr := OpTimeout (Timeout_new delay)]> (boxes w)) (sys w)) =
      Some (es, [], d', mkWorld (<[ptr := OpTimeout (Timeout_new delay)]> (boxes w)) s') ∧
    idle s' ∧ (clock (sys w) + delay ≤ dl)%Z ∧ (clock (sys w) ≤ clock s')%Z ∧ fires_or_waits k dl es d' s'.
Proof.
  intros (Hwf & Hsq & Hp & Ht & Hdr) Hidle. destruct d as [kq q cap dr pend chg ecap rdy comp rds wrs tw].
  cbn in Hsq, Hp, Ht, Hdr. subst q pend. destruct Hwf as (H1 & H2 & Htw). cbn in H1, H2, Htw.
  match goal with |- fault ?d1 ?w1 ∨ _ => destruct (submit_turn kind d1 w1) as [Et Hfault] end.
  destruct (instant_now (sys w)) as [now s1] eqn:E1. destruct (idle_now kind _ _ _ Hidle E1) as (-> & Hn1 & Hi1).
  destruct (instant_now s1) as [now s2] eqn:E2. destruct (idle_now kind _ _ _ Hi1 E2) as (-> & Hn2 & Hi2).
  rewrite Et. clear Et. match goal with |- fault ?x ?y ∨ _ => set (d1 := x) in *; set (w1 := y) in * end.
  assert (operate ptr w1 = Done (Some (Ok TIMER_PENDING), ptr, w1)) as Eo.
  { cbn. unfold deref. cbn. rewrite lookup_insert_eq. cbn. by rewrite insert_insert_eq. }
  assert (timer_delay ptr w1 = Done delay) as Edelay by (cbn; unfold deref; cbn; by rewrite lookup_insert_eq).
  assert (instant_now w1 = (clock s1, mkWorld (boxes w1) s1)) as En by (cbn; by rewrite E1).
  assert (submit None d1 w1 = (tw ← TimerWheel.insert (instant_add (W := W)) k delay (clock s1) tw;
    let '(es, tw) := expire_timers (clock s2) tw in
    Done (es, Ok tt, set_timers tw (set_drained cap (set_timers tw (set_squeue [] d1))), mkWorld (boxes w1) s2))) as Es.
  { unfold submit, operate_squeue. cbn -[operate timer_delay instant_now TimerWheel.insert]. rewrite Eo. cbn -[timer_delay instant_now TimerWheel.insert].
    rewrite (bool_decide_eq_true_2 (Ok _ = Ok _)) by done. rewrite Edelay. cbn -[instant_now TimerWheel.insert].
    rewrite En. destruct (TimerWheel.insert _ _ _ _ _) as [tw1| |]; cbn; [|done..]. rewrite E2.
    by destruct (expire_timers _ _). }
  rewrite Es. unfold TimerWheel.insert. destruct (idle_add kind (clock s1) delay) as [->|Ea]; cbn.
  2:{ left. apply Hfault. left. split; [by rewrite Es; unfold TimerWheel.insert; rewrite Ea|].
      exists [], (mkOpObject ptr k), [], [], (set_squeue [] d1), w1, ptr, w1, delay, (clock s1), (mkWorld (boxes w1) s1). by split_and!. }
  right.
  destruct (expire_timers (clock s2) _) as [es tw'] eqn:Ex. cbn.
  apply (expire_one _ k (clock s1 + delay)%Z) in Ex as (Hwf' & Hx); [|by apply heap_push_wf|].
  2:{ apply Permutation_singleton_r. rewrite heap_push_elems, Ht. done. }
  exists es. do 2 eexists. exists (clock s1 + delay)%Z. split; [reflexivity|]. unfold not_before in *. split_and!; [done|lia|lia|].
  unfold fires_or_waits, at_rest, timer_only, driver_wf. cbn.
  destruct Hx as [(-> & Htw' & Hd)|(-> & -> & Hd)]; [left|right]; split_and!; try done; try lia.
  apply Permutation_singleton_r. rewrite heap_push_elems, Ht. done.
Qed.

(** A turn that waits for the timer. *)
Lemma timer_waits (d : driver) (w : World Op W) k dl : timer_only k dl d → idle (sys w) → fault d w ∨
  ∃ es d' s', turn kind [] d w = Some (es, [], d', mkWorld (boxes w) s') ∧ idle s' ∧ (clock (sys w) ≤ clock s')%Z ∧
    fires_or_waits k dl es d' s' ∧ (es = [] → after clock stall (sys w) s').
Proof.
  intros (Hwf & Hsq & Hp & Ht & Hdr) Hidle. set (d0 := set_drained (squeue_capacity d) (set_squeue [] d)).
  destruct (submit_turn kind d w) as [Et Hfault].
  destruct (readiness_idle kind idle clock stall d0 w)
    as [(es & e & d' & w' & Er & Hk & Hf)|(es & d' & w' & Er & Hp' & Hr' & Hi' & Hx & Hlate & Hb & Hn)]; [..|by cbn; rewrite Ht| |].
  { destruct Hwf as (? & ? & ?). split_and!; cbn; [lia|done|done]. } { done. } { done. }
  { left. apply Hfault. right. split; [|split; [done|apply (Hf eq_refl)]]. unfold submit, operate_squeue. rewrite Hsq.
    cbn -[check_readiness operate_completed_and_requeue]. fold d0. rewrite Er. by do 4 eexists. }
  right.
  assert (∃ d2, submit None d w = Done (es, Ok tt, d2, w') ∧ io_pending d2 = [] ∧ timers d2 = timers d') as (d2 & Es & Hp2 & Ht2).
  { unfold submit, operate_squeue. rewrite Hsq. cbn -[check_readiness operate_completed_and_requeue]. fold d0. rewrite Er.
    cbn -[operate_completed_and_requeue]. unfold operate_completed_and_requeue. rewrite Hr'. cbn. rewrite Hp', app_nil_r. by eexists. }
  rewrite <- Ht2 in Hx. clear d' Er Hp' Hr' Ht2.
  pose proof (submit_spec _ _ _ _ _ _ _ (proj2 (proj2 Hwf)) Es) as (Hwf' & Hsq' & Hcap & Hdr' & _).
  apply (expire_one _ k dl) in Hx as (_ & Hx); [|apply Hwf|done]. destruct w' as [bs s']. cbn [sys boxes] in *. subst bs.
  exists es, d2, s'. split; [by rewrite Et, Es|].
  unfold not_before in Hn. split_and!; [done|lia| |done].
  assert (driver_wf d2 ∧ 0 < squeue_drained_till d2) as [? ?].
  { destruct Hwf as (? & ? & ?). split; [split_and!|]; [rewrite Hsq'; cbn; lia|lia|done|lia]. }
  unfold fires_or_waits, at_rest, timer_only.
  destruct Hx as [(-> & Htw' & Hd)|(-> & Htw' & Hd)]; [left|right]; split_and!; try done. by rewrite Htw'.
Qed.

Context `{!BoxAlloc Op W, !BoxAllocLaws Op W}.
Section reach.
Context (reached : driver → World Op W → Prop).
Notation reach := (reaches (D := driver) (Fd := Fd) (R := outcome unit) kind fault reached).

(** Awaiting the sleep as the task [t], in a program that goes on with [k0]. *)
Section await.
Context (t : nat) (k0 : io_result Z → Op → async Op Fd (outcome unit)) (k ptr : Z) (x : Op).
Notation flying := ({[t := InFlight k ptr]} : gmap nat (job Op)).
Notation reach_await := (reach (AwaitTask t k0) t).

(** What it ends in. *)
Definition slept (dl : Z) (bs : gmap Z Op) (s : W) (r : io_result Z) (_ : Op) (J : gmap nat (job Op))
    (q : list (OpObject Z)) (d : driver) (w : World Op W) : Prop :=
  r = Ok 0%Z ∧ J = {[t := Ended (Ok 0%Z) x]} ∧ q = [] ∧ at_rest d (sys w) ∧ idle (sys w) ∧ (dl ≤ clock (sys w))%Z ∧
  (clock s ≤ clock (sys w))%Z ∧ boxes w = bs ∧ reach_await J d w.

Lemma slept_mono dl bs s s' r o J q d w : (clock s' ≤ clock s)%Z → slept dl bs s r o J q d w → slept dl bs s' r o J q d w.
Proof. unfold slept. intros ? (? & ? & ? & ? & ? & ? & ? & ? & ?). split_and!; try done; lia. Qed.

(** A turn after which the timer has fired, or is still waited for as the last premise says. *)
Lemma turn_or_wait dl es (d d' : driver) (w w' : World Op W) :
  turn kind [] d w = Some (es, [], d', w') → boxes w' !! ptr = Some x → idle (sys w') → fires_or_waits k dl es d' (sys w') →
  reach_await flying d w →
  (es = [] → timer_only k dl d' → (clock (sys w') < dl)%Z → reach_await flying d' w' →
    awaits kind (at_fault reached) t (slept dl (delete ptr (boxes w')) (sys w')) flying [] d' w') →
  awaits kind (at_fault reached) t (slept dl (delete ptr (boxes w')) (sys w')) flying [] d w.
Proof.
  intros Et Hx Hi Hf Hre Hwait. eapply awaits_turn; [by rewrite lookup_singleton_eq|exact Et|].
  assert (reach_await (settle es w' <$> flying) d' (free (settled_ptrs es flying) w')) as Hre'.
  { intros d2 w2 Hc. apply Hre. eapply comes_turn; [by rewrite lookup_singleton_eq|exact Et|exact Hc]. }
  destruct Hf as [(-> & Hr & Hd)|(-> & Ht & Hd)].
  - destruct (settle_one t k ptr (Ok 0%Z) w' x Hx) as [E1 E2]. rewrite E1, E2 in *. eapply awaits_ended; [by rewrite lookup_singleton_eq|].
    by split_and!.
  - destruct (settle_nothing t k ptr w') as [E1 E2]. rewrite E1, E2 in *. by apply Hwait.
Qed.

(** A fault is reached. *)
Lemma await_fault Q (d : driver) (w : World Op W) : fault d w → reach_await flying d w → awaits kind (at_fault reached) t Q flying [] d w.
Proof.
  intros Hf Hre. eapply awaits_fault; [by rewrite lookup_singleton_eq|]. split; [done|]. apply Hre; [|done].
  eapply comes_here. by rewrite lookup_singleton_eq.
Qed.

(** The clock moves on, or the calls until it does become fewer. *)
Lemma timer_fires dl : ∀ n m (d : driver) (w : World Op W), Z.to_nat (dl - clock (sys w)) = n → stall (sys w) = m →
  timer_only k dl d → (clock (sys w) < dl)%Z → idle (sys w) → boxes w !! ptr = Some x → reach_await flying d w →
  awaits kind (at_fault reached) t (slept dl (delete ptr (boxes w)) (sys w)) flying [] d w.
Proof.
  induction n as [n IHn] using lt_wf_ind. induction m as [m IHm] using lt_wf_ind. intros d w Hn Hm Ht Hlt Hi Hx Hre.
  destruct (timer_waits d w k dl Ht Hi) as [Hf|(es & d' & s' & Et & Hi' & Hc & Hf & Hlate)]; [by apply await_fault|].
  eapply awaits_mono; [|eapply (turn_or_wait dl); [exact Et|done|done|exact Hf|done|]].
  { intros r o J q d2 w2. by apply slept_mono. }
  intros Hes Ht' Hlt' Hre'. destruct (Hlate Hes) as [Ha|[Ha Hs]]; cbn [sys] in *.
  - eapply IHn; [|reflexivity|reflexivity|done..]. cbn. lia.
  - eapply IHm; [|cbn; by rewrite Ha|reflexivity|done..]. cbn. lia.
Qed.
End await.

Lemma sleep_completes ds : ∀ n (d : driver) (w : World Op W), at_rest d (sys w) → idle (sys w) →
  reach (async_of (sleep_all ds)) n ∅ d w →
  completes kind fresh_keys (at_fault reached) (async_of (sleep_all ds)) n ∅ [] d w (λ r q d' w', r = Done tt ∧ at_rest d' (sys w') ∧ idle (sys w') ∧
    (clock (sys w) + foldr Z.add 0 ds ≤ clock (sys w'))%Z ∧ boxes w' = boxes w).
Proof.
  induction ds as [|delay ds IH]; intros n d w Hr Hi Hre; cbn; [split_and!; try done; lia|].
  split; [done|]. intros k Hkey. pose proof (box_addr_fresh w) as Hptr. set (x := OpTimeout (Timeout_new delay) : Op).
  set (w1 := mkWorld (<[box_addr w := x]> (boxes w)) (sys w)). set (d1 := set_squeue [OpObject_new (box_addr w) k] d).
  assert (ci_try_push_dyn (OpObject_new (box_addr w) k) d w1 = Done (Ok tt, d1, w1)) as Ep.
  { cbn. unfold try_push_dyn, capacity_left. destruct Hr as (_ & Hsq & _ & _ & Hdr). rewrite Hsq. cbn. by rewrite bool_decide_eq_true_2 by lia. }
  exists (Ok tt), d1, w1. split; [exact Ep|].
  match goal with |- awaits _ _ _ (λ r o J q d w, completes _ _ _ (@?k0 r o) _ _ _ _ _ _) _ _ _ _ =>
    assert (reach (AwaitTask (Datatypes.S n) k0) (Datatypes.S n) {[Datatypes.S n := InFlight k (box_addr w)]} d1 w1) as Hre1 end.
  { intros d2 w2 Hct. apply Hre. eapply comes_spawn; [exact Hkey|exact Ep|exact Hct]. }
  destruct (timer_starts d w k (box_addr w) delay Hr Hi) as [Hf|(es & d' & s' & dl & Et & Hi' & Hdl & Hc & Hf)]; [by eapply await_fault|].
  eapply awaits_mono; [|eapply (turn_or_wait _ _ _ _ x dl); [exact Et|by apply lookup_insert_eq|done|exact Hf|exact Hre1|]].
  - intros r o J q d2 w2 (-> & -> & -> & Hr2 & Hi2 & Hdl2 & _ & Hb & Hre2). rewrite delete_singleton_eq. cbn [boxes sys] in *.
    rewrite delete_insert_id in Hb by done. eapply completes_mono; [|apply IH; [done|done|]].
    + intros r q d3 w3 (? & ? & ? & ? & ?). split_and!; try done; [lia|congruence].
    + intros d3 w3 Hct. apply Hre2. eapply comes_join; [by rewrite lookup_singleton_eq|]. by rewrite delete_singleton_eq.
  - intros _ Ht' Hlt' Hre2. by eapply timer_fires; [reflexivity|reflexivity|..|by apply lookup_insert_eq|].
Qed.

End reach.

Context {S : Type} `{!AsyncTask, !Slab S, !SlabLaws S, !SlabRoom (S := S)}.

(** C8 Sleeping on kqueue, from the method to the clock: [block_on] of sleeps, one after the other, ends,
    no [expect] panics, and the clock has moved on by at least the sum of the durations; the driver is
    at rest again, with its wheel, its queues, the slab and the boxes as they were.  The only other
    end is a panic of the driver or the runtime, at a state the sleeps have come to, where the
    deadline of the timer is no instant or a [kevent] call fails (as with [EINTR]). *)
Theorem kqueue_sleep ds (d : driver) (w : World Op W) : (∀ t, ¬ task_completed t) → at_rest d (sys w) → idle (sys w) →
  ∃ N, ∀ fuel, N ≤ fuel →
    let x := task_block_on (S := S) run_block block_result kind fuel 0 None (Ok d) w (mkBlock (At (async_of (sleep_all ds))) ∅ 0 None) in
    (∃ rt w' u, x = Some (Done (Done tt, rt, w', u)) ∧
      (clock (sys w) + foldr Z.add 0 ds ≤ clock (sys w'))%Z ∧ at_rest (rt_driver rt) (sys w') ∧ boxes w' = boxes w ∧
      runnables rt = [] ∧ (∀ k, slab_get k (op_runtime rt) = None)) ∨
    x = Some Panic ∧ ∃ d' w', comes_to kind fresh_keys (async_of (sleep_all ds)) 0 ∅ [] d w [] d' w' ∧
      (deadline_overflows d' w' ∨ wait_fails d' w').
Proof.
  intros Hlive Hr Hi. assert (sq_wf (Op := Z) (W := World Op W) d) as Hwf by apply Hr.
  set (reached := λ d' w', comes_to kind fresh_keys (async_of (sleep_all ds)) 0 ∅ [] d w [] d' w' ∧ fault d' w').
  assert (reaches kind fault reached (async_of (sleep_all ds)) 0 ∅ d w) as Hre by by intros ???.
  destruct (block_on_stops (S := S) kind fresh_keys Hlive _ _ _ d w Hwf (sleep_completes reached ds 0 d w Hr Hi Hre)) as [N HN].
  exists N. intros fuel Hf. destruct (HN fuel Hf)
    as [(r & rt & w' & u & E & (-> & Hr' & _ & Hc & Hb) & Hrun & _ & Hk & _)|(q & d' & w' & (-> & Hct & Hpan & Hwhy) & Hx)].
  - left. exists rt, w', u. by split_and!.
  - right. split; [by apply Hx|]. by exists d', w'.
Qed.
End sleep.

(** ** On the kernel of the simulation *)

Lemma sim_driver_rests s : at_rest (W := Sim) ref_driver s.
Proof. split; [apply ref_driver_wf|]. split_and!; try done. cbn. lia. Qed.

Lemma kqueue_sleep_witness :
  ∃ fuel rt w' u, task_block_on (S := list (option RegisteredOp)) run_block (block_result (R := outcome unit)) kind_of fuel 0 None
      (Ok ref_driver) (w0 : World SimOp Sim) (mkBlock (At (async_of (sleep_all [500; 20; 0]%Z))) ∅ 0 None) =
      Some (Done (Done tt, rt, w', u)) ∧ (520 ≤ sim_clock (sys w'))%Z.
Proof.
  destruct (kqueue_sleep sim_idle sim_clock (λ _, 0) kind_of (S := list (option RegisteredOp)) [500; 20; 0]%Z ref_driver w0
    queue_tasks_live (sim_driver_rests _) eq_refl) as [N HN].
  destruct (HN N (le_n N)) as [(rt & w' & u & E & Hc & _)|(_ & d' & w' & _ & Hf)].
  - exists N, rt, w', u. split; [exact E|]. cbn in Hc. lia.
  - exfalso. destruct Hf as [(? & ? & ? & ? & ? & ? & ? & ? & ? & ? & ? & _ & _ & _ & _ & _ & Hadd)|(_ & ? & ? & ? & ? & ? & _ & _ & Hk)].
    + discriminate Hadd.
    + discriminate Hk.
Defined.
