(* ===== verification/Event.v ===== *)
(** * Events

    [src/event]: an event is an object a task can wait for and another thread
    can notify.  It is an eventfd where the system has them
    ([eventfd.rs]), a pipe on other Unix systems ([pipe.rs]) and a key of the runtime on Windows ([iocp.rs]).  [EventOs] is the part of libc the Unix versions call. *)

From S2P Require Import Prelude Driver Buf UnixOps Iocp Attacher Runtime.
From stdpp Require Import base numbers list gmap.

(** [eventfd], [pipe2] and [pipe] return descriptors; [fcntl] is called with [F_SETFL, O_NONBLOCK] or
    [F_SETFD, FD_CLOEXEC]; [set_fionbio] is [ioctl(fd, FIONBIO, ..)]; [dup] is
    [OwnedFd::try_clone]; [close] also stands for dropping an owned descriptor. *)
Inductive fcntl_cmd := SETFL_NONBLOCK | SETFD_CLOEXEC.

Class EventOs (W : Type) := {
  eventfd : W → io_result Z * W;
  pipe2 : W → io_result (Z * Z) * W;
  pipe : W → io_result (Z * Z) * W;
  fcntl : Z → fcntl_cmd → W → Z * W;
  last_os_error : W → io_error;
  set_fionbio : Z → Z → W → Z * W;
  dup : Z → W → io_result Z * W;
  write : Z → list byte → W → io_result Z * W;
  close : Z → W → W;
}.

(** [ArrayVec::new()] of the given capacity. *)
Definition ArrayVec_new (ptr : Z) (capacity : nat) : ArrayVec :=
  mkArrayVec (mkRawBuf ptr (replicate capacity Byte.x00) 0).

(** [src/src/event/pipe.rs:52-55] EventHandle; also eventfd.rs *)
Record EventHandle := mkEventHandle { handle_fd : Z }.
(** [src/src/event/eventfd.rs:48-51] *)
Definition EventHandle_new (fd : Z) : EventHandle := mkEventHandle fd.

Section eventfd.
Context {F FF W : Type} `{!EventOs W, !RuntimeAttach F W} (into : F → FF).

(** [src/src/event/eventfd.rs:10-15] *)
Record Eventfd_Event := mkEventfdEvent { eventfd_fd : Z }.

(** [src/src/event/eventfd.rs:18-23] *)
Definition Eventfd_new (w : W) : io_result Eventfd_Event * W :=
  let '(r, w) := eventfd w in (result_map mkEventfdEvent r, w).

(** [src/src/event/eventfd.rs:25-28] *)
Definition Eventfd_handle (self : Eventfd_Event) (w : W) : io_result EventHandle * W :=
  let '(r, w) := dup (eventfd_fd self) w in (result_map EventHandle_new r, w).

(** [src/src/event/eventfd.rs:30-38] [ptr] is where the buffer lives *)
Definition Eventfd_wait `{!Await (Read FF ArrayVec) W} (ptr : Z) (self : Eventfd_Event) (w : W) : io_result unit * W :=
  let buffer := ArrayVec_new ptr 8 in
  match runtime_attach (eventfd_fd self) w with
  | (Err e, w) => (Err e, w)
  | (Ok fd, w) =>
      let '(res, _, w) := await_op (Read_new into fd buffer) w in
      (result_map (λ _, tt) res, w)
  end.

(** [src/src/event/eventfd.rs:53-62] [1u64] in memory, little-endian *)
Definition Eventfd_notify (self : EventHandle) (w : W) : io_result unit * W :=
  let data := Byte.x01 :: replicate 7 Byte.x00 in
  let '(r, w) := write (handle_fd self) data w in (result_map (λ _, tt) r, w).
End eventfd.

Section pipe.
Context {F FF W : Type} `{!EventOs W, !RuntimeAttach F W} (into : F → FF).
(** Whether the platform has [pipe2]. *)
Context (has_pipe2 : bool).

(** [src/src/event/pipe.rs:215-222] *)
Definition set_nonblocking (fd : Z) (nonblocking : bool) (w : W) : io_result unit * W :=
  let value := if nonblocking then 1%Z else 0%Z in
  let '(res, w) := set_fionbio fd value w in
  (if bool_decide (res = -1)%Z then Err (last_os_error w) else Ok tt, w).

(** [src/src/event/pipe.rs:134-137] *)
Record Sender := mkSender { sender_inner : Z }.
(** [src/src/event/pipe.rs:169-172] *)
Record Receiver := mkReceiver { receiver_inner : Z }.
(** [src/src/event/pipe.rs:146-152] *)
Definition Sender_from_raw_fd (fd : Z) : Sender := mkSender fd.
(** [src/src/event/pipe.rs:154-158] *)
Definition Sender_as_raw_fd (self : Sender) : Z := sender_inner self.
(** [src/src/event/pipe.rs:160-164] *)
Definition Sender_into_raw_fd (self : Sender) : Z := sender_inner self.
(** [src/src/event/pipe.rs:194-200] *)
Definition Receiver_from_raw_fd (fd : Z) : Receiver := mkReceiver fd.
(** [src/src/event/pipe.rs:202-206] *)
Definition Receiver_as_raw_fd (self : Receiver) : Z := receiver_inner self.
(** [src/src/event/pipe.rs:208-212] *)
Definition Receiver_into_raw_fd (self : Receiver) : Z := receiver_inner self.
(** [src/src/event/pipe.rs:177-182] a [ChildStdout] is the descriptor it owns *)
Definition Receiver_from_ChildStdout (stdout : Z) : Receiver := Receiver_from_raw_fd stdout.
(** [src/src/event/pipe.rs:187-192] *)
Definition Receiver_from_ChildStderr (stderr : Z) : Receiver := Receiver_from_raw_fd stderr.
(** [src/src/event/pipe.rs:57-60] *)
Definition PipeEventHandle_new (fd : Z) : EventHandle := mkEventHandle fd.
(** [src/src/event/pipe.rs:141-143] *)
Definition Sender_set_nonblocking (self : Sender) (nonblocking : bool) (w : W) : io_result unit * W :=
  set_nonblocking (Sender_as_raw_fd self) nonblocking w.

(** [src/src/event/pipe.rs:12-18] *)
Record Pipe_Event := mkPipeEvent { sender : Z; receiver : Z }.

(** [src/src/event/pipe.rs:107-117] the loop that sets the flags of the two descriptors *)
Fixpoint set_flags (todo : list Z) (fds : Z * Z) (w : W) : io_result (Z * Z) * W :=
  match todo with
  | [] => (Ok fds, w)
  | fd :: todo =>
      let '(a, w) := fcntl fd SETFL_NONBLOCK w in
      let '(failed, w) :=
        if bool_decide (a ≠ 0)%Z then (true, w)
        else let '(b, w) := fcntl fd SETFD_CLOEXEC w in (bool_decide (b ≠ 0)%Z, w) in
      if failed : bool then
        let err := last_os_error w in
        (Err err, close fds.2 (close fds.1 w))
      else set_flags todo fds w
  end.

(** [src/src/event/pipe.rs:72-121] the reading end first *)
Definition pipe_new_raw (w : W) : io_result (Z * Z) * W :=
  if has_pipe2 then pipe2 w
  else match pipe w with
       | (Err e, w) => (Err e, w)
       | (Ok fds, w) => set_flags [fds.1; fds.2] fds w
       end.

(** [src/src/event/pipe.rs:123-129] Sender and Receiver *)
Definition pipe_new (w : W) : io_result (Sender * Receiver) * W :=
  match pipe_new_raw w with
  | (Err e, w) => (Err e, w)
  | (Ok fds, w) => (Ok (Sender_from_raw_fd fds.2, Receiver_from_raw_fd fds.1), w)
  end.

(** [src/src/event/pipe.rs:21-28] when [set_nonblocking] fails both ends are dropped *)
Definition Pipe_new (w : W) : io_result Pipe_Event * W :=
  match pipe_new w with
  | (Err e, w) => (Err e, w)
  | (Ok (sender, receiver), w) =>
      match Sender_set_nonblocking sender false w with
      | (Err e, w) => (Err e, close (sender_inner sender) (close (receiver_inner receiver) w))
      | (Ok _, w) => (Ok (mkPipeEvent (sender_inner sender) (receiver_inner receiver)), w)
      end
  end.

(** [src/src/event/pipe.rs:30-33] *)
Definition Pipe_handle (self : Pipe_Event) (w : W) : io_result EventHandle * W :=
  let '(r, w) := dup (sender self) w in (result_map PipeEventHandle_new r, w).

(** [src/src/event/pipe.rs:46-50] *)
Definition Pipe_as_raw_fd (self : Pipe_Event) : Z := receiver self.

(** [src/src/event/pipe.rs:35-43] *)
Definition Pipe_wait `{!Await (Read FF ArrayVec) W} (ptr : Z) (self : Pipe_Event) (w : W) : io_result unit * W :=
  let buffer := ArrayVec_new ptr 1 in
  match runtime_attach (receiver self) w with
  | (Err e, w) => (Err e, w)
  | (Ok fd, w) =>
      let '(res, _, w) := await_op (Read_new into fd buffer) w in
      (result_map (λ _, tt) res, w)
  end.

(** [src/src/event/pipe.rs:62-67] *)
Definition Pipe_notify (self : EventHandle) (w : W) : io_result unit * W :=
  let '(r, w) := write (handle_fd self) [Byte.x01] w in (result_map (λ _, tt) r, w).
End pipe.

(** ** Creating an event leaks no descriptor *)

Section properties.
Context {W : Type} `{!EventOs W} (open_fds : W → gset Z) (has_pipe2 : bool).

(** A new pipe is two descriptors that were not open; [close] closes one; the other calls change
    nothing. *)
Class PipeLaws : Prop := {
  pipe2_opens w r w' : pipe2 w = (r, w') →
    match r with
    | Ok (a, b) => a ≠ b ∧ (a ∉ open_fds w) ∧ (b ∉ open_fds w) ∧ open_fds w' = {[a; b]} ∪ open_fds w
    | Err _ => open_fds w' = open_fds w
    end;
  pipe_opens w r w' : pipe w = (r, w') →
    match r with
    | Ok (a, b) => a ≠ b ∧ (a ∉ open_fds w) ∧ (b ∉ open_fds w) ∧ open_fds w' = {[a; b]} ∪ open_fds w
    | Err _ => open_fds w' = open_fds w
    end;
  fcntl_keeps fd c w : open_fds (fcntl fd c w).2 = open_fds w;
  fionbio_keeps fd b w : open_fds (set_fionbio fd b w).2 = open_fds w;
  close_closes fd w : open_fds (close fd w) = open_fds w ∖ {[fd]};
}.
Context `{!PipeLaws}.

(** Two descriptors more, or none. *)
Definition opened (before : gset Z) (r : io_result (Z * Z)) (after : gset Z) : Prop :=
  match r with
  | Ok (a, b) => a ≠ b ∧ (a ∉ before) ∧ (b ∉ before) ∧ after = {[a; b]} ∪ before
  | Err _ => after = before
  end.

Lemma set_flags_opened before todo a b : ∀ w r w',
  a ≠ b → a ∉ before → b ∉ before → open_fds w = {[a; b]} ∪ before →
  set_flags todo (a, b) w = (r, w') → opened before r (open_fds w') ∧ (∀ p, r = Ok p → p = (a, b)).
Proof.
  induction todo as [|fd todo IH]; intros w r w' Hab Ha Hb Hw; cbn.
  { intros [= <- <-]. split; [done|]. by intros p [= <-]. }
  pose proof (fcntl_keeps fd SETFL_NONBLOCK w) as H1. destruct (fcntl fd SETFL_NONBLOCK w) as [x w1]. cbn in H1.
  destruct (if bool_decide (x ≠ 0)%Z then _ else _) as [failed w2] eqn:E.
  assert (open_fds w2 = {[a; b]} ∪ before) as Hw2.
  { case_bool_decide; [by simplify_eq; congruence|].
    pose proof (fcntl_keeps fd SETFD_CLOEXEC w1) as H2. destruct (fcntl fd SETFD_CLOEXEC w1) as [y w3].
    cbn in H2. simplify_eq. congruence. }
  destruct failed; [|by apply IH]. intros [= <- <-]. split; [|done]. cbn.
  rewrite !close_closes, Hw2. set_solver.
Qed.

Lemma pipe_new_raw_opened w r w' :
  pipe_new_raw has_pipe2 w = (r, w') → opened (open_fds w) r (open_fds w').
Proof.
  unfold pipe_new_raw. destruct has_pipe2; [by apply pipe2_opens|].
  destruct (pipe w) as [[[a b]|e] w1] eqn:E; apply pipe_opens in E; [|by intros [= <- <-]].
  destruct E as (? & ? & ? & ?). intros E. by eapply (set_flags_opened (open_fds w)) in E as [? _].
Qed.

(** C32 Creating a pipe event leaks nothing on any path: on success exactly its two ends are open in
    addition, and when a call on the way fails the open descriptors are those from before. *)
Theorem pipe_event_no_leak w r w' :
  Pipe_new has_pipe2 w = (r, w') →
  match r with
  | Ok e => sender e ≠ receiver e ∧ (sender e ∉ open_fds w) ∧ (receiver e ∉ open_fds w) ∧
      open_fds w' = {[sender e; receiver e]} ∪ open_fds w
  | Err _ => open_fds w' = open_fds w
  end.
Proof.
  unfold Pipe_new, pipe_new. destruct (pipe_new_raw has_pipe2 w) as [[[a b]|e] w1] eqn:E;
    apply pipe_new_raw_opened in E; cbn in E; [|by intros [= <- <-]]. destruct E as (? & ? & ? & Hw1).
  pose proof (fionbio_keeps b 0 w1) as Hk. cbn. unfold Sender_set_nonblocking, set_nonblocking. cbn.
  destruct (set_fionbio b 0 w1) as [res w2]; cbn in Hk. case_bool_decide; cbn; intros [= <- <-]; cbn.
  - rewrite !close_closes, Hk, Hw1. set_solver.
  - set_solver.
Qed.
End properties.

(** ** The event of the IOCP driver

    [src/event/iocp.rs]: an event is a slot of the runtime without an operation, and notifying it posts
    a packet with the key of the slot. *)

Section iocp_event.
Context {Op W S D Fd : Type} `{!AsyncTask, !Slab S, !BoxAlloc Op W, !CompleteIo Z (World Op W) D Fd}.
Notation rt_t := (Runtime S D).
Notation world := (World Op W).

(** [src/src/event/iocp.rs:11-14] *)
Record Iocp_Event := mkIocpEvent { event_user_data : Key }.

(** [src/src/event/iocp.rs:17-21] *)
Definition Iocp_new (rt : rt_t) : outcome (io_result Iocp_Event * rt_t) :=
  '(user_data, rt) ← submit_dummy rt; Done (Ok (mkIocpEvent user_data), rt).

(** [src/src/event/iocp.rs:28-33] the future that [wait] polls *)
Definition Iocp_wait (self : Iocp_Event) : OpFuture := OpFuture_new (event_user_data self).

(** [src/src/event/iocp.rs:36-51] the handle of the port and an [Overlapped] with the key *)
Definition IocpEventHandle_new (as_raw_fd : D → Z) (user_data : Key) (rt : rt_t) : Z * Overlapped :=
  (raw_driver as_raw_fd rt, Overlapped_new (Key_deref user_data)).

(** [src/src/event/iocp.rs:23-26] *)
Definition Iocp_handle (as_raw_fd : D → Z) (self : Iocp_Event) (rt : rt_t) : io_result (Z * Overlapped) :=
  Ok (IocpEventHandle_new as_raw_fd (event_user_data self) rt).

(** [src/src/event/iocp.rs:53-56] *)
Definition IocpEventHandle_notify {V} `{!IocpOs V} (set_internal : Z → Z → V → V) (handle overlapped : Z) (v : V) :
    io_result unit * V :=
  post_driver_raw set_internal handle (Ok 0%Z) overlapped v.

(** A poll of a wait, by the task [cx]. *)
Definition Iocp_wait_poll (cx : nat) (fut : OpFuture) (rt : rt_t) (w : world) :=
  OpFuture_unit_poll cx fut rt w.

Context `{!SlabLaws S}.

(** An event of the IOCP driver can be waited for once: the wait that sees the notification vacates
    the event's slot, and every later wait for the same event is pending and leaves no waker, so
    that no notification can ever wake it, as long as no other operation gets the slot. *)
Theorem iocp_event_single_use cx cx' (e : Iocp_Event) (rt : rt_t) (w : world) r fut rt' w' :
  Iocp_wait_poll cx (Iocp_wait e) rt w = Done (Ready r, fut, rt', w') →
  slab_get (key_user_data (event_user_data e)) (op_runtime rt') = None ∧
  Iocp_wait_poll cx' (Iocp_wait e) rt' w' = Done (Pending, Iocp_wait e, rt', w').
Proof.
  unfold Iocp_wait_poll, OpFuture_unit_poll, Iocp_wait, OpFuture_new. cbn [fut_user_data].
  set (k := event_user_data e). unfold poll_dummy at 1.
  destruct (has_result k (op_runtime rt)) eqn:Hr; cbn; [|done].
  unfold Runtime.remove. destruct (slab_get (key_user_data k) (op_runtime rt)) as [op|]; cbn; [|done].
  intros E. assert (op_runtime rt' = slab_remove (key_user_data k) (op_runtime rt)) as Hs.
  { destruct (reg_op op) as [p|], (key_type k); cbn in E; repeat case_match; simplify_eq/=;
      destruct (reg_result op); cbn in *; by simplify_eq. }
  assert (slab_get (key_user_data k) (op_runtime rt') = None) as Hn
    by (rewrite Hs, slab_remove_get; by rewrite bool_decide_eq_true_2).
  split; [done|]. unfold poll_dummy, has_result, update_waker. rewrite Hn. cbn. by destruct rt'.
Qed.
End iocp_event.
