(* ===== verification/Signal.v ===== *)
(** * Signals

    [src/signal/unix.rs] and [src/signal/windows.rs].  A listener is an event
    whose handle is kept in a table under its signal; the handler takes the
    handles of the signal out of the table and notifies them.  [EventApi] is
    what the listeners use of [src/event].  The table of the Unix version is a
    thread-local [RefCell], so whether it is borrowed is part of the state: a
    signal may arrive at any time. *)

From S2P Require Import Prelude Event.
From stdpp Require Import base numbers list gmap.

(** [Event::new], [as_raw_fd], [handle], [notify], and what dropping an event and a handle does. *)
Class EventApi (E H W : Type) := {
  event_new : W → io_result E * W;
  event_raw_fd : E → Z;
  event_handle : E → W → io_result H * W;
  event_notify : H → W → io_result unit * W;
  event_drop : E → W → W;
  handle_drop : H → W → W;
}.

(** What is known of them: a new event has a descriptor that no other open event has, and a handle
    is one of the event it was obtained from.  [notified] are the events on which [notify] has been
    called since they were created. *)
Class EventLaws (E H W : Type) `{!EventApi E H W} := {
  open_events : W → gset Z;
  notified : W → gset Z;
  handle_event : H → Z;
  event_new_laws w : match event_new w with
    | (Ok e, w') => (event_raw_fd e ∉ open_events w) ∧ open_events w' = {[event_raw_fd e]} ∪ open_events w ∧
        notified w' = notified w ∖ {[event_raw_fd e]}
    | (Err _, w') => open_events w' = open_events w ∧ notified w' = notified w
    end;
  event_handle_laws e w : let '(r, w') := event_handle e w in
    open_events w' = open_events w ∧ notified w' = notified w ∧ (∀ h, r = Ok h → handle_event h = event_raw_fd e);
  event_notify_laws h w : open_events (event_notify h w).2 = open_events w ∧
    notified (event_notify h w).2 = {[handle_event h]} ∪ notified w;
  event_drop_laws e w : open_events (event_drop e w) = open_events w ∖ {[event_raw_fd e]} ∧
    notified (event_drop e w) = notified w;
  handle_drop_laws h w : open_events (handle_drop h w) = open_events w ∧ notified (handle_drop h w) = notified w;
}.

(** ** Unix *)

Section unix.
Context {E H W : Type} `{!EventApi E H W}.
(** The order in which a hash map is iterated. *)
Context (iteration : gmap Z H → list (Z * H)).

(** [src/src/signal/unix.rs:12-15] the table of the thread, whether it is borrowed, and the signals
    whose handler is [signal_handler] *)
Record SignalState := mkSignalState {
  HANDLER : gmap Z (gmap Z H); borrowed : bool; handled : gset Z }.

(** [src/src/signal/unix.rs:22-25] the loop that notifies the handles it took, and drops them *)
Fixpoint notify_all (fds : list (Z * H)) (w : W) : W :=
  match fds with
  | [] => w
  | (_, fd) :: fds => let '(_, w) := event_notify fd w in notify_all fds (handle_drop fd w)
  end.

(** [src/src/signal/unix.rs:17-29] *)
Definition signal_handler (sig : Z) (s : SignalState) (w : W) : outcome (SignalState * W) :=
  if borrowed s then Panic
  else
    match HANDLER s !! sig with
    | Some fds =>
        if bool_decide (fds ≠ ∅) then
          let s := mkSignalState (<[sig := ∅]> (HANDLER s)) (borrowed s) (handled s) in
          Done (s, notify_all (iteration fds) w)
        else Done (s, w)
    | None => Done (s, w)
    end.

(** [src/src/signal/unix.rs:31-33] *)
Definition init (sig : Z) (s : SignalState) : SignalState :=
  mkSignalState (HANDLER s) (borrowed s) ({[sig]} ∪ handled s).

(** [src/src/signal/unix.rs:35-37] *)
Definition uninit (sig : Z) (s : SignalState) : SignalState :=
  mkSignalState (HANDLER s) (borrowed s) (handled s ∖ {[sig]}).

(** A handle that a table no longer holds is dropped. *)
Definition drop_old (old : option H) (w : W) : W := match old with Some h => handle_drop h w | None => w end.

(** [src/src/signal/unix.rs:39-51] *)
Definition register (sig : Z) (fd : E) (s : SignalState) (w : W) : outcome (io_result unit * SignalState * W) :=
  let s := init sig s in
  let raw_fd := event_raw_fd fd in
  match event_handle fd w with
  | (Err e, w) => Done (Err e, s, w)
  | (Ok handle, w) =>
      if borrowed s then Panic
      else
        let fds := default ∅ (HANDLER s !! sig) in
        Done (Ok tt, mkSignalState (<[sig := <[raw_fd := handle]> fds]> (HANDLER s)) (borrowed s) (handled s),
              drop_old (fds !! raw_fd) w)
  end.

(** [src/src/signal/unix.rs:53-67] *)
Definition unregister (sig fd : Z) (s : SignalState) (w : W) : outcome (SignalState * W) :=
  if borrowed s then Panic
  else
    let '(need_uninit, s, w) :=
      match HANDLER s !! sig with
      | Some fds =>
          let w := drop_old (fds !! fd) w in
          let fds := delete fd fds in
          (bool_decide (fds = ∅), mkSignalState (<[sig := fds]> (HANDLER s)) (borrowed s) (handled s), w)
      | None => (true, s, w)
      end in
    Done (if need_uninit : bool then uninit sig s else s, w).

(** [src/src/signal/unix.rs:69-74] *)
Record SignalFd := mkSignalFd { sig_of : Z; event_of : E }.

(** [src/src/signal/unix.rs:76-81] *)
Definition SignalFd_new (sig : Z) (s : SignalState) (w : W) : outcome (io_result SignalFd * SignalState * W) :=
  match event_new w with
  | (Err e, w) => Done (Err e, s, w)
  | (Ok fd, w) =>
      '(r, s, w) ← register sig fd s w;
      match r with
      | Ok _ => Done (Ok (mkSignalFd sig fd), s, w)
      | Err e => Done (Err e, s, event_drop fd w)
      end
  end.

(** [src/src/signal/unix.rs:88-92] *)
Definition SignalFd_drop (self : SignalFd) (s : SignalState) (w : W) : outcome (SignalState * W) :=
  '(s, w) ← unregister (sig_of self) (event_raw_fd (event_of self)) s w;
  Done (s, event_drop (event_of self) w).

Section waiting.
(** [Event::wait]; while it waits signals may arrive. *)
Context (event_wait : E → SignalState → W → io_result unit * SignalState * W).

(** [src/src/signal/unix.rs:83-85] *)
Definition SignalFd_wait (self : SignalFd) (s : SignalState) (w : W) : io_result unit * SignalState * W :=
  event_wait (event_of self) s w.

(** [src/src/signal/unix.rs:96-99] the listener is dropped at the end *)
Definition signal (sig : Z) (s : SignalState) (w : W) : outcome (io_result unit * SignalState * W) :=
  '(r, s, w) ← SignalFd_new sig s w;
  match r with
  | Err e => Done (Err e, s, w)
  | Ok fd =>
      let '(r, s, w) := SignalFd_wait fd s w in
      '(s, w) ← SignalFd_drop fd s w;
      Done (r, s, w)
  end.

Definition SIGINT : Z := 2.
(** [src/src/signal/mod.rs:28-30] *)
Definition unix_ctrl_c (s : SignalState) (w : W) : outcome (io_result unit * SignalState * W) := signal SIGINT s w.
End waiting.

(** ** Listeners are not lost

    A program creates and drops listeners while signals arrive; [live] are the listeners, as signal
    and descriptor. *)
Record Run := mkRun { run_state : SignalState; run_world : W; live : gset (Z * Z) }.

(** The listeners whose handles are in the table. *)
Definition waiting (s : SignalState) (sig fd : Z) : Prop :=
  ∃ fds, HANDLER s !! sig = Some fds ∧ is_Some (fds !! fd).

Inductive run_step : Run → Run → Prop :=
| step_new sig f s w l s' w' :
    SignalFd_new sig s w = Done (Ok f, s', w') →
    run_step (mkRun s w l) (mkRun s' w' ({[(sig, event_raw_fd (event_of f))]} ∪ l))
| step_failed sig e s w l s' w' :
    SignalFd_new sig s w = Done (Err e, s', w') → run_step (mkRun s w l) (mkRun s' w' l)
| step_drop f s w l s' w' :
    (sig_of f, event_raw_fd (event_of f)) ∈ l → SignalFd_drop f s w = Done (s', w') →
    run_step (mkRun s w l) (mkRun s' w' (l ∖ {[(sig_of f, event_raw_fd (event_of f))]}))
| step_signal sig s w l s' w' :
    sig ∈ handled s → signal_handler sig s w = Done (s', w') → run_step (mkRun s w l) (mkRun s' w' l).

Section not_lost.
Context `{!EventLaws E H W} (iteration_all : ∀ m, iteration m ≡ₚ map_to_list m).

(** Every listener's event was notified, or its handle waits in the table and the handler is installed. *)
Definition run_ok (r : Run) : Prop :=
  ∀ sig fd, (sig, fd) ∈ live r →
    fd ∈ notified (run_world r) ∨ (waiting (run_state r) sig fd ∧ sig ∈ handled (run_state r)).

(** The handles in the table are those of the events whose descriptors they are kept under. *)
Definition handles_named (s : SignalState) : Prop :=
  ∀ sig fds fd h, HANDLER s !! sig = Some fds → fds !! fd = Some h → handle_event h = fd.

(** The events of listeners are open, and each belongs to one listener. *)
Definition events_owned (l : gset (Z * Z)) (w : W) : Prop :=
  (∀ sig fd, (sig, fd) ∈ l → fd ∈ open_events w) ∧ (∀ sig sig' fd, (sig, fd) ∈ l → (sig', fd) ∈ l → sig = sig').

Definition run_inv (r : Run) : Prop :=
  run_ok r ∧ handles_named (run_state r) ∧ events_owned (live r) (run_world r).

Definition same_events (w w' : W) : Prop := open_events w' = open_events w ∧ notified w' = notified w.

Lemma drop_old_same old w : same_events w (drop_old old w).
Proof. destruct old; [apply handle_drop_laws|done]. Qed.

Lemma handles_named_insert sig s s' fds :
  HANDLER s' = <[sig := fds]> (HANDLER s) → (∀ fd h, fds !! fd = Some h → handle_event h = fd) → handles_named s → handles_named s'.
Proof.
  intros Hs Hf Hn sig1 fds1 fd h. rewrite Hs. destruct (decide (sig1 = sig)) as [->|].
  - rewrite lookup_insert_eq. intros [= <-]. apply Hf.
  - rewrite lookup_insert_ne by done. apply Hn.
Qed.

Lemma register_spec sig e s w r s' w' :
  register sig e s w = Done (r, s', w') →
  handled s' = {[sig]} ∪ handled s ∧ same_events w w' ∧
  match r with
  | Ok _ => ∃ h, handle_event h = event_raw_fd e ∧
      HANDLER s' = <[sig := <[event_raw_fd e := h]> (default ∅ (HANDLER s !! sig))]> (HANDLER s)
  | Err _ => HANDLER s' = HANDLER s
  end.
Proof.
  unfold register. pose proof (event_handle_laws e w) as Hl. destruct (event_handle e w) as [r1 w1].
  destruct Hl as (Ho & Hn & Hh). destruct r1 as [h|err]; [|by intros [= <- <- <-]]. destruct (borrowed (init sig s)); [done|]. intros [= <- <- <-]. split; [done|]. split.
  - match goal with |- same_events _ (drop_old ?old _) => destruct (drop_old_same old w1) as [H1 H2] end. by split; etransitivity.
  - exists h. by split; [apply Hh|].
Qed.

Lemma waiting_insert sig e h s s' sig' fd :
  HANDLER s' = <[sig := <[e := h]> (default ∅ (HANDLER s !! sig))]> (HANDLER s) →
  waiting s sig' fd → waiting s' sig' fd.
Proof.
  intros Hs (fds & Hl & Hf). unfold waiting. rewrite Hs. destruct (decide (sig' = sig)) as [->|Hne].
  - rewrite lookup_insert_eq, Hl. eexists. split; [done|]. cbn. by apply lookup_insert_is_Some'; right.
  - rewrite lookup_insert_ne by done. by exists fds.
Qed.

Lemma unregister_table sig fd s w s' w' :
  unregister sig fd s w = Done (s', w') →
  same_events w w' ∧ match HANDLER s !! sig with
    | Some fds => HANDLER s' = <[sig := delete fd fds]> (HANDLER s) ∧ (delete fd fds = ∅ ∨ handled s' = handled s)
    | None => HANDLER s' = HANDLER s
    end ∧ handled s ∖ {[sig]} ⊆ handled s'.
Proof.
  unfold unregister. destruct (borrowed s); [done|]. destruct (HANDLER s !! sig) as [fds|] eqn:Hl.
  - intros Eu. case_bool_decide as He; injection Eu as <- <-; cbn; (split; [apply drop_old_same|split; [|set_solver]]);
      (split; [done|]); [by left|by right].
  - by intros [= <- <-].
Qed.

Lemma unregister_spec sig fd s w s' w' :
  unregister sig fd s w = Done (s', w') →
  (∀ sig' fd', (sig', fd') ≠ (sig, fd) → waiting s sig' fd' → waiting s' sig' fd') ∧
  (∀ sig', sig' ∈ handled s → sig' ≠ sig ∨ (∃ fd', fd' ≠ fd ∧ waiting s sig fd') → sig' ∈ handled s').
Proof.
  intros (_ & Ht & Hsub)%unregister_table. destruct (HANDLER s !! sig) as [fds|] eqn:Hl.
  - destruct Ht as [Ht He]. split.
    + intros sig' fd' Hne (fds' & Hl' & Hf). unfold waiting. rewrite Ht. destruct (decide (sig' = sig)) as [->|Hs].
      * rewrite lookup_insert_eq. eexists. split; [done|].
        assert (fds' = fds) as -> by congruence. rewrite lookup_delete_ne; [done|congruence].
      * rewrite lookup_insert_ne by done. by exists fds'.
    + intros sig' Hin [Hne|(fd' & Hne & fds' & Hl' & Hf)]; [set_solver|]. destruct He as [He| ->]; [|done].
      assert (fds' = fds) as -> by congruence. exfalso.
      rewrite <- (lookup_delete_ne fds fd fd') in Hf by done. rewrite He, lookup_empty in Hf. by destruct Hf.
  - unfold waiting. rewrite Ht. split; [done|]. intros sig' Hin [Hne|(fd' & _ & fds' & Hl' & _)]; [set_solver|congruence].
Qed.

Lemma unregister_named sig fd s w s' w' : unregister sig fd s w = Done (s', w') → handles_named s → handles_named s'.
Proof.
  intros (_ & Ht & _)%unregister_table Hn. destruct (HANDLER s !! sig) as [fds|] eqn:Hl.
  - destruct Ht as [Ht _]. eapply handles_named_insert; [exact Ht| |done]. intros fd' h [_ H2]%lookup_delete_Some. by eapply Hn.
  - intros sig' fds' fd' h. rewrite Ht. apply Hn.
Qed.

Lemma notify_all_spec fds : ∀ w,
  open_events (notify_all fds w) = open_events w ∧ notified (notify_all fds w) = list_to_set (handle_event <$> fds.*2) ∪ notified w.
Proof.
  induction fds as [|[fd h] fds IH]; intros w; [split; [done|cbn; set_solver]|]. cbn [notify_all].
  destruct (event_notify_laws h w) as [H1 H2]. destruct (event_notify h w) as [r w1]. cbn in H1, H2.
  destruct (IH (handle_drop h w1)) as [-> ->]. destruct (handle_drop_laws h w1) as [-> ->]. split; [done|]. rewrite H2. cbn. set_solver.
Qed.

Lemma signal_handler_spec sig s w s' w' :
  signal_handler sig s w = Done (s', w') → handles_named s →
  handled s' = handled s ∧ handles_named s' ∧ open_events w' = open_events w ∧ notified w ⊆ notified w' ∧
  (∀ fd, waiting s sig fd → fd ∈ notified w') ∧ (∀ sig' fd, sig' ≠ sig → waiting s sig' fd → waiting s' sig' fd).
Proof.
  unfold signal_handler. destruct (borrowed s); [done|]. intros Es Hn.
  destruct (HANDLER s !! sig) as [fds|] eqn:Hl; [case_bool_decide as He|]; injection Es as <- <-.
  - destruct (notify_all_spec (iteration fds) w) as [Ho Hf]. split; [done|]. split; [|split; [done|]].
    { eapply handles_named_insert; [done| |done]. intros fd h Hfd. by rewrite lookup_empty in Hfd. }
    rewrite Hf. split; [set_solver|]. split.
    + intros fd (fds' & Hl' & h & Hh). assert (fds' = fds) as -> by congruence. apply elem_of_union_l, elem_of_list_to_set.
      rewrite (iteration_all fds), <- list_fmap_compose. apply list_elem_of_fmap. exists (fd, h). cbn.
      split; [symmetry; by eapply Hn|by apply elem_of_map_to_list].
    + intros sig' fd Hne (fds' & Hl' & Hfd). unfold waiting. cbn. rewrite lookup_insert_ne by done. by exists fds'.
  - subst fds. split_and!; try done. intros fd (fds' & Hl' & Hfd). assert (fds' = ∅) as -> by congruence.
    rewrite lookup_empty in Hfd. by destruct Hfd.
  - split_and!; try done. intros fd (fds' & Hl' & Hfd). congruence.
Qed.

Lemma SignalFd_new_spec sig s w r s' w' :
  SignalFd_new sig s w = Done (r, s', w') → handles_named s →
  (∀ sig' fd, waiting s sig' fd → waiting s' sig' fd) ∧ handled s ⊆ handled s' ∧ handles_named s' ∧
  open_events w ⊆ open_events w' ∧ (∀ fd, fd ∈ open_events w → fd ∈ notified w → fd ∈ notified w') ∧
  (∀ f, r = Ok f → waiting s' sig (event_raw_fd (event_of f)) ∧ sig ∈ handled s' ∧
    (event_raw_fd (event_of f) ∉ open_events w) ∧ event_raw_fd (event_of f) ∈ open_events w').
Proof.
  intros E0 Hn. revert E0. unfold SignalFd_new. pose proof (event_new_laws w) as Hnew. destruct (event_new w) as [[e|err] w1].
  2:{ destruct Hnew as [Ho Hf]. intros [= <- <- <-]. rewrite Ho, Hf. by split_and!. }
  destruct Hnew as (Hfresh & Ho & Hf). destruct (register sig e s w1) as [[[r1 s1] w2]| |] eqn:Er; cbn; try done.
  apply register_spec in Er as (Hh & [Ho2 Hf2] & Hr). destruct r1 as [[]|e1]; intros [= <- <- <-].
  - destruct Hr as (h & Hhe & Hr). split; [intros sig' fd; by eapply waiting_insert|]. split; [set_solver|]. split.
    { eapply handles_named_insert; [exact Hr| |done]. intros fd h1 [[<- <-]|[_ H1]]%lookup_insert_Some; [done|].
      destruct (HANDLER s !! sig) as [fds|] eqn:Hl; [by eapply Hn|by cbn in H1; rewrite lookup_empty in H1]. }
    split; [set_solver|]. split; [rewrite Hf2, Hf; set_solver|]. intros f [= <-]. cbn. split; [|set_solver].
    unfold waiting. rewrite Hr, lookup_insert_eq. eexists. split; [done|]. by rewrite lookup_insert_eq.
  - destruct (event_drop_laws e w2) as [Ho3 Hf3]. unfold waiting, handles_named. rewrite Hr.
    split_and!; [done|set_solver|done|set_solver|rewrite Hf3, Hf2, Hf; set_solver|done].
Qed.

Lemma run_step_inv r r' : run_inv r → run_step r r' → run_inv r'.
Proof.
  intros (Hok & Hna & Hop & Hun) Hstep. destruct Hstep as [sig f s w l s' w' En|sig e s w l s' w' En|
    f s w l s' w' Hin Ed|sig s w l s' w' Hh Es]; cbn in *.
  - apply SignalFd_new_spec in En as (Hw & Hsub & Hna' & Ho & Hf & Hnew); [|done]. destruct (Hnew f eq_refl) as (Hwf & Hha & Hfr & Hof).
    split; [|split; [done|split]]; cbn.
    + intros sig1 fd1 [[= -> ->]%elem_of_singleton|Hl]%elem_of_union; [by right|].
      destruct (Hok sig1 fd1 Hl) as [Hnf|[Hwa Hha1]]; cbn in *; [left; by eapply Hf, Hnf; eauto|right; split; [by apply Hw|set_solver]].
    + intros sig1 fd1 [[= -> ->]%elem_of_singleton|Hl]%elem_of_union; eauto.
    + intros sig1 sig2 fd [[= -> ->]%elem_of_singleton|H1]%elem_of_union [[= ->]%elem_of_singleton|H2]%elem_of_union; naive_solver.
  - apply SignalFd_new_spec in En as (Hw & Hsub & Hna' & Ho & Hf & _); [|done]. split; [|split; [done|split; [|done]]]; cbn; [|eauto].
    intros sig1 fd1 Hl. destruct (Hok sig1 fd1 Hl) as [Hnf|[Hwa Hha1]]; cbn in *; [left; eauto|right; split; [by apply Hw|set_solver]].
  - unfold SignalFd_drop in Ed. destruct (unregister _ _ s w) as [[s1 w1]| |] eqn:Eu; cbn in Ed; try done. injection Ed as <- <-.
    pose proof (unregister_named _ _ _ _ _ _ Eu Hna). pose proof (unregister_table _ _ _ _ _ _ Eu) as [[Ho Hf] _].
    apply unregister_spec in Eu as [Hw Hha]. destruct (event_drop_laws (event_of f) w1) as [Ho3 Hf3].
    split; [|split; [done|split]]; cbn.
    + intros sig1 fd1 [Hl Hne]%elem_of_difference. rewrite elem_of_singleton in Hne.
      destruct (Hok sig1 fd1 Hl) as [Hnf|[Hwa Hh]]; cbn in *; [left; congruence|right]. split; [by apply Hw|]. apply Hha; [done|].
      destruct (decide (sig1 = sig_of f)) as [->|]; [|by left]. right. exists fd1. split; [congruence|done].
    + intros sig1 fd1 [Hl Hne]%elem_of_difference. rewrite elem_of_singleton in Hne. rewrite Ho3, Ho. apply elem_of_difference.
      split; [eauto|]. intros ->%elem_of_singleton. by rewrite (Hun _ _ _ Hl Hin) in Hne.
    + intros sig1 sig2 fd [H1 _]%elem_of_difference [H2 _]%elem_of_difference. eauto.
  - apply signal_handler_spec in Es as (Hhs & Hna' & Ho & Hf & Hfi & Hw); [|done]. split; [|split; [done|split; [|done]]]; cbn;
      [|intros sig1 fd1; rewrite Ho; eauto]. intros sig1 fd1 Hl. destruct (Hok sig1 fd1 Hl) as [Hnn|[Hwa Hha]]; cbn in *; [left; set_solver|].
    destruct (decide (sig1 = sig)) as [->|Hne]; [left; by apply Hfi|]. right. split; [by apply Hw|]. by rewrite Hhs.
Qed.

(** C24 However listeners are created and dropped while signals arrive, on the thread that created
    them, for each listener that exists the handler has called [notify] on a handle of its event since
    the event was created, or its handle is in the table of its signal and the handler of that signal
    is installed: the handler forgets no listener whose signal arrives, and dropping one listener
    neither removes another nor uninstalls a handler that another one needs.  The events are ones
    whose descriptors are their own while they are open, and the hash map is iterated completely. *)
Theorem listeners_not_lost r w0 : rtc run_step (mkRun (mkSignalState ∅ false ∅) w0 ∅) r → run_ok r.
Proof.
  intros Hr. assert (run_inv (mkRun (mkSignalState ∅ false ∅) w0 ∅)) as H0.
  { split; [intros ??; set_solver|split; [intros ???? Hl; cbn in Hl; by rewrite lookup_empty in Hl|split; set_solver]]. }
  remember (mkRun _ _ _) as r0 eqn:E0. clear E0. induction Hr as [|r1 r2 r3 Hs _ IH]; [apply H0|]. apply IH. by eapply run_step_inv.
Qed.
End not_lost.

(** [register] does not put anything into the table when it fails. *)
Lemma register_failed sig e s w err s' w' : register sig e s w = Done (Err err, s', w') → HANDLER s' = HANDLER s.
Proof.
  unfold register. destruct (event_handle e w) as [[h|e1] w1]; [|by intros [= <- <- <-]]. by destruct (borrowed (init sig s)).
Qed.

(** A listener of [signal] is gone from the table when the function returns, whether it was notified
    or failed, and whatever arrived while it waited. *)
Lemma signal_unregisters event_wait sig s w e w1 r s' w' :
  event_new w = (Ok e, w1) → ¬ waiting s sig (event_raw_fd e) →
  signal event_wait sig s w = Done (r, s', w') → ¬ waiting s' sig (event_raw_fd e).
Proof.
  intros Hn Hnot. unfold signal, SignalFd_new. rewrite Hn.
  destruct (register sig e s w1) as [[[[[]|err] s1] w2]| |] eqn:Er; cbn; try done.
  - destruct (SignalFd_wait event_wait (mkSignalFd sig e) s1 w2) as [[r2 s2] w3].
    unfold SignalFd_drop, unregister. cbn. destruct (borrowed s2); cbn; [done|].
    destruct (HANDLER s2 !! sig) as [fds|] eqn:Hl; cbn; intros [= <- <- <-] (fds' & Hl' & Hf).
    + case_bool_decide; cbn in Hl'; rewrite lookup_insert_eq in Hl'; injection Hl' as <-;
        rewrite lookup_delete_eq in Hf; by destruct Hf.
    + cbn in Hl'. congruence.
  - intros [= <- <- <-] Hw. apply register_failed in Er as Hh. apply Hnot. unfold waiting in *. by rewrite Hh in Hw.
Qed.

(** When a signal arrives its handler notifies exactly the events that are registered for it, once
    each, empties their table and leaves the other signals alone; when it interrupts the code that
    has borrowed the table, it panics. *)
Theorem signal_notifies (iteration_all : ∀ m, iteration m ≡ₚ map_to_list m) sig s w :
  if borrowed s then signal_handler sig s w = Panic
  else ∃ s' hs,
    signal_handler sig s w = Done (s', notify_all hs w) ∧
    hs ≡ₚ map_to_list (default ∅ (HANDLER s !! sig)) ∧
    default ∅ (HANDLER s' !! sig) = ∅ ∧ (∀ sig', sig' ≠ sig → HANDLER s' !! sig' = HANDLER s !! sig') ∧
    handled s' = handled s.
Proof.
  unfold signal_handler. destruct (borrowed s); [done|]. destruct (HANDLER s !! sig) as [fds|] eqn:Hl; cbn.
  - case_bool_decide as He.
    + eexists _, (iteration fds). split; [done|]. split; [apply iteration_all|]. cbn.
      rewrite lookup_insert_eq. split; [done|]. split; [|done]. intros sig' Hne. by rewrite lookup_insert_ne.
    + subst fds. exists s, []. split; [done|]. rewrite Hl. by split_and!.
  - exists s, []. split; [done|]. rewrite Hl. by split_and!.
Qed.
End unix.

(** ** Windows *)

(** The slab crate, for handles: [insert] fills a vacant slot whose key does not depend on the value,
    [remove] vacates one, [Slab::new()] is empty. *)
Class HandleSlab (S H : Type) := {
  hs_new : S;
  hs_get : Z → S → option H;
  hs_insert : H → S → Z * S;
  hs_remove : Z → S → S;
  hs_values : S → list H;
}.

Class HandleSlabLaws (S H : Type) `{!HandleSlab S H} : Prop := {
  hs_values_get h s : h ∈ hs_values s ↔ ∃ k, hs_get k s = Some h;
  hs_insert_get h s k : hs_get k (hs_insert h s).2 = if bool_decide (k = (hs_insert h s).1) then Some h else hs_get k s;
  hs_insert_key h h' s : (hs_insert h s).1 = (hs_insert h' s).1;
  hs_remove_get k s k' : hs_get k' (hs_remove k s) = if bool_decide (k' = k) then None else hs_get k' s;
}.

Section windows.
Context {E H S W : Type} `{!EventApi E H W, !HandleSlab S H}.
(** [SetConsoleCtrlHandler]. *)
Context (set_console_handler : W → io_result unit * W).

(** [src/src/signal/windows.rs:27-28] the table behind the mutex, and whether [INIT] has run (line 44) *)
Record CtrlState := mkCtrlState { ctrl_table : gmap Z S; ctrl_init_done : bool }.

(** [src/src/signal/windows.rs:35-37] each handle is notified and dropped *)
Fixpoint ctrl_notify_all (hs : list H) (w : W) : W :=
  match hs with
  | [] => w
  | h :: hs => let '(_, w) := event_notify h w in ctrl_notify_all hs (handle_drop h w)
  end.

(** [src/src/signal/windows.rs:30-42] *)
Definition ctrl_event_handler (ctrltype : Z) (s : CtrlState) (w : W) : Z * CtrlState * W :=
  match ctrl_table s !! ctrltype with
  | Some handlers =>
      if bool_decide (length (hs_values handlers) ≠ 0) then
        (1%Z, mkCtrlState (<[ctrltype := hs_new]> (ctrl_table s)) (ctrl_init_done s),
         ctrl_notify_all (hs_values handlers) w)
      else (0%Z, s, w)
  | None => (0%Z, s, w)
  end.

(** [src/src/signal/windows.rs:46-49] *)
Definition ctrl_init (w : W) : io_result unit * W := set_console_handler w.

(** [src/src/signal/windows.rs:51-55] *)
Definition ctrl_register (ctrltype : Z) (e : E) (s : CtrlState) (w : W) : io_result Z * CtrlState * W :=
  match event_handle e w with
  | (Err err, w) => (Err err, s, w)
  | (Ok handle, w) =>
      let '(k, slab) := hs_insert handle (default hs_new (ctrl_table s !! ctrltype)) in
      (Ok k, mkCtrlState (<[ctrltype := slab]> (ctrl_table s)) (ctrl_init_done s), w)
  end.

(** [src/src/signal/windows.rs:57-64] *)
Definition ctrl_unregister (ctrltype key : Z) (s : CtrlState) (w : W) : CtrlState * W :=
  match ctrl_table s !! ctrltype with
  | Some handlers =>
      match hs_get key handlers with
      | Some h => (mkCtrlState (<[ctrltype := hs_remove key handlers]> (ctrl_table s)) (ctrl_init_done s),
                   handle_drop h w)
      | None => (s, w)
      end
  | None => (s, w)
  end.

(** [src/src/signal/windows.rs:66-72] *)
Record CtrlEvent := mkCtrlEvent { ctrltype_of : Z; ctrl_event_of : E; handler_key : Z }.

(** [src/src/signal/windows.rs:75-85] *)
Definition CtrlEvent_new (ctrltype : Z) (s : CtrlState) (w : W) : outcome (io_result CtrlEvent * CtrlState * W) :=
  '(s, w) ← (if ctrl_init_done s then Done (s, w)
             else match ctrl_init w with
                  | (Ok _, w) => Done (mkCtrlState (ctrl_table s) true, w)
                  | (Err _, _) => Panic
                  end);
  match event_new w with
  | (Err e, w) => Done (Err e, s, w)
  | (Ok event, w) =>
      let '(r, s, w) := ctrl_register ctrltype event s w in
      match r with
      | Ok handler_key => Done (Ok (mkCtrlEvent ctrltype event handler_key), s, w)
      | Err e => Done (Err e, s, event_drop event w)
      end
  end.

(** [src/src/signal/windows.rs:92-96] *)
Definition CtrlEvent_drop (self : CtrlEvent) (s : CtrlState) (w : W) : CtrlState * W :=
  let '(s, w) := ctrl_unregister (ctrltype_of self) (handler_key self) s w in
  (s, event_drop (ctrl_event_of self) w).

Section waiting.
(** [Event::wait]; while it waits the handler may run. *)
Context (event_wait : E → CtrlState → W → io_result unit * CtrlState * W).

(** [src/src/signal/windows.rs:87-89] *)
Definition CtrlEvent_wait (self : CtrlEvent) (s : CtrlState) (w : W) : io_result unit * CtrlState * W :=
  event_wait (ctrl_event_of self) s w.

(** [src/src/signal/windows.rs:98-101] the listener is dropped at the end *)
Definition ctrl_event (ctrltype : Z) (s : CtrlState) (w : W) : outcome (io_result unit * CtrlState * W) :=
  '(r, s, w) ← CtrlEvent_new ctrltype s w;
  match r with
  | Err e => Done (Err e, s, w)
  | Ok event =>
      let '(r, s, w) := CtrlEvent_wait event s w in
      let '(s, w) := CtrlEvent_drop event s w in
      Done (r, s, w)
  end.

Definition CTRL_C_EVENT : Z := 0.
Definition CTRL_BREAK_EVENT : Z := 1.
Definition CTRL_CLOSE_EVENT : Z := 2.
Definition CTRL_LOGOFF_EVENT : Z := 5.
Definition CTRL_SHUTDOWN_EVENT : Z := 6.

(** [src/src/signal/windows.rs:105-107] *)
Definition ctrl_break (s : CtrlState) (w : W) : outcome (io_result unit * CtrlState * W) :=
  ctrl_event CTRL_BREAK_EVENT s w.
(** [src/src/signal/windows.rs:111-113] *)
Definition ctrl_close (s : CtrlState) (w : W) : outcome (io_result unit * CtrlState * W) :=
  ctrl_event CTRL_CLOSE_EVENT s w.
(** [src/src/signal/windows.rs:117-119] *)
Definition ctrl_c (s : CtrlState) (w : W) : outcome (io_result unit * CtrlState * W) :=
  ctrl_event CTRL_C_EVENT s w.
(** [src/src/signal/windows.rs:123-125] *)
Definition ctrl_logoff (s : CtrlState) (w : W) : outcome (io_result unit * CtrlState * W) :=
  ctrl_event CTRL_LOGOFF_EVENT s w.
(** [src/src/signal/windows.rs:129-131] *)
Definition ctrl_shutdown (s : CtrlState) (w : W) : outcome (io_result unit * CtrlState * W) :=
  ctrl_event CTRL_SHUTDOWN_EVENT s w.
End waiting.

Context `{!HandleSlabLaws S H}.

(** The handle that a listener's key refers to. *)
Definition ctrl_lookup (c : CtrlEvent) (s : CtrlState) : option H :=
  ctrl_table s !! ctrltype_of c ≫= hs_get (handler_key c).

Lemma CtrlEvent_new_spec ctrltype s w c s' w' :
  CtrlEvent_new ctrltype s w = Done (Ok c, s', w') →
  ctrltype_of c = ctrltype ∧ ∃ h,
    handler_key c = (hs_insert h (default hs_new (ctrl_table s !! ctrltype))).1 ∧
    ctrl_table s' !! ctrltype = Some (hs_insert h (default hs_new (ctrl_table s !! ctrltype))).2.
Proof.
  unfold CtrlEvent_new. intros E1.
  assert (∃ s1 w1, ctrl_table s1 = ctrl_table s ∧
    match event_new w1 with
    | (Err e, w) => Done (Err e, s1, w)
    | (Ok event, w) =>
        let '(r, s, w) := ctrl_register ctrltype event s1 w in
        match r with
        | Ok handler_key => Done (Ok (mkCtrlEvent ctrltype event handler_key), s, w)
        | Err e => Done (Err e, s, event_drop event w)
        end
    end = Done (Ok c, s', w')) as (s1 & w1 & Ht & E2).
  { destruct (ctrl_init_done s); [by eexists _, _|]. destruct (ctrl_init w) as [[[]|e] w1]; cbn in E1; [|done].
    by eexists (mkCtrlState _ _), _. }
  destruct (event_new w1) as [[e|err] w2]; [|done]. unfold ctrl_register in E2.
  destruct (event_handle e w2) as [[h|err] w3]; [|done]. rewrite Ht in E2.
  destruct (hs_insert h _) as [k slab] eqn:Ei. injection E2 as <- <- <-. split; [done|]. exists h. cbn.
  by rewrite Ei, lookup_insert_eq.
Qed.

(** On Windows a listener can be removed by another one that has been notified already: the
    handler replaces the slab by a new one, whose keys start over, so a listener that is created
    after the event gets the key of the first one, and dropping the first one removes its handle:
    the second listener is never notified. *)
Theorem ctrl_listener_lost ctrltype s w c1 s1 w1 c2 s2 w2 w3 :
  default hs_new (ctrl_table s !! ctrltype) = hs_new →
  CtrlEvent_new ctrltype s w = Done (Ok c1, s1, w1) →
  CtrlEvent_new ctrltype (ctrl_event_handler ctrltype s1 w1).1.2 (ctrl_event_handler ctrltype s1 w1).2 =
    Done (Ok c2, s2, w2) →
  is_Some (ctrl_lookup c2 s2) ∧ ctrl_lookup c2 (CtrlEvent_drop c1 s2 w3).1 = None.
Proof.
  intros Hnew (Ht1 & h1 & Hk1 & Hs1)%CtrlEvent_new_spec. rewrite Hnew in Hk1, Hs1.
  assert (ctrl_table (ctrl_event_handler ctrltype s1 w1).1.2 !! ctrltype = Some hs_new) as Hfired.
  { unfold ctrl_event_handler. rewrite Hs1. rewrite bool_decide_eq_true_2; [cbn; by rewrite lookup_insert_eq|].
    assert (h1 ∈ hs_values (hs_insert h1 hs_new).2) as Hin.
    { apply hs_values_get. eexists. by rewrite hs_insert_get, bool_decide_eq_true_2. }
    destruct (hs_values _); [by apply elem_of_nil in Hin|done]. }
  intros (Ht2 & h2 & Hk2 & Hs2)%CtrlEvent_new_spec. rewrite Hfired in Hk2, Hs2. cbn in Hk2, Hs2.
  assert (handler_key c1 = handler_key c2) as Hk by (rewrite Hk1, Hk2; apply hs_insert_key).
  unfold ctrl_lookup, CtrlEvent_drop, ctrl_unregister. rewrite Ht2, Ht1, Hs2, Hk. cbn.
  assert (hs_get (handler_key c2) (hs_insert h2 hs_new).2 = Some h2) as Hg
    by (rewrite hs_insert_get; by rewrite bool_decide_eq_true_2).
  rewrite Hg. split; [by eexists|]. cbn. rewrite lookup_insert_eq. cbn. rewrite hs_remove_get.
  by rewrite bool_decide_eq_true_2.
Qed.
End windows.
