(* ===== verification/EventSim.v ===== *)
(** * Events and signals on concrete systems

    Descriptors that are numbered, events that record who was notified, and
    the executions on them that show the theorems of [Event.v] and [Signal.v]
    at work. *)

From S2P Require Import Prelude Driver Runtime KqueueRuntime Event Signal.
From stdpp Require Import base numbers list gmap.

(** ** Pipes *)

Record Fds := mkFds { fds_open : gset Z; fds_next : Z }.

Definition fds_pipe (w : Fds) : io_result (Z * Z) * Fds :=
  let a := fds_next w in
  if bool_decide (a ∈ fds_open w ∨ (a + 1)%Z ∈ fds_open w) then (Err (Os 24), w)
  else (Ok (a, (a + 1)%Z), mkFds ({[a; (a + 1)%Z]} ∪ fds_open w) (a + 2)).

(** The flags of descriptor 5 cannot be set. *)
#[global] Instance Fds_EventOs : EventOs Fds := {|
  eventfd w := (Err (Os 38), w);
  pipe2 := fds_pipe;
  pipe := fds_pipe;
  fcntl fd c w := (if bool_decide (fd = 5)%Z then (-1)%Z else 0%Z, w);
  last_os_error w := Os 22;
  set_fionbio fd b w := (0%Z, w);
  dup fd w := (Err (Os 24), w);
  write fd bs w := (Ok (Z.of_nat (length bs)), w);
  close fd w := mkFds (fds_open w ∖ {[fd]}) (fds_next w) |}.

Lemma fds_pipe_opens w r w' : fds_pipe w = (r, w') →
  match r with
  | Ok (a, b) => a ≠ b ∧ (a ∉ fds_open w) ∧ (b ∉ fds_open w) ∧ fds_open w' = {[a; b]} ∪ fds_open w
  | Err _ => fds_open w' = fds_open w
  end.
Proof.
  unfold fds_pipe. case_bool_decide as Hb; intros [= <- <-]; [done|]. cbn. split; [lia|]. tauto.
Qed.

#[global] Instance Fds_PipeLaws : PipeLaws fds_open.
Proof. split; try done; intros w r w'; apply fds_pipe_opens. Qed.

Lemma pipe_event_no_leak_witness :
  ∃ e w', Pipe_new false (mkFds {[0%Z; 1%Z; 2%Z]} 4) = (Err e, w') ∧ fds_open w' = {[0%Z; 1%Z; 2%Z]}.
Proof.
  destruct (Pipe_new false (mkFds {[0%Z; 1%Z; 2%Z]} 4)) as [[e|e] w'] eqn:E.
  - exfalso. vm_compute in E. discriminate E.
  - exists e, w'. split; [reflexivity|]. exact (pipe_event_no_leak fds_open false _ _ _ E).
Defined.

(** ** The event of the IOCP driver *)

Definition notified_slot : RegisteredOp := mkRegisteredOp None None (Some (Ok 0%Z)) false.
Definition iocp_rt : Runtime (list (option RegisteredOp)) unit := mkRuntime tt [] [] [] [Some notified_slot].

Lemma iocp_event_single_use_witness :
  ∃ r fut rt' w', Iocp_wait_poll (Op := unit) (W := unit) 0 (Iocp_wait (mkIocpEvent (Key_new_dummy 0))) iocp_rt
      (mkWorld ∅ tt) = Done (Ready r, fut, rt', w') ∧
    Iocp_wait_poll 1 (Iocp_wait (mkIocpEvent (Key_new_dummy 0))) rt' w' =
      Done (Pending, Iocp_wait (mkIocpEvent (Key_new_dummy 0)), rt', w').
Proof.
  destruct (Iocp_wait_poll (Op := unit) (W := unit) 0 (Iocp_wait (mkIocpEvent (Key_new_dummy 0))) iocp_rt (mkWorld ∅ tt))
    as [[[[[r|] fut] rt'] w']| |] eqn:E; [|exfalso; vm_compute in E; discriminate E..].
  exists r, fut, rt', w'. split; [reflexivity|].
  exact (proj2 (iocp_event_single_use 0 1 _ _ _ _ _ _ _ E)).
Defined.

(** ** Listeners *)

(** The next descriptor, the open ones, and those that were notified. *)
Record Bells := mkBells { bell_next : Z; bells_open : gset Z; bells : gset Z }.

#[global] Instance Bells_EventApi : EventApi Z Z Bells := {|
  event_new w := if bool_decide (bell_next w ∈ bells_open w) then (Err (Os 24), w)
                 else (Ok (bell_next w), mkBells (bell_next w + 1) ({[bell_next w]} ∪ bells_open w) (bells w ∖ {[bell_next w]}));
  event_raw_fd e := e;
  event_handle e w := (Ok e, w);
  event_notify h w := (Ok tt, mkBells (bell_next w) (bells_open w) ({[h]} ∪ bells w));
  event_drop e w := mkBells (bell_next w) (bells_open w ∖ {[e]}) (bells w);
  handle_drop h w := w |}.

#[global] Instance Bells_EventLaws : EventLaws Z Z Bells.
Proof.
  refine {| open_events := bells_open; notified := bells; handle_event h := h |}; try done.
  - intros w. cbn. by case_bool_decide.
  - intros e w. cbn. split_and!; try done. by intros h [= <-].
Defined.

Definition sig0 : SignalState := mkSignalState (H := Z) ∅ false ∅.

(** Two listeners for signal 2 and one for signal 15; the signal 2 arrives, one of its listeners is
    dropped, and a new one is created. *)
Lemma listeners_not_lost_witness :
  ∃ r, live r = {[(2, 4); (15, 5); (2, 6)]}%Z ∧ notified (run_world r) = {[3; 4]}%Z ∧ run_ok (H := Z) (W := Bells) r.
Proof.
  set (step := λ s w (x : outcome (SignalState (H := Z) * Bells)), match x with Done y => y | _ => (s, w) end).
  set (new := λ sig s w, match SignalFd_new (E := Z) (H := Z) sig s w with Done (_, s, w) => (s, w) | _ => (s, w) end).
  set (x1 := new 2%Z sig0 (mkBells 3 ∅ ∅)). set (x2 := new 2%Z x1.1 x1.2). set (x3 := new 15%Z x2.1 x2.2).
  set (x4 := step x3.1 x3.2 (signal_handler map_to_list 2 x3.1 x3.2)).
  set (x5 := step x4.1 x4.2 (SignalFd_drop (mkSignalFd 2 3)%Z x4.1 x4.2)). set (x6 := new 2%Z x5.1 x5.2).
  exists (mkRun x6.1 x6.2 ({[(2, 6)]} ∪ (({[(15, 5)]} ∪ ({[(2, 4)]} ∪ ({[(2, 3)]} ∪ ∅))) ∖ {[(2, 3)]})))%Z.
  split; [vm_compute; reflexivity|]. split; [vm_compute; reflexivity|].
  refine (listeners_not_lost map_to_list (λ m, reflexivity _) _ (mkBells 3 ∅ ∅) _).
  eapply rtc_l; [refine (step_new _ 2 (mkSignalFd 2 3)%Z _ _ _ x1.1 x1.2 _)%Z; vm_compute; reflexivity|].
  eapply rtc_l; [refine (step_new _ 2 (mkSignalFd 2 4)%Z _ _ _ x2.1 x2.2 _)%Z; vm_compute; reflexivity|].
  eapply rtc_l; [refine (step_new _ 15 (mkSignalFd 15 5)%Z _ _ _ x3.1 x3.2 _)%Z; vm_compute; reflexivity|].
  eapply rtc_l; [refine (step_signal _ 2 _ _ _ x4.1 x4.2 _ _)%Z; [vm_compute; set_solver|vm_compute; reflexivity]|].
  eapply rtc_l; [refine (step_drop _ (mkSignalFd 2 3)%Z _ _ _ x5.1 x5.2 _ _)%Z; [set_solver|vm_compute; reflexivity]|].
  eapply rtc_l; [refine (step_new _ 2 (mkSignalFd 2 6)%Z _ _ _ x6.1 x6.2 _)%Z; vm_compute; reflexivity|]. apply rtc_refl.
Defined.

Lemma signal_notifies_witness :
  ∃ s' hs, signal_handler (W := Bells) map_to_list 2 (mkSignalState {[2%Z := {[3%Z := 3%Z]}]} false {[2%Z]})
      (mkBells 4 {[3%Z]} ∅) = Done (s', notify_all hs (mkBells 4 {[3%Z]} ∅)) ∧ hs ≡ₚ [(3, 3)]%Z.
Proof.
  destruct (signal_notifies map_to_list (λ m, reflexivity _) 2
    (mkSignalState {[2%Z := {[3%Z := 3%Z]}]} false {[2%Z]}) (mkBells 4 {[3%Z]} ∅)) as (s' & hs & H1 & H2 & _).
  exists s', hs. split; [exact H1|]. exact H2.
Defined.

(** A slab that grows at the end and reuses no slot. *)
#[global] Instance list_HandleSlab : HandleSlab (list (option Z)) Z := {|
  hs_new := [];
  hs_get k s := if bool_decide (0 ≤ k)%Z then mjoin (s !! Z.to_nat k) else None;
  hs_insert h s := (Z.of_nat (length s), s ++ [Some h]);
  hs_remove k s := if bool_decide (0 ≤ k)%Z then <[Z.to_nat k := None]> s else s;
  hs_values s := omap id s |}.

#[global] Instance list_HandleSlabLaws : HandleSlabLaws (list (option Z)) Z.
Proof.
  split; cbn.
  - intros h s. rewrite list_elem_of_omap. split.
    + intros (x & [i Hi]%list_elem_of_lookup & Hx). exists (Z.of_nat i).
      rewrite bool_decide_eq_true_2, Nat2Z.id, Hi by lia. by destruct x.
    + intros [k Hk]. case_bool_decide; [|done]. destruct (s !! Z.to_nat k) as [x|] eqn:E; [|done].
      exists x. split; [by eapply list_elem_of_lookup_2|]. by destruct x.
  - intros h s k. case_bool_decide as H0.
    + destruct (decide (k = Z.of_nat (length s))) as [->|Hne].
      * rewrite bool_decide_eq_true_2, Nat2Z.id by done. by rewrite list_lookup_middle.
      * rewrite bool_decide_eq_false_2 by done. destruct (decide (Z.to_nat k < length s)).
        -- by rewrite lookup_app_l.
        -- rewrite !lookup_ge_None_2; [done|lia|]. rewrite length_app. cbn. lia.
    + by rewrite bool_decide_eq_false_2 by lia.
  - done.
  - intros k s k'. destruct (decide (0 ≤ k)%Z) as [Hk|Hk].
    + rewrite (bool_decide_eq_true_2 (0 ≤ k)%Z) by done. case_bool_decide as H0.
      * destruct (decide (k' = k)) as [->|Hne].
        -- rewrite bool_decide_eq_true_2 by done. destruct (decide (Z.to_nat k < length s)).
           ++ by rewrite list_lookup_insert_eq.
           ++ rewrite list_insert_ge by lia. by rewrite lookup_ge_None_2 by lia.
        -- rewrite bool_decide_eq_false_2 by done. by rewrite list_lookup_insert_ne by lia.
      * by case_bool_decide.
    + rewrite (bool_decide_eq_false_2 (0 ≤ k)%Z) by done. case_bool_decide as H0; [|by case_bool_decide].
      by rewrite bool_decide_eq_false_2 by lia.
Qed.

Definition console (w : Bells) : io_result unit * Bells := (Ok tt, w).

Lemma ctrl_listener_lost_witness :
  ∃ (c1 c2 : CtrlEvent (E := Z)) (s2 : CtrlState (S := list (option Z))) (w2 : Bells),
    is_Some (ctrl_lookup c2 s2) ∧ ctrl_lookup c2 (CtrlEvent_drop c1 s2 w2).1 = None.
Proof.
  set (s := mkCtrlState (S := list (option Z)) ∅ false).
  destruct (CtrlEvent_new console 0 s (mkBells 3 ∅ ∅)) as [[[[c1|e] s1] w1]| |] eqn:E1;
    [|exfalso; vm_compute in E1; discriminate E1..].
  destruct (CtrlEvent_new console 0 (ctrl_event_handler 0 s1 w1).1.2 (ctrl_event_handler 0 s1 w1).2)
    as [[[[c2|e] s2] w2]| |] eqn:E2;
    [|exfalso; vm_compute in E1; injection E1 as <- <- <-; vm_compute in E2; discriminate E2..].
  exists c1, c2, s2, w2. exact (ctrl_listener_lost console 0 s (mkBells 3 ∅ ∅) c1 s1 w1 c2 s2 w2 w2 eq_refl E1 E2).
Defined.
